(* ===== verification/_CoqProject ===== *)
-Q . S2P
Prelude.v
Schemes.v
ToySchemes.v
SphinxGeo.v
SphinxCommands.v
SphinxCrypto.v
SphinxPacket.v
SphinxLayers.v
SphinxJourney.v
SphinxDelivery.v
SphinxNike.v
SphinxKem.v
SphinxRobust.v
SphinxWitness.v
PigeonGeo.v
PigeonMessages.v
CopyStream.v
WireCommands.v
WireProofs.v
WireSpec.v
Queue.v
TimerQueue.v
EpochTime.v
Consensus.v
ByteOrder.v
Cert.v
PkiDocument.v
MixTopology.v
DocumentCert.v
VotingState.v
VotingTally.v
VotingReveal.v
VotingRound.v
VotingSchedule.v
VotingKeys.v
Sharding.v
PigeonPki.v
ReplicaState.v
ReplicaHandlers.v
ReplicaToy.v
ReplicaBoxes.v
ReplicaMessages.v
ReplicaConnector.v
ReplicaRebalance.v
ReplicaProxy.v
Bacap.v
Courier.v
CourierCopy.v
CopyCommand.v
CopyWitness.v
ClientEnvelopes.v
ClientRead.v
ClientStream.v
ClientArq.v
ArqInvariant.v
ArqRuns.v
PathSelect.v
MixPacket.v
MixKeys.v
CryptoWorker.v
Scheduler.v
NodeServices.v
Incoming.v
MixRelay.v
ClientSend.v
RoundTrip.v
