(* ===== verification/Prelude.v ===== *)
(** * A verification library for Katzenpost

    Katzenpost is an anonymity system: clients send Sphinx packets through
    layers of mix nodes to services, and get replies over single-use reply
    blocks (SURBs).  This library models the parts of the Go code that carry that
    logic and proves what makes them correct, down to one theorem that follows a
    request from the client to the service and its answer back
    ([RoundTrip.echo_answered]) and one that follows a read from the client over
    courier and replicas and back ([ClientRead.read_through_courier]).

    ** How Go is modelled

    A Go function becomes a Rocq function of the same name.  What can fail
    returns an [outcome]: a value, an error value, or a panic (explicit, index
    or slice out of range, nil dereference); so that a theorem that a call is
    [Ok] also says it does not panic.  Bytes and machine integers are [Z] with
    the wrap-around of their width written out ([wrap], [int64]); lengths, never
    negative in the code, are [nat].  Byte slices are lists, [slice], [copy_into]
    and [copy_at] do what Go's expressions do, bounds checks included.  Mutation
    is explicit state passing; where objects are shared (mix keys, messages that
    are resent), the store and the references to it are modelled.  Concurrent parts are sequences of
    atomic events or rounds, over all orders.

    What is not in the repository is a parameter.  [Schemes] has the classes of
    NIKE, KEM and symmetric primitives with the laws the code relies on
    (agreement, decryption undoes encryption, lengths); bloom filters, hashes,
    gzip, the sizes of the BACAP and MKEM formats, the scheme registries, the
    draws of random number generators and the readings of the clock are
    arguments.  [ToySchemes] has instances of the classes, over which every
    theorem with hypotheses has a witness that evaluates.

    ** The parts and where they are

    Packet format (core/sphinx): [SphinxGeo] the geometry and its factory
    (geo/geo.go, constants), [SphinxCommands] per-hop commands and their parser
    (commands/commands.go), [SphinxCrypto] wrappers and key schedule
    (internal/crypto), [SphinxPacket] headers, packets, unwrapping and SURBs for
    NIKE and KEM (sphinx.go, kemsphinx.go, surb.go, new_sphinx.go).
    [SphinxLayers] and [SphinxJourney] state what a packet should do ([route],
    [travel]) and prove it of any key agreement; [SphinxDelivery], [SphinxNike]
    and [SphinxKem] instantiate them, [SphinxRobust] covers hostile packets and
    [SphinxWitness] runs examples.

    Pigeonhole storage: [PigeonGeo] the sizes (pigeonhole/geo/geometry.go),
    [PigeonMessages] the messages between clients, couriers and replicas with
    their parsers and padding (trunnel_messages.go, helpers.go), [CopyStream] the
    encoder and decoders of the copy stream (copy_stream.go), [PigeonPki] the
    choice of the replicas a client talks to (pki.go).

    Storage replicas: [Sharding] which replicas keep a box (replica/common),
    [ReplicaState] the box store with its garbage collection and rebalancing
    (replica/state.go and its neighbours), [ReplicaHandlers] requests, requests
    that are passed on, and envelope keys (handlers.go, keys.go,
    envelope_epoch.go), [ReplicaConnector] what replicas send each other, with
    the retry queue (connector.go, outgoing_conn.go).  [ReplicaBoxes],
    [ReplicaMessages], [ReplicaProxy] and [ReplicaRebalance] have their theorems
    over the life of a store, over requests end to end, over reads that are passed
    on and over rebalancing, [ReplicaToy] small schemes for the witnesses.

    Couriers (courier/server/plugin.go): [Courier] envelopes, the cache of replies
    and the dispatch to replicas, as events over one state; [CourierCopy] the copy
    command, with all its retries, over a world that answers what is sent (class
    [World]), [CopyCommand] its theorems and [CopyWitness] its examples.  [Bacap] is
    what couriers and clients use of the BACAP package, with its laws.

    Pigeonhole on the client (client/pigeonhole.go, daemon.go, arq.go, listener.go):
    [ClientEnvelopes] encryption of reads and writes and decryption of replies,
    [ClientRead] a read from end to end, [ClientStream] the streams for the copy
    command.  [ClientArq] is the resending of messages: the state machine, the two
    maps that lead from identifiers and hashes to messages in a heap, timers, the
    queues of clients, cancellation and sessions that are lost and resumed;
    [ArqInvariant] shows of each handler that it preserves the invariant, [ArqRuns]
    has the step relation and the theorems over its runs.

    Wire protocol: [WireCommands] every command, its encoding, padding and
    decoder (core/wire/commands), [WireProofs] and [WireSpec] its theorems;
    [Consensus] the chunked transfer of consensus documents (core/pki/chunking.go
    and the handlers at both ends).

    Queues and time: [Queue] (core/queue/priority_queue.go over container/heap),
    [TimerQueue] (core/queue/timer_queue.go), [EpochTime] (core/epochtime).

    PKI and paths: [PkiDocument] (core/pki/document.go lookups and
    sharedrandom.go), [PathSelect] (core/sphinx/path/path.go).  Certificates and
    their threshold signatures are in [Cert] (core/cert/cert.go), signed documents
    and the checks of documents and descriptors in [DocumentCert] (document.go,
    descriptor.go); [ByteOrder] has the order of byte strings and sorting by a
    key.

    The directory authorities (authority/voting/server/state.go): [VotingState]
    the tables and state of an authority and the uploads it accepts,
    [VotingTally] the tally of votes, [MixTopology] the assignment of mixes to
    layers, [VotingReveal] commits, reveals and the shared random value,
    [VotingRound] votes, certificates and consensus documents, as actions of a
    monad over the state ([act]), and the state machine that drives them;
    [VotingSchedule] is about its timing, [VotingKeys] about the keys of replicas
    in documents.

    The mix server: [MixPacket] (server/internal/packet), [MixKeys] mix keys as
    reference-counted shared objects, their store, the workers' copies and their
    rotation (mixkey, mixkeys, pki), [CryptoWorker] (cryptoworker), [Scheduler]
    the mixing queue behind its interface (scheduler.go, queue_mem.go),
    [NodeServices] gateways, service nodes, agents and plugins (gateway, service,
    kaetzchen), [Incoming] connection handlers and the rate limit (incoming).

    Packets of the client: [ClientSend] (client/send.go).  The system: [MixRelay] composes
    connection handler and crypto worker into a node and nodes into a network,
    [RoundTrip] adds the client, the services and the way back.

    ** What the theorems show

    Delivery: packets and replies travel exactly their route for NIKE and KEM
    (C1 to C3), on paths that [New] selects from a document (C26), through
    real nodes (C34).  Hostile input: unwrapping never panics and accepts only
    authentic headers (C5, C7), decoders are characterised down to the inputs
    on which they panic (C8, C12), and what clients send has one length (C9).
    Messages: pigeonhole messages have one encoding each (C16), and transferred
    documents arrive (C22).  Queues and time: the
    priority queue refines a bag (C15).  PKI: well-formed documents have what
    lookups need (C23).
    Authorities: the record of a round is authentic and final (C14), equal votes
    give equal tallies (C10); counted commits and reveals are sound (C17),
    authorities that know the same make the same consensus (C20), two published
    documents share a signer (C24), and phases keep to their time (C18).  Server: keys are counted (C29), no
    packet is accepted twice (C31), the scheduler releases packets on time and
    never sleeps over one (C37, C38), and a node can be made to stop (C35).
    Storage replicas: the fast choice of shards is the one by sorting (C30),
    intermediate replicas are never shards and can always be found (C4), a box that
    is written to one shard is read from the other (C13) and does not change while
    it is retained (C28); rebalancing sends every box where it belongs (C6) and
    the retry queue stays bounded (C32), but requests that are passed on have no
    tolerance for neighbouring epochs (C33).  Couriers: a reply that is kept is
    served as long as its entry lives (C39); a copy command does what it says (C11),
    and copies a stream that is there (C40).  Clients: a message that was written is
    read through courier and replicas (C19); a payload becomes a stream of boxes
    that carry it (C27), in one call or in several (C36); a message that is resent
    can be cancelled in every state (C25) and stays scheduled (C21), although not
    when its session is interrupted ([ArqRuns.resumed_session_stuck]).

    Further theorems with their witnesses that are not in this list show flaws:
    certificates do not bind their key type ([Cert.certificate_malleable]), one vote
    can count often ([VotingTally.ballot_stuffing]), keys nobody voted for get into
    a consensus ([VotingKeys.untallied_keys_published]), rebalancing can bring back a
    deleted box ([ReplicaRebalance.rebalance_resurrects]), and the tombstones of a
    courier delete nothing ([CopyCommand.courier_tombstone_refused]); and that
    topologies are balanced and stable ([MixTopology.topology_preserved]).

    Interfaces between components are classes with laws: [Nike], [Kem] and
    [SymPrims] for the packet format, [Format] for pigeonhole messages, [Bloom]
    for replay filters, [SignScheme], [Codec] and [MapOrder] (the order in which
    [range] visits a map) for certificates and documents, [Rng] for the seeded
    generator of topologies, [queueImpl] for the scheduler, of which the memory
    queue is shown to be an instance; [Mkem] and [BoxSign] for the envelopes and
    boxes of storage replicas, [Bacap] for capabilities and boxes, [World] for what a
    courier sends and receives, [DescriptorCodec] for what a client keeps of a
    request, [HashLaws] for hashes of 32 bytes.

    ** Fuel and bounds

    Recursion that is not structural in Go has fuel that is shown or chosen to
    suffice: [parseCommands] gets one more than the length of its buffer, of
    which every round takes at least a byte; the loops of the heap get its
    length, as each round descends or climbs a level; [reschedule] gets the
    number of queued entries plus one; [chunkLoop] the number of chunks;
    [splitLoop] one more than the length of the payload; [copyLoop] the number of
    boxes a copy command may read ([maxCopyStreamBoxes]) plus one, and the loops over
    attempts the attempts of the code; the
    loops of the copy stream the length of their buffers plus one;
    [selectLoop] and [composeLoop] have the attempts of the code;
    [pickRandomReplicaID] has one round for each draw of the random generator.  Theorems state
    that calls return, not only what they return if they do.  Hypotheses on
    sizes say that times fit Go's clock ([representable], [clockTime]) and that
    delays fit 32-bit milliseconds.

    ** Not modelled

    The network side of directory authorities, thin clients and the connections of
    the client daemon, connections of couriers, the listeners of storage replicas,
    decoy traffic and outgoing connections are stateful parts still to be added.
    Handlers of the daemon that resend are single steps: races between a handler and
    a cancellation, against which the code has checks under its lock, are outside
    the model.  Out of reach of a kernel-checked model of
    this kind are the transports and the noise handshake, databases on disk,
    CBOR and configuration files, plugin processes, logging and instrumentation;
    where a modelled part meets them, what they answer is an argument. *)

From Stdlib Require Import ZArith Lia Ascii String.
From stdpp Require Import prelude list strings gmap.

(** ** Bytes *)

(** A Go [byte] is a [Z]; [is_byte] is the range of the 8-bit type. *)
Abbreviation bytes := (list Z).

Definition is_byte (b : Z) : Prop := (0 <= b < 256)%Z.

#[export] Instance is_byte_dec b : Decision (is_byte b).
Proof. unfold is_byte. apply _. Defined.

(** [make([]byte, n)]. *)
Definition zeros (n : nat) : bytes := replicate n 0%Z.

(** ** Outcomes of Go code *)

(** A call either returns a value, returns an error value, or panics
    (explicit [panic], out-of-range index or slice, nil dereference). *)
Inductive outcome (A : Type) : Type :=
  | Ok (a : A)
  | Err (e : string)
  | Panic.
Arguments Ok {A} a.
Arguments Err {A} e.
Arguments Panic {A}.

#[export] Instance outcome_ret : MRet outcome := fun A a => Ok a.
#[export] Instance outcome_bind : MBind outcome := fun A B k m =>
  match m with
  | Ok a => k a
  | Err e => Err e
  | Panic => Panic
  end.
#[export] Instance outcome_fmap : FMap outcome := fun A B f m =>
  match m with
  | Ok a => Ok (f a)
  | Err e => Err e
  | Panic => Panic
  end.

(** [if err != nil { panic(err) }]. *)
Definition panic_on_err {A} (m : outcome A) : outcome A :=
  match m with
  | Ok a => Ok a
  | _ => Panic
  end.

(** A Go pointer or interface that may be nil, dereferenced. *)
Definition deref {A} (o : option A) : outcome A :=
  match o with
  | Some a => Ok a
  | None => Panic
  end.

(** [x[i]] with the run-time bounds check. *)
Definition index {A} (l : list A) (i : nat) : outcome A := deref (l !! i).

(** [b[lo:hi]] on a slice whose capacity is its length. *)
Definition slice (b : bytes) (lo hi : nat) : outcome bytes :=
  if bool_decide (lo <= hi /\ hi <= length b)
  then Ok (take (hi - lo) (drop lo b))
  else Panic.

(** [b[lo:]] and [b[:hi]]. *)
Definition slice_from (b : bytes) (lo : nat) : outcome bytes := slice b lo (length b).
Definition slice_to (b : bytes) (hi : nat) : outcome bytes := slice b 0 hi.

(** [copy(dst, src)]: the new contents of [dst]. *)
Definition copy_into (dst src : bytes) : bytes :=
  take (length dst) src ++ drop (length src) dst.

(** [copy(dst[lo:hi], src)] for in-range [lo] and [hi]. *)
Definition copy_at (dst : bytes) (lo hi : nat) (src : bytes) : bytes :=
  take lo dst ++ copy_into (take (hi - lo) (drop lo dst)) src ++ drop hi dst.

(** ** Big-endian integers ([encoding/binary]) *)

Fixpoint be_split (n : nat) (v : Z) : bytes :=
  match n with
  | O => []
  | S m => Z.land (Z.shiftr v (8 * Z.of_nat m)) 255 :: be_split m v
  end.

Definition be_combine (b : bytes) : Z :=
  fold_left (fun acc x => Z.lor (Z.shiftl acc 8) x) b 0%Z.

Definition PutUint16 (v : Z) : bytes := be_split 2 v.
Definition PutUint32 (v : Z) : bytes := be_split 4 v.
Definition PutUint64 (v : Z) : bytes := be_split 8 v.

(** [uintN(v)]: conversion to an unsigned width. *)
Definition wrap (w : Z) (v : Z) : Z := (v mod 2 ^ w)%Z.
Definition u32 (v : Z) : Prop := (0 <= v < 2 ^ 32)%Z.
Definition u64 (v : Z) : Prop := (0 <= v < 2 ^ 64)%Z.

(** [[]byte(s)]. *)
Definition string_bytes (s : string) : bytes :=
  map (fun c => Z.of_N (Ascii.N_of_ascii c)) (String.list_ascii_of_string s).

(** ** [core/utils] *)

(** [utils.CtIsZero]: the bytes are or-ed together and compared to 0. *)
Definition CtIsZero (b : bytes) : bool :=
  Z.eqb (fold_left Z.lor b 0%Z) 0.

(** [utils.ExplicitBzero]. *)
Definition ExplicitBzero (b : bytes) : bytes := map (fun _ => 0%Z) b.

(** ** Byte-string lemmas *)

Lemma length_zeros n : length (zeros n) = n.
Proof. apply length_replicate. Qed.

Lemma take_zeros n m : n <= m -> take n (zeros m) = zeros n.
Proof. intros. unfold zeros. by rewrite take_replicate, Nat.min_l by lia. Qed.

Lemma drop_zeros n m : drop n (zeros m) = zeros (m - n).
Proof. apply drop_replicate. Qed.

Lemma zeros_app n m : zeros (n + m) = zeros n ++ zeros m.
Proof. apply replicate_add. Qed.

Lemma length_be_split n v : length (be_split n v) = n.
Proof. induction n; simpl; auto. Qed.

Lemma be_split_bytes n v : Forall is_byte (be_split n v).
Proof.
  induction n as [|n IH]; simpl; constructor; [|done].
  unfold is_byte. change 255%Z with (Z.ones 8).
  rewrite Z.land_ones by lia. apply Z.mod_pos_bound. lia.
Qed.

(** A byte occupies no bit above the eighth. *)
Lemma byte_testbit_high x i : is_byte x -> (8 <= i)%Z -> Z.testbit x i = false.
Proof.
  unfold is_byte. intros Hx Hi.
  destruct (Z.eq_dec x 0%Z) as [->|]; [apply Z.bits_0|].
  apply Z.bits_above_log2; [lia|]. apply Z.log2_lt_pow2; [lia|].
  apply Z.lt_le_trans with (2 ^ 8)%Z; [lia|apply Z.pow_le_mono_r; lia].
Qed.

Lemma land_shiftl_byte a x : is_byte x -> Z.land (Z.shiftl a 8) x = 0%Z.
Proof.
  intros Hx. apply Z.bits_inj'. intros i Hi.
  rewrite Z.land_spec, Z.bits_0, Z.shiftl_spec by lia.
  destruct (Z.lt_ge_cases i 8).
  - by rewrite (Z.testbit_neg_r a) by lia.
  - by rewrite (byte_testbit_high x) by done; rewrite andb_false_r.
Qed.

(** Appending a byte to a big-endian prefix is arithmetic in base 256. *)
Lemma lor_shiftl_byte a x : is_byte x -> Z.lor (Z.shiftl a 8) x = (a * 256 + x)%Z.
Proof.
  intros Hx. pose proof (land_shiftl_byte a x Hx) as Hd.
  rewrite <- Z.lxor_lor by done. rewrite <- Z.add_nocarry_lxor by done.
  rewrite Z.shiftl_mul_pow2 by lia. lia.
Qed.

Lemma be_fold_acc b acc :
  Forall is_byte b ->
  fold_left (fun a x => Z.lor (Z.shiftl a 8) x) b acc =
  (acc * 256 ^ Z.of_nat (length b) + be_combine b)%Z.
Proof.
  unfold be_combine. revert acc.
  induction b as [|x b IH]; intros acc Hb; simpl fold_left.
  - simpl. lia.
  - inversion Hb as [|? ? Hx Hb']; subst.
    rewrite lor_shiftl_byte by done. rewrite IH by done.
    rewrite (IH (Z.lor (Z.shiftl 0 8) x)) by done.
    rewrite lor_shiftl_byte by done. rewrite length_cons, Nat2Z.inj_succ, Z.pow_succ_r by lia.
    lia.
Qed.

Lemma be_combine_cons x b :
  is_byte x -> Forall is_byte b ->
  be_combine (x :: b) = (x * 256 ^ Z.of_nat (length b) + be_combine b)%Z.
Proof.
  intros Hx Hb. unfold be_combine at 1. simpl fold_left.
  rewrite be_fold_acc, lor_shiftl_byte by done. lia.
Qed.

Lemma be_combine_bound b :
  Forall is_byte b -> (0 <= be_combine b < 256 ^ Z.of_nat (length b))%Z.
Proof.
  induction 1 as [|x b Hx Hb IH]; [simpl; unfold be_combine; simpl; lia|].
  rewrite be_combine_cons by done.
  rewrite length_cons, Nat2Z.inj_succ, Z.pow_succ_r by lia. unfold is_byte in Hx. nia.
Qed.

(** Decoding an encoded integer gives it back modulo the width. *)
Lemma be_combine_split n v : be_combine (be_split n v) = (v mod 2 ^ (8 * Z.of_nat n))%Z.
Proof.
  induction n as [|n IH].
  - simpl. by rewrite Z.mod_1_r.
  - pose proof (be_split_bytes (S n) v) as Hb. simpl in Hb. inversion Hb; subst.
    simpl be_split. rewrite be_combine_cons, length_be_split, IH by done.
    change 255%Z with (Z.ones 8). rewrite Z.land_ones, Z.shiftr_div_pow2 by lia.
    replace (8 * Z.of_nat (S n))%Z with (8 * Z.of_nat n + 8)%Z by lia.
    rewrite Z.pow_add_r, Z.mul_comm by lia.
    change 256%Z with (2 ^ 8)%Z. rewrite <- Z.pow_mul_r by lia.
    set (m := (2 ^ (8 * Z.of_nat n))%Z).
    assert (0 < m)%Z by (apply Z.pow_pos_nonneg; lia).
    rewrite (Z.rem_mul_r v m (2 ^ 8)) by lia. lia.
Qed.

Lemma be_combine_split_small n v :
  (0 <= v < 2 ^ (8 * Z.of_nat n))%Z -> be_combine (be_split n v) = v.
Proof. intros. rewrite be_combine_split. by apply Z.mod_small. Qed.

(** Encoding a decoded byte string gives it back. *)
Lemma be_split_combine b :
  Forall is_byte b -> be_split (length b) (be_combine b) = b.
Proof.
  intros Hb.
  assert (Hgen : forall a, Forall is_byte b ->
    be_split (length b) (a * 256 ^ Z.of_nat (length b) + be_combine b)%Z = b).
  { clear Hb. induction b as [|x b IH]; intros a Hb; [done|].
    inversion Hb as [|? ? Hx Hb']; subst. simpl length. simpl be_split.
    rewrite be_combine_cons by done. f_equal.
    - change 255%Z with (Z.ones 8). rewrite Z.land_ones, Z.shiftr_div_pow2 by lia.
      rewrite Z.pow_mul_r by lia. change (2 ^ 8)%Z with 256%Z.
      rewrite Nat2Z.inj_succ, Z.pow_succ_r by lia.
      set (m := (256 ^ Z.of_nat (length b))%Z).
      pose proof (be_combine_bound b Hb') as Hc. fold m in Hc.
      replace (a * (256 * m) + (x * m + be_combine b))%Z
        with (be_combine b + (a * 256 + x) * m)%Z by lia.
      rewrite Z.div_add, (Z.div_small (be_combine b)) by lia.
      replace (0 + (a * 256 + x))%Z with (x + a * 256)%Z by lia.
      rewrite Z.mod_add by lia. by apply Z.mod_small.
    - replace (_ + _)%Z with ((a * 256 + x) * 256 ^ Z.of_nat (length b) + be_combine b)%Z.
      + by apply IH.
      + rewrite Nat2Z.inj_succ, Z.pow_succ_r by lia. lia. }
  specialize (Hgen 0%Z Hb). by rewrite Z.mul_0_l, Z.add_0_l in Hgen.
Qed.

Lemma fold_lor_zero b acc :
  fold_left Z.lor b acc = 0%Z <-> acc = 0%Z /\ Forall (eq 0%Z) b.
Proof.
  revert acc. induction b as [|x b IH]; intros acc; simpl.
  - split; [intros ->; split; [done|constructor]|by intros [-> _]].
  - rewrite IH, Z.lor_eq_0_iff, Forall_cons. intuition congruence.
Qed.

Lemma Forall_zero_zeros b : Forall (eq 0%Z) b <-> b = zeros (length b).
Proof.
  split.
  - induction 1 as [|x b <- ? IH]; [done|]. unfold zeros in *. simpl. congruence.
  - intros Hb. rewrite Hb. by apply Forall_replicate.
Qed.

(** [CtIsZero] accepts exactly the all-zero byte strings. *)
Lemma CtIsZero_true b : CtIsZero b = true <-> b = zeros (length b).
Proof.
  unfold CtIsZero. rewrite Z.eqb_eq, fold_lor_zero, <- Forall_zero_zeros. tauto.
Qed.

Lemma CtIsZero_zeros n : CtIsZero (zeros n) = true.
Proof. apply CtIsZero_true. by rewrite length_zeros. Qed.

(** ** Slices and copies *)

Lemma slice_ok b lo hi :
  lo <= hi -> hi <= length b -> slice b lo hi = Ok (take (hi - lo) (drop lo b)).
Proof. intros. unfold slice. by rewrite bool_decide_eq_true_2. Qed.

Lemma slice_panic b lo hi : ~ (lo <= hi /\ hi <= length b) -> slice b lo hi = Panic.
Proof. intros. unfold slice. by rewrite bool_decide_eq_false_2. Qed.

Lemma slice_inv b lo hi v :
  slice b lo hi = Ok v -> lo <= hi <= length b /\ v = take (hi - lo) (drop lo b).
Proof. unfold slice. case_bool_decide; [|done]. intros [= <-]. auto with lia. Qed.

(** The slice at the joints of a concatenation is the middle part. *)
Lemma slice_mid (a m c : bytes) lo hi :
  lo = length a -> hi = length a + length m -> slice (a ++ m ++ c) lo hi = Ok m.
Proof.
  intros -> ->. rewrite slice_ok by (rewrite ?length_app; lia).
  rewrite drop_app_length. f_equal.
  replace (length a + length m - length a) with (length m) by lia. apply take_app_length.
Qed.

Lemma slice_mid' (b a m c : bytes) lo hi :
  b = a ++ m ++ c -> lo = length a -> hi = length a + length m -> slice b lo hi = Ok m.
Proof. intros ->. apply slice_mid. Qed.

Lemma slice_to_app (a c : bytes) hi : hi = length a -> slice_to (a ++ c) hi = Ok a.
Proof. intros ->. by apply (slice_mid [] a c). Qed.

Lemma slice_from_app (a c : bytes) lo : lo = length a -> slice_from (a ++ c) lo = Ok c.
Proof.
  intros ->. unfold slice_from. rewrite <- (app_nil_r c) at 1 2.
  apply slice_mid; [done|]. by rewrite app_nil_r, length_app.
Qed.

Lemma length_copy_into dst src : length (copy_into dst src) = length dst.
Proof. unfold copy_into. rewrite length_app, length_take, length_drop. lia. Qed.

Lemma copy_into_same dst src : length src = length dst -> copy_into dst src = src.
Proof.
  intros H. unfold copy_into. rewrite take_ge, drop_ge by lia. apply app_nil_r.
Qed.

(** Copying [length d] bytes from a longer source keeps the prefix. *)
Lemma copy_into_prefix d (a c : bytes) : length a = length d -> copy_into d (a ++ c) = a.
Proof.
  intros H. unfold copy_into. rewrite <- H, take_app_length, drop_ge by (rewrite length_app; lia).
  apply app_nil_r.
Qed.

Lemma drop_app_mid (a m c : bytes) : drop (length a + length m) (a ++ m ++ c) = c.
Proof. by rewrite app_assoc, <- length_app, drop_app_length. Qed.

Lemma copy_at_mid (a m c src : bytes) lo hi :
  lo = length a -> hi = length a + length m -> length src = length m ->
  copy_at (a ++ m ++ c) lo hi src = a ++ src ++ c.
Proof.
  intros -> -> Hs. unfold copy_at.
  rewrite take_app_length, drop_app_length.
  replace (length a + length m - length a) with (length m) by lia.
  rewrite take_app_length, copy_into_same by done.
  by rewrite drop_app_mid.
Qed.

(** Cutting a slice at an in-range position. *)
Lemma slice_from_cut b n : n <= length b -> slice_from b n = Ok (drop n b).
Proof.
  intros. unfold slice_from. rewrite slice_ok by lia. by rewrite take_ge by (rewrite length_drop; lia).
Qed.

Lemma slice_to_cut b n : n <= length b -> slice_to b n = Ok (take n b).
Proof. intros. unfold slice_to. rewrite slice_ok by lia. by rewrite drop_0, Nat.sub_0_r. Qed.

Lemma copy_zeros n (id : bytes) : length id = n -> copy_into (zeros n) id = id.
Proof. intros H. apply copy_into_same. by rewrite length_zeros. Qed.

Lemma app_not_nil {A} (a b : list A) n : length a = S n -> a ++ b <> [].
Proof. by destruct a. Qed.

Lemma Forall_map_eq {A B} (f : A -> B) (Q : B -> Prop) (l : list A) :
  Forall Q (map f l) -> Forall (fun x => Q (f x)) l.
Proof. apply List.Forall_map. Qed.

(** ** Rewriting with outcomes *)

Lemma bind_Ok {A B} (a : A) (k : A -> outcome B) : (Ok a ≫= k) = k a.
Proof. done. Qed.
Lemma bind_Err {A B} e (k : A -> outcome B) : (Err e ≫= k) = Err e.
Proof. done. Qed.
Lemma bind_Panic {A B} (k : A -> outcome B) : (Panic ≫= k) = Panic.
Proof. done. Qed.
Lemma fmap_Ok {A B} (f : A -> B) a : f <$> Ok a = Ok (f a).
Proof. done. Qed.
Lemma fmap_Err {A B} (f : A -> B) e : f <$> Err e = Err e.
Proof. done. Qed.
Lemma fmap_Panic {A B} (f : A -> B) : f <$> Panic = Panic.
Proof. done. Qed.

Lemma bind_Ok_inv {A B} (m : outcome A) (k : A -> outcome B) b :
  (m ≫= k) = Ok b -> exists a, m = Ok a /\ k a = Ok b.
Proof. destruct m; [eauto|done..]. Qed.

Lemma bind_eq {A B} (m : outcome A) (k : A -> outcome B) a r :
  m = Ok a -> k a = r -> (m ≫= k) = r.
Proof. by intros ->. Qed.

Create Rewrite HintDb go.
Create Rewrite HintDb golen.
#[export] Hint Rewrite @bind_Ok @bind_Err @bind_Panic @fmap_Ok @fmap_Err @fmap_Panic : go.
#[export] Hint Rewrite length_zeros length_be_split @length_app @length_cons @length_take
  @length_drop length_copy_into @length_replicate : golen.

(** Reduce the outcome monad. *)
Ltac go := autorewrite with go; cbv beta iota.

(** Run the first call of the goal's left-hand side, whose result [t] proves. *)
Tactic Notation "go_step" tactic1(t) := eapply bind_eq; [t|cbv beta iota].

(** Length side conditions. *)
Ltac golen := autorewrite with golen; cbn [length]; try lia.

(** Split a successful bind in a hypothesis. *)
Ltac go_inv H :=
  let a := fresh "v" in let E := fresh "E" in
  apply bind_Ok_inv in H; destruct H as (a & E & H).

Arguments zeros : simpl never.
Arguments slice : simpl never.
Arguments slice_from : simpl never.
Arguments slice_to : simpl never.
Arguments copy_into : simpl never.
Arguments copy_at : simpl never.
Arguments be_split : simpl never.
Arguments be_combine : simpl never.
Arguments PutUint16 : simpl never.
Arguments PutUint32 : simpl never.
Arguments PutUint64 : simpl never.
Arguments CtIsZero : simpl never.
