(* ===== verification/Schemes.v ===== *)
(** Interfaces to the cryptographic libraries the repository calls.

    The primitives live outside the repository (hpqc's NIKE, KEM and signature
    schemes, bsaes, aez, hkdf, and the hash functions of Go's library), so each
    is a type class of operations, and what the callers rely on is a separate
    class of laws.  The components are defined over the operations alone; only
    the theorems that need a law ask for it. *)

From S2P Require Import Prelude.
From Stdlib Require Import ZArith Lia.
From stdpp Require Import prelude list strings.

(** ** hpqc [nike.Scheme] *)

Class Nike := {
  nike_PublicKey : Type;
  nike_PrivateKey : Type;
  nike_Name : string;
  nike_PublicKeySize : nat;
  (** [PublicKey.Bytes], [Scheme.UnmarshalBinaryPublicKey] and
      [NewEmptyPublicKey().FromBytes]. *)
  nike_Bytes : nike_PublicKey -> bytes;
  nike_UnmarshalBinaryPublicKey : bytes -> outcome nike_PublicKey;
  nike_FromBytes : bytes -> outcome nike_PublicKey;
  (** [PrivateKey.Public], [Scheme.DeriveSecret], [Scheme.GeneratePrivateKey]. *)
  nike_Public : nike_PrivateKey -> nike_PublicKey;
  nike_DeriveSecret : nike_PrivateKey -> nike_PublicKey -> bytes;
  nike_GeneratePrivateKey : bytes -> nike_PrivateKey;
  (** [Scheme.Blind], and the method [PublicKey.Blind] that updates its receiver. *)
  nike_Blind : nike_PublicKey -> nike_PrivateKey -> nike_PublicKey;
  nike_PublicKeyBlind : nike_PublicKey -> nike_PrivateKey -> outcome nike_PublicKey;
}.

(** A NIKE with blinding is a commutative action of private keys on public
    keys: key exchange and blinding are both the action, and encoding is
    faithful and of fixed size. *)
Class NikeLaws (N : Nike) : Prop := {
  nike_bytes_size pk : length (nike_Bytes pk) = nike_PublicKeySize;
  nike_unmarshal_bytes pk : nike_UnmarshalBinaryPublicKey (nike_Bytes pk) = Ok pk;
  nike_from_bytes pk : nike_FromBytes (nike_Bytes pk) = Ok pk;
  nike_derive_is_action sk pk : nike_DeriveSecret sk pk = nike_Bytes (nike_Blind pk sk);
  nike_blind_comm pk a b :
    nike_Blind (nike_Blind pk a) b = nike_Blind (nike_Blind pk b) a;
  nike_exchange a b : nike_Blind (nike_Public a) b = nike_Blind (nike_Public b) a;
  nike_pk_blind pk a : nike_PublicKeyBlind pk a = Ok (nike_Blind pk a);
}.

(** ** hpqc [kem.Scheme] *)

Class Kem := {
  kem_PublicKey : Type;
  kem_PrivateKey : Type;
  kem_Seed : Type;
  kem_Name : string;
  kem_CiphertextSize : nat;
  kem_Public : kem_PrivateKey -> kem_PublicKey;
  (** [Scheme.Encapsulate]: ciphertext and shared secret, for the randomness drawn. *)
  kem_Encapsulate : kem_Seed -> kem_PublicKey -> outcome (bytes * bytes);
  kem_Decapsulate : kem_PrivateKey -> bytes -> outcome bytes;
}.

Class KemLaws (K : Kem) : Prop := {
  kem_encapsulate_ok seed pk : exists ct ss, kem_Encapsulate seed pk = Ok (ct, ss);
  kem_ciphertext_size seed pk ct ss :
    kem_Encapsulate seed pk = Ok (ct, ss) -> length ct = kem_CiphertextSize;
  kem_decapsulate seed sk ct ss :
    kem_Encapsulate seed (kem_Public sk) = Ok (ct, ss) -> kem_Decapsulate sk ct = Ok ss;
}.

(** ** Symmetric primitives of the Sphinx packet format *)

Class SymPrims := {
  (** [hkdf.Expand(sha256.New, ikm, info)], reading [n] bytes. *)
  hkdf_expand : bytes -> bytes -> nat -> bytes;
  (** [sha512.Sum512_256]. *)
  sha512_256 : bytes -> bytes;
  (** HMAC-SHA256 of the written bytes under a key. *)
  hmac_sha256 : bytes -> bytes -> bytes;
  (** AES-CTR key stream of [n] bytes for a key and an IV. *)
  aes_ctr : bytes -> bytes -> nat -> bytes;
  (** [aez.Encrypt]/[aez.Decrypt] with no additional data and [tau = 0]. *)
  aez_encrypt : bytes -> bytes -> bytes -> bytes;
  aez_decrypt : bytes -> bytes -> bytes -> option bytes;
}.

Class SymPrimsLaws (S : SymPrims) : Prop := {
  hkdf_expand_length ikm info n : length (hkdf_expand ikm info n) = n;
  sha512_256_length msg : length (sha512_256 msg) = 32;
  hmac_length key msg : length (hmac_sha256 key msg) = 32;
  aes_ctr_length key iv n : length (aes_ctr key iv n) = n;
  aez_encrypt_length key iv m : length (aez_encrypt key iv m) = length m;
  aez_decrypt_encrypt key iv m : aez_decrypt key iv (aez_encrypt key iv m) = Some m;
  aez_decrypt_ok key iv c :
    exists m, aez_decrypt key iv c = Some m /\ aez_encrypt key iv m = c;
}.

(** ** hpqc [sign.Scheme] *)

Class Sign := {
  sign_PublicKey : Type;
  sign_PublicKeySize : nat;
  sign_MarshalBinary : sign_PublicKey -> outcome bytes;
  sign_UnmarshalBinaryPublicKey : bytes -> outcome sign_PublicKey;
}.

Class SignLaws (S : Sign) : Prop := {
  sign_marshal pk : exists b, sign_MarshalBinary pk = Ok b /\
    length b = sign_PublicKeySize /\ sign_UnmarshalBinaryPublicKey b = Ok pk;
}.
