(* ===== verification/ToySchemes.v ===== *)
(** Small executable schemes that satisfy the laws of [Schemes].

    They are used only by the witnesses: a NIKE that is multiplication modulo
    256, a one-byte KEM, and checksum-based symmetric primitives.  They show
    that the laws the Sphinx theorems assume are jointly satisfiable and let
    the modelled code run on concrete packets. *)

From S2P Require Import Prelude Schemes.
From Stdlib Require Import ZArith Lia.
From stdpp Require Import prelude list strings numbers.

Open Scope Z_scope.

(** ** A NIKE: residues modulo 256 under multiplication *)

Definition residue : Type := dsig is_byte.

Lemma mod256_byte z : is_byte (z mod 256).
Proof. unfold is_byte. apply Z.mod_pos_bound. lia. Qed.

Definition to_residue (z : Z) : residue := dexist (z mod 256) (mod256_byte z).

Lemma to_residue_val (r : residue) : to_residue (proj1_sig r) = r.
Proof.
  apply dsig_eq. simpl. pose proof (proj2_dsig r) as H. simpl in H. by apply Z.mod_small.
Qed.

Definition toyBlind (r : residue) (a : Z) : residue := to_residue (proj1_sig r * a).

#[export] Instance toyNike : Nike := {|
  nike_PublicKey := residue;
  nike_PrivateKey := Z;
  nike_Name := "toy";
  nike_PublicKeySize := 1;
  nike_Bytes r := [proj1_sig r];
  nike_UnmarshalBinaryPublicKey b :=
    match b with
    | [z] => if bool_decide (is_byte z) then Ok (to_residue z) else Err "nike: invalid key"
    | _ => Err "nike: invalid key"
    end;
  nike_FromBytes b :=
    match b with
    | [z] => if bool_decide (is_byte z) then Ok (to_residue z) else Err "nike: invalid key"
    | _ => Err "nike: invalid key"
    end;
  nike_Public a := toyBlind (to_residue 3) a;
  nike_DeriveSecret a r := [proj1_sig (toyBlind r a)];
  nike_GeneratePrivateKey seed := foldr Z.add 1 seed;
  nike_Blind := toyBlind;
  nike_PublicKeyBlind r a := Ok (toyBlind r a);
|}.

Lemma toyBlind_comm r a b : toyBlind (toyBlind r a) b = toyBlind (toyBlind r b) a.
Proof.
  apply dsig_eq. simpl. rewrite !Z.mul_mod_idemp_l by lia. f_equal. lia.
Qed.

#[export] Instance toyNikeLaws : NikeLaws toyNike.
Proof.
  split; simpl; try done.
  - intros r. rewrite bool_decide_eq_true_2 by apply (proj2_dsig r). by rewrite to_residue_val.
  - intros r. rewrite bool_decide_eq_true_2 by apply (proj2_dsig r). by rewrite to_residue_val.
  - intros r a b. apply toyBlind_comm.
  - intros a b. apply toyBlind_comm.
Qed.

(** ** A KEM *)

#[export] Instance toyKem : Kem := {|
  kem_PublicKey := Z;
  kem_PrivateKey := Z;
  kem_Seed := Z;
  kem_Name := "toykem";
  kem_CiphertextSize := 1;
  kem_Public a := a;
  kem_Encapsulate seed pk := Ok ([seed mod 256], [(pk + seed mod 256) mod 256]);
  kem_Decapsulate sk ct :=
    match ct with [c] => Ok [(sk + c) mod 256] | _ => Err "kem: invalid ciphertext" end;
|}.

#[export] Instance toyKemLaws : KemLaws toyKem.
Proof. split; simpl; [by eauto|by intros ? ? ? ? [= <- <-]|by intros ? ? ? ? [= <- <-]]. Qed.

(** ** Symmetric primitives *)

Definition checksum (b : bytes) : Z := foldl (fun a x => (a * 31 + x) mod 256) 7 b.

Definition spread (c : Z) (n : nat) : bytes := (fun i => (c + 13 * i) mod 256) <$> seqZ 0 (Z.of_nat n).

Lemma length_spread c n : length (spread c n) = n.
Proof. unfold spread. rewrite length_fmap, length_seqZ. lia. Qed.

#[export] Instance toySym : SymPrims := {|
  hkdf_expand ikm info n := spread (checksum ikm) n;
  sha512_256 m := spread (checksum m) 32;
  hmac_sha256 key m := spread (checksum (key ++ m)) 32;
  aes_ctr key iv n := spread (checksum (key ++ iv)) n;
  aez_encrypt key iv m := map (Z.lxor (checksum (key ++ iv))) m;
  aez_decrypt key iv c := Some (map (Z.lxor (checksum (key ++ iv))) c);
|}.

Lemma map_lxor_twice c (m : bytes) : map (Z.lxor c) (map (Z.lxor c) m) = m.
Proof.
  rewrite map_map. rewrite <- (map_id m) at 2. apply map_ext. intros x.
  by rewrite <- Z.lxor_assoc, Z.lxor_nilpotent, Z.lxor_0_l.
Qed.

#[export] Instance toySymLaws : SymPrimsLaws toySym.
Proof.
  split; cbn [hkdf_expand hmac_sha256 aes_ctr aez_encrypt aez_decrypt toySym]; intros;
    try apply length_spread.
  - apply length_map.
  - by rewrite map_lxor_twice.
  - eexists. split; [done|]. apply map_lxor_twice.
Qed.

(** ** A signature scheme's key encoding *)

#[export] Instance toySign : Sign := {|
  sign_PublicKey := residue;
  sign_PublicKeySize := 1;
  sign_MarshalBinary r := Ok [proj1_sig r];
  sign_UnmarshalBinaryPublicKey b :=
    match b with
    | [z] => if bool_decide (is_byte z) then Ok (to_residue z) else Err "sign: invalid key"
    | _ => Err "sign: invalid key"
    end;
|}.

#[export] Instance toySignLaws : SignLaws toySign.
Proof.
  split. intros r. eexists. split_and!; [done..|]. simpl.
  rewrite bool_decide_eq_true_2 by apply (proj2_dsig r). by rewrite to_residue_val.
Qed.
