(* ===== verification/SphinxGeo.v ===== *)
(** Sphinx packet geometry: [core/sphinx/geo/geo.go] with the constants of
    [core/sphinx/constants/constants.go] and [core/sphinx/internal/crypto].

    [Geometry] is the record of sizes every Sphinx component is driven by;
    [geometryFactory] computes it for a NIKE or a KEM.  Sizes are Go [int]s that
    are never negative, modelled as [nat]. *)

From S2P Require Import Prelude Schemes.
From Stdlib Require Import ZArith Lia.
From stdpp Require Import prelude list strings.

(** ** Constants *)

Definition NodeIDLength : nat := 32.
Definition RecipientIDLength : nat := 32.
Definition SURBIDLength : nat := 16.
Definition CommandTagLength : nat := 1.

Definition MACKeyLength : nat := 32.
Definition MACLength : nat := 32.
Definition StreamKeyLength : nat := 32.
Definition StreamIVLength : nat := 16.
Definition SPRPKeyLength : nat := 48.
Definition SPRPIVLength : nat := StreamIVLength.
Definition privateKeySeedSize : nat := 32.

Definition surbReplyLength : nat := CommandTagLength + SURBIDLength.
Definition sphinxPlaintextHeaderLength : nat := 1 + 1.
Definition adLength : nat := 2.
Definition payloadTagLength : nat := 32.

(** ** [type Geometry struct] *)

Record Geometry := mkGeometry {
  PacketLength : nat;
  NrHops : nat;
  HeaderLength : nat;
  RoutingInfoLength : nat;
  PerHopRoutingInfoLength : nat;
  SURBLength : nat;
  SphinxPlaintextHeaderLength : nat;
  PayloadTagLength : nat;
  ForwardPayloadLength : nat;
  UserForwardPayloadLength : nat;
  NextNodeHopLength : nat;
  SPRPKeyMaterialLength : nat;
  NIKEName : string;
  KEMName : string;
}.

Section Validate.

Context (nikeByName : string -> option Nike) (kemByName : string -> option Kem).

(** [Geometry.Validate]; [None] is the nil reference. *)
Definition Validate (og : option Geometry) : outcome () :=
  match og with
  | None => Err "geometry reference is nil"
  | Some g =>
    if bool_decide (NIKEName g = "" /\ KEMName g = "") then
      Err "geometry NIKEName or KEMName must be set"
    else if bool_decide (NIKEName g <> "" /\ KEMName g <> "") then
      Err "geometry NIKEName and KEMName must not both be set"
    else if bool_decide (NIKEName g <> "") && negb (bool_decide (is_Some (nikeByName (NIKEName g)))) then
      Err "geometry has invalid NIKE Scheme"
    else if bool_decide (NIKEName g = "") && negb (bool_decide (is_Some (kemByName (KEMName g)))) then
      Err "geometry has invalid KEM Scheme"
    else if bool_decide (PacketLength g = 0) then Err "geometry has PacketLength of 0"
    else if bool_decide (NrHops g = 0) then Err "geometry has NrHops of 0"
    else if bool_decide (HeaderLength g = 0) then Err "geometry has HeaderLength of 0"
    else if bool_decide (RoutingInfoLength g = 0) then Err "geometry has RoutingInfoLength of 0"
    else if bool_decide (PerHopRoutingInfoLength g = 0) then
      Err "geometry has PerHopRoutingInfoLength of 0"
    else Ok ()
  end.

End Validate.

(** ** [type geometryFactory struct] *)

Record geometryFactory := mkFactory {
  f_nike : option Nike;
  f_kem : option Kem;
  f_nrHops : nat;
  f_forwardPayloadLength : nat;
  f_sprpKeyMaterialLength : nat;
  f_sphinxPlaintextHeaderLength : nat;
  f_nextNodeHopLength : nat;
}.

Definition perHopRoutingInfoLength (f : geometryFactory) : outcome nat :=
  match f_nike f with
  | None =>
    k ← deref (f_kem f);
    Ok (f_nextNodeHopLength f + surbReplyLength + @kem_CiphertextSize k)
  | Some _ => Ok (f_nextNodeHopLength f + surbReplyLength)
  end.

Definition routingInfoLength (f : geometryFactory) : outcome nat :=
  n ← perHopRoutingInfoLength f; Ok (n * f_nrHops f).

Definition headerLength (f : geometryFactory) : outcome nat :=
  match f_nike f, f_kem f with
  | None, None => Panic
  | Some _, Some _ => Panic
  | Some n, None =>
    ri ← routingInfoLength f; Ok (adLength + @nike_PublicKeySize n + ri + MACLength)
  | None, Some k =>
    ri ← routingInfoLength f; Ok (adLength + @kem_CiphertextSize k + ri + MACLength)
  end.

Definition packetLength (f : geometryFactory) : outcome nat :=
  h ← headerLength f; Ok (h + payloadTagLength + f_forwardPayloadLength f).

Definition surbLength (f : geometryFactory) : outcome nat :=
  h ← headerLength f; Ok (h + NodeIDLength + f_sprpKeyMaterialLength f).

Definition deriveForwardPayloadLength (f : geometryFactory) (user : nat) : outcome nat :=
  s ← surbLength f; Ok (user + (sphinxPlaintextHeaderLength + s)).

(** The tail the two exported constructors share: fix the forward payload
    length, then read every field off the factory. *)
Definition buildGeometry (f : geometryFactory) (user : nat) (withSURB : bool)
    (nikeName kemName : string) : outcome Geometry :=
  fwd ← (if withSURB then deriveForwardPayloadLength f user else Ok user);
  let f := mkFactory (f_nike f) (f_kem f) (f_nrHops f) fwd (f_sprpKeyMaterialLength f)
             (f_sphinxPlaintextHeaderLength f) (f_nextNodeHopLength f) in
  hl ← headerLength f;
  pl ← packetLength f;
  sl ← surbLength f;
  ri ← routingInfoLength f;
  ph ← perHopRoutingInfoLength f;
  Ok {| PacketLength := pl;
        NrHops := f_nrHops f;
        HeaderLength := hl;
        RoutingInfoLength := ri;
        PerHopRoutingInfoLength := ph;
        SURBLength := sl;
        SphinxPlaintextHeaderLength := sphinxPlaintextHeaderLength;
        PayloadTagLength := payloadTagLength;
        ForwardPayloadLength := fwd;
        UserForwardPayloadLength := user;
        NextNodeHopLength := f_nextNodeHopLength f;
        SPRPKeyMaterialLength := f_sprpKeyMaterialLength f;
        NIKEName := nikeName;
        KEMName := kemName |}.

Definition newFactory (nike : option Nike) (kem : option Kem) (nrHops : nat) : geometryFactory :=
  mkFactory nike kem nrHops 0 (SPRPKeyLength + SPRPIVLength) sphinxPlaintextHeaderLength
    (CommandTagLength + NodeIDLength + MACLength).

Definition GeometryFromUserForwardPayloadLength (nike : Nike) (user : nat) (withSURB : bool)
    (nrHops : nat) : outcome Geometry :=
  buildGeometry (newFactory (Some nike) None nrHops) user withSURB (@nike_Name nike) "".

Definition KEMGeometryFromUserForwardPayloadLength (kem : Kem) (user : nat) (withSURB : bool)
    (nrHops : nat) : outcome Geometry :=
  buildGeometry (newFactory None (Some kem) nrHops) user withSURB "" (@kem_Name kem).

(** ** What the constructors produce *)

(** Closed forms of the NIKE geometry. *)
Lemma GeometryFromUserForwardPayloadLength_ok (nike : Nike) user withSURB nrHops :
  exists g, GeometryFromUserForwardPayloadLength nike user withSURB nrHops = Ok g /\
    NrHops g = nrHops /\
    PerHopRoutingInfoLength g = (CommandTagLength + NodeIDLength + MACLength) + surbReplyLength /\
    RoutingInfoLength g = nrHops * PerHopRoutingInfoLength g /\
    HeaderLength g = adLength + @nike_PublicKeySize nike + RoutingInfoLength g + MACLength /\
    PacketLength g = HeaderLength g + PayloadTagLength g + ForwardPayloadLength g /\
    SURBLength g = HeaderLength g + NodeIDLength + (SPRPKeyLength + SPRPIVLength) /\
    PayloadTagLength g = payloadTagLength /\
    NextNodeHopLength g = CommandTagLength + NodeIDLength + MACLength /\
    UserForwardPayloadLength g = user /\
    SphinxPlaintextHeaderLength g = sphinxPlaintextHeaderLength /\
    ForwardPayloadLength g =
      (if withSURB then user + (SphinxPlaintextHeaderLength g + SURBLength g) else user) /\
    NIKEName g = @nike_Name nike /\ KEMName g = "".
Proof.
  unfold GeometryFromUserForwardPayloadLength, buildGeometry, newFactory.
  destruct withSURB; eexists; (split; [reflexivity|]); split_and!; first [reflexivity|apply Nat.mul_comm].
Qed.

(** Closed forms of the KEM geometry: one ciphertext more in every block. *)
Lemma KEMGeometryFromUserForwardPayloadLength_ok (kem : Kem) user withSURB nrHops :
  exists g, KEMGeometryFromUserForwardPayloadLength kem user withSURB nrHops = Ok g /\
    NrHops g = nrHops /\
    PerHopRoutingInfoLength g =
      (CommandTagLength + NodeIDLength + MACLength) + surbReplyLength + @kem_CiphertextSize kem /\
    RoutingInfoLength g = nrHops * PerHopRoutingInfoLength g /\
    HeaderLength g = adLength + @kem_CiphertextSize kem + RoutingInfoLength g + MACLength /\
    PacketLength g = HeaderLength g + PayloadTagLength g + ForwardPayloadLength g /\
    SURBLength g = HeaderLength g + NodeIDLength + (SPRPKeyLength + SPRPIVLength) /\
    PayloadTagLength g = payloadTagLength /\
    NextNodeHopLength g = CommandTagLength + NodeIDLength + MACLength /\
    UserForwardPayloadLength g = user /\
    SphinxPlaintextHeaderLength g = sphinxPlaintextHeaderLength /\
    ForwardPayloadLength g =
      (if withSURB then user + (SphinxPlaintextHeaderLength g + SURBLength g) else user) /\
    NIKEName g = "" /\ KEMName g = @kem_Name kem.
Proof.
  unfold KEMGeometryFromUserForwardPayloadLength, buildGeometry, newFactory.
  destruct withSURB; eexists; (split; [reflexivity|]); split_and!; first [reflexivity|apply Nat.mul_comm].
Qed.
