(* ===== verification/SphinxCommands.v ===== *)
(** Per-hop routing commands: [core/sphinx/commands/commands.go]. *)

From S2P Require Import Prelude Schemes SphinxGeo.
From Stdlib Require Import ZArith Lia.
From stdpp Require Import prelude list strings.

(** ** Command identifiers *)

Definition cmd_null : Z := 0.
Definition cmd_nextNodeHop : Z := 1.
Definition cmd_recipient : Z := 2.
Definition cmd_surbReply : Z := 3.
Definition cmd_nodeDelay : Z := 128.

Definition errInvalidCommand : string := "sphinx: invalid per-hop command".

(** ** The commands that implement [RoutingCommand] *)

Inductive RoutingCommand :=
  | NextNodeHop (ID MAC : bytes)
  | Recipient (ID : bytes)
  | SURBReply (ID : bytes)
  | NodeDelay (Delay : Z).

#[export] Instance RoutingCommand_eq_dec : EqDecision RoutingCommand.
Proof. solve_decision. Defined.

(** Go's array and integer types: identifiers have their fixed length, the
    delay is a [uint32]. *)
Definition wf_command (c : RoutingCommand) : Prop :=
  match c with
  | NextNodeHop id mac => length id = NodeIDLength /\ length mac = MACLength
  | Recipient id => length id = RecipientIDLength
  | SURBReply id => length id = SURBIDLength
  | NodeDelay d => u32 d
  end.

(** [ToBytes], each appending its encoding to [b]. *)
Definition NextNodeHop_ToBytes (ID MAC b : bytes) : bytes :=
  b ++ [cmd_nextNodeHop] ++ ID ++ MAC.
Definition Recipient_ToBytes (ID b : bytes) : bytes := b ++ [cmd_recipient] ++ ID.
Definition SURBReply_ToBytes (ID b : bytes) : bytes := b ++ [cmd_surbReply] ++ ID.
Definition NodeDelay_ToBytes (Delay : Z) (b : bytes) : bytes :=
  b ++ [cmd_nodeDelay] ++ PutUint32 Delay.

Definition ToBytes (c : RoutingCommand) (b : bytes) : bytes :=
  match c with
  | NextNodeHop id mac => NextNodeHop_ToBytes id mac b
  | Recipient id => Recipient_ToBytes id b
  | SURBReply id => SURBReply_ToBytes id b
  | NodeDelay d => NodeDelay_ToBytes d b
  end.

(** The parsers return the command and the rest of the buffer. *)
Definition nextNodeHopFromBytes (b : bytes) (g : Geometry) : outcome (RoutingCommand * bytes) :=
  match NextNodeHopLength g with
  | O => Panic (* b[-1:] *)
  | S n =>
    if bool_decide (length b < n) then Err errInvalidCommand
    else
      rest ← slice_from b n;
      id ← slice_to b NodeIDLength;
      mac ← slice_from b NodeIDLength;
      Ok (NextNodeHop (copy_into (zeros NodeIDLength) id) (copy_into (zeros MACLength) mac), rest)
  end.

Definition recipeientFromBytes (b : bytes) : outcome (RoutingCommand * bytes) :=
  if bool_decide (length b < RecipientIDLength) then Err errInvalidCommand
  else
    rest ← slice_from b RecipientIDLength;
    id ← slice_to b RecipientIDLength;
    Ok (Recipient (copy_into (zeros RecipientIDLength) id), rest).

Definition surbReplyFromBytes (b : bytes) : outcome (RoutingCommand * bytes) :=
  if bool_decide (length b < SURBIDLength) then Err errInvalidCommand
  else
    rest ← slice_from b SURBIDLength;
    id ← slice_to b SURBIDLength;
    Ok (SURBReply (copy_into (zeros SURBIDLength) id), rest).

Definition nodeDelayFromBytes (b : bytes) : outcome (RoutingCommand * bytes) :=
  if bool_decide (length b < 4) then Err errInvalidCommand
  else
    rest ← slice_from b 4;
    d ← slice_to b 4;
    Ok (NodeDelay (be_combine d), rest).

(** [FromBytes]: [None] is the nil command that ends the list, for which the
    rest is nil as well. *)
Definition FromBytes (b : bytes) (g : Geometry) : outcome (option (RoutingCommand * bytes)) :=
  match b with
  | [] => Ok None
  | [id] => if bool_decide (id = cmd_null) then Ok None else Err errInvalidCommand
  | id :: b =>
    if bool_decide (id = cmd_null) then
      if CtIsZero b then Ok None else Err errInvalidCommand
    else if bool_decide (id = cmd_nextNodeHop) then Some <$> nextNodeHopFromBytes b g
    else if bool_decide (id = cmd_recipient) then Some <$> recipeientFromBytes b
    else if bool_decide (id = cmd_surbReply) then Some <$> surbReplyFromBytes b
    else if bool_decide (id = cmd_nodeDelay) then Some <$> nodeDelayFromBytes b
    else Err errInvalidCommand
  end.

(** ** Round trips *)

(** The decoder on an encoded command: dispatch on the tag, then the body. *)
Lemma FromBytes_tag id b g :
  b <> [] ->
  FromBytes (id :: b) g =
  if bool_decide (id = cmd_null) then
    if CtIsZero b then Ok None else Err errInvalidCommand
  else if bool_decide (id = cmd_nextNodeHop) then Some <$> nextNodeHopFromBytes b g
  else if bool_decide (id = cmd_recipient) then Some <$> recipeientFromBytes b
  else if bool_decide (id = cmd_surbReply) then Some <$> surbReplyFromBytes b
  else if bool_decide (id = cmd_nodeDelay) then Some <$> nodeDelayFromBytes b
  else Err errInvalidCommand.
Proof. by destruct b. Qed.

(** The length the geometry reserves for a [NextNodeHop] command. *)
Definition nextNodeHopSize : nat := CommandTagLength + NodeIDLength + MACLength.

Lemma length_ToBytes c b :
  wf_command c ->
  length (ToBytes c b) = length b +
    match c with
    | NextNodeHop _ _ => nextNodeHopSize
    | Recipient _ => 33
    | SURBReply _ => 17
    | NodeDelay _ => 5
    end.
Proof.
  destruct c; simpl; intros Hwf;
    unfold NextNodeHop_ToBytes, Recipient_ToBytes, SURBReply_ToBytes, NodeDelay_ToBytes;
    repeat rewrite length_app; simpl.
  - destruct Hwf as [-> ->]. done.
  - by rewrite Hwf.
  - by rewrite Hwf.
  - done.
Qed.

Lemma ToBytes_app c b : ToBytes c b = b ++ ToBytes c [].
Proof. by destruct c. Qed.

(** Tag and body of an encoded command. *)
Definition tag (c : RoutingCommand) : Z :=
  match c with
  | NextNodeHop _ _ => cmd_nextNodeHop
  | Recipient _ => cmd_recipient
  | SURBReply _ => cmd_surbReply
  | NodeDelay _ => cmd_nodeDelay
  end.

Definition body (c : RoutingCommand) : bytes :=
  match c with
  | NextNodeHop id mac => id ++ mac
  | Recipient id | SURBReply id => id
  | NodeDelay d => PutUint32 d
  end.

Lemma ToBytes_tag_body c rest : ToBytes c [] ++ rest = tag c :: body c ++ rest.
Proof. by destruct c. Qed.

Lemma body_not_nil c rest : wf_command c -> body c ++ rest <> [].
Proof.
  destruct c as [id mac|id|id|d]; simpl.
  - intros [Hid _]. rewrite <- app_assoc. by apply (app_not_nil _ _ 31).
  - intros. by apply (app_not_nil _ _ 31).
  - intros. by apply (app_not_nil _ _ 15).
  - done.
Qed.

Lemma nextNodeHopFromBytes_unfold b g :
  NextNodeHopLength g = nextNodeHopSize ->
  nextNodeHopFromBytes b g =
  if bool_decide (length b < NodeIDLength + MACLength) then Err errInvalidCommand
  else
    rest ← slice_from b (NodeIDLength + MACLength);
    id ← slice_to b NodeIDLength;
    mac ← slice_from b NodeIDLength;
    Ok (NextNodeHop (copy_into (zeros NodeIDLength) id) (copy_into (zeros MACLength) mac), rest).
Proof. unfold nextNodeHopFromBytes. by intros ->. Qed.

Lemma nextNodeHopFromBytes_ok id mac rest g :
  length id = NodeIDLength -> length mac = MACLength ->
  NextNodeHopLength g = nextNodeHopSize ->
  nextNodeHopFromBytes ((id ++ mac) ++ rest) g = Ok (NextNodeHop id mac, rest).
Proof.
  intros Hid Hmac Hg. rewrite nextNodeHopFromBytes_unfold by done.
  rewrite bool_decide_eq_false_2 by golen.
  go_step (apply slice_from_app; golen). rewrite <- app_assoc.
  go_step (by apply slice_to_app). go_step (by apply slice_from_app).
  rewrite copy_zeros by done.
  by rewrite (copy_into_prefix (zeros MACLength)) by golen.
Qed.

Lemma recipeientFromBytes_ok id rest :
  length id = RecipientIDLength -> recipeientFromBytes (id ++ rest) = Ok (Recipient id, rest).
Proof.
  intros Hid. unfold recipeientFromBytes. rewrite bool_decide_eq_false_2 by golen.
  rewrite slice_from_app, slice_to_app by done. go. by rewrite copy_zeros.
Qed.

Lemma surbReplyFromBytes_ok id rest :
  length id = SURBIDLength -> surbReplyFromBytes (id ++ rest) = Ok (SURBReply id, rest).
Proof.
  intros Hid. unfold surbReplyFromBytes. rewrite bool_decide_eq_false_2 by golen.
  rewrite slice_from_app, slice_to_app by done. go. by rewrite copy_zeros.
Qed.

Lemma nodeDelayFromBytes_ok d rest :
  u32 d -> nodeDelayFromBytes (PutUint32 d ++ rest) = Ok (NodeDelay d, rest).
Proof.
  intros Hd. unfold nodeDelayFromBytes, PutUint32.
  rewrite bool_decide_eq_false_2 by golen.
  rewrite slice_from_app, slice_to_app by golen. go.
  by rewrite be_combine_split_small.
Qed.

(** Decoding an encoded command gives back the command and what followed it. *)
Lemma FromBytes_ToBytes c rest g :
  wf_command c -> NextNodeHopLength g = nextNodeHopSize ->
  FromBytes (ToBytes c [] ++ rest) g = Ok (Some (c, rest)).
Proof.
  intros Hwf Hg. rewrite ToBytes_tag_body, FromBytes_tag by (by apply body_not_nil).
  destruct c as [id mac|id|id|d]; simpl in Hwf; cbn -[nextNodeHopFromBytes
    recipeientFromBytes surbReplyFromBytes nodeDelayFromBytes PutUint32].
  - destruct Hwf. by rewrite nextNodeHopFromBytes_ok.
  - by rewrite recipeientFromBytes_ok.
  - by rewrite surbReplyFromBytes_ok.
  - by rewrite nodeDelayFromBytes_ok.
Qed.

(** The zero padding after the last command decodes to the end of the list. *)
Lemma FromBytes_zeros n g : FromBytes (zeros n) g = Ok None.
Proof.
  destruct n as [|[|n]]; [done..|].
  change (zeros (S (S n))) with (0%Z :: zeros (S n)).
  rewrite FromBytes_tag by done. by rewrite CtIsZero_zeros.
Qed.

(** ** Totality and canonicity of the decoder *)

(** Every successful body parser splits its input into the body of the
    command it returns and the rest. *)
Definition parses (p : bytes -> outcome (RoutingCommand * bytes)) (id : Z) : Prop :=
  forall b, Forall is_byte b ->
    match p b with
    | Ok (c, rest) => wf_command c /\ tag c = id /\ b = body c ++ rest
    | Err e => e = errInvalidCommand
    | Panic => False
    end.

Lemma parses_nextNodeHop g :
  NextNodeHopLength g = nextNodeHopSize ->
  parses (fun b => nextNodeHopFromBytes b g) cmd_nextNodeHop.
Proof.
  intros Hg b Hb. rewrite nextNodeHopFromBytes_unfold by done.
  case_bool_decide as Hlen; [done|].
  rewrite !slice_from_cut, slice_to_cut by lia. go.
  assert (Hsplit : drop NodeIDLength b =
    take MACLength (drop NodeIDLength b) ++ drop (NodeIDLength + MACLength) b).
  { rewrite <- (take_drop MACLength (drop NodeIDLength b)) at 1. by rewrite drop_drop. }
  assert (Hm : copy_into (zeros MACLength) (drop NodeIDLength b) =
    take MACLength (drop NodeIDLength b)).
  { rewrite Hsplit at 1. apply copy_into_prefix. golen. }
  rewrite copy_zeros, Hm by golen.
  split_and!; [split; golen|done|].
  simpl body. rewrite <- app_assoc, <- Hsplit. by rewrite take_drop.
Qed.

Lemma parses_recipient : parses recipeientFromBytes cmd_recipient.
Proof.
  intros b Hb. unfold recipeientFromBytes. case_bool_decide as Hlen; [done|].
  rewrite slice_from_cut, slice_to_cut by lia. go. rewrite copy_zeros by golen.
  split_and!; [simpl; golen|done|by simpl; rewrite take_drop].
Qed.

Lemma parses_surbReply : parses surbReplyFromBytes cmd_surbReply.
Proof.
  intros b Hb. unfold surbReplyFromBytes. case_bool_decide as Hlen; [done|].
  rewrite slice_from_cut, slice_to_cut by lia. go. rewrite copy_zeros by golen.
  split_and!; [simpl; golen|done|by simpl; rewrite take_drop].
Qed.

Lemma parses_nodeDelay : parses nodeDelayFromBytes cmd_nodeDelay.
Proof.
  intros b Hb. unfold nodeDelayFromBytes. case_bool_decide as Hlen; [done|].
  rewrite slice_from_cut, slice_to_cut by lia. go.
  assert (Ht : Forall is_byte (take 4 b)) by (by apply Forall_take).
  assert (Hl : length (take 4 b) = 4) by golen.
  split_and!; [|done|].
  - pose proof (be_combine_bound _ Ht) as Hbd. rewrite Hl in Hbd. exact Hbd.
  - simpl body. unfold PutUint32. rewrite <- Hl at 1.
    by rewrite be_split_combine, take_drop.
Qed.

(** The decoder never panics, rejects with the one error it declares, and
    what it accepts re-encodes to the bytes it read. *)
Lemma FromBytes_sound b g :
  NextNodeHopLength g = nextNodeHopSize -> Forall is_byte b ->
  match FromBytes b g with
  | Ok (Some (c, rest)) => wf_command c /\ b = ToBytes c [] ++ rest
  | Ok None => b = zeros (length b)
  | Err e => e = errInvalidCommand
  | Panic => False
  end.
Proof.
  intros Hg Hb. destruct b as [|id b]; [done|].
  inversion Hb as [|? ? _ Hb']; subst.
  destruct b as [|x b].
  { simpl. case_bool_decide as Hid; [by rewrite Hid|done]. }
  rewrite FromBytes_tag by done.
  case_bool_decide as H0.
  { rewrite H0. destruct (CtIsZero (x :: b)) eqn:Hz; [|done].
    apply CtIsZero_true in Hz. rewrite Hz at 1. golen. done. }
  assert (Hp : forall p, parses p id ->
    match Some <$> p (x :: b) with
    | Ok (Some (c, rest)) => wf_command c /\ id :: x :: b = ToBytes c [] ++ rest
    | Ok None => id :: x :: b = zeros (length (id :: x :: b))
    | Err e => e = errInvalidCommand
    | Panic => False
    end).
  { intros p Hp. specialize (Hp _ Hb'). destruct (p (x :: b)) as [[c rest]|e|]; [|done..].
    go. destruct Hp as (? & Ht & Hx). split; [done|].
    rewrite ToBytes_tag_body, Ht. by rewrite Hx at 1. }
  case_bool_decide as Htag.
  { apply (Hp (fun b => nextNodeHopFromBytes b g)). rewrite Htag. by apply parses_nextNodeHop. }
  case_bool_decide as Htag2.
  { apply Hp. rewrite Htag2. apply parses_recipient. }
  case_bool_decide as Htag3.
  { apply Hp. rewrite Htag3. apply parses_surbReply. }
  case_bool_decide as Htag4; [|done].
  apply Hp. rewrite Htag4. apply parses_nodeDelay.
Qed.
