(* ===== verification/SphinxCrypto.v ===== *)
(** Sphinx cryptographic operations: [core/sphinx/internal/crypto/crypto.go].

    The wrappers and the key schedule are the repository's; the primitives they
    call come from the [SymPrims] interface. *)

From S2P Require Import Prelude Schemes SphinxGeo.
From Stdlib Require Import ZArith Lia.
From stdpp Require Import prelude list strings.

Definition kdfInfo : bytes := string_bytes "katzenpost-kdf-v0-hkdf-sha256".

Section Crypto.

Context {S : SymPrims}.

(** [Stream.XORKeyStream] from the start of the stream, and [Stream.KeyStream],
    which clears the buffer first. *)
Definition XORKeyStream (key iv src : bytes) : bytes :=
  zip_with Z.lxor src (aes_ctr key iv (length src)).

Definition KeyStream (key iv dst : bytes) : bytes :=
  XORKeyStream key iv (ExplicitBzero dst).

Definition Hash (msg : bytes) : bytes := sha512_256 msg.

(** [NewMAC(key)], the writes, and [Sum(nil)]. *)
Definition macSum (key : bytes) (writes : list bytes) : bytes := hmac_sha256 key (concat writes).

Definition SPRPEncrypt (key iv msg : bytes) : bytes := aez_encrypt key iv msg.

Definition SPRPDecrypt (key iv msg : bytes) : outcome bytes := deref (aez_decrypt key iv msg).

(** [type PacketKeys struct]; the blinding factor is nil without a NIKE. *)
Record PacketKeys (SK : Type) := mkPacketKeys {
  HeaderMAC : bytes;
  HeaderEncryption : bytes;
  HeaderEncryptionIV : bytes;
  PayloadEncryption : bytes;
  BlindingFactor : option SK;
}.

Definition okmLength : nat :=
  MACKeyLength + StreamKeyLength + StreamIVLength + SPRPKeyLength + privateKeySeedSize.

(** [KDF(ikm, scheme)]: cut the expanded key material into the packet keys.
    [scheme] is the NIKE's [GeneratePrivateKey] on a deterministic reader
    seeded with the last part, or [None] for a nil scheme. *)
Definition KDF {SK} (ikm : bytes) (scheme : option (bytes -> SK)) : outcome (PacketKeys SK) :=
  let okm := hkdf_expand ikm kdfInfo okmLength in
  if bool_decide (length okm = okmLength) then
    p0 ← slice_to okm MACKeyLength;
    ptr ← slice_from okm MACKeyLength;
    p1 ← slice_to ptr StreamKeyLength;
    ptr ← slice_from ptr StreamKeyLength;
    p2 ← slice_to ptr StreamIVLength;
    ptr ← slice_from ptr StreamIVLength;
    p3 ← slice_to ptr SPRPKeyLength;
    ptr ← slice_from ptr SPRPKeyLength;
    seed ← slice_to ptr privateKeySeedSize;
    Ok (mkPacketKeys SK (copy_into (zeros MACKeyLength) p0)
          (copy_into (zeros StreamKeyLength) p1) (copy_into (zeros StreamIVLength) p2)
          (copy_into (zeros SPRPKeyLength) p3) ((fun gen => gen seed) <$> scheme))
  else Panic.

(** The widths of the key arrays. *)
Definition wf_keys {SK} (k : PacketKeys SK) : Prop :=
  length (HeaderMAC _ k) = MACKeyLength /\ length (HeaderEncryption _ k) = StreamKeyLength /\
  length (HeaderEncryptionIV _ k) = StreamIVLength /\ length (PayloadEncryption _ k) = SPRPKeyLength.

End Crypto.

Arguments HeaderMAC {SK} _.
Arguments HeaderEncryption {SK} _.
Arguments HeaderEncryptionIV {SK} _.
Arguments PayloadEncryption {SK} _.
Arguments BlindingFactor {SK} _.

Section CryptoFacts.

Context {S : SymPrims} {L : SymPrimsLaws S}.

(** The key schedule never fails: it yields keys of the right widths, with a
    blinding factor exactly when a NIKE scheme was given. *)
Lemma KDF_ok {SK} ikm (scheme : option (bytes -> SK)) :
  exists k, KDF ikm scheme = Ok k /\ wf_keys k /\
    (is_Some (BlindingFactor k) <-> is_Some scheme).
Proof.
  unfold KDF. rewrite bool_decide_eq_true_2 by apply hkdf_expand_length.
  set (okm := hkdf_expand _ _ _).
  assert (Hl : length okm = okmLength) by apply hkdf_expand_length.
  unfold okmLength, MACKeyLength, StreamKeyLength, StreamIVLength, SPRPKeyLength,
    privateKeySeedSize in *.
  rewrite slice_to_cut, slice_from_cut by lia. go.
  repeat (rewrite !slice_to_cut, !slice_from_cut by (autorewrite with golen; lia); go).
  rewrite slice_to_cut by (autorewrite with golen; lia). go.
  eexists. split; [done|]. unfold wf_keys. simpl. autorewrite with golen.
  destruct scheme; simpl; split_and!; auto; rewrite <- ?not_eq_None_Some; done.
Qed.

Lemma length_XORKeyStream key iv src : length (XORKeyStream key iv src) = length src.
Proof.
  unfold XORKeyStream. rewrite length_zip_with, aes_ctr_length. lia.
Qed.

Lemma zip_lxor_zero (l k : bytes) :
  length l = length k -> zip_with Z.lxor (map (fun _ => 0%Z) l) k = k.
Proof.
  revert k. induction l as [|x l IH]; intros [|y k] H; try done.
  simpl in *. rewrite Z.lxor_0_l, IH; [done|lia].
Qed.

(** [KeyStream] is the raw cipher stream. *)
Lemma KeyStream_eq key iv dst : KeyStream key iv dst = aes_ctr key iv (length dst).
Proof.
  unfold KeyStream, XORKeyStream, ExplicitBzero. rewrite length_map.
  apply zip_lxor_zero. by rewrite aes_ctr_length.
Qed.

Lemma SPRPDecrypt_Encrypt key iv m : SPRPDecrypt key iv (SPRPEncrypt key iv m) = Ok m.
Proof. unfold SPRPDecrypt, SPRPEncrypt. by rewrite aez_decrypt_encrypt. Qed.

(** Decryption always succeeds, is undone by encryption and keeps the length. *)
Lemma SPRPDecrypt_ok key iv c :
  exists m, SPRPDecrypt key iv c = Ok m /\ SPRPEncrypt key iv m = c /\ length m = length c.
Proof.
  destruct (aez_decrypt_ok key iv c) as (m & Hd & He).
  exists m. unfold SPRPDecrypt, SPRPEncrypt. rewrite Hd. split_and!; [done..|].
  by rewrite <- He, aez_encrypt_length.
Qed.

End CryptoFacts.
