(* ===== verification/SphinxPacket.v ===== *)
(** The Sphinx packet format: [core/sphinx/sphinx.go], [core/sphinx/kemsphinx.go],
    [core/sphinx/surb.go] and [core/sphinx/new_sphinx.go].

    Packet creation runs over the path once to derive keys, once to derive the
    header key streams and padding, and once backwards to nest the routing
    blocks.  [Unwrap] edits the packet in place, so it returns the packet along
    with Go's results.  Loops over slices are recursions over lists; the
    descending loops evaluate the tail first. *)

From S2P Require Import Prelude Schemes SphinxGeo SphinxCommands SphinxCrypto.
From Stdlib Require Import ZArith Lia.
From stdpp Require Import prelude list strings.

Definition v0AD : bytes := [0%Z; 0%Z].
Definition errTruncatedPayload : string := "sphinx: truncated payload".
Definition errInvalidTag : string := "sphinx: payload auth failed".
Definition sprpKeyMaterialLength : nat := SPRPKeyLength + SPRPIVLength.

(** [xorBytes(dst, a, b)] with [dst] the buffer of [a]. *)
Definition xorBytes (a b : bytes) : outcome bytes :=
  if bool_decide (length a = length b) then Ok (zip_with Z.lxor a b) else Panic.

(** [type sprpKey struct]. *)
Record sprpKey := mkSprpKey { sk_key : bytes; sk_iv : bytes }.

Section Sphinx.

Context {N : Nike} {K : Kem} {S : SymPrims}.

(** [type Sphinx struct]: which of the two scheme interfaces is non-nil, and
    the geometry. *)
Record Sphinx := mkSphinx { s_nike : bool; s_kem : bool; geometry : Geometry }.

(** [type PathHop struct]; a key interface may be nil. *)
Record PathHop := mkPathHop {
  ID : bytes;
  NIKEPublicKey : option nike_PublicKey;
  KEMPublicKey : option kem_PublicKey;
  Commands : list RoutingCommand;
}.

(** What a call draws from randomness: the client key pair, the seeds of the
    encapsulations, the process-wide reader and the reader argument. *)
Record Randomness := mkRandomness {
  rnd_keypair : outcome (nike_PublicKey * nike_PrivateKey);
  rnd_kem : nat -> kem_Seed;
  rnd_reader : nat -> outcome bytes;
  rnd_r : nat -> outcome bytes;
}.

(** [FromGeometry], with which names the scheme registries know. *)
Definition FromGeometry (nikeKnown kemKnown : string -> bool) (g : Geometry) : outcome Sphinx :=
  if bool_decide (NIKEName g <> "") then
    if nikeKnown (NIKEName g) then Ok (mkSphinx true false g)
    else Err "cannot lookup NIKE by name"
  else if kemKnown (KEMName g) then Ok (mkSphinx false true g)
  else Err "cannot lookup KEM by name".

(** ** Per-hop routing commands of a header *)

Definition isNextNodeHop (c : RoutingCommand) : bool :=
  match c with NextNodeHop _ _ => true | _ => false end.

Fixpoint appendCommands (cmds : list RoutingCommand) (b : bytes) : outcome bytes :=
  match cmds with
  | [] => Ok b
  | v :: cmds =>
    if isNextNodeHop v then Err "sphinx: invalid commands, NextNodeHop"
    else appendCommands cmds (ToBytes v b)
  end.

Definition commandsToBytes (g : Geometry) (cmds : list RoutingCommand) (isTerminal : bool)
    : outcome bytes :=
  b ← appendCommands cmds [];
  if bool_decide (PerHopRoutingInfoLength g < length b) then
    Err "sphinx: invalid commands, oversized serialized block"
  else if negb isTerminal &&
    bool_decide (PerHopRoutingInfoLength g - length b < NextNodeHopLength g) then
    Err "sphinx: invalid commands, insufficient remaining capacity"
  else Ok b.

(** ** Header streams and padding (shared by the NIKE and the KEM header) *)

Fixpoint routingStreams {SK} (g : Geometry) (i : nat) (prevPad : bytes)
    (keys : list (PacketKeys SK)) : outcome (list (bytes * bytes)) :=
  match keys with
  | [] => Ok []
  | k :: keys =>
    let total := RoutingInfoLength g + PerHopRoutingInfoLength g in
    let keyStream := KeyStream (HeaderEncryption k) (HeaderEncryptionIV k) (zeros total) in
    if bool_decide (length keyStream < (i + 1) * PerHopRoutingInfoLength g) then Panic
    else
      let ksLen := length keyStream - (i + 1) * PerHopRoutingInfoLength g in
      ks ← slice_to keyStream ksLen;
      pad ← slice_from keyStream ksLen;
      pad ← (if bool_decide (0 < i) then
               head ← slice_to pad (length prevPad);
               x ← xorBytes head prevPad;
               Ok (copy_at pad 0 (length prevPad) x)
             else Ok pad);
      rest ← routingStreams g (i + 1) pad keys;
      Ok ((ks, pad) :: rest)
  end.

(** One hop of the routing-information loop: its path entry, its keys, its
    group element or ciphertext, its key stream and the previous hop's padding. *)
Record hopInfo {SK : Type} := mkHopInfo {
  h_path : PathHop;
  h_key : PacketKeys SK;
  h_elem : bytes;
  h_ks : bytes;
  h_prevPad : bytes;
}.

(** The hops zipped together; hop 0 has no previous padding. *)
Fixpoint hopInfos {SK} (path : list PathHop) (keys : list (PacketKeys SK)) (elems : list bytes)
    (streams : list (bytes * bytes)) (prevPad : bytes) : list (@hopInfo SK) :=
  match path, keys, elems, streams with
  | p :: path, k :: keys, e :: elems, (ks, pad) :: streams =>
    mkHopInfo SK p k e ks prevPad :: hopInfos path keys elems streams pad
  | _, _, _, _ => []
  end.

(** The descending routing-information loop.  [link next frag] is what the KEM
    header does to a non-terminal fragment for the next hop (nothing for NIKE). *)
Fixpoint routingInfo {SK} (g : Geometry) (link : @hopInfo SK -> bytes -> outcome bytes)
    (skipped : bytes) (hops : list (@hopInfo SK)) : outcome (bytes * bytes) :=
  match hops with
  | [] => Ok (skipped, [])
  | h :: rest =>
    '(ri, mac) ← routingInfo g link skipped rest;
    frag ← commandsToBytes g (Commands (h_path h)) (match rest with [] => true | _ => false end);
    let frag := match rest with
                | [] => frag
                | nx :: _ => NextNodeHop_ToBytes (copy_into (zeros NodeIDLength) (ID (h_path nx)))
                               (copy_into (zeros MACLength) mac) frag
                end in
    let frag := frag ++ zeros (PerHopRoutingInfoLength g - length frag) in
    frag ← match rest with [] => Ok frag | nx :: _ => link nx frag end;
    ri ← xorBytes (frag ++ ri) (h_ks h);
    Ok (ri, macSum (HeaderMAC (h_key h)) [v0AD; h_elem h; ri; h_prevPad h])
  end.

(** The random block that stands for the hops the path does not use. *)
Definition skippedRouting (rnd : Randomness) (g : Geometry) (nrHops : nat) : outcome bytes :=
  if bool_decide (0 < NrHops g - nrHops) then
    rnd_reader rnd ((NrHops g - nrHops) * PerHopRoutingInfoLength g)
  else Ok [].

Definition sprpKeys {SK} (keys : list (PacketKeys SK)) : list sprpKey :=
  map (fun v => mkSprpKey (PayloadEncryption v) (HeaderEncryptionIV v)) keys.

(** ** NIKE header *)

(** The inner loop: blind a shared secret with the factors of the earlier hops. *)
Fixpoint blindSecret (keys : list (PacketKeys nike_PrivateKey)) (ss : bytes) : outcome bytes :=
  match keys with
  | [] => Ok ss
  | k :: keys =>
    pubkey ← panic_on_err (nike_FromBytes ss);
    bf ← deref (BlindingFactor k);
    blindSecret keys (nike_Bytes (nike_Blind pubkey bf))
  end.

(** The loop over hops 1 and up, extending [keys] and [groupElements]. *)
Fixpoint deriveKeys (cpriv : nike_PrivateKey) (hops : list PathHop)
    (keys : list (PacketKeys nike_PrivateKey)) (ges : list nike_PublicKey)
    (cpub : nike_PublicKey) : outcome (list (PacketKeys nike_PrivateKey) * list nike_PublicKey) :=
  match hops with
  | [] => Ok (keys, ges)
  | h :: hops =>
    pk ← deref (NIKEPublicKey h);
    ss ← blindSecret keys (nike_DeriveSecret cpriv pk);
    k ← KDF ss (Some nike_GeneratePrivateKey);
    prev ← deref (last keys);
    bf ← deref (BlindingFactor prev);
    cpub ← panic_on_err (nike_PublicKeyBlind cpub bf);
    ge ← panic_on_err (nike_UnmarshalBinaryPublicKey (nike_Bytes cpub));
    deriveKeys cpriv hops (keys ++ [k]) (ges ++ [ge]) cpub
  end.

Definition createHeader (g : Geometry) (rnd : Randomness) (path : list PathHop)
    : outcome (bytes * list sprpKey) :=
  if bool_decide (NrHops g < length path) then Err "sphinx: invalid path"
  else
    '(cpub, cpriv) ← rnd_keypair rnd;
    hop0 ← index path 0;
    pk0 ← deref (NIKEPublicKey hop0);
    k0 ← KDF (nike_DeriveSecret cpriv pk0) (Some nike_GeneratePrivateKey);
    ge0 ← panic_on_err (nike_UnmarshalBinaryPublicKey (nike_Bytes cpub));
    '(keys, ges) ← deriveKeys cpriv (drop 1 path) [k0] [ge0] cpub;
    streams ← routingStreams g 0 [] keys;
    skipped ← skippedRouting rnd g (length path);
    '(ri, mac) ← routingInfo g (fun _ frag => Ok frag) skipped
                   (hopInfos path keys (map nike_Bytes ges) streams []);
    Ok (v0AD ++ nike_Bytes ge0 ++ ri ++ mac, sprpKeys keys).

(** ** KEM header *)

Fixpoint encapsulateHops (rnd : Randomness) (i : nat) (path : list PathHop)
    : outcome (list (bytes * PacketKeys ())) :=
  match path with
  | [] => Ok []
  | h :: path =>
    pk ← deref (KEMPublicKey h);
    '(ct, ss) ← panic_on_err (kem_Encapsulate (rnd_kem rnd i) pk);
    k ← KDF ss None;
    rest ← encapsulateHops rnd (i + 1) path;
    Ok ((ct, k) :: rest)
  end.

(** [copy(riFragment[P-CiphertextSize:], kemElements[i+1])]. *)
Definition kemLink (g : Geometry) (nx : @hopInfo ()) (frag : bytes) : outcome bytes :=
  let P := PerHopRoutingInfoLength g in
  if bool_decide (P < kem_CiphertextSize \/ length frag < P - kem_CiphertextSize) then Panic
  else Ok (copy_at frag (P - kem_CiphertextSize) (length frag) (h_elem nx)).

Definition createKEMHeader (s : Sphinx) (rnd : Randomness) (path : list PathHop)
    : outcome (bytes * list sprpKey) :=
  let g := geometry s in
  if bool_decide (NrHops g < length path) then Err "sphinx: invalid path"
  else if negb (s_kem s) then Panic
  else
    elems ← encapsulateHops rnd 0 path;
    streams ← routingStreams g 0 [] (map snd elems);
    skipped ← panic_on_err (skippedRouting rnd g (length path));
    '(ri, mac) ← routingInfo g (kemLink g) skipped
                   (hopInfos path (map snd elems) (map fst elems) streams []);
    ct0 ← index (map fst elems) 0;
    Ok (v0AD ++ ct0 ++ ri ++ mac, sprpKeys (map snd elems)).

(** ** Packets *)

(** Encrypt the payload under each hop's key, last hop first. *)
Definition encryptPayload (keys : list sprpKey) (b : bytes) : bytes :=
  foldr (fun k b => SPRPEncrypt (sk_key k) (sk_iv k) b) b keys.

(** The common body of [newNikePacket] and [newKEMPacket]. *)
Definition assemblePacket (g : Geometry) (hdr : bytes) (keys : list sprpKey) (payload : bytes)
    : outcome bytes :=
  tag ← slice_to (zeros (PerHopRoutingInfoLength g)) (PayloadTagLength g);
  let pkt := hdr ++ tag ++ payload in
  b ← slice_from pkt (length hdr);
  Ok (copy_at pkt (length hdr) (length pkt) (encryptPayload keys b)).

Definition newNikePacket (g : Geometry) (rnd : Randomness) (path : list PathHop) (payload : bytes)
    : outcome bytes :=
  if negb (bool_decide (length payload = ForwardPayloadLength g)) then Err "invalid payload length"
  else
    '(hdr, keys) ← createHeader g rnd path;
    assemblePacket g hdr keys payload.

Definition newKEMPacket (s : Sphinx) (rnd : Randomness) (path : list PathHop) (payload : bytes)
    : outcome bytes :=
  if negb (bool_decide (length payload = ForwardPayloadLength (geometry s))) then
    Err "invalid payload length"
  else
    '(hdr, keys) ← createKEMHeader s rnd path;
    assemblePacket (geometry s) hdr keys payload.

(** ** Unwrapping *)

(** Go's four results, and the packet buffer as the call leaves it. *)
Record UnwrapResult := mkUnwrap {
  uw_payload : option bytes;
  uw_replayTag : option bytes;
  uw_cmds : list RoutingCommand;
  uw_err : option string;
  uw_pkt : bytes;
}.

Definition unwrapErr (tag : option bytes) (e : string) (pkt : bytes) : outcome UnwrapResult :=
  Ok (mkUnwrap None tag [] (Some e) pkt).

(** The command loop.  [name] is the prefix of the error strings.  The fuel is
    one more than the buffer, and every command consumes at least a byte. *)
Fixpoint parseCommands (name : string) (g : Geometry) (fuel : nat) (cmdBuf : bytes)
    (nextNode : option bytes) (surbReply : bool) (cmds : list RoutingCommand)
    : outcome (list RoutingCommand * option bytes * bool) :=
  match fuel with
  | O => Panic
  | Datatypes.S fuel =>
    r ← FromBytes cmdBuf g;
    match r with
    | None => Ok (cmds, nextNode, surbReply)
    | Some (c, rest) =>
      match c with
      | NextNodeHop _ mac =>
        if bool_decide (is_Some nextNode) then
          Err (String.append name ": invalid packet, > 1 next_node")
        else parseCommands name g fuel rest (Some mac) surbReply (cmds ++ [c])
      | SURBReply _ =>
        if surbReply then Err (String.append name ": invalid packet, > 1 surb_reply")
        else parseCommands name g fuel rest nextNode true (cmds ++ [c])
      | _ => parseCommands name g fuel rest nextNode surbReply (cmds ++ [c])
      end
    end
  end.

(** Everything after the shared secret is known: MAC check, header decryption,
    commands, payload, and the in-place update for the next hop.  [elemOff] and
    [riOff] delimit the group element or ciphertext; [cmdLen] is how much of the
    hop's block holds commands ([None] for a negative length); [nextElem] computes the element forwarded. *)
Definition processHeader {SK} (name : string) (g : Geometry) (keys : PacketKeys SK)
    (replayTag pkt : bytes) (riOff : nat) (cmdLen : option nat) (nextElem : bytes -> outcome bytes)
    : outcome UnwrapResult :=
  let geOff := 2 in
  let macOff := riOff + RoutingInfoLength g in
  let payloadOff := macOff + MACLength in
  let P := PerHopRoutingInfoLength g in
  macd ← slice pkt 0 macOff;
  pmac ← slice pkt macOff (macOff + MACLength);
  if negb (bool_decide (pmac = macSum (HeaderMAC keys) [macd])) then
    unwrapErr (Some replayTag) (String.append name ": invalid packet, MAC mismatch") pkt
  else
    ri ← slice pkt riOff (riOff + RoutingInfoLength g);
    let b := XORKeyStream (HeaderEncryption keys) (HeaderEncryptionIV keys)
               (copy_at (zeros (RoutingInfoLength g + P)) 0 (RoutingInfoLength g) ri) in
    newRoutingInfo ← slice_from b P;
    n ← deref cmdLen;
    cmdBuf ← slice_to b n;
    match parseCommands name g (Datatypes.S (length cmdBuf)) cmdBuf None false [] with
    | Panic => Panic
    | Err e => unwrapErr (Some replayTag) e pkt
    | Ok (cmds, nextNode, surbReply) =>
      payload ← slice_from pkt payloadOff;
      payload ← (if bool_decide (0 < length payload)
                 then SPRPDecrypt (PayloadEncryption keys) (HeaderEncryptionIV keys) payload
                 else Ok payload);
      match nextNode with
      | Some mac =>
        elem ← nextElem b;
        let pkt := copy_at pkt geOff riOff elem in
        let pkt := copy_at pkt riOff macOff newRoutingInfo in
        let pkt := copy_at pkt macOff payloadOff mac in
        let pkt := if bool_decide (0 < length payload)
                   then copy_at pkt payloadOff (length pkt) payload else pkt in
        Ok (mkUnwrap None (Some replayTag) cmds None pkt)
      | None =>
        if bool_decide (length payload < PayloadTagLength g) then
          unwrapErr (Some replayTag) errTruncatedPayload pkt
        else if surbReply then Ok (mkUnwrap (Some payload) (Some replayTag) cmds None pkt)
        else
          t ← slice_to payload (PayloadTagLength g);
          if CtIsZero t then
            payload ← slice_from payload (PayloadTagLength g);
            Ok (mkUnwrap (Some payload) (Some replayTag) cmds None pkt)
          else unwrapErr (Some replayTag) errInvalidTag pkt
      end
    end.

Definition unwrapNike (g : Geometry) (privKey : nike_PrivateKey) (pkt : bytes)
    : outcome UnwrapResult :=
  let geOff := 2 in
  let riOff := geOff + nike_PublicKeySize in
  if bool_decide (length pkt < HeaderLength g) then
    unwrapErr None "sphinx: invalid packet, truncated" pkt
  else
    ad ← slice_to pkt 2;
    if negb (bool_decide (v0AD = ad)) then
      unwrapErr None "sphinx: invalid packet, unknown version" pkt
    else
      geb ← slice pkt geOff riOff;
      match nike_UnmarshalBinaryPublicKey geb with
      | Panic => Panic
      | Err _ => unwrapErr None "sphinx: failed to unmarshal group element" pkt
      | Ok groupElement =>
        let sharedSecret := nike_DeriveSecret privKey groupElement in
        let replayTag := Hash (nike_Bytes groupElement) in
        keys ← KDF sharedSecret (Some nike_GeneratePrivateKey);
        processHeader "sphinx" g keys replayTag pkt riOff (Some (PerHopRoutingInfoLength g))
          (fun _ => bf ← deref (BlindingFactor keys);
                    ge ← panic_on_err (nike_PublicKeyBlind groupElement bf);
                    Ok (nike_Bytes ge))
      end.

Definition unwrapKem (s : Sphinx) (privKey : kem_PrivateKey) (pkt : bytes) : outcome UnwrapResult :=
  let g := geometry s in
  if negb (s_kem s) then Panic
  else
  let geOff := 2 in
  let riOff := geOff + kem_CiphertextSize in
  let P := PerHopRoutingInfoLength g in
  if bool_decide (length pkt < HeaderLength g) then
    unwrapErr None "KEMSphinx: invalid packet, truncated" pkt
  else
    ad ← slice_to pkt 2;
    if negb (bool_decide (v0AD = ad)) then
      unwrapErr None "KEMSphinx: invalid packet, unknown version" pkt
    else
      kemCiphertext ← slice pkt geOff riOff;
      match kem_Decapsulate privKey kemCiphertext with
      | Panic => Panic
      | Err _ => unwrapErr None "KEMSphinx: failed to decrypt KEM" pkt
      | Ok sharedSecret =>
        let replayTag := Hash kemCiphertext in
        keys ← KDF (SK := ()) sharedSecret None;
        processHeader "KEMSphinx" g keys replayTag pkt riOff
          (if bool_decide (P < kem_CiphertextSize) then None else Some (P - kem_CiphertextSize))
          (fun b => slice b (P - kem_CiphertextSize) P)
      end.

(** ** The dispatchers of [new_sphinx.go] *)

Definition NewPacket (s : Sphinx) (rnd : Randomness) (path : list PathHop) (payload : bytes)
    : outcome bytes :=
  if negb (s_nike s) then newKEMPacket s rnd path payload
  else if negb (s_kem s) then newNikePacket (geometry s) rnd path payload
  else Panic.

(** [privKey interface{}] and its type assertion. *)
Inductive AnyPrivateKey :=
  | NikeKey (k : nike_PrivateKey)
  | KemKey (k : kem_PrivateKey).

Definition Unwrap (s : Sphinx) (privKey : AnyPrivateKey) (pkt : bytes) : outcome UnwrapResult :=
  if negb (s_nike s) then
    match privKey with KemKey k => unwrapKem s k pkt | NikeKey _ => Panic end
  else if negb (s_kem s) then
    match privKey with NikeKey k => unwrapNike (geometry s) k pkt | KemKey _ => Panic end
  else Panic.

(** ** Single-use reply blocks *)

(** The SPRP keys in reverse hop order, then the payload key. *)
Definition surbKeys (keys : list sprpKey) (keyPayload : bytes) : bytes :=
  concat (map (fun k => sk_key k ++ sk_iv k) (reverse keys)) ++ keyPayload.

Definition assembleSURB (path : list PathHop) (hdr keyPayload : bytes) (keys : list sprpKey)
    : outcome (bytes * bytes) :=
  hop0 ← index path 0;
  Ok (hdr ++ ID hop0 ++ keyPayload, surbKeys keys keyPayload).

Definition newNikeSURB (g : Geometry) (rnd : Randomness) (path : list PathHop)
    : outcome (bytes * bytes) :=
  keyPayload ← rnd_r rnd sprpKeyMaterialLength;
  '(hdr, keys) ← createHeader g rnd path;
  assembleSURB path hdr keyPayload keys.

Definition newKemSURB (s : Sphinx) (rnd : Randomness) (path : list PathHop)
    : outcome (bytes * bytes) :=
  keyPayload ← rnd_r rnd sprpKeyMaterialLength;
  '(hdr, keys) ← createKEMHeader s rnd path;
  assembleSURB path hdr keyPayload keys.

Definition NewSURB (s : Sphinx) (rnd : Randomness) (path : list PathHop) : outcome (bytes * bytes) :=
  if negb (s_nike s) then newKemSURB s rnd path
  else if negb (s_kem s) then newNikeSURB (geometry s) rnd path
  else Panic.

(** [NewPacketFromSURB]: the packet and the first hop's identifier. *)
Definition NewPacketFromSURB (g : Geometry) (surb payload : bytes) : outcome (bytes * bytes) :=
  let idOff := HeaderLength g in
  let keyOff := idOff + NodeIDLength in
  let ivOff := keyOff + SPRPKeyLength in
  if negb (bool_decide (length surb = SURBLength g)) then
    Err "sphinx: invalid packet, truncated SURB"
  else
    hdr ← slice_to surb (HeaderLength g);
    nodeID ← slice surb idOff keyOff;
    key ← slice surb keyOff ivOff;
    iv ← slice_from surb ivOff;
    tag ← slice_to (zeros (PerHopRoutingInfoLength g)) (PayloadTagLength g);
    let pkt := hdr ++ tag ++ payload in
    b ← slice_from pkt (length hdr);
    let b := SPRPEncrypt (copy_into (zeros SPRPKeyLength) key) (copy_into (zeros SPRPIVLength) iv) b in
    Ok (copy_at pkt (length hdr) (length pkt) b, copy_into (zeros NodeIDLength) nodeID).

(** The decryption loop: re-encrypt under each hop's key, then decrypt under
    the payload key, the last of the vector. *)
Fixpoint undoHops (nrHops : nat) (k b : bytes) : outcome bytes :=
  match nrHops with
  | O => Ok b
  | Datatypes.S n =>
    key ← slice_to k SPRPKeyLength;
    iv ← slice_from k SPRPKeyLength;
    let key := copy_into (zeros SPRPKeyLength) key in
    let iv := copy_into (zeros SPRPIVLength) iv in
    k ← slice_from k sprpKeyMaterialLength;
    b ← (if bool_decide (n = 0) then SPRPDecrypt key iv b else Ok (SPRPEncrypt key iv b));
    undoHops n k b
  end.

(** [DecryptSURBPayload]: the plaintext, and the key buffer, which the deferred
    [ExplicitBzero] clears whatever the outcome. *)
Definition DecryptSURBPayload (g : Geometry) (payload keys : bytes) : outcome bytes * bytes :=
  let nrHops := length keys / sprpKeyMaterialLength in
  (if bool_decide (length keys mod sprpKeyMaterialLength <> 0 \/ nrHops < 1) then
     Err "sphinx: invalid SURB decryption keys"
   else if bool_decide (length payload < PayloadTagLength g) then Err errTruncatedPayload
   else
     b ← undoHops nrHops keys payload;
     t ← slice_to b (PayloadTagLength g);
     if CtIsZero t then slice_from b (PayloadTagLength g) else Err errInvalidTag,
   ExplicitBzero keys).

End Sphinx.
