(* ===== verification/SphinxLayers.v ===== *)
(** The layering of a Sphinx header, independent of the key agreement.

    A header at hop [i] is the element of hop [i], the routing block [ri] the
    sender nested for the hops from [i] on, the padding the earlier hops
    accumulated, and the MAC over them.  This file shows that the command
    parser inverts the command encoder, that [routingStreams] computes the
    padding the hops will produce, and that [processHeader] peels one layer. *)

From S2P Require Import Prelude Schemes SphinxGeo SphinxCommands SphinxCrypto SphinxPacket.
From Stdlib Require Import ZArith Lia.
From stdpp Require Import prelude list strings.

(** ** Exclusive or of byte strings *)

Abbreviation xor := (zip_with Z.lxor).

Lemma length_xor (a b : bytes) : length a = length b -> length (xor a b) = length a.
Proof. intros. rewrite length_zip_with. lia. Qed.

Lemma xor_cancel (a k : bytes) : length a = length k -> xor (xor a k) k = a.
Proof.
  revert k. induction a as [|x a IH]; intros [|y k] H; try done.
  simpl in *. rewrite Z.lxor_assoc, Z.lxor_nilpotent, Z.lxor_0_r, IH; [done|lia].
Qed.

Lemma xor_app (a b k : bytes) :
  length a + length b = length k ->
  xor (a ++ b) k = xor a (take (length a) k) ++ xor b (drop (length a) k).
Proof.
  intros H. rewrite <- (take_drop (length a) k) at 1.
  apply zip_with_app. rewrite length_take. lia.
Qed.

Lemma xorBytes_ok (a b : bytes) : length a = length b -> xorBytes a b = Ok (xor a b).
Proof. intros. unfold xorBytes. by rewrite bool_decide_eq_true_2. Qed.

(** ** Encoded command lists *)

Definition encode (cmds : list RoutingCommand) : bytes :=
  concat (map (fun c => ToBytes c []) cmds).

Definition isSURBReply (c : RoutingCommand) : bool :=
  match c with SURBReply _ => true | _ => false end.

Definition hasSURB (cmds : list RoutingCommand) : bool := existsb isSURBReply cmds.

Fixpoint oneSURB (cmds : list RoutingCommand) : bool :=
  match cmds with
  | [] => true
  | c :: cmds => if isSURBReply c then negb (hasSURB cmds) else oneSURB cmds
  end.

(** What a sender may put in a hop's command list. *)
Definition valid_commands (cmds : list RoutingCommand) : Prop :=
  Forall (fun c => wf_command c /\ isNextNodeHop c = false) cmds /\ oneSURB cmds = true.

Lemma encode_cons c cmds : encode (c :: cmds) = ToBytes c [] ++ encode cmds.
Proof. done. Qed.

Lemma appendCommands_ok cmds b :
  Forall (fun c => wf_command c /\ isNextNodeHop c = false) cmds ->
  appendCommands cmds b = Ok (b ++ encode cmds).
Proof.
  intros H. revert b. induction H as [|c cmds [Hwf Hn] _ IH]; intros b; simpl.
  - unfold encode. simpl. by rewrite app_nil_r.
  - by rewrite Hn, IH, encode_cons, (ToBytes_app c b), app_assoc.
Qed.

Lemma length_encode_ge cmds :
  Forall (fun c => wf_command c /\ isNextNodeHop c = false) cmds ->
  length cmds <= length (encode cmds).
Proof.
  induction 1 as [|c cmds [Hwf Hn] _ IH]; [simpl; lia|].
  rewrite encode_cons, length_app, length_ToBytes by done. destruct c; simpl in *; try done; lia.
Qed.

Lemma hasSURB_oneSURB cmds : hasSURB cmds = false -> oneSURB cmds = true.
Proof.
  induction cmds as [|c cmds IH]; [done|]. simpl. destruct (isSURBReply c); [done|auto].
Qed.

Section Parse.

Context (name : string) (g : Geometry) (Hg : NextNodeHopLength g = nextNodeHopSize).

(** The parser consumes a valid encoded list and records its commands. *)
Lemma parse_encode cmds f tail nn sr acc :
  valid_commands cmds -> (sr && hasSURB cmds = false) ->
  parseCommands name g (length cmds + f) (encode cmds ++ tail) nn sr acc =
  parseCommands name g f tail nn (sr || hasSURB cmds) (acc ++ cmds).
Proof.
  intros [Hc Ho]. revert sr acc Ho.
  induction Hc as [|c cmds [Hwf Hn] _ IH]; intros sr acc Ho Hs.
  - simpl. by rewrite orb_false_r, app_nil_r.
  - rewrite encode_cons, <- app_assoc. cbn [length Nat.add parseCommands].
    rewrite FromBytes_ToBytes by done. go.
    rewrite (cons_middle c acc cmds), app_assoc.
    destruct c as [id mac|id|id|d]; try done; simpl in Ho, Hs |- *.
    + by rewrite IH.
    + apply negb_true_iff in Ho. rewrite andb_true_r in Hs. subst sr.
      rewrite IH; [by rewrite Ho|by apply hasSURB_oneSURB|by rewrite Ho].
    + by rewrite IH.
Qed.

(** The block of a forwarding hop: its commands, then the next node. *)
Lemma parse_forward cmds id mac m :
  valid_commands cmds -> length id = NodeIDLength -> length mac = MACLength ->
  let buf := NextNodeHop_ToBytes id mac (encode cmds) ++ zeros m in
  parseCommands name g (S (length buf)) buf None false [] =
  Ok (cmds ++ [NextNodeHop id mac], Some mac, hasSURB cmds).
Proof.
  intros Hc Hid Hmac buf. subst buf.
  change (NextNodeHop_ToBytes id mac (encode cmds))
    with (encode cmds ++ ToBytes (NextNodeHop id mac) []).
  rewrite <- app_assoc. set (tail := ToBytes (NextNodeHop id mac) [] ++ zeros m).
  assert (Hf : exists f, S (length (encode cmds ++ tail)) = length cmds + S (S f)).
  { pose proof (length_encode_ge cmds (proj1 Hc)).
    exists (length (encode cmds ++ tail) - length cmds - 1).
    subst tail. rewrite length_app, (length_app (ToBytes _ _)), length_ToBytes by (by split).
    cbv [nextNodeHopSize CommandTagLength NodeIDLength MACLength]. lia. }
  destruct Hf as [f ->]. rewrite parse_encode by done. subst tail.
  cbn [parseCommands]. rewrite FromBytes_ToBytes by (try split; done). go.
  rewrite FromBytes_zeros. go. by rewrite app_nil_l.
Qed.

(** The block of the last hop: its commands, then padding. *)
Lemma parse_terminal cmds m :
  valid_commands cmds ->
  let buf := encode cmds ++ zeros m in
  parseCommands name g (S (length buf)) buf None false [] = Ok (cmds, None, hasSURB cmds).
Proof.
  intros Hc buf. subst buf.
  assert (Hf : exists f, S (length (encode cmds ++ zeros m)) = length cmds + S f).
  { pose proof (length_encode_ge cmds (proj1 Hc)).
    exists (length (encode cmds ++ zeros m) - length cmds). rewrite length_app. lia. }
  destruct Hf as [f ->]. rewrite parse_encode by done.
  cbn [parseCommands]. rewrite FromBytes_zeros. go. done.
Qed.

End Parse.

(** ** Key streams and padding *)

Lemma xor_comm (a b : bytes) : xor a b = xor b a.
Proof.
  revert b. induction a as [|x a IH]; intros [|y b]; simpl; auto.
  by rewrite Z.lxor_comm, IH.
Qed.

Lemma xor_zeros n (k : bytes) : length k = n -> xor (zeros n) k = k.
Proof.
  intros <-. induction k as [|x k IH]; [done|].
  change (zeros (length (x :: k))) with (0%Z :: zeros (length k)). simpl. by rewrite IH.
Qed.

(** Overwriting a prefix. *)
Lemma copy_at_prefix (dst src : bytes) n :
  length src = n -> n <= length dst -> copy_at dst 0 n src = src ++ drop n dst.
Proof.
  intros Hs Hn. rewrite <- (take_drop n dst) at 1.
  apply (copy_at_mid [] (take n dst) (drop n dst)); golen.
Qed.

Section Layers.

Context {N : Nike} {K : Kem} {S : SymPrims} {SL : SymPrimsLaws S} {SK : Type}.
Context (g : Geometry).

Abbreviation P := (PerHopRoutingInfoLength g).
Abbreviation RI := (RoutingInfoLength g).

Context (HRI : RI = NrHops g * P).

(** The header key stream of a hop, and the padding it leaves behind. *)
Definition headerStream (k : PacketKeys SK) : bytes :=
  aes_ctr (HeaderEncryption k) (HeaderEncryptionIV k) (RI + P).

Definition nextPad (i : nat) (k : PacketKeys SK) (prev : bytes) : bytes :=
  xor (prev ++ zeros P) (drop (RI - i * P) (headerStream k)).

(** The stream and padding fields of the hops from hop [i] on. *)
Fixpoint layered (i : nat) (prev : bytes) (hs : list (@hopInfo N K SK)) : Prop :=
  match hs with
  | [] => True
  | h :: hs =>
    h_prevPad h = prev /\ h_ks h = take (RI - i * P) (headerStream (h_key h)) /\
    layered (i + 1) (nextPad i (h_key h) prev) hs
  end.

Lemma length_headerStream k : length (headerStream k) = RI + P.
Proof. apply aes_ctr_length. Qed.

Lemma length_nextPad i k prev :
  (i + 1) * P <= RI -> length prev = i * P -> length (nextPad i k prev) = (i + 1) * P.
Proof.
  intros. unfold nextPad. rewrite length_xor; golen. rewrite length_headerStream. lia.
Qed.

(** The padding [routingStreams] computes is the one the hops will leave. *)
Lemma pad_step i k prev :
  (i + 1) * P <= RI -> length prev = i * P ->
  let pad := drop (RI - i * P) (headerStream k) in
  (if bool_decide (0 < i) then
     head ← slice_to pad (length prev);
     x ← xorBytes head prev;
     Ok (copy_at pad 0 (length prev) x)
   else Ok pad) = Ok (nextPad i k prev).
Proof.
  intros Hi Hp pad.
  assert (Hpad : length pad = (i + 1) * P).
  { subst pad. rewrite length_drop, length_headerStream. lia. }
  assert (Hnext : nextPad i k prev = xor (take (length prev) pad) prev ++ drop (length prev) pad).
  { unfold nextPad. fold pad. rewrite xor_app by golen. f_equal; [apply xor_comm|].
    apply xor_zeros. golen. }
  case_bool_decide as H0.
  - rewrite slice_to_cut by lia. go. rewrite xorBytes_ok by golen. go.
    rewrite copy_at_prefix by (rewrite ?length_xor; golen). by rewrite Hnext.
  - assert (i = 0) as -> by lia. destruct prev; [|done]. by rewrite Hnext.
Qed.

Lemma routingStreams_layered keys : forall i prev,
  i + length keys <= NrHops g -> length prev = i * P ->
  exists streams, routingStreams g i prev keys = Ok streams /\
    length streams = length keys /\
    forall path elems, length path = length keys -> length elems = length keys ->
      layered i prev (hopInfos path keys elems streams prev) /\
      map h_path (hopInfos path keys elems streams prev) = path /\
      map h_key (hopInfos path keys elems streams prev) = keys /\
      map h_elem (hopInfos path keys elems streams prev) = elems.
Proof.
  induction keys as [|k keys IH]; intros i prev Hi Hp.
  - exists []. split_and!; [done..|]. by intros [|] [|].
  - simpl in Hi. assert (HP : (i + 1) * P <= RI) by (rewrite HRI; apply Nat.mul_le_mono_r; lia).
    destruct (IH (i + 1) (nextPad i k prev)) as (streams & Hs & Hl & Hlay).
    { lia. } { by apply length_nextPad. }
    exists ((take (RI - i * P) (headerStream k), nextPad i k prev) :: streams).
    split_and!; [|by simpl; rewrite Hl|].
    + cbn [routingStreams]. rewrite KeyStream_eq, length_zeros. fold (headerStream k).
      rewrite length_headerStream, bool_decide_eq_false_2 by lia.
      replace (RI + P - (i + 1) * P) with (RI - i * P) by lia.
      rewrite slice_to_cut, slice_from_cut by (rewrite length_headerStream; lia). go.
      rewrite pad_step by done. go. by rewrite Hs.
    + intros [|p path] [|e elems] Hpl Hel; try done. simpl in *.
      destruct (Hlay path elems) as (? & -> & -> & ->); [lia..|]. done.
Qed.

(** Decrypting the padded block of hop [i] exposes its fragment, the nested
    block of the next hop, and the next padding. *)
Lemma decrypt_layer i k prev frag ri' :
  (i + 1) * P <= RI -> length prev = i * P -> length frag = P ->
  length ri' = RI - (i + 1) * P ->
  XORKeyStream (HeaderEncryption k) (HeaderEncryptionIV k)
    (copy_at (zeros (RI + P)) 0 RI
       (xor (frag ++ ri') (take (RI - i * P) (headerStream k)) ++ prev)) =
  frag ++ ri' ++ nextPad i k prev.
Proof.
  intros Hi Hp Hf Hr.
  assert (Hn : length (frag ++ ri') = RI - i * P) by (rewrite length_app; lia).
  assert (Hx : length (xor (frag ++ ri') (take (RI - i * P) (headerStream k))) = RI - i * P).
  { rewrite length_xor; [done|]. rewrite length_take, length_headerStream. lia. }
  rewrite copy_at_prefix by golen.
  unfold zeros at 1. rewrite drop_replicate. replace (RI + P - RI) with P by lia.
  fold (zeros P). unfold XORKeyStream.
  replace (length _) with (RI + P) by golen. fold (headerStream k).
  rewrite <- app_assoc, xor_app by (rewrite length_headerStream; golen).
  rewrite Hx, xor_cancel by (rewrite length_take, length_headerStream; lia).
  by rewrite <- app_assoc.
Qed.

End Layers.

(** ** Peeling one layer *)

Section Peel.

Context {N : Nike} {K : Kem} {S : SymPrims} {SL : SymPrimsLaws S} {SK : Type}.
Context (g : Geometry).

Abbreviation P := (PerHopRoutingInfoLength g).
Abbreviation RI := (RoutingInfoLength g).

(** A packet at a hop: version, element, routing block, MAC, payload. *)
Definition packetOf (elem blk mac pl : bytes) : bytes := v0AD ++ elem ++ blk ++ mac ++ pl.

(** The state of an authentic packet: its MAC verifies under the hop's key, and
    its routing block decrypts to the hop's fragment and the next block. *)
Record authentic (k : PacketKeys SK) (elem blk mac frag newri : bytes) : Prop := {
  au_blk : length blk = RI;
  au_mac : mac = macSum (HeaderMAC k) [v0AD; elem; blk];
  au_open : XORKeyStream (HeaderEncryption k) (HeaderEncryptionIV k)
              (copy_at (zeros (RI + P)) 0 RI blk) = frag ++ newri;
  au_frag : length frag = P;
}.

Lemma macSum_concat key ws : macSum key [concat ws] = macSum key ws.
Proof. unfold macSum. simpl. by rewrite app_nil_r. Qed.

Lemma authentic_mac k elem blk mac frag newri :
  authentic k elem blk mac frag newri -> length mac = MACLength.
Proof. intros [_ -> _ _]. apply hmac_length. Qed.

Lemma authentic_newri k elem blk mac frag newri :
  authentic k elem blk mac frag newri -> length newri = RI.
Proof.
  intros [Hb _ Ho Hf]. apply (f_equal length) in Ho.
  rewrite length_XORKeyStream in Ho. unfold copy_at in Ho.
  autorewrite with golen in Ho. lia.
Qed.

(** Where the parts of a packet lie. *)
Section PacketParts.

Context (elem blk mac pl : bytes) (Hb : length blk = RI) (Hm : length mac = MACLength).

Abbreviation pkt := (packetOf elem blk mac pl).

Lemma packet_macd : slice pkt 0 (2 + length elem + RI) = Ok (v0AD ++ elem ++ blk).
Proof.
  apply (slice_mid' _ [] _ (mac ++ pl)); [by unfold packetOf; rewrite <- !app_assoc|done|].
  golen. simpl. lia.
Qed.

Lemma packet_mac :
  slice pkt (2 + length elem + RI) (2 + length elem + RI + MACLength) = Ok mac.
Proof.
  apply (slice_mid' _ (v0AD ++ elem ++ blk) _ pl); [by unfold packetOf; rewrite <- !app_assoc|..];
    golen; simpl; lia.
Qed.

Lemma packet_blk : slice pkt (2 + length elem) (2 + length elem + RI) = Ok blk.
Proof.
  apply (slice_mid' _ (v0AD ++ elem) _ (mac ++ pl)); [by unfold packetOf; rewrite <- !app_assoc|..];
    golen; simpl; lia.
Qed.

Lemma packet_pl : slice_from pkt (2 + length elem + RI + MACLength) = Ok pl.
Proof.
  replace pkt with ((v0AD ++ elem ++ blk ++ mac) ++ pl)
    by (by unfold packetOf; rewrite <- !app_assoc).
  apply slice_from_app. golen. simpl. lia.
Qed.

(** The in-place update of the forwarding branch rebuilds a packet. *)
Lemma packet_update elem' newri mac' pl' :
  length elem' = length elem -> length newri = RI -> length mac' = MACLength ->
  length pl' = length pl ->
  let pkt := copy_at pkt 2 (2 + length elem) elem' in
  let pkt := copy_at pkt (2 + length elem) (2 + length elem + RI) newri in
  let pkt := copy_at pkt (2 + length elem + RI) (2 + length elem + RI + MACLength) mac' in
  copy_at pkt (2 + length elem + RI + MACLength) (length pkt) pl' = packetOf elem' newri mac' pl'.
Proof.
  intros He Hr Hm' Hp. cbv zeta. unfold packetOf.
  rewrite (copy_at_mid v0AD elem) by (simpl; lia).
  rewrite (app_assoc v0AD), (copy_at_mid (v0AD ++ elem') blk) by (golen; simpl; lia).
  rewrite (app_assoc _ newri), (copy_at_mid ((v0AD ++ elem') ++ newri) mac) by (golen; simpl; lia).
  rewrite (app_assoc _ mac'). rewrite <- (app_nil_r pl).
  rewrite (copy_at_mid (((v0AD ++ elem') ++ newri) ++ mac') pl) by (golen; simpl; lia).
  by rewrite app_nil_r, <- !app_assoc.
Qed.

End PacketParts.

(** After the MAC check and the header decryption, what is left of
    [processHeader] depends only on the parsed commands and the payload. *)
Lemma processHeader_opened name k tag elem blk mac pl pl' frag newri cmdLen nextElem res :
  authentic k elem blk mac frag newri -> cmdLen <= P ->
  let cmdBuf := take cmdLen frag in
  parseCommands name g (Datatypes.S (length cmdBuf)) cmdBuf None false [] = Ok res ->
  0 < length pl -> SPRPDecrypt (PayloadEncryption k) (HeaderEncryptionIV k) pl = Ok pl' ->
  processHeader name g k tag (packetOf elem blk mac pl) (2 + length elem) (Some cmdLen) nextElem =
  match res with
  | (cmds, Some mac', _) =>
    elem' ← nextElem (frag ++ newri);
    let pkt := copy_at (packetOf elem blk mac pl) 2 (2 + length elem) elem' in
    let pkt := copy_at pkt (2 + length elem) (2 + length elem + RI) newri in
    let pkt := copy_at pkt (2 + length elem + RI) (2 + length elem + RI + MACLength) mac' in
    let pkt := if bool_decide (0 < length pl')
               then copy_at pkt (2 + length elem + RI + MACLength) (length pkt) pl' else pkt in
    Ok (mkUnwrap None (Some tag) cmds None pkt)
  | (cmds, None, surbReply) =>
    if bool_decide (length pl' < PayloadTagLength g) then
      unwrapErr (Some tag) errTruncatedPayload (packetOf elem blk mac pl)
    else if surbReply then Ok (mkUnwrap (Some pl') (Some tag) cmds None (packetOf elem blk mac pl))
    else
      t ← slice_to pl' (PayloadTagLength g);
      if CtIsZero t then
        payload ← slice_from pl' (PayloadTagLength g);
        Ok (mkUnwrap (Some payload) (Some tag) cmds None (packetOf elem blk mac pl))
      else unwrapErr (Some tag) errInvalidTag (packetOf elem blk mac pl)
  end.
Proof.
  intros Ha Hc cmdBuf Hp Hpl Hd. pose proof (authentic_mac _ _ _ _ _ _ Ha) as Hm.
  pose proof (authentic_newri _ _ _ _ _ _ Ha) as Hr. destruct Ha as [Hb Hmac Ho Hf].
  unfold processHeader. cbv zeta.
  go_step (by apply packet_macd). go_step (by apply packet_mac).
  rewrite bool_decide_eq_true_2.
  2: { rewrite Hmac, <- (macSum_concat _ [v0AD; elem; blk]). simpl. by rewrite app_nil_r. }
  cbn [negb].
  go_step (by apply packet_blk). rewrite Ho.
  go_step (by apply slice_from_app). cbn [deref]. go.
  go_step (rewrite slice_to_cut by golen; by rewrite take_app_le by lia).
  fold cmdBuf. rewrite Hp. destruct res as [[cmds nn] sr].
  go_step (by apply packet_pl). rewrite bool_decide_eq_true_2 by done.
  go_step (exact Hd). done.
Qed.

End Peel.
