(* ===== verification/SphinxJourney.v ===== *)
(** The journey of a Sphinx packet, independent of the key agreement.

    [route] is the abstract specification: every hop of a path learns exactly
    the commands the sender gave it and the identifier of the next hop.
    [travel] hands a packet from hop to hop through an unwrap function.  The
    file shows that a header built by [routingInfo] over a [layered] list of
    hops takes [travel] along [route] and delivers the payload. *)

From S2P Require Import Prelude Schemes SphinxGeo SphinxCommands SphinxCrypto SphinxPacket SphinxLayers.
From Stdlib Require Import ZArith Lia.
From stdpp Require Import prelude list strings.

(** ** Specification *)

(** What a hop acts on: its own commands, and the next hops named. *)
Definition nextIDs (cmds : list RoutingCommand) : list bytes :=
  omap (fun c => match c with NextNodeHop id _ => Some id | _ => None end) cmds.

Definition view (cmds : list RoutingCommand) : list RoutingCommand * list bytes :=
  (List.filter (fun c => negb (isNextNodeHop c)) cmds, nextIDs cmds).

Section Route.

Context {N : Nike} {K : Kem}.

Fixpoint route (path : list (@PathHop N K)) : list (list RoutingCommand * list bytes) :=
  match path with
  | [] => []
  | h :: rest =>
    (Commands h, match rest with [] => [] | nx :: _ => [ID nx] end) :: route rest
  end.

(** Unwrap at each hop in turn until a hop delivers a payload. *)
Fixpoint travel {Priv : Type} (unwrap : Priv -> bytes -> outcome UnwrapResult)
    (sks : list Priv) (pkt : bytes) : outcome (list (list RoutingCommand * list bytes) * bytes) :=
  match sks with
  | [] => Err "packet not delivered"
  | sk :: sks =>
    r ← unwrap sk pkt;
    match uw_err r, uw_payload r with
    | Some e, _ => Err e
    | None, Some p => Ok ([view (uw_cmds r)], p)
    | None, None =>
      '(vs, p) ← travel unwrap sks (uw_pkt r);
      Ok (view (uw_cmds r) :: vs, p)
    end
  end.

(** ** Valid paths *)

(** A hop with room in its block for its commands, [ext] bytes of trailer and,
    unless it is the last, the next-node command. *)
Record valid_hop (g : Geometry) (ext : nat) (terminal : bool) (h : @PathHop N K) : Prop := {
  vh_id : length (ID h) = NodeIDLength;
  vh_cmds : valid_commands (Commands h);
  vh_room : length (encode (Commands h)) + (if terminal then 0 else nextNodeHopSize) + ext
            <= PerHopRoutingInfoLength g;
}.

Fixpoint valid_path (g : Geometry) (ext : nat) (path : list (@PathHop N K)) : Prop :=
  match path with
  | [] => True
  | h :: rest =>
    valid_hop g ext (match rest with [] => true | _ => false end) h /\ valid_path g ext rest
  end.

End Route.

Lemma view_terminal cmds : valid_commands cmds -> view cmds = (cmds, []).
Proof.
  intros [Hc _]. unfold view, nextIDs.
  assert (List.filter (fun c => negb (isNextNodeHop c)) cmds = cmds /\
    omap (fun c => match c with NextNodeHop id _ => Some id | _ => None end) cmds = [])
    as [-> ->]; [|done].
  induction Hc as [|c cmds [_ Hn] _ [IH1 IH2]]; [done|].
  simpl. rewrite Hn. simpl. rewrite IH1. by destruct c.
Qed.

Lemma view_forward cmds id mac :
  valid_commands cmds -> view (cmds ++ [NextNodeHop id mac]) = (cmds, [id]).
Proof.
  intros Hc. pose proof (view_terminal cmds Hc) as H. unfold view, nextIDs in *.
  injection H as H1 H2. by rewrite List.filter_app, omap_app, H1, H2, app_nil_r.
Qed.

Section Journey.

Context {N : Nike} {K : Kem} {S : SymPrims} {SL : SymPrimsLaws S} {SK : Type}.
Context (g : Geometry) (elemSize ext : nat).
Context (HRI : RoutingInfoLength g = NrHops g * PerHopRoutingInfoLength g)
        (HNN : NextNodeHopLength g = nextNodeHopSize).

Abbreviation P := (PerHopRoutingInfoLength g).
Abbreviation RI := (RoutingInfoLength g).

(** How the header links a fragment to the next hop, as the loop computes it
    and as the bytes it leaves at the end of the block. *)
Context (link : @hopInfo N K SK -> bytes -> outcome bytes) (linkTail : @hopInfo N K SK -> bytes).
Context (Hlink : forall nx x, length x + ext <= P -> length (h_elem nx) = elemSize ->
           length (linkTail nx) = ext /\
           link nx (x ++ zeros (P - length x)) = Ok ((x ++ zeros (P - ext - length x)) ++ linkTail nx)).

(** ** The nested header *)

(** [nested hs blk mac]: the routing block [blk] and [mac] carry the hops [hs],
    each authentic for its hop and opening to the next. *)
Inductive nested : list (@hopInfo N K SK) -> bytes -> bytes -> Prop :=
  | nested_last (h : @hopInfo N K SK) blk mac m newri :
      authentic g (h_key h) (h_elem h) blk mac (encode (Commands (h_path h)) ++ zeros m) newri ->
      nested [h] blk mac
  | nested_forward (h nx : @hopInfo N K SK) rest blk mac blk' mac' m :
      authentic g (h_key h) (h_elem h) blk mac
        ((NextNodeHop_ToBytes (ID (h_path nx)) mac' (encode (Commands (h_path h))) ++ zeros m)
           ++ linkTail nx) blk' ->
      length mac' = MACLength ->
      length (NextNodeHop_ToBytes (ID (h_path nx)) mac' (encode (Commands (h_path h))) ++ zeros m)
        = P - ext ->
      nested (nx :: rest) blk' mac' ->
      nested (h :: nx :: rest) blk mac.

Lemma commandsToBytes_ok cmds (terminal : bool) :
  valid_commands cmds ->
  length (encode cmds) + (if terminal then 0 else nextNodeHopSize) <= P ->
  commandsToBytes g cmds terminal = Ok (encode cmds).
Proof.
  intros [Hc _] Hl. unfold commandsToBytes. rewrite appendCommands_ok by done. go.
  rewrite app_nil_l, bool_decide_eq_false_2 by lia.
  destruct terminal; [done|]. rewrite HNN, bool_decide_eq_false_2 by lia. done.
Qed.

(** One round of the loop, given the fragment: the block it adds is authentic. *)
Lemma add_layer i (h : @hopInfo N K SK) prev frag ri' ri :
  (i + 1) * P <= RI -> length prev = i * P -> length frag = P ->
  length ri' = RI - (i + 1) * P ->
  ri = xor (frag ++ ri') (take (RI - i * P) (headerStream g (h_key h))) ->
  length ri = RI - i * P /\
  authentic g (h_key h) (h_elem h) (ri ++ prev)
    (macSum (HeaderMAC (h_key h)) [v0AD; h_elem h; ri; prev]) frag
    (ri' ++ nextPad g i (h_key h) prev).
Proof.
  intros Hi Hp Hf Hr Hri.
  assert (Hl : length ri = RI - i * P).
  { subst ri. rewrite length_xor; golen. rewrite length_headerStream. lia. }
  split; [done|]. constructor; [golen| |subst ri; by apply decrypt_layer|done].
  unfold macSum. simpl. by rewrite <- !app_assoc.
Qed.

Lemma length_NextNodeHop id mac b :
  length id = NodeIDLength -> length mac = MACLength ->
  length (NextNodeHop_ToBytes id mac b) = length b + nextNodeHopSize.
Proof.
  intros Hid Hmac. unfold NextNodeHop_ToBytes. golen.
  unfold nextNodeHopSize, CommandTagLength. lia.
Qed.

(** The loop around one fragment: it adds one authentic layer. *)
Lemma routing_round i (h : @hopInfo N K SK) prev frag ri' :
  h_prevPad h = prev -> h_ks h = take (RI - i * P) (headerStream g (h_key h)) ->
  (i + 1) * P <= RI -> length prev = i * P -> length frag = P ->
  length ri' = RI - (i + 1) * P ->
  exists ri mac,
    (ri ← xorBytes (frag ++ ri') (h_ks h);
     Ok (ri, macSum (HeaderMAC (h_key h)) [v0AD; h_elem h; ri; h_prevPad h])) = Ok (ri, mac) /\
    length ri = RI - i * P /\ length mac = MACLength /\
    authentic g (h_key h) (h_elem h) (ri ++ prev) mac frag (ri' ++ nextPad g i (h_key h) prev).
Proof.
  intros Hprev Hks Hi Hp Hf Hr.
  assert (Hlen : length (frag ++ ri') = length (h_ks h)).
  { rewrite Hks, length_take, length_headerStream. golen. }
  destruct (add_layer i h prev frag ri' (xor (frag ++ ri') (h_ks h))) as [Hl Ha];
    [done..|by rewrite Hks|].
  exists (xor (frag ++ ri') (h_ks h)).
  eexists. rewrite xorBytes_ok by done. go. rewrite Hprev.
  split_and!; [done..|apply (authentic_mac _ _ _ _ _ _ _ Ha)|exact Ha].
Qed.

(** The routing-information loop builds a nested header. *)
Lemma routingInfo_nested skipped h hs : forall i prev,
  layered g i prev (h :: hs) -> i + length (h :: hs) <= NrHops g -> length prev = i * P ->
  valid_path g ext (map h_path (h :: hs)) ->
  Forall (fun x => length (h_elem x) = elemSize) (h :: hs) ->
  length skipped = (NrHops g - i - length (h :: hs)) * P ->
  exists ri mac, routingInfo g link skipped (h :: hs) = Ok (ri, mac) /\
    length ri = RI - i * P /\ length mac = MACLength /\ nested (h :: hs) (ri ++ prev) mac.
Proof.
  revert h. induction hs as [|nx hs IH]; intros h i prev Hlay Hi Hp Hv He Hsk.
  all: destruct Hlay as (Hprev & Hks & Hlay); destruct Hv as [[Hid Hc Hroom] Hv'].
  all: assert (HiP : (i + 1) * P <= RI) by (rewrite HRI; apply Nat.mul_le_mono_r; simpl in Hi; lia).
  - destruct (routing_round i h prev
      (encode (Commands (h_path h)) ++ zeros (P - length (encode (Commands (h_path h))))) skipped)
      as (ri & mac & Hr & Hl & Hm & Ha); [done..|golen| |].
    { rewrite Hsk, HRI. simpl. rewrite <- Nat.mul_sub_distr_r. f_equal. lia. }
    exists ri, mac. split_and!; [|done..|eapply nested_last; exact Ha].
    cbn [routingInfo]. go. rewrite commandsToBytes_ok by (done || lia). go. exact Hr.
  - inversion He as [|? ? He1 He2]; subst. inversion He2 as [|? ? Henx _]; subst.
    destruct (IH nx (i + 1) (nextPad g i (h_key h) (h_prevPad h))) as (ri' & mac' & Hr' & Hl' & Hm' & Hn');
      [done|simpl in *; lia|by apply length_nextPad|done|done| |]. 
    { rewrite Hsk. f_equal. simpl. lia. }
    assert (Hidn : length (ID (h_path nx)) = NodeIDLength) by apply Hv'.
    set (x := NextNodeHop_ToBytes (ID (h_path nx)) mac' (encode (Commands (h_path h)))).
    assert (Hx : length x = length (encode (Commands (h_path h))) + nextNodeHopSize)
      by (by apply length_NextNodeHop).
    simpl in Hroom. destruct (Hlink nx x) as [Htl Hlk]; [lia|done|].
    destruct (routing_round i h (h_prevPad h)
      ((x ++ zeros (P - ext - length x)) ++ linkTail nx) ri')
      as (ri & mac & Hr & Hl & Hm & Ha); [done..|golen|lia|].
    exists ri, mac. split_and!; [|done..|].
    + change (routingInfo g link skipped (h :: nx :: hs)) with
        ('(ri, mac) ← routingInfo g link skipped (nx :: hs);
         frag ← commandsToBytes g (Commands (h_path h)) false;
         let frag := NextNodeHop_ToBytes (copy_into (zeros NodeIDLength) (ID (h_path nx)))
                       (copy_into (zeros MACLength) mac) frag in
         let frag := frag ++ zeros (P - length frag) in
         frag ← link nx frag;
         ri ← xorBytes (frag ++ ri) (h_ks h);
         Ok (ri, macSum (HeaderMAC (h_key h)) [v0AD; h_elem h; ri; h_prevPad h])).
      rewrite Hr'.
      cbn [mbind outcome_bind]. rewrite commandsToBytes_ok by (done || lia).
      cbn [mbind outcome_bind]. rewrite !copy_zeros by done. fold x. rewrite Hlk. exact Hr.
    + eapply nested_forward; [exact Ha|done|golen; subst x; lia|exact Hn'].
Qed.

(** ** Unwrapping hop by hop *)

Context {Priv : Type} (unwrap : Priv -> bytes -> outcome (@UnwrapResult)) (name : string).

(** Each hop's key opens its layer, and forwards the next hop's element. *)
Fixpoint opens (hs : list (@hopInfo N K SK)) (sks : list Priv) : Prop :=
  match hs, sks with
  | [], [] => True
  | h :: hs, sk :: sks =>
    (exists tag nextElem,
      (forall blk mac pl, length blk = RI -> length mac = MACLength ->
         unwrap sk (packetOf (h_elem h) blk mac pl) =
         processHeader name g (h_key h) tag (packetOf (h_elem h) blk mac pl)
           (2 + length (h_elem h)) (Some (P - ext)) nextElem) /\
      (forall nx rest x y, hs = nx :: rest -> length x = P - ext ->
         nextElem ((x ++ linkTail nx) ++ y) = Ok (h_elem nx))) /\
    opens hs sks
  | _, _ => False
  end.

(** The payload the last hop hands over: everything for a SURB reply, and what
    follows the zero tag otherwise. *)
Definition delivers (cmds : list RoutingCommand) (b out : bytes) : Prop :=
  if hasSURB cmds then out = b /\ PayloadTagLength g <= length b
  else b = zeros (PayloadTagLength g) ++ out.

Lemma encryptPayload_length (keys : list sprpKey) b : length (encryptPayload keys b) = length b.
Proof.
  induction keys as [|k keys IH]; [done|]. simpl. unfold SPRPEncrypt.
  by rewrite aez_encrypt_length.
Qed.

Lemma travel_last h blk mac m newri sk sks b out :
  authentic g (h_key h) (h_elem h) blk mac (encode (Commands (h_path h)) ++ zeros m) newri ->
  opens [h] (sk :: sks) -> valid_path g ext [h_path h] -> 0 < length b ->
  delivers (Commands (h_path h)) b out ->
  travel unwrap (sk :: sks)
    (packetOf (h_elem h) blk mac (encryptPayload (sprpKeys [h_key h]) b)) =
  Ok (route [h_path h], out).
Proof.
  clear Hlink link. intros Ha [(tg & ne & Hu & _) _] [[Hid Hc Hroom] _] Hb Hd. cbn [travel].
  rewrite Hu by (by eapply au_blk || by eapply authentic_mac). simpl encryptPayload.
  pose proof (au_frag _ _ _ _ _ _ _ Ha) as Hfl. autorewrite with golen in Hfl.
  rewrite (processHeader_opened g name _ _ _ _ _ _ b _ _ _ _
    (Commands (h_path h), None, hasSURB (Commands (h_path h))) Ha).
  - unfold delivers in Hd. destruct (hasSURB (Commands (h_path h))).
    + destruct Hd as [-> Hl]. rewrite bool_decide_eq_false_2 by lia.
      cbn [mbind outcome_bind uw_err uw_payload uw_cmds]. by rewrite view_terminal.
    + rewrite Hd, bool_decide_eq_false_2 by golen.
      rewrite slice_to_app, slice_from_app by (by rewrite length_zeros).
      cbn [mbind outcome_bind]. rewrite CtIsZero_zeros.
      cbn [mbind outcome_bind uw_err uw_payload uw_cmds]. by rewrite view_terminal.
  - lia.
  - rewrite take_app_ge by lia. unfold zeros. rewrite take_replicate. fold (zeros (P - ext - length (encode (Commands (h_path h))) `min` m)).
    by apply parse_terminal.
  - unfold SPRPEncrypt. by rewrite aez_encrypt_length.
  - apply SPRPDecrypt_Encrypt.
Qed.

(** A nested header takes the packet along its route. *)
Lemma travel_nested hs blk mac : nested hs blk mac -> forall sks b out,
  opens hs sks -> valid_path g ext (map h_path hs) ->
  Forall (fun x => length (h_elem x) = elemSize) hs -> 0 < length b ->
  (forall h, last hs = Some h -> delivers (Commands (h_path h)) b out) ->
  forall h0, head hs = Some h0 ->
  travel unwrap sks (packetOf (h_elem h0) blk mac (encryptPayload (sprpKeys (map h_key hs)) b)) =
  Ok (route (map h_path hs), out).
Proof.
  clear Hlink link.
  induction 1 as [h blk mac m newri Ha|h nx rest blk mac blk' mac' m Ha Hm Hl Hn IH];
    intros sks b out Ho Hv He Hb Hd h0 [= <-].
  - destruct sks as [|sk sks]; [done|]. eapply travel_last; eauto.
  - destruct sks as [|sk sks]; [done|]. destruct Ho as [(tg & ne & Hu & Hne) Ho].
    destruct Hv as [[Hid Hc Hroom] Hv]. inversion He as [|? ? He1 He2]; subst.
    inversion He2 as [|? ? Henx _]; subst. cbn [travel].
    rewrite Hu by (by eapply au_blk || by eapply authentic_mac).
    set (pl := encryptPayload (sprpKeys (map h_key (nx :: rest))) b).
    change (encryptPayload (sprpKeys (map h_key (h :: nx :: rest))) b) with
      (SPRPEncrypt (PayloadEncryption (h_key h)) (HeaderEncryptionIV (h_key h)) pl).
    assert (Hpl : length pl = length b) by apply encryptPayload_length.
    assert (Hen : length (SPRPEncrypt (PayloadEncryption (h_key h)) (HeaderEncryptionIV (h_key h)) pl)
      = length b) by (unfold SPRPEncrypt; by rewrite aez_encrypt_length).
    rewrite (processHeader_opened g name _ _ _ _ _ _ pl _ _ _ _
      (Commands (h_path h) ++ [NextNodeHop (ID (h_path nx)) mac'], Some mac',
        hasSURB (Commands (h_path h))) Ha).
    + rewrite (Hne nx rest) by done. cbn [mbind outcome_bind].
      rewrite bool_decide_eq_true_2 by lia.
      rewrite (packet_update g (h_elem h) blk mac _ (au_blk _ _ _ _ _ _ _ Ha)
        (authentic_mac _ _ _ _ _ _ _ Ha) (h_elem nx) blk' mac' pl)
        by (first [done | congruence | by eapply authentic_newri]).
      cbn [uw_err uw_payload uw_cmds uw_pkt].
      rewrite (IH sks b out Ho Hv He2 Hb) by (done || intros; apply Hd; done).
      cbn [mbind outcome_bind]. by rewrite view_forward.
    + lia.
    + rewrite take_app_le by lia. rewrite take_ge by lia. apply parse_forward; try done. apply Hv.
    + lia.
    + apply SPRPDecrypt_Encrypt.
Qed.

End Journey.
