(* ===== verification/SphinxDelivery.v ===== *)
(** Packets and reply blocks over a header, whatever key agreement made it.

    [good_header] is the contract between header creation and its clients: the
    header has the geometry's length, and any payload encrypted under the hop
    keys travels the route.  Forward packets, SURBs, packets made from SURBs and
    the decryption of their payloads are proved against this contract; the NIKE
    and KEM headers discharge it in their own files. *)

From S2P Require Import Prelude Schemes SphinxGeo SphinxCommands SphinxCrypto SphinxPacket SphinxLayers SphinxJourney.
From Stdlib Require Import ZArith Lia.
From stdpp Require Import prelude list strings.

(** The sizes of a geometry fit together, for an element of [elemSize] bytes. *)
Record consistent (elemSize : nat) (g : Geometry) : Prop := {
  cg_routing : RoutingInfoLength g = NrHops g * PerHopRoutingInfoLength g;
  cg_header : HeaderLength g = adLength + elemSize + RoutingInfoLength g + MACLength;
  cg_nextnode : NextNodeHopLength g = nextNodeHopSize;
  cg_tag : 0 < PayloadTagLength g <= PerHopRoutingInfoLength g;
  cg_surb : SURBLength g = HeaderLength g + NodeIDLength + sprpKeyMaterialLength;
}.

Section Randomness.

Context {N : Nike} {K : Kem}.

(** The entropy sources work, and the client key pair is a key pair. *)
Record good_randomness (rnd : @Randomness N K) : Prop := {
  gr_keypair : exists cpriv, rnd_keypair rnd = Ok (nike_Public cpriv, cpriv);
  gr_reader n : exists b, rnd_reader rnd n = Ok b /\ length b = n;
  gr_r n : exists b, rnd_r rnd n = Ok b /\ length b = n;
}.

Lemma skippedRouting_ok rnd g n :
  good_randomness rnd ->
  exists b, skippedRouting rnd g n = Ok b /\ length b = (NrHops g - n) * PerHopRoutingInfoLength g.
Proof.
  intros [_ Hr _]. unfold skippedRouting. case_bool_decide as H; [apply Hr|].
  exists []. split; [done|]. replace (NrHops g - n) with 0 by lia. done.
Qed.

End Randomness.

(** ** Packets from headers *)

Section Assemble.

Context {S : SymPrims} {SL : SymPrimsLaws S}.

(** Assembling a packet appends the layered encryption of tag and payload. *)
Lemma assemblePacket_ok g hdr keys payload :
  0 < PayloadTagLength g <= PerHopRoutingInfoLength g ->
  assemblePacket g hdr keys payload =
  Ok (hdr ++ encryptPayload keys (zeros (PayloadTagLength g) ++ payload)).
Proof.
  intros Ht. unfold assemblePacket. cbv zeta.
  rewrite slice_to_cut, take_zeros by golen. go. go_step (by apply slice_from_app).
  set (b := zeros _ ++ payload). f_equal. rewrite <- (app_nil_r b) at 1.
  rewrite (copy_at_mid hdr b []); [by rewrite app_nil_r|done|by rewrite length_app|].
  apply encryptPayload_length.
Qed.

(** Every payload is the layered encryption of what the hops will decrypt. *)
Lemma encryptPayload_onto (keys : list sprpKey) pl :
  exists b, encryptPayload keys b = pl /\ length b = length pl.
Proof.
  revert pl. induction keys as [|k keys IH]; intros pl; [by exists pl|].
  destruct (SPRPDecrypt_ok (sk_key k) (sk_iv k) pl) as (m & _ & He & Hl).
  destruct (IH m) as (b & Hb & Hlb). exists b. simpl. by rewrite Hb, Hlb.
Qed.

End Assemble.

(** ** The header contract *)

Section Header.

Context {N : Nike} {K : Kem} {S : SymPrims} {SL : SymPrimsLaws S} {Priv : Type}.

Definition wf_sprpKey (k : sprpKey) : Prop :=
  length (sk_key k) = SPRPKeyLength /\ length (sk_iv k) = SPRPIVLength.

(** The commands of the last hop. *)
Definition lastCommands (path : list (@PathHop N K)) : list RoutingCommand :=
  match last path with Some h => Commands h | None => [] end.

Record good_header (g : Geometry) (unwrap : Priv -> bytes -> outcome UnwrapResult)
    (path : list (@PathHop N K)) (sks : list Priv) (hdr : bytes) (keys : list sprpKey) : Prop := {
  gh_length : length hdr = HeaderLength g;
  gh_keys : length keys = length path /\ Forall wf_sprpKey keys;
  gh_travel b out :
    0 < length b -> delivers g (lastCommands path) b out ->
    travel unwrap sks (hdr ++ encryptPayload keys b) = Ok (route path, out);
}.

(** A nested header over the hops' keys and elements fulfils the contract. *)
Lemma nested_good_header {SK} g elemSize ext (linkTail : @hopInfo N K SK -> bytes)
    unwrap name hs h0 blk mac (sks : list Priv) :
  consistent elemSize g ->
  nested g ext linkTail hs blk mac -> head hs = Some h0 ->
  opens g ext linkTail unwrap name hs sks -> valid_path g ext (map h_path hs) ->
  Forall (fun x => length (h_elem x) = elemSize) hs ->
  Forall (fun x => wf_keys (h_key x)) hs -> length mac = MACLength ->
  length blk = RoutingInfoLength g ->
  good_header g unwrap (map h_path hs) sks (v0AD ++ h_elem h0 ++ blk ++ mac)
    (sprpKeys (map h_key hs)).
Proof.
  intros Hg Hn H0 Ho Hv He Hk Hm Hb. split.
  - destruct hs as [|h hs]; [done|]. injection H0 as ->. inversion He; subst.
    rewrite (cg_header _ _ Hg). unfold adLength. golen. simpl. lia.
  - unfold sprpKeys. rewrite !length_map. split; [done|].
    rewrite !List.Forall_map. eapply Forall_impl; [exact Hk|].
    intros h (_ & _ & Hiv & Hp). by split.
  - intros b out Hb0 Hd.
    replace ((v0AD ++ h_elem h0 ++ blk ++ mac) ++ _) with
      (packetOf (h_elem h0) blk mac (encryptPayload (sprpKeys (map h_key hs)) b))
      by (by unfold packetOf; rewrite <- !app_assoc).
    eapply travel_nested; eauto.
    + apply (cg_routing _ _ Hg).
    + apply (cg_nextnode _ _ Hg).
    + intros h Hl. unfold lastCommands in Hd.
      pose proof (fmap_last h_path hs) as Hf. rewrite Hl in Hf.
      change (h_path <$> hs) with (map h_path hs) in Hf. by rewrite Hf in Hd.
Qed.

(** ** Forward packets *)

Context (g : Geometry) (elemSize : nat) (Hg : consistent elemSize g)
        (unwrap : Priv -> bytes -> outcome UnwrapResult)
        (path : list (@PathHop N K)) (sks : list Priv) (hdr : bytes) (keys : list sprpKey)
        (Hh : good_header g unwrap path sks hdr keys).

(** A forward packet reaches the last hop, which gets the sender's payload. *)
Lemma assemblePacket_travels payload :
  hasSURB (lastCommands path) = false ->
  exists pkt, assemblePacket g hdr keys payload = Ok pkt /\
    length pkt = HeaderLength g + PayloadTagLength g + length payload /\
    travel unwrap sks pkt = Ok (route path, payload).
Proof.
  intros Hs. rewrite assemblePacket_ok by apply Hg. eexists. split_and!; [done| |].
  - rewrite length_app, encryptPayload_length, (gh_length _ _ _ _ _ _ Hh). golen.
  - apply (gh_travel _ _ _ _ _ _ Hh).
    + pose proof (cg_tag _ _ Hg). golen.
    + unfold delivers. by rewrite Hs.
Qed.

(** ** Reply blocks *)

Definition keyBlob (k : sprpKey) : bytes := sk_key k ++ sk_iv k.

Lemma undoHops_S n k b :
  undoHops (Datatypes.S n) k b =
  (key ← slice_to k SPRPKeyLength;
   iv ← slice_from k SPRPKeyLength;
   k ← slice_from k sprpKeyMaterialLength;
   b ← (if bool_decide (n = 0)
        then SPRPDecrypt (copy_into (zeros SPRPKeyLength) key) (copy_into (zeros SPRPIVLength) iv) b
        else Ok (SPRPEncrypt (copy_into (zeros SPRPKeyLength) key)
                   (copy_into (zeros SPRPIVLength) iv) b));
   undoHops n k b).
Proof. done. Qed.

(** The decryption loop re-applies the hop encryptions, last hop first, and
    ends with one decryption under the payload key. *)
Lemma undoHops_ok (rkeys : list sprpKey) kp b :
  Forall wf_sprpKey rkeys -> length kp = sprpKeyMaterialLength ->
  undoHops (Datatypes.S (length rkeys)) (concat (map keyBlob rkeys) ++ kp) b =
  SPRPDecrypt (take SPRPKeyLength kp) (drop SPRPKeyLength kp)
    (foldl (fun b k => SPRPEncrypt (sk_key k) (sk_iv k) b) b rkeys).
Proof.
  intros Hk Hkp. revert b. induction Hk as [|k rkeys [Hk1 Hk2] Hk IH]; intros b.
  - cbn [length map concat]. rewrite app_nil_l, undoHops_S.
    unfold sprpKeyMaterialLength, SPRPKeyLength, SPRPIVLength, StreamIVLength in *.
    rewrite slice_to_cut, !slice_from_cut by lia. go.
    rewrite !copy_zeros by golen. rewrite bool_decide_eq_true_2 by done.
    destruct (SPRPDecrypt _ _ _); done.
  - cbn [length map concat foldl]. change (keyBlob k) with (sk_key k ++ sk_iv k).
    rewrite <- !app_assoc, undoHops_S.
    go_step (by apply slice_to_app). go_step (by apply slice_from_app). cbv zeta.
    rewrite copy_zeros, copy_into_prefix by (by rewrite ?length_zeros).
    rewrite app_assoc.
    go_step (apply slice_from_app; golen; unfold sprpKeyMaterialLength; lia).
    rewrite bool_decide_eq_false_2 by done. go. apply IH.
Qed.

Lemma length_keyBlobs (rkeys : list sprpKey) :
  Forall wf_sprpKey rkeys ->
  length (concat (map keyBlob rkeys)) = length rkeys * sprpKeyMaterialLength.
Proof.
  induction 1 as [|k rkeys [H1 H2] _ IH]; [done|]. cbn [map concat length].
  change (keyBlob k) with (sk_key k ++ sk_iv k). by rewrite !length_app, IH, H1, H2.
Qed.

Lemma foldl_reverse_foldr {A B} (f : B -> A -> B) (l : list A) b :
  foldl f b (reverse l) = foldr (fun a b => f b a) b l.
Proof.
  induction l as [|x l IH]; [done|]. rewrite reverse_cons, foldl_app. simpl. by rewrite IH.
Qed.

(** Decrypting a reply that the hops have peeled recovers its payload. *)
Lemma DecryptSURBPayload_ok kp b payload :
  length kp = sprpKeyMaterialLength ->
  encryptPayload keys b = SPRPEncrypt (take SPRPKeyLength kp) (drop SPRPKeyLength kp)
                            (zeros (PayloadTagLength g) ++ payload) ->
  fst (DecryptSURBPayload g b (surbKeys keys kp)) = Ok payload.
Proof.
  intros Hkp He. destruct (gh_keys _ _ _ _ _ _ Hh) as [Hl Hk].
  assert (Hr : Forall wf_sprpKey (reverse keys)) by (by apply Forall_reverse).
  assert (Hlen : length (surbKeys keys kp) = Datatypes.S (length keys) * sprpKeyMaterialLength).
  { unfold surbKeys. fold keyBlob. rewrite length_app, length_keyBlobs, length_reverse, Hkp by done. lia. }
  assert (Hb : length b = PayloadTagLength g + length payload).
  { apply (f_equal length) in He. unfold SPRPEncrypt in He.
    rewrite encryptPayload_length, aez_encrypt_length in He. rewrite He. golen. }
  unfold DecryptSURBPayload. cbv zeta. rewrite Hlen.
  rewrite Nat.div_mul, Nat.Div0.mod_mul by done. cbn [fst].
  rewrite bool_decide_eq_false_2 by lia. rewrite bool_decide_eq_false_2 by lia.
  unfold surbKeys. fold keyBlob. rewrite <- length_reverse, undoHops_ok by done.
  rewrite foldl_reverse_foldr. change (foldr _ b keys) with (encryptPayload keys b).
  rewrite He, SPRPDecrypt_Encrypt. go.
  rewrite slice_to_app by (by rewrite length_zeros). go. rewrite CtIsZero_zeros.
  apply slice_from_app. by rewrite length_zeros.
Qed.

(** Making a packet from a reply block: the block is cut back into header,
    first hop and payload key, and the payload is encrypted under that key. *)
Lemma NewPacketFromSURB_ok id kp payload :
  length id = NodeIDLength -> length kp = sprpKeyMaterialLength ->
  NewPacketFromSURB g (hdr ++ id ++ kp) payload =
  Ok (hdr ++ SPRPEncrypt (take SPRPKeyLength kp) (drop SPRPKeyLength kp)
               (zeros (PayloadTagLength g) ++ payload), id).
Proof.
  intros Hid Hkp. pose proof (gh_length _ _ _ _ _ _ Hh) as Hl. pose proof (cg_tag _ _ Hg) as Ht.
  assert (Hk : SPRPKeyLength <= length kp) by (rewrite Hkp; unfold sprpKeyMaterialLength; lia).
  unfold NewPacketFromSURB. cbv zeta.
  rewrite bool_decide_eq_true_2 by (rewrite (cg_surb _ _ Hg); golen). cbn [negb].
  go_step (by apply slice_to_app). go_step (apply (slice_mid hdr id kp); lia).
  go_step (apply (slice_mid' _ (hdr ++ id) (take SPRPKeyLength kp) (drop SPRPKeyLength kp));
    [by rewrite <- app_assoc, take_drop|golen..]).
  go_step (apply (slice_mid' _ (hdr ++ id ++ take SPRPKeyLength kp) (drop SPRPKeyLength kp) []);
    [by rewrite app_nil_r, <- !app_assoc, take_drop|golen..]).
  rewrite slice_to_cut, take_zeros by golen. go.
  go_step (by apply slice_from_app).
  rewrite !copy_zeros by (golen; unfold sprpKeyMaterialLength in *; lia).
  set (b := zeros _ ++ payload). do 2 f_equal. rewrite <- (app_nil_r b) at 1.
  rewrite (copy_at_mid hdr b []); [by rewrite app_nil_r|done|by rewrite length_app|].
  apply aez_encrypt_length.
Qed.

(** A reply made from the block travels back along the block's path, and its
    creator recovers the payload with the keys it kept. *)
Lemma surb_reply_sized id kp payload :
  length id = NodeIDLength -> length kp = sprpKeyMaterialLength ->
  hasSURB (lastCommands path) = true ->
  exists pkt b,
    NewPacketFromSURB g (hdr ++ id ++ kp) payload = Ok (pkt, id) /\
    travel unwrap sks pkt = Ok (route path, b) /\
    fst (DecryptSURBPayload g b (surbKeys keys kp)) = Ok payload /\
    length pkt = HeaderLength g + PayloadTagLength g + length payload /\
    length b = PayloadTagLength g + length payload.
Proof.
  intros Hid Hkp Hs. rewrite NewPacketFromSURB_ok by done.
  set (pl := SPRPEncrypt _ _ _).
  assert (Hpl : length pl = PayloadTagLength g + length payload).
  { subst pl. unfold SPRPEncrypt. rewrite aez_encrypt_length. golen. }
  destruct (encryptPayload_onto keys pl) as (b & Hb & Hlb). pose proof (cg_tag _ _ Hg).
  exists (hdr ++ pl), b. split_and!; [done| |by apply DecryptSURBPayload_ok| |lia].
  - rewrite <- Hb. apply (gh_travel _ _ _ _ _ _ Hh); [lia|].
    unfold delivers. rewrite Hs. split; [done|lia].
  - rewrite length_app, (gh_length _ _ _ _ _ _ Hh). lia.
Qed.

Lemma surb_reply_travels id kp payload :
  length id = NodeIDLength -> length kp = sprpKeyMaterialLength ->
  hasSURB (lastCommands path) = true ->
  exists pkt b,
    NewPacketFromSURB g (hdr ++ id ++ kp) payload = Ok (pkt, id) /\
    travel unwrap sks pkt = Ok (route path, b) /\
    fst (DecryptSURBPayload g b (surbKeys keys kp)) = Ok payload.
Proof.
  intros Hid Hkp Hs. destruct (surb_reply_sized id kp payload Hid Hkp Hs) as (pkt & b & ? & ? & ? & _). eauto.
Qed.

End Header.

(** ** The constructors of geometries are consistent *)

Lemma nike_geometry_consistent (nike : Nike) user withSURB nrHops g :
  GeometryFromUserForwardPayloadLength nike user withSURB nrHops = Ok g ->
  consistent (@nike_PublicKeySize nike) g /\ NrHops g = nrHops /\
  PacketLength g = HeaderLength g + PayloadTagLength g + ForwardPayloadLength g.
Proof.
  destruct (GeometryFromUserForwardPayloadLength_ok nike user withSURB nrHops)
    as (g' & -> & Hn & Hp & Hri & Hh & Hpk & Hsb & Ht & Hnn & _).
  intros [= <-]. split_and!; [|done..]. split; try done.
  - by rewrite Hri, Hn.
  - rewrite Ht, Hp. cbv [payloadTagLength CommandTagLength NodeIDLength MACLength surbReplyLength
      SURBIDLength]. lia.
Qed.

Lemma kem_geometry_consistent (kem : Kem) user withSURB nrHops g :
  KEMGeometryFromUserForwardPayloadLength kem user withSURB nrHops = Ok g ->
  consistent (@kem_CiphertextSize kem) g /\ NrHops g = nrHops /\
  PacketLength g = HeaderLength g + PayloadTagLength g + ForwardPayloadLength g /\
  @kem_CiphertextSize kem <= PerHopRoutingInfoLength g.
Proof.
  destruct (KEMGeometryFromUserForwardPayloadLength_ok kem user withSURB nrHops)
    as (g' & -> & Hn & Hp & Hri & Hh & Hpk & Hsb & Ht & Hnn & _).
  intros [= <-]. split_and!; [|done..|lia]. split; try done.
  - by rewrite Hri, Hn.
  - rewrite Ht, Hp. cbv [payloadTagLength CommandTagLength NodeIDLength MACLength surbReplyLength
      SURBIDLength]. lia.
Qed.
