(* ===== verification/SphinxNike.v ===== *)
(** NIKE Sphinx end to end: [createHeader], [newNikePacket], [unwrapNike] and the
    SURB operations compose to the route specification.

    The key agreement is the part specific to the NIKE: the sender's repeated
    blinding of a shared secret is what each hop computes from the blinded
    group element it receives. *)

From S2P Require Import Prelude Schemes SphinxGeo SphinxCommands SphinxCrypto SphinxPacket SphinxLayers SphinxJourney SphinxDelivery.
From Stdlib Require Import ZArith Lia.
From stdpp Require Import prelude list strings.

Section NikeSphinx.

Context {N : Nike} {NL : NikeLaws N} {K : Kem} {S : SymPrims} {SL : SymPrimsLaws S}.

(** ** Key agreement *)

Abbreviation NKeys := (PacketKeys nike_PrivateKey).
Abbreviation gen := nike_GeneratePrivateKey.

(** The chain of group elements and keys along the hops' private keys. *)
Fixpoint nikeChain (ge : nike_PublicKey) (sks : list nike_PrivateKey) (keys : list NKeys)
    (ges : list nike_PublicKey) : Prop :=
  match sks, keys, ges with
  | [], [], [] => True
  | sk :: sks, k :: keys, e :: ges =>
    e = ge /\ KDF (nike_DeriveSecret sk ge) (Some gen) = Ok k /\
    exists bf, BlindingFactor k = Some bf /\ nikeChain (nike_Blind ge bf) sks keys ges
  | _, _, _ => False
  end.

Lemma KDF_nike ss : exists k bf, KDF ss (Some gen) = Ok k /\ BlindingFactor k = Some bf.
Proof.
  destruct (KDF_ok ss (Some gen)) as (k & Hk & _ & Hb).
  destruct (proj2 Hb) as [bf Hbf]; [done|]. eauto.
Qed.

Lemma foldl_blind_comm pk a (bfs : list nike_PrivateKey) :
  foldl nike_Blind (nike_Blind pk a) bfs = nike_Blind (foldl nike_Blind pk bfs) a.
Proof.
  revert pk. induction bfs as [|b bfs IH]; intros pk; [done|].
  simpl. by rewrite nike_blind_comm, IH.
Qed.

Lemma blindSecret_ok (keys : list NKeys) bfs pk :
  Forall2 (fun k bf => BlindingFactor k = Some bf) keys bfs ->
  blindSecret keys (nike_Bytes pk) = Ok (nike_Bytes (foldl nike_Blind pk bfs)).
Proof.
  intros H. revert pk. induction H as [|k bf keys bfs Hbf _ IH]; intros pk; [done|].
  cbn [blindSecret]. rewrite nike_from_bytes. cbn [panic_on_err]. go.
  rewrite Hbf. cbn [deref]. go. apply IH.
Qed.

(** The sender's blinded secret is the hop's secret with the blinded element. *)
Lemma blinded_secret (keys : list NKeys) bfs cpriv sk :
  Forall2 (fun k bf => BlindingFactor k = Some bf) keys bfs ->
  blindSecret keys (nike_DeriveSecret cpriv (nike_Public sk)) =
  Ok (nike_DeriveSecret sk (foldl nike_Blind (nike_Public cpriv) bfs)).
Proof.
  intros H. rewrite !nike_derive_is_action, nike_exchange, (blindSecret_ok keys bfs) by done.
  by rewrite foldl_blind_comm.
Qed.

Definition path_keys (path : list (@PathHop N K)) (sks : list nike_PrivateKey) : Prop :=
  Forall2 (fun h sk => NIKEPublicKey h = Some (nike_Public sk)) path sks.

Lemma deriveKeys_chain cpriv hops sks : path_keys hops sks ->
  forall ks prev bfs bf ges,
  Forall2 (fun k bf => BlindingFactor k = Some bf) ks bfs -> BlindingFactor prev = Some bf ->
  let ge := foldl nike_Blind (nike_Public cpriv) bfs in
  exists nk ng,
    deriveKeys cpriv hops (ks ++ [prev]) ges ge = Ok ((ks ++ [prev]) ++ nk, ges ++ ng) /\
    nikeChain (nike_Blind ge bf) sks nk ng.
Proof.
  induction 1 as [|h sk hops sks Hh _ IH]; intros ks prev bfs bf ges Hks Hprev ge.
  - exists [], []. cbn [deriveKeys]. by rewrite !app_nil_r.
  - assert (Hall : Forall2 (fun k bf => BlindingFactor k = Some bf) (ks ++ [prev]) (bfs ++ [bf]))
      by (apply Forall2_app; [done|by repeat constructor]).
    destruct (KDF_nike (nike_DeriveSecret sk (nike_Blind ge bf))) as (k & bf' & Hk & Hbf').
    destruct (IH (ks ++ [prev]) k (bfs ++ [bf]) bf' (ges ++ [nike_Blind ge bf])) as (nk & ng & Hd & Hch);
      [done..|].
    rewrite foldl_app in Hd, Hch. simpl in Hd, Hch. fold ge in Hd, Hch.
    exists (k :: nk), (nike_Blind ge bf :: ng). split.
    + cbn [deriveKeys]. rewrite Hh. cbn [deref]. go.
      rewrite (blinded_secret _ _ _ _ Hall). go. rewrite foldl_app. simpl. fold ge.
      rewrite Hk. go. rewrite last_snoc. cbn [deref]. go. rewrite Hprev. cbn [deref]. go.
      rewrite nike_pk_blind. cbn [panic_on_err]. go.
      rewrite nike_unmarshal_bytes. cbn [panic_on_err]. go.
      rewrite Hd. by rewrite <- !app_assoc.
    + split_and!; [done..|]. eauto.
Qed.

(** Every hop's private key opens the layer the sender built for it. *)
Lemma nikeChain_opens g (Hg : consistent nike_PublicKeySize g) sks :
  forall ge keys ges (hs : list (@hopInfo N K nike_PrivateKey)),
  nikeChain ge sks keys ges -> map h_key hs = keys -> map h_elem hs = map nike_Bytes ges ->
  opens g 0 (fun _ => []) (unwrapNike g) "sphinx" hs sks.
Proof.
  induction sks as [|sk sks IH]; intros ge keys ges hs Hch Hk He.
  - destruct keys, ges; try done. by destruct hs.
  - destruct keys as [|k keys], ges as [|e ges]; try done.
    destruct Hch as (-> & Hkdf & bf & Hbf & Hch).
    destruct hs as [|h hs]; [done|]. simpl in Hk, He.
    injection Hk as Hk Hks. injection He as He Hes.
    split; [|by eapply IH].
    exists (Hash (nike_Bytes ge)),
      (fun _ => bf ← deref (BlindingFactor k);
                ge' ← panic_on_err (nike_PublicKeyBlind ge bf); Ok (nike_Bytes ge')).
    split.
    + intros blk mac pl Hb Hm. unfold unwrapNike. cbv zeta. rewrite He.
      rewrite bool_decide_eq_false_2.
      2: { rewrite (cg_header _ _ Hg). unfold packetOf. golen.
           rewrite nike_bytes_size. unfold adLength. simpl. lia. }
      go_step (by apply slice_to_app). rewrite bool_decide_eq_true_2 by done. cbn [negb].
      go_step (apply (slice_mid v0AD (nike_Bytes ge)); [done|by rewrite nike_bytes_size]).
      rewrite nike_unmarshal_bytes. cbv zeta. rewrite Hkdf. go.
      by rewrite nike_bytes_size, Nat.sub_0_r, Hk.
    + intros nx rest x y Hn _. rewrite Hbf. cbn [deref]. go.
      rewrite nike_pk_blind. cbn [panic_on_err]. go.
      subst hs. simpl in Hes. destruct ges as [|e' ges]; [done|]. injection Hes as He' _.
      destruct sks, keys; try done. destruct Hch as [-> _]. by rewrite He'.
Qed.

(** ** Headers *)

Lemma path_keys_length path sks : path_keys path sks -> length path = length sks.
Proof. apply Forall2_length. Qed.

Lemma nikeChain_wf ge sks keys ges :
  nikeChain ge sks keys ges ->
  length keys = length sks /\ length ges = length sks /\ Forall wf_keys keys.
Proof.
  revert ge keys ges. induction sks as [|sk sks IH]; intros ge [|k keys] [|e ges] H; try done.
  destruct H as (_ & Hk & bf & _ & H). destruct (IH _ _ _ H) as (H1 & H2 & H3).
  destruct (KDF_ok (nike_DeriveSecret sk ge) (Some gen)) as (k' & Hk' & Hwf & _).
  simpl. split_and!; [by rewrite H1|by rewrite H2|]. constructor; [congruence|done].
Qed.

(** The NIKE header leaves a fragment as it is. *)
Lemma nike_link {g} (nx : @hopInfo N K nike_PrivateKey) (x : bytes) :
  length x + 0 <= PerHopRoutingInfoLength g -> length (h_elem nx) = nike_PublicKeySize ->
  length (@nil Z) = 0 /\
  Ok (x ++ zeros (PerHopRoutingInfoLength g - length x)) =
  Ok ((x ++ zeros (PerHopRoutingInfoLength g - 0 - length x)) ++ []).
Proof. intros _ _. by rewrite app_nil_r, Nat.sub_0_r. Qed.

(** [createHeader] succeeds on a valid path and fulfils the header contract. *)
Lemma createHeader_good g rnd path sks :
  consistent nike_PublicKeySize g -> good_randomness rnd ->
  path_keys path sks -> valid_path g 0 path -> 0 < length path <= NrHops g ->
  exists hdr keys, createHeader g rnd path = Ok (hdr, keys) /\
    good_header g (unwrapNike g) path sks hdr keys.
Proof.
  intros Hg Hr Hpk Hv Hlen. unfold createHeader.
  rewrite bool_decide_eq_false_2 by lia.
  destruct (gr_keypair _ Hr) as [cpriv Hkp]. rewrite Hkp. go.
  destruct Hpk as [|h sk hops sks Hh Hpk]; [simpl in Hlen; lia|].
  cbn [index lookup list_lookup deref]. go. rewrite Hh. cbn [deref]. go.
  rewrite nike_derive_is_action, nike_exchange, <- nike_derive_is_action.
  destruct (KDF_nike (nike_DeriveSecret sk (nike_Public cpriv))) as (k0 & bf & Hk0 & Hbf).
  rewrite Hk0. go. rewrite nike_unmarshal_bytes. cbn [panic_on_err]. go. cbn [drop]. rewrite drop_0.
  destruct (deriveKeys_chain cpriv hops sks Hpk [] k0 [] bf [nike_Public cpriv])
    as (nk & ng & Hd & Hch); [constructor|done|].
  simpl in Hd, Hch. rewrite Hd. go.
  assert (Hchain : nikeChain (nike_Public cpriv) (sk :: sks) (k0 :: nk) (nike_Public cpriv :: ng))
    by (split_and!; eauto).
  destruct (nikeChain_wf _ _ _ _ Hchain) as (Hlk & Hlg & Hwf).
  assert (Hl : length (h :: hops) = length (sk :: sks)) by (by apply path_keys_length; constructor).
  destruct (routingStreams_layered g (cg_routing _ _ Hg) (k0 :: nk) 0 []) as (streams & Hs & _ & Hlay);
    [lia|done|].
  rewrite Hs. go. destruct (skippedRouting_ok rnd g (length (h :: hops)) Hr) as (sk' & Hsk & Hskl).
  rewrite Hsk. go.
  destruct (Hlay (h :: hops) (map nike_Bytes (nike_Public cpriv :: ng)))
    as (Hlayered & Hpath & Hkeys & Helems); [lia|rewrite length_map; lia|].
  set (hs := hopInfos _ _ _ _ _) in *.
  assert (Hopen := nikeChain_opens g Hg _ _ _ _ hs Hchain Hkeys Helems).
  assert (Hsize : Forall (fun x => length (h_elem x) = nike_PublicKeySize) hs).
  { apply (Forall_map_eq h_elem (fun e => length e = nike_PublicKeySize)). rewrite Helems.
    apply List.Forall_map, Forall_true. apply nike_bytes_size. }
  assert (Hhs : exists h0 hs', hs = h0 :: hs').
  { destruct hs; [done|eauto]. }
  destruct Hhs as (h0 & hs' & Heq). rewrite Heq in *.
  assert (Hlhs : length (h0 :: hs') = length (h :: hops)).
  { rewrite <- Hpath. by rewrite length_map. }
  destruct (routingInfo_nested g nike_PublicKeySize 0 (cg_routing _ _ Hg) (cg_nextnode _ _ Hg)
    (fun _ frag => Ok frag) (fun _ => []) nike_link sk' h0 hs' 0 [])
    as (ri & mac & Hri & Hril & Hmac & Hnest); try done.
  { lia. } { by rewrite Hpath. } { rewrite Hskl. f_equal. lia. }
  rewrite Hri. go. rewrite app_nil_r in Hnest. eexists _, _. split; [done|].
  rewrite <- Hpath, <- Hkeys.
  assert (He0 : h_elem h0 = nike_Bytes (nike_Public cpriv)) by (simpl in Helems; congruence).
  rewrite <- He0. eapply nested_good_header; eauto.
  - by rewrite Hpath.
  - apply (Forall_map_eq h_key wf_keys). by rewrite Hkeys.
  - lia.
Qed.

(** ** End-to-end theorems *)

(** C1. NIKE Sphinx delivers.  For a geometry the factory computed and a valid
    path of at most [nrHops] hops whose public keys belong to the private keys
    [sks], [newNikePacket] succeeds; the packet has the geometry's length; and
    unwrapping it hop by hop shows every hop exactly the commands the sender
    gave it and the next hop's identifier, and hands the last hop the payload. *)
Theorem nike_packet_delivered user withSURB nrHops g rnd path sks payload :
  GeometryFromUserForwardPayloadLength N user withSURB nrHops = Ok g ->
  good_randomness rnd -> path_keys path sks -> valid_path g 0 path ->
  0 < length path <= nrHops -> hasSURB (lastCommands path) = false ->
  length payload = ForwardPayloadLength g ->
  exists pkt, newNikePacket g rnd path payload = Ok pkt /\ length pkt = PacketLength g /\
    travel (unwrapNike g) sks pkt = Ok (route path, payload).
Proof.
  intros Hgeo Hr Hpk Hv Hlen Hsurb Hpl.
  destruct (nike_geometry_consistent _ _ _ _ _ Hgeo) as (Hg & <- & Hpkt).
  destruct (createHeader_good g rnd path sks) as (hdr & keys & Hc & Hh); [done..|].
  destruct (assemblePacket_travels g _ Hg _ _ _ _ _ Hh payload Hsurb) as (pkt & Ha & Hl & Ht).
  exists pkt. split_and!; [|by rewrite Hl, Hpl, Hpkt|done].
  unfold newNikePacket. rewrite bool_decide_eq_true_2 by done. cbn [negb].
  rewrite Hc. go. done.
Qed.

(** C2. NIKE reply blocks round-trip.  [newNikeSURB] yields a block of the
    geometry's SURB length and a key blob such that any payload put in a packet
    with [NewPacketFromSURB] travels the block's path, starting at its first
    hop, and [DecryptSURBPayload] with the blob recovers the payload. *)
Theorem nike_surb_roundtrip user withSURB nrHops g rnd path sks hop0 :
  GeometryFromUserForwardPayloadLength N user withSURB nrHops = Ok g ->
  good_randomness rnd -> path_keys path sks -> valid_path g 0 path ->
  length path <= nrHops -> head path = Some hop0 -> hasSURB (lastCommands path) = true ->
  exists surb k, newNikeSURB g rnd path = Ok (surb, k) /\ length surb = SURBLength g /\
    forall payload, exists pkt b,
      NewPacketFromSURB g surb payload = Ok (pkt, ID hop0) /\
      travel (unwrapNike g) sks pkt = Ok (route path, b) /\
      fst (DecryptSURBPayload g b k) = Ok payload.
Proof.
  intros Hgeo Hr Hpk Hv Hlen H0 Hsurb.
  destruct (nike_geometry_consistent _ _ _ _ _ Hgeo) as (Hg & <- & Hpkt).
  assert (Hid : length (ID hop0) = NodeIDLength).
  { destruct path as [|h path]; [done|]. injection H0 as ->. apply Hv. }
  assert (Hpos : 0 < length path) by (destruct path; [done|simpl; lia]).
  destruct (createHeader_good g rnd path sks) as (hdr & keys & Hc & Hh); [done..|].
  destruct (gr_r _ Hr sprpKeyMaterialLength) as (kp & Hkp & Hkl).
  exists (hdr ++ ID hop0 ++ kp), (surbKeys keys kp). split_and!.
  - unfold newNikeSURB. rewrite Hkp. go. rewrite Hc. go. unfold assembleSURB.
    destruct path; [done|]. injection H0 as ->. done.
  - rewrite (cg_surb _ _ Hg), <- (gh_length _ _ _ _ _ _ Hh). golen.
  - intros payload. by eapply surb_reply_travels.
Qed.

End NikeSphinx.
