(* ===== verification/SphinxKem.v ===== *)
(** KEM Sphinx end to end: [createKEMHeader], [newKEMPacket], [unwrapKem] and the
    KEM reply blocks compose to the route specification.

    Every hop has its own encapsulation; the ciphertext of the next hop travels
    in the last bytes of a hop's routing block. *)

From S2P Require Import Prelude Schemes SphinxGeo SphinxCommands SphinxCrypto SphinxPacket SphinxLayers SphinxJourney SphinxDelivery.
From Stdlib Require Import ZArith Lia.
From stdpp Require Import prelude list strings.

Section KemSphinx.

Context {N : Nike} {K : Kem} {KL : KemLaws K} {S : SymPrims} {SL : SymPrimsLaws S}.

Definition kem_path_keys (path : list (@PathHop N K)) (sks : list kem_PrivateKey) : Prop :=
  Forall2 (fun h sk => KEMPublicKey h = Some (kem_Public sk)) path sks.

(** What a hop recovers from its ciphertext is what the sender derived. *)
Definition kemHop (e : bytes * PacketKeys ()) (sk : kem_PrivateKey) : Prop :=
  length (fst e) = kem_CiphertextSize /\ wf_keys (snd e) /\
  exists ss, kem_Decapsulate sk (fst e) = Ok ss /\ KDF ss None = Ok (snd e).

Lemma encapsulateHops_ok rnd path sks : kem_path_keys path sks ->
  forall i, exists elems, encapsulateHops rnd i path = Ok elems /\ Forall2 kemHop elems sks.
Proof.
  induction 1 as [|h sk path sks Hh _ IH]; intros i; [by exists []|].
  destruct (kem_encapsulate_ok (rnd_kem rnd i) (kem_Public sk)) as (ct & ss & He).
  destruct (KDF_ok ss (@None (bytes -> ()))) as (k & Hk & Hwf & _).
  destruct (IH (i + 1)) as (elems & Hel & Hall).
  exists ((ct, k) :: elems). split.
  - cbn [encapsulateHops]. rewrite Hh. cbn [deref]. go. rewrite He. cbn [panic_on_err]. go.
    rewrite Hk. go. by rewrite Hel.
  - constructor; [|done]. split_and!; [by eapply kem_ciphertext_size|done|].
    exists ss. split; [by eapply kem_decapsulate|done].
Qed.

(** The KEM header overwrites the end of a fragment's padding. *)
Lemma kem_link {g} (Hct : kem_CiphertextSize <= PerHopRoutingInfoLength g)
    (nx : @hopInfo N K ()) (x : bytes) :
  length x + kem_CiphertextSize <= PerHopRoutingInfoLength g ->
  length (h_elem nx) = kem_CiphertextSize ->
  length (h_elem nx) = kem_CiphertextSize /\
  kemLink g nx (x ++ zeros (PerHopRoutingInfoLength g - length x)) =
  Ok ((x ++ zeros (PerHopRoutingInfoLength g - kem_CiphertextSize - length x)) ++ h_elem nx).
Proof.
  intros Hx He. split; [done|]. unfold kemLink. set (P := PerHopRoutingInfoLength g) in *.
  rewrite bool_decide_eq_false_2 by golen.
  replace (P - length x) with ((P - kem_CiphertextSize - length x) + kem_CiphertextSize) by lia.
  rewrite zeros_app, app_assoc. f_equal.
  set (a := x ++ zeros (P - kem_CiphertextSize - length x)).
  rewrite <- (app_nil_r (a ++ zeros kem_CiphertextSize)) at 1. rewrite <- app_assoc.
  assert (Ha : length a = P - kem_CiphertextSize) by (subst a; golen).
  rewrite (copy_at_mid a (zeros kem_CiphertextSize) [] (h_elem nx)) by golen.
  by rewrite app_nil_r.
Qed.

Context (s : Sphinx).
Abbreviation g := (geometry s).
Context (Hg : consistent kem_CiphertextSize g) (Hs : s_kem s = true)
        (Hct : kem_CiphertextSize <= PerHopRoutingInfoLength g).

Lemma kemHops_open elems sks (hs : list (@hopInfo N K ())) :
  Forall2 kemHop elems sks -> map h_key hs = map snd elems -> map h_elem hs = map fst elems ->
  opens g kem_CiphertextSize h_elem (unwrapKem s) "KEMSphinx" hs sks.
Proof.
  intros H. revert hs. induction H as [|[ct k] sk elems sks Hhop Hrest IH]; intros hs Hk He.
  - by destruct hs.
  - destruct hs as [|h hs]; [done|]. simpl in Hk, He.
    injection Hk as Hk Hks. injection He as He Hes. split; [|by apply IH].
    destruct Hhop as (Hl & _ & ss & Hdec & Hkdf). simpl in Hl, Hdec, Hkdf.
    exists (Hash ct), (fun b => slice b (PerHopRoutingInfoLength g - kem_CiphertextSize)
                                  (PerHopRoutingInfoLength g)).
    split.
    + intros blk mac pl Hb Hm. unfold unwrapKem. cbv zeta. rewrite Hs, He. cbn [negb].
      rewrite bool_decide_eq_false_2.
      2: { rewrite (cg_header _ _ Hg). unfold packetOf. golen. unfold adLength. simpl. lia. }
      go_step (by apply slice_to_app). rewrite bool_decide_eq_true_2 by done. cbn [negb].
      go_step (apply (slice_mid v0AD ct); [done|by rewrite Hl]).
      rewrite Hdec. cbv zeta. rewrite Hkdf. go.
      rewrite bool_decide_eq_false_2 by lia. by rewrite Hl, Hk.
    + intros nx rest x y -> Hx. rewrite <- app_assoc.
      assert (Hnx : length (h_elem nx) = kem_CiphertextSize); [|apply slice_mid; lia].
      simpl in Hes. destruct elems as [|e elems]; [done|]. injection Hes as -> _.
      by inversion Hrest as [|? ? ? ? [? _] ?]; subst.
Qed.

(** [createKEMHeader] succeeds on a valid path and fulfils the header contract. *)
Lemma createKEMHeader_good rnd path sks :
  good_randomness rnd -> kem_path_keys path sks ->
  valid_path g kem_CiphertextSize path -> 0 < length path <= NrHops g ->
  exists hdr keys, createKEMHeader s rnd path = Ok (hdr, keys) /\
    good_header g (unwrapKem s) path sks hdr keys.
Proof.
  intros Hr Hpk Hv Hlen. unfold createKEMHeader. cbv zeta.
  rewrite bool_decide_eq_false_2, Hs by lia. cbn [negb].
  destruct (encapsulateHops_ok rnd path sks Hpk 0) as (elems & He & Hhops). rewrite He. go.
  assert (Hl1 : length elems = length sks) by (by eapply Forall2_length).
  assert (Hl2 : length path = length sks) by (by eapply Forall2_length).
  destruct (routingStreams_layered g (cg_routing _ _ Hg) (map snd elems) 0 [])
    as (streams & Hst & _ & Hlay); [rewrite length_map; lia|done|].
  rewrite Hst. go. destruct (skippedRouting_ok rnd g (length path) Hr) as (rb & Hsk & Hskl).
  rewrite Hsk. cbn [panic_on_err]. go.
  destruct (Hlay path (map fst elems)) as (Hlayered & Hpath & Hkeys & Helems);
    [rewrite length_map; lia|rewrite !length_map; lia|].
  set (hs := hopInfos _ _ _ _ _) in *.
  assert (Hopen := kemHops_open _ _ hs Hhops Hkeys Helems).
  assert (Hhop : Forall (fun e => length (fst e) = kem_CiphertextSize /\ wf_keys (snd e)) elems).
  { eapply Forall2_Forall_l; [exact Hhops|]. apply Forall_true. by intros sk e (? & ? & _). }
  assert (Hsize : Forall (fun x => length (h_elem x) = kem_CiphertextSize) hs).
  { apply (Forall_map_eq h_elem (fun e => length e = kem_CiphertextSize)). rewrite Helems.
    apply List.Forall_map. eapply Forall_impl; [exact Hhop|]. by intros e [? _]. }
  assert (Hwf : Forall (fun x => wf_keys (h_key x)) hs).
  { apply (Forall_map_eq h_key wf_keys). rewrite Hkeys.
    apply List.Forall_map. eapply Forall_impl; [exact Hhop|]. by intros e [_ ?]. }
  assert (Hlhs : length hs = length path) by (rewrite <- Hpath; by rewrite length_map).
  assert (Hhs : exists h0 hs', hs = h0 :: hs') by (destruct hs; [simpl in *; lia|eauto]).
  destruct Hhs as (h0 & hs' & Heq). rewrite Heq in *.
  destruct (routingInfo_nested g kem_CiphertextSize kem_CiphertextSize (cg_routing _ _ Hg)
    (cg_nextnode _ _ Hg) (kemLink g) h_elem (kem_link Hct) rb h0 hs' 0 [])
    as (ri & mac & Hri & Hril & Hmac & Hnest); try done.
  { lia. } { by rewrite Hpath. } { rewrite Hskl. f_equal. lia. }
  rewrite Hri. go. rewrite app_nil_r in Hnest. rewrite <- Helems. cbn [map index lookup list_lookup deref].
  go. eexists _, _. split; [done|]. rewrite <- Hpath, <- Hkeys.
  eapply nested_good_header; eauto; [by rewrite Hpath|lia].
Qed.

End KemSphinx.

Section KemTheorems.

Context {N : Nike} {K : Kem} {KL : KemLaws K} {S : SymPrims} {SL : SymPrimsLaws S}.

(** C3. KEM Sphinx delivers.  The KEM packet of a valid path succeeds, has the
    geometry's length, takes every hop along the route and hands the last hop
    the payload. *)
Theorem kem_packet_delivered user withSURB nrHops g rnd (path : list (@PathHop N K)) sks payload :
  KEMGeometryFromUserForwardPayloadLength K user withSURB nrHops = Ok g ->
  good_randomness rnd -> kem_path_keys path sks -> valid_path g kem_CiphertextSize path ->
  0 < length path <= nrHops -> hasSURB (lastCommands path) = false ->
  length payload = ForwardPayloadLength g ->
  let s := mkSphinx false true g in
  exists pkt, newKEMPacket s rnd path payload = Ok pkt /\ length pkt = PacketLength g /\
    travel (unwrapKem s) sks pkt = Ok (route path, payload).
Proof.
  intros Hgeo Hr Hpk Hv Hlen Hsurb Hpl s.
  destruct (kem_geometry_consistent _ _ _ _ _ Hgeo) as (Hg & <- & Hpkt & Hct).
  destruct (createKEMHeader_good s Hg eq_refl Hct rnd path sks) as (hdr & keys & Hc & Hh); [done..|].
  destruct (assemblePacket_travels g _ Hg _ _ _ _ _ Hh payload Hsurb) as (pkt & Ha & Hl & Ht).
  exists pkt. split_and!; [|by rewrite Hl, Hpl, Hpkt|done].
  unfold newKEMPacket. rewrite bool_decide_eq_true_2 by done. cbn [negb].
  rewrite Hc. go. done.
Qed.

(** KEM reply blocks round-trip, as for the NIKE. *)
Theorem kem_surb_roundtrip user withSURB nrHops g rnd (path : list (@PathHop N K)) sks hop0 :
  KEMGeometryFromUserForwardPayloadLength K user withSURB nrHops = Ok g ->
  good_randomness rnd -> kem_path_keys path sks -> valid_path g kem_CiphertextSize path ->
  length path <= nrHops -> head path = Some hop0 -> hasSURB (lastCommands path) = true ->
  let s := mkSphinx false true g in
  exists surb k, newKemSURB s rnd path = Ok (surb, k) /\ length surb = SURBLength g /\
    forall payload, exists pkt b,
      NewPacketFromSURB g surb payload = Ok (pkt, ID hop0) /\
      travel (unwrapKem s) sks pkt = Ok (route path, b) /\
      fst (DecryptSURBPayload g b k) = Ok payload.
Proof.
  intros Hgeo Hr Hpk Hv Hlen H0 Hsurb s.
  destruct (kem_geometry_consistent _ _ _ _ _ Hgeo) as (Hg & <- & Hpkt & Hct).
  assert (Hid : length (ID hop0) = NodeIDLength).
  { destruct path as [|h path]; [done|]. injection H0 as ->. apply Hv. }
  assert (Hpos : 0 < length path) by (destruct path; [done|simpl; lia]).
  destruct (createKEMHeader_good s Hg eq_refl Hct rnd path sks) as (hdr & keys & Hc & Hh); [done..|].
  destruct (gr_r _ Hr sprpKeyMaterialLength) as (kp & Hkp & Hkl).
  exists (hdr ++ ID hop0 ++ kp), (surbKeys keys kp). split_and!.
  - unfold newKemSURB. rewrite Hkp. go. rewrite Hc. go. unfold assembleSURB.
    destruct path; [done|]. injection H0 as ->. done.
  - pose proof (gh_length _ _ _ _ _ _ Hh) as Hhl. simpl in Hhl.
    rewrite (cg_surb _ _ Hg), <- Hhl. golen.
  - intros payload. by eapply (surb_reply_travels g).
Qed.

End KemTheorems.
