(* ===== verification/SphinxRobust.v ===== *)
(** Unwrapping arbitrary packets.

    The theorems here assume nothing about the packet: a mix node unwraps
    whatever the network hands it.  Unwrapping always returns, never panics,
    never changes the packet's length, and a failed unwrap releases nothing and
    leaves the packet as it was. *)

From S2P Require Import Prelude Schemes ToySchemes SphinxGeo SphinxCommands SphinxCrypto SphinxPacket SphinxLayers SphinxJourney SphinxDelivery.
From Stdlib Require Import ZArith Lia.
From stdpp Require Import prelude list strings.

(** ** The command loop *)

(** The decoder consumes at least a byte of the buffer and does not panic. *)
Lemma FromBytes_progress b g :
  NextNodeHopLength g = nextNodeHopSize ->
  match FromBytes b g with
  | Ok (Some (_, rest)) => length rest < length b
  | Panic => False
  | _ => True
  end.
Proof.
  intros Hg. destruct b as [|id [|x b]]; [done|by simpl; case_bool_decide|].
  rewrite FromBytes_tag by done. set (l := x :: b).
  case_bool_decide; [by destruct (CtIsZero l)|].
  case_bool_decide.
  { rewrite nextNodeHopFromBytes_unfold by done. case_bool_decide; [done|].
    rewrite !slice_from_cut, slice_to_cut by lia. go. golen. }
  case_bool_decide.
  { unfold recipeientFromBytes. case_bool_decide; [done|].
    rewrite slice_from_cut, slice_to_cut by lia. go. golen. }
  case_bool_decide.
  { unfold surbReplyFromBytes. case_bool_decide; [done|].
    rewrite slice_from_cut, slice_to_cut by lia. go. golen. }
  case_bool_decide; [|done].
  unfold nodeDelayFromBytes. case_bool_decide; [done|].
  rewrite slice_from_cut, slice_to_cut by lia. go. golen.
Qed.

(** The loop's fuel is enough: it ends with commands or an error. *)
Lemma parseCommands_total name g fuel buf nn sr acc :
  NextNodeHopLength g = nextNodeHopSize -> length buf < fuel ->
  parseCommands name g fuel buf nn sr acc <> Panic.
Proof.
  intros Hg. revert buf nn sr acc. induction fuel as [|fuel IH]; intros buf nn sr acc Hf; [lia|].
  cbn [parseCommands]. pose proof (FromBytes_progress buf g Hg) as Hp.
  destruct (FromBytes buf g) as [[[c rest]|]|e|]; [|done..]. go.
  assert (length rest < fuel) by lia.
  destruct c; [case_bool_decide; [done|]|..|]; try (by apply IH).
  destruct sr; [done|by apply IH].
Qed.

Section Process.

Context {S : SymPrims} {SL : SymPrimsLaws S} {SK : Type}.
Context (name : string) (g : Geometry) (keys : PacketKeys SK) (tag : bytes).

Lemma length_copy_at dst lo hi src : lo <= hi -> length (copy_at dst lo hi src) = length dst.
Proof. intros. unfold copy_at. golen. Qed.

Lemma length_copy_end dst lo src :
  lo <= length dst -> length (copy_at dst lo (length dst) src) = length dst.
Proof. apply length_copy_at. Qed.

(** Whatever the packet holds, processing returns. *)
Lemma processHeader_returns pkt riOff n nextElem :
  NextNodeHopLength g = nextNodeHopSize -> n <= PerHopRoutingInfoLength g ->
  riOff + RoutingInfoLength g + MACLength <= length pkt ->
  (forall b, PerHopRoutingInfoLength g <= length b -> exists e, nextElem b = Ok e) ->
  exists r, processHeader name g keys tag pkt riOff (Some n) nextElem = Ok r.
Proof.
  intros Hg Hn Hlen Hne. unfold processHeader. cbv zeta.
  rewrite !slice_ok by lia. go. case_bool_decide; cbn [negb]; [|by eexists].
  set (b := XORKeyStream _ _ _).
  assert (Hb : length b = RoutingInfoLength g + PerHopRoutingInfoLength g).
  { subst b. rewrite length_XORKeyStream, length_copy_at by lia. golen. }
  rewrite (slice_from_cut b) by lia. cbn [deref]. go. rewrite (slice_to_cut b) by lia. go.
  pose proof (parseCommands_total name g (Datatypes.S (length (take n b))) (take n b) None false []
    Hg ltac:(lia)) as Hp.
  destruct (parseCommands _ _ _ _ _ _ _) as [[[cmds nn] sr]|e|]; [|by eexists|done].
  rewrite slice_from_cut by lia. go. set (pl := drop _ pkt).
  assert (Hpl : exists pl', (if bool_decide (0 < length pl)
    then SPRPDecrypt (PayloadEncryption keys) (HeaderEncryptionIV keys) pl else Ok pl) = Ok pl').
  { case_bool_decide; [|by eexists].
    destruct (SPRPDecrypt_ok (PayloadEncryption keys) (HeaderEncryptionIV keys) pl) as (m & -> & _).
    by eexists. }
  destruct Hpl as [pl' ->]. go. destruct nn as [mac|].
  - destruct (Hne b) as [e ->]; [lia|]. go. by eexists.
  - case_bool_decide; [by eexists|]. destruct sr; [by eexists|].
    rewrite slice_to_cut, slice_from_cut by lia. go. destruct (CtIsZero _); by eexists.
Qed.

(** What a result says about the packet it came from. *)
Definition unwrap_post (pkt : bytes) (r : UnwrapResult) : Prop :=
  length (uw_pkt r) = length pkt /\
  (uw_err r <> None -> uw_pkt r = pkt /\ uw_payload r = None /\ uw_cmds r = []) /\
  (uw_payload r <> None -> uw_pkt r = pkt).

Lemma processHeader_post pkt riOff cmdLen nextElem r :
  2 <= riOff -> processHeader name g keys tag pkt riOff cmdLen nextElem = Ok r -> unwrap_post pkt r.
Proof.
  intros Hri. unfold processHeader, unwrapErr, unwrap_post. cbv zeta. intros H.
  go_inv H. go_inv H. apply slice_inv in E0 as [Hlen _]. destruct (negb _) in H; [by injection H as <-|].
  do 4 go_inv H. destruct (parseCommands _ _ _ _ _ _ _) as [[[cmds nn] sr]|e|];
    [|by injection H as <-|done].
  do 2 go_inv H. destruct nn as [mac|].
  - go_inv H. injection H as <-. cbn [uw_pkt uw_err uw_payload uw_cmds]. split_and!; [|done..].
    match goal with |- length (if ?c then _ else _) = _ => destruct c end.
    + rewrite length_copy_end; [by rewrite !length_copy_at by lia|].
      rewrite !length_copy_at by lia. lia.
    + by rewrite !length_copy_at by lia.
  - case_bool_decide; [by injection H as <-|]. destruct sr; [by injection H as <-|].
    go_inv H. destruct (CtIsZero _); [|by injection H as <-]. go_inv H. by injection H as <-.
Qed.

Lemma processHeader_robust pkt riOff n nextElem :
  NextNodeHopLength g = nextNodeHopSize -> n <= PerHopRoutingInfoLength g -> 2 <= riOff ->
  riOff + RoutingInfoLength g + MACLength <= length pkt ->
  (forall b, PerHopRoutingInfoLength g <= length b -> exists e, nextElem b = Ok e) ->
  exists r, processHeader name g keys tag pkt riOff (Some n) nextElem = Ok r /\ unwrap_post pkt r.
Proof.
  intros. destruct (processHeader_returns pkt riOff n nextElem) as [r Hr]; [done..|].
  exists r. split; [done|]. by eapply processHeader_post.
Qed.

(** No error means the MAC was right. *)
Lemma processHeader_authentic pkt riOff cmdLen nextElem r :
  processHeader name g keys tag pkt riOff cmdLen nextElem = Ok r -> uw_err r = None ->
  let macOff := riOff + RoutingInfoLength g in
  uw_replayTag r = Some tag /\
  take MACLength (drop macOff pkt) = macSum (HeaderMAC keys) [take macOff pkt].
Proof.
  unfold processHeader, unwrapErr. cbv zeta. intros H Herr.
  go_inv H. go_inv H. apply slice_inv in E as [_ E]. apply slice_inv in E0 as [_ E0].
  rewrite drop_0, Nat.sub_0_r in E.
  replace (_ + MACLength - _) with MACLength in E0 by lia. subst v v0.
  case_bool_decide as Hm; cbn [negb] in H; [|by injection H as <-].
  split; [|done]. clear Hm.
  do 4 go_inv H. destruct (parseCommands _ _ _ _ _ _ _) as [[[cmds nn] sr]|e|];
    [|by injection H as <-|done].
  do 2 go_inv H. destruct nn as [mac|]; [go_inv H; by injection H as <-|].
  destruct (bool_decide _) in H; [by injection H as <-|]. destruct sr; [by injection H as <-|].
  go_inv H. destruct (CtIsZero _); [|by injection H as <-]. go_inv H. by injection H as <-.
Qed.

End Process.

(** ** The two unwrap functions *)

Section Unwrap.

Context {N : Nike} {NL : NikeLaws N} {K : Kem} {S : SymPrims} {SL : SymPrimsLaws S}.

(** The libraries reject bad input with an error, never with a panic. *)
Definition nike_decodes : Prop := forall b, nike_UnmarshalBinaryPublicKey b <> Panic.
Definition kem_decodes : Prop := forall sk b, kem_Decapsulate sk b <> Panic.

(** C5. Unwrapping is total and length preserving, NIKE.  For a geometry of the
    factory and any packet whatsoever, [unwrapNike] returns (no slice is out of
    range, the command loop ends); the packet keeps its length; an error leaves
    the packet unchanged and releases neither payload nor commands; and a
    delivered payload does not modify the packet. *)
Theorem unwrapNike_robust user withSURB nrHops g sk pkt :
  GeometryFromUserForwardPayloadLength N user withSURB nrHops = Ok g -> nike_decodes ->
  exists r, unwrapNike g sk pkt = Ok r /\ unwrap_post pkt r.
Proof.
  intros Hgeo Hdec. destruct (nike_geometry_consistent _ _ _ _ _ Hgeo) as (Hg & _ & _).
  unfold unwrapNike. cbv zeta. case_bool_decide as Hlen; [by eexists|].
  rewrite (cg_header _ _ Hg) in Hlen. unfold adLength in Hlen.
  rewrite slice_to_cut by lia. go. case_bool_decide; cbn [negb]; [|by eexists].
  rewrite slice_ok by lia. go.
  pose proof (Hdec (take (2 + nike_PublicKeySize - 2) (drop 2 pkt))) as Hd.
  destruct (nike_UnmarshalBinaryPublicKey _) as [ge|e|]; [|by eexists|done].
  destruct (KDF_ok (nike_DeriveSecret sk ge) (Some nike_GeneratePrivateKey)) as (k & Hk & _ & Hb).
  rewrite Hk. go. destruct (proj2 Hb ltac:(done)) as [bf Hbf].
  apply processHeader_robust; [apply (cg_nextnode _ _ Hg)|done|lia|lia|].
  intros b _. rewrite Hbf. cbn [deref]. go. rewrite nike_pk_blind. by eexists.
Qed.

(** The same for the KEM. *)
Theorem unwrapKem_robust user withSURB nrHops g sk pkt :
  KEMGeometryFromUserForwardPayloadLength K user withSURB nrHops = Ok g -> kem_decodes ->
  exists r, unwrapKem (mkSphinx false true g) sk pkt = Ok r /\ unwrap_post pkt r.
Proof.
  intros Hgeo Hdec. destruct (kem_geometry_consistent _ _ _ _ _ Hgeo) as (Hg & _ & _ & Hct).
  unfold unwrapKem. cbv zeta. cbn [s_kem geometry negb].
  case_bool_decide as Hlen; [by eexists|].
  rewrite (cg_header _ _ Hg) in Hlen. unfold adLength in Hlen.
  rewrite slice_to_cut by lia. go. case_bool_decide; cbn [negb]; [|by eexists].
  rewrite slice_ok by lia. go.
  pose proof (Hdec sk (take (2 + kem_CiphertextSize - 2) (drop 2 pkt))) as Hd.
  destruct (kem_Decapsulate sk _) as [ss|e|]; [|by eexists|done].
  destruct (KDF_ok ss (@None (bytes -> ()))) as (k & Hk & _). rewrite Hk. go.
  rewrite (bool_decide_eq_false_2 (PerHopRoutingInfoLength g < kem_CiphertextSize)) by lia.
  apply processHeader_robust; [apply (cg_nextnode _ _ Hg)|lia|lia|lia|].
  intros b Hb. rewrite slice_ok by lia. by eexists.
Qed.

End Unwrap.

(** C7. Header authentication.  A NIKE unwrap that reports no error has
    verified the header MAC: the 32 bytes after the routing information are the
    MAC, under the key derived from the hop's private key and the packet's own
    group element, of everything before them; and the version bytes are those
    of version 0. *)
Theorem unwrapNike_authentic {N : Nike} {S : SymPrims} g sk pkt r :
  unwrapNike g sk pkt = Ok r -> uw_err r = None ->
  exists ge k, nike_UnmarshalBinaryPublicKey (take nike_PublicKeySize (drop 2 pkt)) = Ok ge /\
    KDF (nike_DeriveSecret sk ge) (Some nike_GeneratePrivateKey) = Ok k /\
    take 2 pkt = v0AD /\ uw_replayTag r = Some (Hash (nike_Bytes ge)) /\
    let macOff := 2 + nike_PublicKeySize + RoutingInfoLength g in
    take MACLength (drop macOff pkt) = macSum (HeaderMAC k) [take macOff pkt].
Proof.
  unfold unwrapNike. cbv zeta. intros H Herr.
  case_bool_decide; [by injection H as <-|]. go_inv H. apply slice_inv in E as [_ E].
  case_bool_decide as Hv; cbn [negb] in H; [|by injection H as <-].
  go_inv H. apply slice_inv in E0 as [_ E0]. subst v v0.
  rewrite drop_0, Nat.sub_0_r in Hv.
  replace (2 + nike_PublicKeySize - 2) with nike_PublicKeySize in H by lia.
  destruct (nike_UnmarshalBinaryPublicKey _) as [ge|e|] eqn:Hu in H; [|by injection H as <-|done].
  go_inv H. apply processHeader_authentic in H as [Ht Hm]; [|done].
  exists ge, v. by split_and!.
Qed.
