(* ===== verification/SphinxWitness.v ===== *)
(** Concrete Sphinx runs: the end-to-end theorems applied to small packets.

    The schemes are those of [ToySchemes]; the geometry, the three-hop paths and
    the packets are computed by the modelled code itself. *)

From S2P Require Import Prelude Schemes ToySchemes SphinxGeo SphinxCommands SphinxCrypto SphinxPacket SphinxLayers SphinxJourney SphinxDelivery SphinxNike SphinxKem SphinxRobust.
From Stdlib Require Import ZArith Lia.
From stdpp Require Import prelude list strings.

(** ** Inputs *)

Definition emptyGeometry : Geometry := mkGeometry 0 0 0 0 0 0 0 0 0 0 0 0 "" "".

Definition get {A} (d : A) (o : outcome A) : A := match o with Ok a => a | _ => d end.

Definition toyGeo : Geometry :=
  Eval vm_compute in get emptyGeometry (GeometryFromUserForwardPayloadLength toyNike 10 true 4).
Definition toyKemGeo : Geometry :=
  Eval vm_compute in get emptyGeometry (KEMGeometryFromUserForwardPayloadLength toyKem 10 true 4).

Definition toyRnd : @Randomness toyNike toyKem :=
  @mkRandomness toyNike toyKem (Ok (nike_Public (Nike := toyNike) 77%Z, 77%Z))
    (fun i => Z.of_nat i) (fun n => Ok (replicate n 42%Z)) (fun n => Ok (replicate n 43%Z)).

Definition toyHop (id : Z) (sk : Z) (cmds : list RoutingCommand) : @PathHop toyNike toyKem :=
  @mkPathHop toyNike toyKem (replicate 32 id) (Some (nike_Public (Nike := toyNike) sk))
    (Some (kem_Public (Kem := toyKem) sk)) cmds.

Definition toySks : list Z := [5%Z; 9%Z; 200%Z].

Definition toyPath : list (@PathHop toyNike toyKem) :=
  [toyHop 1 5 [NodeDelay 1000]; toyHop 2 9 [NodeDelay 70000]; toyHop 3 200 [Recipient (replicate 32 8%Z)]].

Definition toyReplyPath : list (@PathHop toyNike toyKem) :=
  [toyHop 1 5 [NodeDelay 1000]; toyHop 2 9 [NodeDelay 70000];
   toyHop 3 200 [Recipient (replicate 32 8%Z); SURBReply (replicate 16 6%Z)]].

Definition toyPayload (g : Geometry) : bytes := replicate (ForwardPayloadLength g) 99%Z.

(** ** Side conditions *)

Lemma toyRnd_good : good_randomness toyRnd.
Proof.
  split.
  - by exists 77%Z.
  - intros n. eexists. split; [done|]. apply length_replicate.
  - intros n. eexists. split; [done|]. apply length_replicate.
Qed.

Ltac valid_cmd := split; [first [reflexivity | unfold wf_command, u32; lia]|reflexivity].

Ltac valid_toy :=
  repeat (split; [split; [reflexivity | split; [repeat (constructor; [valid_cmd|]); constructor
    | reflexivity] | apply Nat.leb_le; vm_compute; reflexivity]|]);
  exact I.

Lemma toyPath_valid : valid_path toyGeo 0 toyPath.
Proof. valid_toy. Qed.
Lemma toyReplyPath_valid : valid_path toyGeo 0 toyReplyPath.
Proof. valid_toy. Qed.
Lemma toyPath_valid_kem : valid_path toyKemGeo kem_CiphertextSize toyPath.
Proof. valid_toy. Qed.
Lemma toyReplyPath_valid_kem : valid_path toyKemGeo kem_CiphertextSize toyReplyPath.
Proof. valid_toy. Qed.

(** ** Witnesses *)

(** A three-hop NIKE packet over a four-hop geometry. *)
Lemma nike_packet_delivered_witness :
  exists pkt, newNikePacket toyGeo toyRnd toyPath (toyPayload toyGeo) = Ok pkt /\
    length pkt = PacketLength toyGeo /\
    travel (unwrapNike toyGeo) toySks pkt = Ok (route toyPath, toyPayload toyGeo).
Proof.
  apply (nike_packet_delivered 10 true 4); try reflexivity.
  - apply toyRnd_good.
  - repeat constructor.
  - apply toyPath_valid.
  - simpl. lia.
Defined.

(** A NIKE reply block over the same hops. *)
Lemma nike_surb_roundtrip_witness :
  exists surb k, newNikeSURB toyGeo toyRnd toyReplyPath = Ok (surb, k) /\
    length surb = SURBLength toyGeo /\
    forall payload, exists pkt b,
      NewPacketFromSURB toyGeo surb payload = Ok (pkt, replicate 32 1%Z) /\
      travel (unwrapNike toyGeo) toySks pkt = Ok (route toyReplyPath, b) /\
      fst (DecryptSURBPayload toyGeo b k) = Ok payload.
Proof.
  apply (nike_surb_roundtrip 10 true 4 toyGeo toyRnd toyReplyPath toySks
    (toyHop 1 5 [NodeDelay 1000])); try reflexivity.
  - apply toyRnd_good.
  - repeat constructor.
  - apply toyReplyPath_valid.
  - simpl. lia.
Defined.

(** A three-hop KEM packet. *)
Lemma kem_packet_delivered_witness :
  let s := mkSphinx false true toyKemGeo in
  exists pkt, newKEMPacket s toyRnd toyPath (toyPayload toyKemGeo) = Ok pkt /\
    length pkt = PacketLength toyKemGeo /\
    travel (unwrapKem s) toySks pkt = Ok (route toyPath, toyPayload toyKemGeo).
Proof.
  apply (kem_packet_delivered 10 true 4); try reflexivity.
  - apply toyRnd_good.
  - repeat constructor.
  - apply toyPath_valid_kem.
  - simpl. lia.
Defined.

(** A KEM reply block. *)
Lemma kem_surb_roundtrip_witness :
  let s := mkSphinx false true toyKemGeo in
  exists surb k, newKemSURB s toyRnd toyReplyPath = Ok (surb, k) /\
    length surb = SURBLength toyKemGeo /\
    forall payload, exists pkt b,
      NewPacketFromSURB toyKemGeo surb payload = Ok (pkt, replicate 32 1%Z) /\
      travel (unwrapKem s) toySks pkt = Ok (route toyReplyPath, b) /\
      fst (DecryptSURBPayload toyKemGeo b k) = Ok payload.
Proof.
  apply (kem_surb_roundtrip 10 true 4 toyKemGeo toyRnd toyReplyPath toySks
    (toyHop 1 5 [NodeDelay 1000])); try reflexivity.
  - apply toyRnd_good.
  - repeat constructor.
  - apply toyReplyPath_valid_kem.
  - simpl. lia.
Defined.

(** Unwrapping a packet of garbage. *)
Lemma unwrapNike_robust_witness :
  exists r, unwrapNike toyGeo 5%Z (replicate 500 7%Z) = Ok r /\
    unwrap_post (replicate 500 7%Z) r.
Proof.
  apply (unwrapNike_robust 10 true 4); [reflexivity|].
  intros [|z [|]]; simpl; [done|by case_bool_decide|done].
Defined.

Lemma unwrapKem_robust_witness :
  exists r, unwrapKem (mkSphinx false true toyKemGeo) 5%Z (replicate 500 0%Z) = Ok r /\
    unwrap_post (replicate 500 0%Z) r.
Proof.
  apply (unwrapKem_robust 10 true 4); [reflexivity|].
  by intros sk [|z [|]].
Defined.

(** The first hop of the three-hop packet accepts it. *)
Definition toyPacket : bytes :=
  Eval vm_compute in get [] (newNikePacket toyGeo toyRnd toyPath (toyPayload toyGeo)).
Definition toyUnwrapped : UnwrapResult :=
  Eval vm_compute in get (mkUnwrap None None [] None []) (unwrapNike toyGeo 5%Z toyPacket).

Lemma unwrapNike_authentic_witness :
  exists ge k, nike_UnmarshalBinaryPublicKey (Nike := toyNike) (take 1 (drop 2 toyPacket)) = Ok ge /\
    KDF (nike_DeriveSecret (Nike := toyNike) 5%Z ge)
      (Some (nike_GeneratePrivateKey (Nike := toyNike))) = Ok k /\
    take 2 toyPacket = v0AD /\ uw_replayTag toyUnwrapped = Some (Hash (nike_Bytes ge)) /\
    let macOff := 2 + 1 + RoutingInfoLength toyGeo in
    take MACLength (drop macOff toyPacket) = macSum (HeaderMAC k) [take macOff toyPacket].
Proof.
  apply (@unwrapNike_authentic toyNike toySym toyGeo 5%Z toyPacket toyUnwrapped).
  - vm_compute. reflexivity.
  - reflexivity.
Defined.
