(* ===== verification/PigeonGeo.v ===== *)
(** Pigeonhole geometry: [pigeonhole/geo/geometry.go].

    [PigeonholeGeometry] is Go's [geo.Geometry] of the pigeonhole package: the
    sizes of the courier and replica messages for a given box payload.  The
    constants of the bacap, mkem and chacha20poly1305 packages and the NIKE
    registry are outside the repository, hence parameters.  Sizes are [int]s
    that never go below zero, except the payload length derived from a Sphinx
    geometry, whose sign is the error test. *)

From S2P Require Import Prelude Schemes ToySchemes SphinxGeo.
From Stdlib Require Import ZArith Lia.
From stdpp Require Import prelude list strings.

(** Constants of [hpqc/bacap], [hpqc/kem/mkem] and [chacha20poly1305]. *)
Class PigeonSizes := {
  BoxIDSize : nat;
  SignatureSize : nat;
  DEKSize : nat;
  NonceSize : nat;
  Overhead : nat;
}.

Definition bacapEncryptionOverhead : nat := 16.
Definition lengthPrefixSize : nat := 4.
Definition mkemEncryptionOverhead {P : PigeonSizes} : nat := NonceSize + Overhead.
Definition signatureSchemeName : string := "Ed25519".
Definition messageTypeSize : nat := 1.
Definition errorCodeFieldSize : nat := 1.
Definition successFieldSize : nat := 1.
Definition payloadLenFieldSize : nat := 4.
Definition writeReplyLenFieldSize : nat := 4.
Definition minimalOkReplySize : nat := 2.
Definition errorLenFieldSize : nat := 2.
Definition timestampFieldSize : nat := 8.
Definition ciphertextLenFieldSize : nat := 4.
Definition intermediateReplicasSize : nat := 2.
Definition replyIndexSize : nat := 1.
Definition epochSize : nat := 8.
Definition senderPubkeyLenSize : nat := 2.
Definition queryTypeSize : nat := 1.

Record PigeonholeGeometry := mkPigeonholeGeometry {
  MaxPlaintextPayloadLength : nat;
  CourierQueryReadLength : nat;
  CourierQueryWriteLength : nat;
  CourierQueryReplyReadLength : nat;
  CourierQueryReplyWriteLength : nat;
  pg_NIKEName : string;
  SignatureSchemeName : string;
}.

Section PigeonGeo.

Context {P : PigeonSizes} (nikeByName : string -> option Nike).

Definition replicaWriteFixedOverhead : nat := BoxIDSize + SignatureSize + payloadLenFieldSize.

(** The first argument is ignored, as in the source. *)
Definition calculateCourierEnvelopeOverhead (_ : nat) (senderPubkeySize : nat) : nat :=
  let courierEnvelopeFixedOverhead :=
    intermediateReplicasSize + DEKSize + DEKSize + replyIndexSize + epochSize +
    senderPubkeyLenSize + ciphertextLenFieldSize in
  courierEnvelopeFixedOverhead + senderPubkeySize.

Definition calculateCourierQueryWrapperOverhead (_ : nat) (_ : Nike) : nat := queryTypeSize.

Definition NIKEScheme (g : PigeonholeGeometry) : outcome Nike := deref (nikeByName (pg_NIKEName g)).

Definition CalculateBoxCiphertextLength (g : PigeonholeGeometry) : nat :=
  MaxPlaintextPayloadLength g + lengthPrefixSize + bacapEncryptionOverhead.

Definition calculateCourierQueryReadLength (g : PigeonholeGeometry) : outcome nat :=
  nikeScheme ← NIKEScheme g;
  let replicaReadSize := BoxIDSize in
  let replicaInnerMessageSize := messageTypeSize + replicaReadSize in
  let mkemCiphertextSize := replicaInnerMessageSize + mkemEncryptionOverhead in
  let senderPubkeySize := @nike_PublicKeySize nikeScheme in
  let courierEnvelopeOverhead := calculateCourierEnvelopeOverhead mkemCiphertextSize senderPubkeySize in
  let courierEnvelopeSize := courierEnvelopeOverhead + mkemCiphertextSize in
  Ok (courierEnvelopeSize + calculateCourierQueryWrapperOverhead courierEnvelopeSize nikeScheme).

Definition calculateCourierQueryWriteLength (g : PigeonholeGeometry) : outcome nat :=
  nikeScheme ← NIKEScheme g;
  let bacapPayloadSize := MaxPlaintextPayloadLength g + lengthPrefixSize + bacapEncryptionOverhead in
  let replicaWriteSize := replicaWriteFixedOverhead + bacapPayloadSize in
  let replicaInnerMessageSize := messageTypeSize + replicaWriteSize in
  let mkemCiphertextSize := replicaInnerMessageSize + mkemEncryptionOverhead in
  let senderPubkeySize := @nike_PublicKeySize nikeScheme in
  let courierEnvelopeOverhead := calculateCourierEnvelopeOverhead mkemCiphertextSize senderPubkeySize in
  let courierEnvelopeSize := courierEnvelopeOverhead + mkemCiphertextSize in
  Ok (courierEnvelopeSize + calculateCourierQueryWrapperOverhead courierEnvelopeSize nikeScheme).

Definition calculateCourierQueryReplyReadLength (g : PigeonholeGeometry) : nat :=
  let replicaReadReplyFixedSize := BoxIDSize + successFieldSize + payloadLenFieldSize + SignatureSize in
  let replicaReadReplySize := replicaReadReplyFixedSize + MaxPlaintextPayloadLength g in
  let replicaMessageReplySize := messageTypeSize + replicaReadReplySize in
  let mkemCiphertextSize := replicaMessageReplySize + mkemEncryptionOverhead in
  let courierEnvelopeReplyFixedSize := successFieldSize + timestampFieldSize + ciphertextLenFieldSize in
  let courierEnvelopeReplySize := courierEnvelopeReplyFixedSize + mkemCiphertextSize in
  errorLenFieldSize + courierEnvelopeReplySize.

Definition calculateCourierQueryReplyWriteLength (g : PigeonholeGeometry) : nat :=
  let replicaWriteReplySize := writeReplyLenFieldSize + minimalOkReplySize in
  let replicaMessageReplySize := messageTypeSize + replicaWriteReplySize in
  let mkemCiphertextSize := replicaMessageReplySize + mkemEncryptionOverhead in
  let courierEnvelopeReplyFixedSize := successFieldSize + timestampFieldSize + ciphertextLenFieldSize in
  let courierEnvelopeReplySize := courierEnvelopeReplyFixedSize + mkemCiphertextSize in
  errorLenFieldSize + courierEnvelopeReplySize.

Definition NewGeometry (boxPayloadLength : nat) (nikeScheme : Nike) : outcome PigeonholeGeometry :=
  let g := mkPigeonholeGeometry boxPayloadLength 0 0 0 0 (@nike_Name nikeScheme) signatureSchemeName in
  r ← calculateCourierQueryReadLength g;
  w ← calculateCourierQueryWriteLength g;
  Ok (mkPigeonholeGeometry boxPayloadLength r w (calculateCourierQueryReplyReadLength g)
        (calculateCourierQueryReplyWriteLength g) (@nike_Name nikeScheme) signatureSchemeName).

Definition totalOverhead (nikeScheme : Nike) : nat :=
  let courierQueryOverhead := queryTypeSize in
  let senderPubkeySize := @nike_PublicKeySize nikeScheme in
  let courierEnvelopeOverhead := calculateCourierEnvelopeOverhead 0 senderPubkeySize in
  let mkemOverhead := mkemEncryptionOverhead in
  let replicaInnerMessageOverhead := messageTypeSize in
  let replicaWriteOverhead := replicaWriteFixedOverhead in
  let bacapOverhead := bacapEncryptionOverhead in
  let lengthPrefixOverhead := lengthPrefixSize in
  courierQueryOverhead + courierEnvelopeOverhead + mkemOverhead +
  replicaInnerMessageOverhead + replicaWriteOverhead + bacapOverhead + lengthPrefixOverhead.

Definition NewGeometryFromSphinx (sphinxGeo : Geometry) (nikeScheme : Nike) : outcome PigeonholeGeometry :=
  let targetSize := UserForwardPayloadLength sphinxGeo in
  let boxPayloadLength := (Z.of_nat targetSize - Z.of_nat (totalOverhead nikeScheme))%Z in
  if bool_decide (boxPayloadLength <= 0)%Z then Err "sphinx geometry too small"
  else NewGeometry (Z.to_nat boxPayloadLength) nikeScheme.

Definition maxInt (values : list nat) : nat :=
  match values with
  | [] => 0
  | v :: vs => fold_left (fun m v => if bool_decide (m < v) then v else m) vs v
  end.

Definition ToSphinxGeometry (g : PigeonholeGeometry) (nrHops : nat) (withSURB : bool)
    : outcome Geometry :=
  nikeScheme ← NIKEScheme g;
  let maxEnvelopeSize :=
    maxInt [CourierQueryReadLength g; CourierQueryWriteLength g;
            CourierQueryReplyReadLength g; CourierQueryReplyWriteLength g] in
  GeometryFromUserForwardPayloadLength nikeScheme maxEnvelopeSize withSURB nrHops.

(** [NIKEScheme] panics on an unknown name before [Validate] can report it. *)
Definition Pigeonhole_Validate (og : option PigeonholeGeometry) : outcome () :=
  match og with
  | None => Err "geometry is nil"
  | Some g =>
    if bool_decide (MaxPlaintextPayloadLength g = 0) then
      Err "MaxPlaintextPayloadLength must be positive"
    else if bool_decide (pg_NIKEName g = "") then Err "NIKEName must be set"
    else
      _ ← NIKEScheme g;
      if negb (bool_decide (SignatureSchemeName g = signatureSchemeName)) then
        Err "SignatureSchemeName must be Ed25519"
      else Ok ()
  end.

Definition PaddedPayloadLength (g : PigeonholeGeometry) : nat :=
  MaxPlaintextPayloadLength g + lengthPrefixSize.

Definition ReplicaInnerMessageWriteSize (g : PigeonholeGeometry) : nat :=
  let bacapCiphertextSize := CalculateBoxCiphertextLength g in
  let replicaWriteSize := replicaWriteFixedOverhead + bacapCiphertextSize in
  messageTypeSize + replicaWriteSize.

Definition ReplicaReplyInnerMessageReadSize (g : PigeonholeGeometry) : nat :=
  let bacapCiphertextSize := CalculateBoxCiphertextLength g in
  let replicaReadReplySize :=
    errorCodeFieldSize + BoxIDSize + SignatureSize + payloadLenFieldSize + bacapCiphertextSize in
  messageTypeSize + replicaReadReplySize.

Definition CalculateCourierEnvelopeCiphertextSizeRead (g : PigeonholeGeometry) : nat :=
  let replicaReadSize := BoxIDSize in
  let replicaInnerMessageSize := messageTypeSize + replicaReadSize in
  replicaInnerMessageSize + mkemEncryptionOverhead.

Definition CalculateCourierEnvelopeCiphertextSizeWrite (g : PigeonholeGeometry) : nat :=
  let bacapCiphertextSize := CalculateBoxCiphertextLength g in
  let replicaWriteSize := replicaWriteFixedOverhead + bacapCiphertextSize in
  let replicaInnerMessageSize := messageTypeSize + replicaWriteSize in
  replicaInnerMessageSize + mkemEncryptionOverhead.

Definition CalculateEnvelopeReplySizeRead (g : PigeonholeGeometry) : nat :=
  let bacapCiphertextSize := CalculateBoxCiphertextLength g in
  let replicaReadReplySize :=
    errorCodeFieldSize + BoxIDSize + SignatureSize + payloadLenFieldSize + bacapCiphertextSize in
  let replicaMessageReplyInnerSize := messageTypeSize + replicaReadReplySize in
  replicaMessageReplyInnerSize + (NonceSize + Overhead).

Definition CalculateEnvelopeReplySizeWrite (g : PigeonholeGeometry) : nat :=
  let replicaWriteReplySize := errorCodeFieldSize in
  let replicaMessageReplyInnerSize := messageTypeSize + replicaWriteReplySize in
  replicaMessageReplyInnerSize + (NonceSize + Overhead).

(** ** Closed forms *)

Context (nike : Nike) (Hreg : nikeByName (@nike_Name nike) = Some nike).

Lemma NewGeometry_ok n :
  exists g, NewGeometry n nike = Ok g /\
    MaxPlaintextPayloadLength g = n /\ pg_NIKEName g = @nike_Name nike /\
    SignatureSchemeName g = signatureSchemeName /\
    CourierQueryWriteLength g = n + totalOverhead nike /\
    CourierQueryReadLength g <= CourierQueryWriteLength g /\
    CourierQueryReplyReadLength g <= CourierQueryWriteLength g /\
    CourierQueryReplyWriteLength g <= CourierQueryWriteLength g.
Proof.
  unfold NewGeometry, calculateCourierQueryReadLength, calculateCourierQueryWriteLength, NIKEScheme.
  cbn [pg_NIKEName MaxPlaintextPayloadLength]. rewrite Hreg. cbn [deref]. go.
  eexists. split; [reflexivity|].
  cbn [MaxPlaintextPayloadLength pg_NIKEName SignatureSchemeName CourierQueryWriteLength
       CourierQueryReadLength CourierQueryReplyReadLength CourierQueryReplyWriteLength].
  cbv [totalOverhead calculateCourierEnvelopeOverhead calculateCourierQueryWrapperOverhead
       replicaWriteFixedOverhead calculateCourierQueryReplyReadLength MaxPlaintextPayloadLength
       calculateCourierQueryReplyWriteLength
       bacapEncryptionOverhead lengthPrefixSize messageTypeSize successFieldSize
       payloadLenFieldSize writeReplyLenFieldSize minimalOkReplySize errorLenFieldSize
       timestampFieldSize ciphertextLenFieldSize intermediateReplicasSize replyIndexSize epochSize
       senderPubkeyLenSize queryTypeSize].
  split_and!; [done..|lia|lia|lia|lia].
Qed.

Lemma maxInt_second a b c d : a <= b -> c <= b -> d <= b -> maxInt [a; b; c; d] = b.
Proof. intros. unfold maxInt. simpl. repeat case_bool_decide; lia. Qed.

End PigeonGeo.

(** A pigeonhole geometry derived from a Sphinx geometry exists exactly
    when the Sphinx payload exceeds the fixed overhead; its write query fills
    the Sphinx payload to the byte, and none of the four courier messages is
    larger than that. *)
Theorem pigeonhole_fills_sphinx {P : PigeonSizes} nikeByName (nike : Nike) (sg : Geometry) :
  nikeByName (@nike_Name nike) = Some nike ->
  (totalOverhead nike < UserForwardPayloadLength sg <->
     exists g, NewGeometryFromSphinx nikeByName sg nike = Ok g) /\
  (forall g, NewGeometryFromSphinx nikeByName sg nike = Ok g ->
     CourierQueryWriteLength g = UserForwardPayloadLength sg /\
     CourierQueryReadLength g <= UserForwardPayloadLength sg /\
     CourierQueryReplyReadLength g <= UserForwardPayloadLength sg /\
     CourierQueryReplyWriteLength g <= UserForwardPayloadLength sg /\
     Pigeonhole_Validate nikeByName (Some g) =
       (if bool_decide (@nike_Name nike = "") then Err "NIKEName must be set" else Ok ())).
Proof.
  intros Hreg. unfold NewGeometryFromSphinx.
  destruct (NewGeometry_ok nikeByName nike Hreg
    (Z.to_nat (Z.of_nat (UserForwardPayloadLength sg) - Z.of_nat (totalOverhead nike))))
    as (g & Hg & Hn & Hname & Hsig & Hw & Hr & Hrr & Hrw).
  case_bool_decide as Hz; [split; [split; [lia|by intros (?&?)]|done]|].
  rewrite Hg. split; [split; [by exists g|lia]|].
  intros g' [= <-]. rewrite Hw in *. split_and!; try lia.
  unfold Pigeonhole_Validate, NIKEScheme. rewrite Hname, Hsig, Hreg, Hn.
  rewrite bool_decide_eq_false_2 by lia. by case_bool_decide.
Qed.

(** The Sphinx geometry made to carry a pigeonhole geometry gives
    that same pigeonhole geometry back. *)
Theorem pigeonhole_sphinx_roundtrip {P : PigeonSizes} nikeByName (nike : Nike) n nrHops withSURB :
  nikeByName (@nike_Name nike) = Some nike -> 0 < n ->
  exists g sg, NewGeometry nikeByName n nike = Ok g /\
    ToSphinxGeometry nikeByName g nrHops withSURB = Ok sg /\
    NewGeometryFromSphinx nikeByName sg nike = Ok g.
Proof.
  intros Hreg Hn.
  destruct (NewGeometry_ok nikeByName nike Hreg n) as (g & Hg & Hmax & Hname & _ & Hw & Hr & Hrr & Hrw).
  destruct (GeometryFromUserForwardPayloadLength_ok nike (n + totalOverhead nike) withSURB nrHops)
    as (sg & Hsg & _ & _ & _ & _ & _ & _ & _ & _ & Hu & _).
  exists g, sg. split; [done|]. split.
  - unfold ToSphinxGeometry, NIKEScheme. rewrite Hname, Hreg. cbn [deref]. go.
    by rewrite maxInt_second, Hw by done.
  - unfold NewGeometryFromSphinx. rewrite Hu, bool_decide_eq_false_2 by lia.
    by replace (Z.to_nat _) with n by lia.
Qed.

(** ** Concrete sizes *)

#[export] Instance toySizes : PigeonSizes :=
  {| BoxIDSize := 32; SignatureSize := 64; DEKSize := 60; NonceSize := 12; Overhead := 16 |}.

Definition toyRegistry (s : string) : option Nike :=
  if bool_decide (s = @nike_Name toyNike) then Some toyNike else None.

Definition toyPigeon : PigeonholeGeometry :=
  mkPigeonholeGeometry 712 200 1000 857 50 (@nike_Name toyNike) signatureSchemeName.

Lemma pigeonhole_fills_sphinx_witness :
  NewGeometryFromSphinx toyRegistry (mkGeometry 0 5 0 0 0 0 0 0 0 1000 0 0 "toy" "") toyNike =
    Ok toyPigeon /\
  Pigeonhole_Validate toyRegistry (Some toyPigeon) = Ok ().
Proof.
  split; [vm_compute; reflexivity|].
  refine (proj2 (proj2 (proj2 (proj2 (proj2 (pigeonhole_fills_sphinx toyRegistry toyNike
    (mkGeometry 0 5 0 0 0 0 0 0 0 1000 0 0 "toy" "") _) toyPigeon _))))).
  - reflexivity.
  - vm_compute. reflexivity.
Defined.

Lemma pigeonhole_sphinx_roundtrip_witness :
  exists g sg, NewGeometry toyRegistry 700 toyNike = Ok g /\
    ToSphinxGeometry toyRegistry g 5 true = Ok sg /\
    NewGeometryFromSphinx toyRegistry sg toyNike = Ok g.
Proof. apply (pigeonhole_sphinx_roundtrip toyRegistry toyNike 700 5 true); [reflexivity|lia]. Defined.
