(* ===== verification/PigeonMessages.v ===== *)
(** The messages of the pigeonhole protocol between clients, couriers and
    storage replicas: [pigeonhole/trunnel_messages.go] and [helpers.go].

    A message type has [Parse], which reads it off the front of a buffer,
    [encodeBinary] and [validate], and [MarshalBinary] and [Bytes] made from
    them: the class [Message].  A Go array is a list whose length the message's
    well-formedness fixes; a pointer is an option. *)

From S2P Require Import Prelude Schemes ToySchemes SphinxGeo PigeonGeo.
From Stdlib Require Import ZArith Lia.
From stdpp Require Import prelude list strings.

Local Open Scope Z_scope.

(** ** Fields *)

Definition errTooShort : string := "data too short".
Definition errInteger : string := "integer constraint violated".
Definition errArray : string := "array length constraint violated".

(** The blocks that read one integer of [n] bytes. *)
Definition parseUint (n : nat) (cur : bytes) : outcome (Z * bytes) :=
  if bool_decide (length cur < n)%nat then Err errTooShort
  else Ok (be_combine (take n cur), drop n cur).

(** [0 <= x <= 1]: the tags of unions and replies. *)
Definition isTag (x : Z) : bool := Z.eqb x 0 || Z.eqb x 1.

Definition parseTag (cur : bytes) : outcome (Z * bytes) :=
  '(x, cur) ← parseUint 1 cur;
  if negb (isTag x) then Err errInteger else Ok (x, cur).

(** The loops that read [n] bytes one at a time. *)
Fixpoint parseArray (n : Z) (cur : bytes) : outcome (bytes * bytes) :=
  if bool_decide (n <= 0) then Ok ([], cur)
  else
    match cur with
    | [] => Err errTooShort
    | b :: cur => '(bs, cur) ← parseArray (n - 1) cur; Ok (b :: bs, cur)
    end.

(** The loops that append [n] bytes of a slice, which panic past its end. *)
Definition encodeArray (n : Z) (l : bytes) : outcome bytes :=
  if bool_decide (Z.of_nat (length l) < n) then Panic else Ok (take (Z.to_nat n) l).

(** [if len(l) != n { return err }]. *)
Definition checkLength (l : bytes) (n : Z) : outcome () :=
  if negb (bool_decide (Z.of_nat (length l) = n)) then Err errArray else Ok ().

Definition checkTag (x : Z) : outcome () := if negb (isTag x) then Err errInteger else Ok ().

(** ** Messages *)

Class Message (M : Type) := {
  Parse : bytes -> outcome (M * bytes);
  encodeBinary : M -> outcome bytes;
  validate : M -> outcome ();
}.

Section Marshal.

Context {M : Type} {I : Message M}.

Definition MarshalBinary (m : M) : outcome bytes := _ ← validate m; encodeBinary m.

(** The exported parsers, which ignore what follows the message. *)
Definition ParseMessage (data : bytes) : outcome M := '(m, _) ← Parse data; Ok m.

(** [Bytes] drops the error of [MarshalBinary]. *)
Definition Bytes (m : M) : outcome bytes :=
  match MarshalBinary m with
  | Ok b => Ok b
  | Err _ => Ok []
  | Panic => Panic
  end.

End Marshal.

(** The switch on a tag: parse one of two messages, encode and validate the one
    that is there. *)
Definition parseUnion {A B} (pa : bytes -> outcome (A * bytes)) (pb : bytes -> outcome (B * bytes)) (tag : Z)
    (cur : bytes) : outcome (option A * option B * bytes) :=
  if Z.eqb tag 0 then '(a, cur) ← pa cur; Ok (Some a, None, cur)
  else if Z.eqb tag 1 then '(b, cur) ← pb cur; Ok (None, Some b, cur)
  else Ok (None, None, cur).

Definition onUnion {A B C} (fa : A -> outcome C) (fb : B -> outcome C) (dflt : C) (tag : Z)
    (a : option A) (b : option B) : outcome C :=
  if Z.eqb tag 0 then match a with Some a => fa a | None => Ok dflt end
  else if Z.eqb tag 1 then match b with Some b => fb b | None => Ok dflt end
  else Ok dflt.

(** *** Courier messages *)

Record CourierEnvelope := mkCourierEnvelope {
  IntermediateReplicas : bytes;
  Dek1 : bytes;
  Dek2 : bytes;
  ce_ReplyIndex : Z;
  ce_Epoch : Z;
  SenderPubkeyLen : Z;
  SenderPubkey : bytes;
  CiphertextLen : Z;
  Ciphertext : bytes;
}.

Definition CourierEnvelope_Parse (data : bytes) : outcome (CourierEnvelope * bytes) :=
  '(ir, cur) ← parseArray 2 data;
  '(d1, cur) ← parseArray 60 cur;
  '(d2, cur) ← parseArray 60 cur;
  '(ri, cur) ← parseUint 1 cur;
  '(ep, cur) ← parseUint 8 cur;
  '(pl, cur) ← parseUint 2 cur;
  '(pk, cur) ← parseArray pl cur;
  '(cl, cur) ← parseUint 4 cur;
  '(ct, cur) ← parseArray cl cur;
  Ok (mkCourierEnvelope ir d1 d2 ri ep pl pk cl ct, cur).

Definition CourierEnvelope_encode (c : CourierEnvelope) : outcome bytes :=
  ir ← encodeArray 2 (IntermediateReplicas c);
  d1 ← encodeArray 60 (Dek1 c);
  d2 ← encodeArray 60 (Dek2 c);
  pk ← encodeArray (SenderPubkeyLen c) (SenderPubkey c);
  ct ← encodeArray (CiphertextLen c) (Ciphertext c);
  Ok (ir ++ d1 ++ d2 ++ be_split 1 (ce_ReplyIndex c) ++ PutUint64 (ce_Epoch c) ++
      PutUint16 (SenderPubkeyLen c) ++ pk ++ PutUint32 (CiphertextLen c) ++ ct).

Definition CourierEnvelope_validate (c : CourierEnvelope) : outcome () :=
  _ ← checkLength (IntermediateReplicas c) 2;
  _ ← checkLength (Dek1 c) 60;
  _ ← checkLength (Dek2 c) 60;
  _ ← checkLength (SenderPubkey c) (SenderPubkeyLen c);
  checkLength (Ciphertext c) (CiphertextLen c).

#[export] Instance CourierEnvelope_message : Message CourierEnvelope :=
  {| Parse := CourierEnvelope_Parse; encodeBinary := CourierEnvelope_encode; validate := CourierEnvelope_validate |}.

Record CourierEnvelopeReply := mkCourierEnvelopeReply {
  cer_EnvelopeHash : bytes;
  cer_ReplyIndex : Z;
  cer_ReplyType : Z;
  cer_PayloadLen : Z;
  cer_Payload : bytes;
  cer_ErrorCode : Z;
}.

Definition CourierEnvelopeReply_Parse (data : bytes) : outcome (CourierEnvelopeReply * bytes) :=
  '(h, cur) ← parseArray 32 data;
  '(ri, cur) ← parseUint 1 cur;
  '(rt, cur) ← parseTag cur;
  '(pl, cur) ← parseUint 4 cur;
  '(p, cur) ← parseArray pl cur;
  '(ec, cur) ← parseUint 1 cur;
  Ok (mkCourierEnvelopeReply h ri rt pl p ec, cur).

Definition CourierEnvelopeReply_encode (c : CourierEnvelopeReply) : outcome bytes :=
  h ← encodeArray 32 (cer_EnvelopeHash c);
  p ← encodeArray (cer_PayloadLen c) (cer_Payload c);
  Ok (h ++ be_split 1 (cer_ReplyIndex c) ++ be_split 1 (cer_ReplyType c) ++ PutUint32 (cer_PayloadLen c) ++ p ++
      be_split 1 (cer_ErrorCode c)).

Definition CourierEnvelopeReply_validate (c : CourierEnvelopeReply) : outcome () :=
  _ ← checkLength (cer_EnvelopeHash c) 32;
  _ ← checkTag (cer_ReplyType c);
  checkLength (cer_Payload c) (cer_PayloadLen c).

#[export] Instance CourierEnvelopeReply_message : Message CourierEnvelopeReply :=
  {| Parse := CourierEnvelopeReply_Parse; encodeBinary := CourierEnvelopeReply_encode;
     validate := CourierEnvelopeReply_validate |}.

Record CopyCommand := mkCopyCommand { WriteCapLen : Z; WriteCap : bytes }.

Definition CopyCommand_Parse (data : bytes) : outcome (CopyCommand * bytes) :=
  '(n, cur) ← parseUint 4 data;
  '(w, cur) ← parseArray n cur;
  Ok (mkCopyCommand n w, cur).

Definition CopyCommand_encode (c : CopyCommand) : outcome bytes :=
  w ← encodeArray (WriteCapLen c) (WriteCap c);
  Ok (PutUint32 (WriteCapLen c) ++ w).

Definition CopyCommand_validate (c : CopyCommand) : outcome () := checkLength (WriteCap c) (WriteCapLen c).

#[export] Instance CopyCommand_message : Message CopyCommand :=
  {| Parse := CopyCommand_Parse; encodeBinary := CopyCommand_encode; validate := CopyCommand_validate |}.

Record CopyCommandReply := mkCopyCommandReply { ccr_Status : Z; ccr_ErrorCode : Z; FailedEnvelopeIndex : Z }.

Definition CopyCommandReply_Parse (data : bytes) : outcome (CopyCommandReply * bytes) :=
  '(s, cur) ← parseUint 1 data;
  '(e, cur) ← parseUint 1 cur;
  '(i, cur) ← parseUint 8 cur;
  Ok (mkCopyCommandReply s e i, cur).

Definition CopyCommandReply_encode (c : CopyCommandReply) : outcome bytes :=
  Ok (be_split 1 (ccr_Status c) ++ be_split 1 (ccr_ErrorCode c) ++ PutUint64 (FailedEnvelopeIndex c)).

Definition CopyCommandReply_validate (c : CopyCommandReply) : outcome () := Ok ().

#[export] Instance CopyCommandReply_message : Message CopyCommandReply :=
  {| Parse := CopyCommandReply_Parse; encodeBinary := CopyCommandReply_encode; validate := CopyCommandReply_validate |}.

Record CourierQuery := mkCourierQuery {
  QueryType : Z;
  Envelope : option CourierEnvelope;
  cq_CopyCommand : option CopyCommand;
}.

Definition CourierQuery_Parse (data : bytes) : outcome (CourierQuery * bytes) :=
  '(t, cur) ← parseTag data;
  '(e, c, cur) ← parseUnion CourierEnvelope_Parse CopyCommand_Parse t cur;
  Ok (mkCourierQuery t e c, cur).

Definition CourierQuery_encode (c : CourierQuery) : outcome bytes :=
  b ← onUnion CourierEnvelope_encode CopyCommand_encode [] (QueryType c) (Envelope c) (cq_CopyCommand c);
  Ok (be_split 1 (QueryType c) ++ b).

Definition CourierQuery_validate (c : CourierQuery) : outcome () :=
  _ ← checkTag (QueryType c);
  onUnion CourierEnvelope_validate CopyCommand_validate () (QueryType c) (Envelope c) (cq_CopyCommand c).

#[export] Instance CourierQuery_message : Message CourierQuery :=
  {| Parse := CourierQuery_Parse; encodeBinary := CourierQuery_encode; validate := CourierQuery_validate |}.

Record CourierQueryReply := mkCourierQueryReply {
  cqr_ReplyType : Z;
  EnvelopeReply : option CourierEnvelopeReply;
  cqr_CopyCommandReply : option CopyCommandReply;
}.

Definition CourierQueryReply_Parse (data : bytes) : outcome (CourierQueryReply * bytes) :=
  '(t, cur) ← parseTag data;
  '(e, c, cur) ← parseUnion CourierEnvelopeReply_Parse CopyCommandReply_Parse t cur;
  Ok (mkCourierQueryReply t e c, cur).

Definition CourierQueryReply_encode (c : CourierQueryReply) : outcome bytes :=
  b ← onUnion CourierEnvelopeReply_encode CopyCommandReply_encode [] (cqr_ReplyType c) (EnvelopeReply c)
        (cqr_CopyCommandReply c);
  Ok (be_split 1 (cqr_ReplyType c) ++ b).

Definition CourierQueryReply_validate (c : CourierQueryReply) : outcome () :=
  _ ← checkTag (cqr_ReplyType c);
  onUnion CourierEnvelopeReply_validate CopyCommandReply_validate () (cqr_ReplyType c) (EnvelopeReply c)
    (cqr_CopyCommandReply c).

#[export] Instance CourierQueryReply_message : Message CourierQueryReply :=
  {| Parse := CourierQueryReply_Parse; encodeBinary := CourierQueryReply_encode;
     validate := CourierQueryReply_validate |}.

Record CopyStreamElement := mkCopyStreamElement { Flags : Z; EnvelopeLen : Z; EnvelopeData : bytes }.

Definition CopyStreamElement_Parse (data : bytes) : outcome (CopyStreamElement * bytes) :=
  '(f, cur) ← parseUint 1 data;
  '(n, cur) ← parseUint 4 cur;
  '(d, cur) ← parseArray n cur;
  Ok (mkCopyStreamElement f n d, cur).

Definition CopyStreamElement_encode (c : CopyStreamElement) : outcome bytes :=
  d ← encodeArray (EnvelopeLen c) (EnvelopeData c);
  Ok (be_split 1 (Flags c) ++ PutUint32 (EnvelopeLen c) ++ d).

Definition CopyStreamElement_validate (c : CopyStreamElement) : outcome () :=
  checkLength (EnvelopeData c) (EnvelopeLen c).

#[export] Instance CopyStreamElement_message : Message CopyStreamElement :=
  {| Parse := CopyStreamElement_Parse; encodeBinary := CopyStreamElement_encode;
     validate := CopyStreamElement_validate |}.

(** *** Replica messages *)

Record ReplicaRead := mkReplicaRead { rr_BoxID : bytes }.

Definition ReplicaRead_Parse (data : bytes) : outcome (ReplicaRead * bytes) :=
  '(b, cur) ← parseArray 32 data;
  Ok (mkReplicaRead b, cur).

Definition ReplicaRead_encode (r : ReplicaRead) : outcome bytes := encodeArray 32 (rr_BoxID r).

Definition ReplicaRead_validate (r : ReplicaRead) : outcome () := checkLength (rr_BoxID r) 32.

#[export] Instance ReplicaRead_message : Message ReplicaRead :=
  {| Parse := ReplicaRead_Parse; encodeBinary := ReplicaRead_encode; validate := ReplicaRead_validate |}.

Record ReplicaReadReply := mkReplicaReadReply {
  rrr_ErrorCode : Z;
  rrr_BoxID : bytes;
  rrr_Signature : bytes;
  rrr_PayloadLen : Z;
  rrr_Payload : bytes;
}.

Definition ReplicaReadReply_Parse (data : bytes) : outcome (ReplicaReadReply * bytes) :=
  '(e, cur) ← parseUint 1 data;
  '(b, cur) ← parseArray 32 cur;
  '(s, cur) ← parseArray 64 cur;
  '(n, cur) ← parseUint 4 cur;
  '(p, cur) ← parseArray n cur;
  Ok (mkReplicaReadReply e b s n p, cur).

Definition ReplicaReadReply_encode (r : ReplicaReadReply) : outcome bytes :=
  b ← encodeArray 32 (rrr_BoxID r);
  s ← encodeArray 64 (rrr_Signature r);
  p ← encodeArray (rrr_PayloadLen r) (rrr_Payload r);
  Ok (be_split 1 (rrr_ErrorCode r) ++ b ++ s ++ PutUint32 (rrr_PayloadLen r) ++ p).

Definition ReplicaReadReply_validate (r : ReplicaReadReply) : outcome () :=
  _ ← checkLength (rrr_BoxID r) 32;
  _ ← checkLength (rrr_Signature r) 64;
  checkLength (rrr_Payload r) (rrr_PayloadLen r).

#[export] Instance ReplicaReadReply_message : Message ReplicaReadReply :=
  {| Parse := ReplicaReadReply_Parse; encodeBinary := ReplicaReadReply_encode; validate := ReplicaReadReply_validate |}.

Record ReplicaWrite := mkReplicaWrite {
  rw_BoxID : bytes;
  rw_Signature : bytes;
  rw_PayloadLen : Z;
  rw_Payload : bytes;
}.

Definition ReplicaWrite_Parse (data : bytes) : outcome (ReplicaWrite * bytes) :=
  '(b, cur) ← parseArray 32 data;
  '(s, cur) ← parseArray 64 cur;
  '(n, cur) ← parseUint 4 cur;
  '(p, cur) ← parseArray n cur;
  Ok (mkReplicaWrite b s n p, cur).

Definition ReplicaWrite_encode (r : ReplicaWrite) : outcome bytes :=
  b ← encodeArray 32 (rw_BoxID r);
  s ← encodeArray 64 (rw_Signature r);
  p ← encodeArray (rw_PayloadLen r) (rw_Payload r);
  Ok (b ++ s ++ PutUint32 (rw_PayloadLen r) ++ p).

Definition ReplicaWrite_validate (r : ReplicaWrite) : outcome () :=
  _ ← checkLength (rw_BoxID r) 32;
  _ ← checkLength (rw_Signature r) 64;
  checkLength (rw_Payload r) (rw_PayloadLen r).

#[export] Instance ReplicaWrite_message : Message ReplicaWrite :=
  {| Parse := ReplicaWrite_Parse; encodeBinary := ReplicaWrite_encode; validate := ReplicaWrite_validate |}.

Record ReplicaWriteReply := mkReplicaWriteReply { rwr_ErrorCode : Z }.

Definition ReplicaWriteReply_Parse (data : bytes) : outcome (ReplicaWriteReply * bytes) :=
  '(e, cur) ← parseUint 1 data;
  Ok (mkReplicaWriteReply e, cur).

Definition ReplicaWriteReply_encode (r : ReplicaWriteReply) : outcome bytes := Ok (be_split 1 (rwr_ErrorCode r)).

Definition ReplicaWriteReply_validate (r : ReplicaWriteReply) : outcome () := Ok ().

#[export] Instance ReplicaWriteReply_message : Message ReplicaWriteReply :=
  {| Parse := ReplicaWriteReply_Parse; encodeBinary := ReplicaWriteReply_encode;
     validate := ReplicaWriteReply_validate |}.

Record ReplicaInnerMessage := mkReplicaInnerMessage {
  rim_MessageType : Z;
  ReadMsg : option ReplicaRead;
  WriteMsg : option ReplicaWrite;
}.

Definition ReplicaInnerMessage_Parse (data : bytes) : outcome (ReplicaInnerMessage * bytes) :=
  '(t, cur) ← parseTag data;
  '(r, w, cur) ← parseUnion ReplicaRead_Parse ReplicaWrite_Parse t cur;
  Ok (mkReplicaInnerMessage t r w, cur).

Definition ReplicaInnerMessage_encode (r : ReplicaInnerMessage) : outcome bytes :=
  b ← onUnion ReplicaRead_encode ReplicaWrite_encode [] (rim_MessageType r) (ReadMsg r) (WriteMsg r);
  Ok (be_split 1 (rim_MessageType r) ++ b).

Definition ReplicaInnerMessage_validate (r : ReplicaInnerMessage) : outcome () :=
  _ ← checkTag (rim_MessageType r);
  onUnion ReplicaRead_validate ReplicaWrite_validate () (rim_MessageType r) (ReadMsg r) (WriteMsg r).

#[export] Instance ReplicaInnerMessage_message : Message ReplicaInnerMessage :=
  {| Parse := ReplicaInnerMessage_Parse; encodeBinary := ReplicaInnerMessage_encode;
     validate := ReplicaInnerMessage_validate |}.

Record ReplicaMessageReplyInnerMessage := mkReplicaMessageReplyInnerMessage {
  rmr_MessageType : Z;
  ReadReply : option ReplicaReadReply;
  WriteReply : option ReplicaWriteReply;
}.

Definition ReplicaMessageReplyInnerMessage_Parse (data : bytes)
    : outcome (ReplicaMessageReplyInnerMessage * bytes) :=
  '(t, cur) ← parseTag data;
  '(r, w, cur) ← parseUnion ReplicaReadReply_Parse ReplicaWriteReply_Parse t cur;
  Ok (mkReplicaMessageReplyInnerMessage t r w, cur).

Definition ReplicaMessageReplyInnerMessage_encode (r : ReplicaMessageReplyInnerMessage) : outcome bytes :=
  b ← onUnion ReplicaReadReply_encode ReplicaWriteReply_encode [] (rmr_MessageType r) (ReadReply r) (WriteReply r);
  Ok (be_split 1 (rmr_MessageType r) ++ b).

Definition ReplicaMessageReplyInnerMessage_validate (r : ReplicaMessageReplyInnerMessage) : outcome () :=
  _ ← checkTag (rmr_MessageType r);
  onUnion ReplicaReadReply_validate ReplicaWriteReply_validate () (rmr_MessageType r) (ReadReply r) (WriteReply r).

#[export] Instance ReplicaMessageReplyInnerMessage_message : Message ReplicaMessageReplyInnerMessage :=
  {| Parse := ReplicaMessageReplyInnerMessage_Parse; encodeBinary := ReplicaMessageReplyInnerMessage_encode;
     validate := ReplicaMessageReplyInnerMessage_validate |}.

Record Box := mkBox { box_BoxID : bytes; box_PayloadLen : Z; box_Payload : bytes; box_Signature : bytes }.

Definition Box_Parse (data : bytes) : outcome (Box * bytes) :=
  '(b, cur) ← parseArray 32 data;
  '(n, cur) ← parseUint 4 cur;
  '(p, cur) ← parseArray n cur;
  '(s, cur) ← parseArray 64 cur;
  Ok (mkBox b n p s, cur).

Definition Box_encode (b : Box) : outcome bytes :=
  i ← encodeArray 32 (box_BoxID b);
  p ← encodeArray (box_PayloadLen b) (box_Payload b);
  s ← encodeArray 64 (box_Signature b);
  Ok (i ++ PutUint32 (box_PayloadLen b) ++ p ++ s).

Definition Box_validate (b : Box) : outcome () :=
  _ ← checkLength (box_BoxID b) 32;
  _ ← checkLength (box_Payload b) (box_PayloadLen b);
  checkLength (box_Signature b) 64.

#[export] Instance Box_message : Message Box :=
  {| Parse := Box_Parse; encodeBinary := Box_encode; validate := Box_validate |}.

(** ** Padding: [helpers.go] *)

Definition ErrPadDataExceedsTarget : string := "data exceeds target size".
Definition ErrNilGeometry : string := "pigeonhole geometry is nil".

Definition PadToSize (data : bytes) (targetSize : nat) : outcome bytes :=
  if bool_decide (targetSize < length data)%nat then Err ErrPadDataExceedsTarget
  else if bool_decide (length data = targetSize) then Ok data
  else Ok (data ++ zeros (targetSize - length data)).

Definition PadInnerMessageForEncryption {P : PigeonSizes} (msg : ReplicaInnerMessage)
    (geo : option PigeonholeGeometry) : outcome bytes :=
  match geo with
  | None => Err ErrNilGeometry
  | Some geo => b ← Bytes msg; PadToSize b (ReplicaInnerMessageWriteSize geo)
  end.

Definition PadReplyInnerMessageForEncryption {P : PigeonSizes} (msg : ReplicaMessageReplyInnerMessage)
    (geo : option PigeonholeGeometry) : outcome bytes :=
  match geo with
  | None => Err ErrNilGeometry
  | Some geo => b ← Bytes msg; PadToSize b (ReplicaReplyInnerMessageReadSize geo)
  end.

(** The room for the message may be negative, which no length fits. *)
Definition CreatePaddedPayload (message : bytes) (targetSize : nat) : outcome bytes :=
  if bool_decide (Z.of_nat targetSize - 4 < Z.of_nat (length message)) then Err "message size exceeds target size"
  else
    let paddedPayload := zeros targetSize in
    let paddedPayload := copy_at paddedPayload 0 4 (PutUint32 (wrap 32 (Z.of_nat (length message)))) in
    Ok (copy_at paddedPayload 4 (4 + length message) message).

Definition ExtractMessageFromPaddedPayload (paddedPayload : bytes) : outcome bytes :=
  if bool_decide (length paddedPayload < 4)%nat then Err "padded payload too short"
  else
    prefix ← slice paddedPayload 0 4;
    let messageLength := be_combine prefix in
    if bool_decide (Z.of_nat (length paddedPayload) - 4 < messageLength) then Err "invalid message length"
    else
      m ← slice paddedPayload 4 (Z.to_nat (wrap 32 (4 + messageLength)));
      Ok (copy_into (zeros (Z.to_nat messageLength)) m).

(** ** Wire formats *)

(** A parser and the format it reads: it reads back what is printed in front of
    anything, and on bytes it reads nothing else. *)
Record reads {A} (p : bytes -> outcome (A * bytes)) (print : A -> bytes) (ok : A -> Prop) : Prop := {
  rd_parse data a rest : Forall is_byte data -> p data = Ok (a, rest) ->
    ok a /\ data = print a ++ rest /\ Forall is_byte rest;
  rd_print a rest : ok a -> p (print a ++ rest) = Ok (a, rest);
}.

(** What a message promises: its format. *)
Class Format (M : Type) {I : Message M} := {
  wire : M -> bytes;
  wf : M -> Prop;
  fmt_reads : reads Parse wire wf;
  fmt_marshal m : wf m -> MarshalBinary m = Ok (wire m);
}.

Definition uint (n : nat) (v : Z) : Prop := 0 <= v < 2 ^ (8 * Z.of_nat n).
Definition array (n : Z) (l : bytes) : Prop := Z.of_nat (length l) = n /\ Forall is_byte l.

Lemma parseUint_reads n : reads (parseUint n) (be_split n) (uint n).
Proof.
  unfold parseUint. split.
  - intros data a rest Hd H. case_bool_decide as Hl; [done|]. injection H as <- <-.
    assert (Ht : length (take n data) = n) by (rewrite length_take; lia).
    assert (Hb : Forall is_byte (take n data)) by (by apply Forall_take).
    split_and!; [|rewrite <- Ht at 1; by rewrite be_split_combine, take_drop by done|by apply Forall_drop].
    pose proof (be_combine_bound _ Hb) as Hc. rewrite Ht in Hc. unfold uint.
    rewrite Z.pow_mul_r by lia. exact Hc.
  - intros a rest Ha. rewrite bool_decide_eq_false_2 by golen.
    rewrite (take_app_length' (be_split n a)), (drop_app_length' (be_split n a)) by (by rewrite length_be_split).
    by rewrite be_combine_split_small.
Qed.

Lemma parseTag_reads : reads parseTag (be_split 1) (fun x => x = 0 \/ x = 1).
Proof.
  unfold parseTag. split.
  - intros data a rest Hd H. go_inv H. destruct v as [x cur].
    apply (rd_parse _ _ _ (parseUint_reads 1)) in E as (_ & -> & Hb); [|done].
    unfold isTag in H. destruct (Z.eqb_spec x 0), (Z.eqb_spec x 1); cbn in H; try done; injection H as <- <-; auto.
  - intros a rest Ha. rewrite (rd_print _ _ _ (parseUint_reads 1)) by (unfold uint; lia). go.
    by destruct Ha as [-> | ->].
Qed.

Lemma parseArray_reads n : 0 <= n -> reads (parseArray n) (fun l => l) (array n).
Proof.
  intros Hn. split.
  - intros data. revert n Hn. induction data as [|b data IH]; intros n Hn a rest Hd H; cbn [parseArray] in H;
      case_bool_decide as Hz; try done.
    + injection H as <- <-. split_and!; [split; [cbn; lia|constructor]|done..].
    + injection H as <- <-. split_and!; [split; [cbn; lia|constructor]|done..].
    + go_inv H. destruct v as [bs cur]. injection H as <- <-. apply Forall_cons in Hd as [Hb Hd].
      destruct (IH (n - 1) ltac:(lia) bs cur Hd E) as ([Hl Hbs] & -> & Hr).
      split_and!; [split; [cbn [length]; lia|by constructor]|done..].
  - intros a. revert n Hn. induction a as [|b a IH]; intros n Hn rest [Hl Ha].
    + cbn in Hl. subst n. by destruct rest.
    + cbn [app parseArray]. cbn [length] in Hl. rewrite bool_decide_eq_false_2 by lia.
      apply Forall_cons in Ha as [Hb Ha]. rewrite (IH (n - 1)) by (try split; (done || lia)). done.
Qed.

Lemma encodeArray_ok n l : Z.of_nat (length l) = n -> encodeArray n l = Ok l.
Proof.
  intros <-. unfold encodeArray. rewrite bool_decide_eq_false_2 by lia. by rewrite Nat2Z.id, take_ge.
Qed.

Lemma checkLength_ok l n : Z.of_nat (length l) = n -> checkLength l n = Ok ().
Proof. intros H. unfold checkLength. by rewrite bool_decide_eq_true_2. Qed.

Lemma checkTag_ok x : x = 0 \/ x = 1 -> checkTag x = Ok ().
Proof. by intros [-> | ->]. Qed.

(** Invert and run the fields of a parser. *)
Ltac parse_field H :=
  let a := fresh "a" in let cur := fresh "cur" in let E := fresh "E" in
  apply bind_Ok_inv in H; destruct H as ([a cur] & E & H); cbn beta iota in H;
  lazymatch type of E with
  | parseUint ?n _ = _ => apply (rd_parse _ _ _ (parseUint_reads n)) in E
  | parseTag _ = _ => apply (rd_parse _ _ _ parseTag_reads) in E
  | parseArray ?n _ = _ =>
    let Hn := fresh "Hn" in assert (Hn : 0 <= n) by (unfold uint in *; lia);
    apply (rd_parse _ _ _ (parseArray_reads n Hn)) in E; clear Hn
  end; [|assumption]; let Ha := fresh "Ha" in let Hd := fresh "Hd" in let Hb := fresh "Hb" in
  destruct E as (Ha & Hd & Hb).

Ltac print_field :=
  lazymatch goal with
  | |- (parseUint ?n _ ≫= _) = _ => rewrite (rd_print _ _ _ (parseUint_reads n)) by assumption
  | |- (parseTag _ ≫= _) = _ => rewrite (rd_print _ _ _ parseTag_reads) by assumption
  | |- (parseArray ?n _ ≫= _) = _ =>
    let Hn := fresh "Hn" in assert (Hn : 0 <= n) by (unfold uint in *; lia);
    rewrite (rd_print _ _ _ (parseArray_reads n Hn)) by assumption; clear Hn
  end; go.

Ltac marshal_field :=
  first [rewrite encodeArray_ok by (unfold array in *; tauto)
        |rewrite checkLength_ok by (unfold array in *; tauto)
        |rewrite checkTag_ok by assumption]; go.

(** Prove a format from its fields, given the parser's name. *)
Ltac solve_reads p :=
  split;
  [ let H := fresh "H" in
    intros data m rest Hbytes H; change (p data = Ok (m, rest)) in H; unfold p in H;
    repeat parse_field H; injection H as <- <-; cbn;
    repeat match goal with Hd : _ = _ ++ _ |- _ => rewrite Hd; clear Hd end;
    rewrite <- ?app_assoc; split_and!; first [assumption|reflexivity]
  | let Hok := fresh "Hok" in
    intros m rest Hok; destruct m; cbn in Hok |- *; unfold p; rewrite <- ?app_assoc; decompose [and] Hok;
    repeat print_field; reflexivity ].

Ltac solve_marshal v e :=
  let Hok := fresh "Hok" in
  intros m Hok; destruct m; cbn in Hok |- *; unfold MarshalBinary; cbn [validate encodeBinary]; unfold v, e;
  cbn -[be_split PutUint16 PutUint32 PutUint64]; decompose [and] Hok; repeat marshal_field; reflexivity.

#[export] Instance CourierEnvelope_format : Format CourierEnvelope.
Proof.
  refine {| wire c := IntermediateReplicas c ++ Dek1 c ++ Dek2 c ++ be_split 1 (ce_ReplyIndex c) ++
              be_split 8 (ce_Epoch c) ++ be_split 2 (SenderPubkeyLen c) ++ SenderPubkey c ++
              be_split 4 (CiphertextLen c) ++ Ciphertext c;
            wf c := array 2 (IntermediateReplicas c) /\ array 60 (Dek1 c) /\ array 60 (Dek2 c) /\
              uint 1 (ce_ReplyIndex c) /\ uint 8 (ce_Epoch c) /\ uint 2 (SenderPubkeyLen c) /\
              array (SenderPubkeyLen c) (SenderPubkey c) /\ uint 4 (CiphertextLen c) /\
              array (CiphertextLen c) (Ciphertext c) |}.
  - solve_reads CourierEnvelope_Parse.
  - solve_marshal CourierEnvelope_validate CourierEnvelope_encode.
Defined.

#[export] Instance CourierEnvelopeReply_format : Format CourierEnvelopeReply.
Proof.
  refine {| wire c := cer_EnvelopeHash c ++ be_split 1 (cer_ReplyIndex c) ++ be_split 1 (cer_ReplyType c) ++
              be_split 4 (cer_PayloadLen c) ++ cer_Payload c ++ be_split 1 (cer_ErrorCode c);
            wf c := array 32 (cer_EnvelopeHash c) /\ uint 1 (cer_ReplyIndex c) /\
              (cer_ReplyType c = 0 \/ cer_ReplyType c = 1) /\ uint 4 (cer_PayloadLen c) /\
              array (cer_PayloadLen c) (cer_Payload c) /\ uint 1 (cer_ErrorCode c) |}.
  - solve_reads CourierEnvelopeReply_Parse.
  - solve_marshal CourierEnvelopeReply_validate CourierEnvelopeReply_encode.
Defined.

#[export] Instance CopyCommand_format : Format CopyCommand.
Proof.
  refine {| wire c := be_split 4 (WriteCapLen c) ++ WriteCap c;
            wf c := uint 4 (WriteCapLen c) /\ array (WriteCapLen c) (WriteCap c) |}.
  - solve_reads CopyCommand_Parse.
  - solve_marshal CopyCommand_validate CopyCommand_encode.
Defined.

#[export] Instance CopyCommandReply_format : Format CopyCommandReply.
Proof.
  refine {| wire c := be_split 1 (ccr_Status c) ++ be_split 1 (ccr_ErrorCode c) ++ be_split 8 (FailedEnvelopeIndex c);
            wf c := uint 1 (ccr_Status c) /\ uint 1 (ccr_ErrorCode c) /\ uint 8 (FailedEnvelopeIndex c) |}.
  - solve_reads CopyCommandReply_Parse.
  - solve_marshal CopyCommandReply_validate CopyCommandReply_encode.
Defined.

#[export] Instance CopyStreamElement_format : Format CopyStreamElement.
Proof.
  refine {| wire c := be_split 1 (Flags c) ++ be_split 4 (EnvelopeLen c) ++ EnvelopeData c;
            wf c := uint 1 (Flags c) /\ uint 4 (EnvelopeLen c) /\ array (EnvelopeLen c) (EnvelopeData c) |}.
  - solve_reads CopyStreamElement_Parse.
  - solve_marshal CopyStreamElement_validate CopyStreamElement_encode.
Defined.

#[export] Instance ReplicaRead_format : Format ReplicaRead.
Proof.
  refine {| wire r := rr_BoxID r; wf r := array 32 (rr_BoxID r) |}.
  - solve_reads ReplicaRead_Parse.
  - solve_marshal ReplicaRead_validate ReplicaRead_encode.
Defined.

#[export] Instance ReplicaReadReply_format : Format ReplicaReadReply.
Proof.
  refine {| wire r := be_split 1 (rrr_ErrorCode r) ++ rrr_BoxID r ++ rrr_Signature r ++
              be_split 4 (rrr_PayloadLen r) ++ rrr_Payload r;
            wf r := uint 1 (rrr_ErrorCode r) /\ array 32 (rrr_BoxID r) /\ array 64 (rrr_Signature r) /\
              uint 4 (rrr_PayloadLen r) /\ array (rrr_PayloadLen r) (rrr_Payload r) |}.
  - solve_reads ReplicaReadReply_Parse.
  - solve_marshal ReplicaReadReply_validate ReplicaReadReply_encode.
Defined.

#[export] Instance ReplicaWrite_format : Format ReplicaWrite.
Proof.
  refine {| wire r := rw_BoxID r ++ rw_Signature r ++ be_split 4 (rw_PayloadLen r) ++ rw_Payload r;
            wf r := array 32 (rw_BoxID r) /\ array 64 (rw_Signature r) /\ uint 4 (rw_PayloadLen r) /\
              array (rw_PayloadLen r) (rw_Payload r) |}.
  - solve_reads ReplicaWrite_Parse.
  - solve_marshal ReplicaWrite_validate ReplicaWrite_encode.
Defined.

#[export] Instance ReplicaWriteReply_format : Format ReplicaWriteReply.
Proof.
  refine {| wire r := be_split 1 (rwr_ErrorCode r); wf r := uint 1 (rwr_ErrorCode r) |}.
  - solve_reads ReplicaWriteReply_Parse.
  - solve_marshal ReplicaWriteReply_validate ReplicaWriteReply_encode.
Defined.

#[export] Instance Box_format : Format Box.
Proof.
  refine {| wire b := box_BoxID b ++ be_split 4 (box_PayloadLen b) ++ box_Payload b ++ box_Signature b;
            wf b := array 32 (box_BoxID b) /\ uint 4 (box_PayloadLen b) /\
              array (box_PayloadLen b) (box_Payload b) /\ array 64 (box_Signature b) |}.
  - solve_reads Box_Parse.
  - solve_marshal Box_validate Box_encode.
Defined.

(** *** Unions *)

Section Union.

Context {A B : Type} {MA : Message A} {MB : Message B} {FA : Format A} {FB : Format B}.

Definition wireUnion (x : option A * option B) : bytes :=
  match x with
  | (Some a, _) => wire a
  | (None, Some b) => wire b
  | (None, None) => []
  end.

(** The pointer the tag names is set, the other is nil. *)
Definition wfUnion (tag : Z) (x : option A * option B) : Prop :=
  (tag = 0 /\ exists a, x = (Some a, None) /\ wf a) \/ (tag = 1 /\ exists b, x = (None, Some b) /\ wf b).

Lemma parseUnion_reads tag :
  tag = 0 \/ tag = 1 -> reads (parseUnion Parse Parse tag) wireUnion (wfUnion tag).
Proof.
  unfold parseUnion, wfUnion. intros Htag. split.
  - intros data x rest Hd H. destruct Htag as [-> | ->]; cbn [Z.eqb Pos.eqb] in H; go_inv H; destruct v as [m cur];
      injection H as <- <-; apply (rd_parse _ _ _ fmt_reads) in E as (Hwf & -> & Hr); try done; split_and!; eauto 6.
  - intros x rest [(-> & a & -> & Ha)|(-> & b & -> & Hb)]; cbn [Z.eqb Pos.eqb wireUnion];
      by rewrite (rd_print _ _ _ fmt_reads).
Qed.

Lemma onUnion_marshal tag (x : option A * option B) :
  wfUnion tag x ->
  onUnion validate validate () tag x.1 x.2 = Ok () /\ onUnion encodeBinary encodeBinary [] tag x.1 x.2 = Ok (wireUnion x).
Proof.
  intros [(-> & a & -> & Ha)|(-> & b & -> & Hb)]; cbn.
  - pose proof (fmt_marshal a Ha) as H. unfold MarshalBinary in H. destruct (validate a) as [[]| |]; done.
  - pose proof (fmt_marshal b Hb) as H. unfold MarshalBinary in H. destruct (validate b) as [[]| |]; done.
Qed.

(** A message that is a tag and a union. *)
Section Tagged.

Context {M : Type} {I : Message M} (tagOf : M -> Z) (bodyOf : M -> option A * option B)
  (make : Z -> option A * option B -> M).
Context (Hmake : forall m, m = make (tagOf m) (bodyOf m)) (Htag : forall t x, tagOf (make t x) = t)
  (Hbody : forall t x, bodyOf (make t x) = x).
Context (HP : forall data, Parse data =
  ('(t, cur) ← parseTag data; '(x, cur) ← parseUnion Parse Parse t cur; Ok (make t x, cur))).
Context (HV : forall m, validate m =
  (_ ← checkTag (tagOf m); onUnion validate validate () (tagOf m) (bodyOf m).1 (bodyOf m).2)).
Context (HE : forall m, encodeBinary m =
  (b ← onUnion encodeBinary encodeBinary [] (tagOf m) (bodyOf m).1 (bodyOf m).2; Ok (be_split 1 (tagOf m) ++ b))).

Definition wireTagged (m : M) : bytes := be_split 1 (tagOf m) ++ wireUnion (bodyOf m).
Definition wfTagged (m : M) : Prop := wfUnion (tagOf m) (bodyOf m).

Lemma wfUnion_tag t x : wfUnion t x -> t = 0 \/ t = 1.
Proof. intros [[-> _]|[-> _]]; auto. Qed.

Lemma tagged_reads : reads Parse wireTagged wfTagged.
Proof.
  unfold wireTagged, wfTagged. split.
  - intros data m rest Hd H. rewrite HP in H. parse_field H. go_inv H. destruct v as [x cur']. injection H as <- <-.
    apply (rd_parse _ _ _ (parseUnion_reads a Ha)) in E as (Hwf & -> & Hr); [|done].
    rewrite Htag, Hbody, Hd0, app_assoc. auto.
  - intros m rest Hwf. rewrite HP, <- app_assoc.
    rewrite (rd_print _ _ _ parseTag_reads) by (by eapply wfUnion_tag). go.
    rewrite (rd_print _ _ _ (parseUnion_reads (tagOf m) (wfUnion_tag _ _ Hwf))) by done. go. by rewrite <- Hmake.
Qed.

Lemma tagged_marshal m : wfTagged m -> MarshalBinary m = Ok (wireTagged m).
Proof.
  intros Hwf. unfold MarshalBinary. rewrite HV, HE, checkTag_ok by (by eapply wfUnion_tag). go.
  destruct (onUnion_marshal _ _ Hwf) as [-> ->]. done.
Qed.

End Tagged.

End Union.

Ltac solve_tagged p :=
  intros data; match goal with |- _ = ?r => change (p data = r) end; unfold p; destruct (parseTag data) as [[t cur]| |]; [|done..]; go;
  match goal with |- (?x ≫= _) = (?y ≫= _) => change y with x; by destruct x as [[[? ?] ?]| |] end.

#[export] Instance CourierQuery_format : Format CourierQuery.
Proof.
  refine {| wire := wireTagged QueryType (fun c => (Envelope c, cq_CopyCommand c));
            wf := wfTagged QueryType (fun c => (Envelope c, cq_CopyCommand c)) |}.
  - apply (tagged_reads _ _ (fun t x => mkCourierQuery t x.1 x.2)); [by intros []|done|by intros t []|].
    solve_tagged CourierQuery_Parse.
  - apply tagged_marshal; done.
Defined.

#[export] Instance CourierQueryReply_format : Format CourierQueryReply.
Proof.
  refine {| wire := wireTagged cqr_ReplyType (fun c => (EnvelopeReply c, cqr_CopyCommandReply c));
            wf := wfTagged cqr_ReplyType (fun c => (EnvelopeReply c, cqr_CopyCommandReply c)) |}.
  - apply (tagged_reads _ _ (fun t x => mkCourierQueryReply t x.1 x.2)); [by intros []|done|by intros t []|].
    solve_tagged CourierQueryReply_Parse.
  - apply tagged_marshal; done.
Defined.

#[export] Instance ReplicaInnerMessage_format : Format ReplicaInnerMessage.
Proof.
  refine {| wire := wireTagged rim_MessageType (fun c => (ReadMsg c, WriteMsg c));
            wf := wfTagged rim_MessageType (fun c => (ReadMsg c, WriteMsg c)) |}.
  - apply (tagged_reads _ _ (fun t x => mkReplicaInnerMessage t x.1 x.2)); [by intros []|done|by intros t []|].
    solve_tagged ReplicaInnerMessage_Parse.
  - apply tagged_marshal; done.
Defined.

#[export] Instance ReplicaMessageReplyInnerMessage_format : Format ReplicaMessageReplyInnerMessage.
Proof.
  refine {| wire := wireTagged rmr_MessageType (fun c => (ReadReply c, WriteReply c));
            wf := wfTagged rmr_MessageType (fun c => (ReadReply c, WriteReply c)) |}.
  - apply (tagged_reads _ _ (fun t x => mkReplicaMessageReplyInnerMessage t x.1 x.2)); [by intros []|done|by intros t []|].
    solve_tagged ReplicaMessageReplyInnerMessage_Parse.
  - apply tagged_marshal; done.
Defined.

(** ** What the messages guarantee *)

(** Parsing accepts exactly the encodings of well-formed messages. *)
Definition canonical (M : Type) {I : Message M} {F : Format M} : Prop :=
  forall data (m : M) rest, Forall is_byte data ->
    (Parse data = Ok (m, rest) <-> wf m /\ exists b, MarshalBinary m = Ok b /\ data = b ++ rest).

Lemma format_canonical {M} {I : Message M} {F : Format M} : canonical M.
Proof.
  intros data m rest Hd. split.
  - intros H. apply (rd_parse _ _ _ fmt_reads) in H as (Hwf & -> & _); [|done]. split; [done|].
    exists (wire m). split; [by apply fmt_marshal|done].
  - intros (Hwf & b & Hb & ->). rewrite fmt_marshal in Hb by done. injection Hb as <-. by apply (rd_print _ _ _ fmt_reads).
Qed.

(** C16: every pigeonhole message has one encoding, and its parser reads exactly
    that: a well-formed message is read back from its encoding in front of any
    bytes, what follows is left over, and nothing else is read. *)
Theorem pigeonhole_messages_canonical :
  canonical CourierEnvelope /\ canonical CourierEnvelopeReply /\ canonical CourierQuery /\
  canonical CourierQueryReply /\ canonical CopyCommand /\ canonical CopyCommandReply /\
  canonical CopyStreamElement /\ canonical ReplicaRead /\ canonical ReplicaReadReply /\
  canonical ReplicaWrite /\ canonical ReplicaWriteReply /\ canonical ReplicaInnerMessage /\
  canonical ReplicaMessageReplyInnerMessage /\ canonical Box.
Proof. split_and!; apply format_canonical. Qed.

(** *** Sizes *)

(** The sizes of the cryptographic packages the formats are made for. *)
Record formatSizes (P : PigeonSizes) : Prop := {
  fs_box : BoxIDSize = 32%nat;
  fs_sig : SignatureSize = 64%nat;
  fs_dek : DEKSize = 60%nat;
}.

Lemma PadToSize_ok data n : (length data <= n)%nat -> PadToSize data n = Ok (data ++ zeros (n - length data)).
Proof.
  intros Hl. unfold PadToSize. rewrite bool_decide_eq_false_2 by lia. case_bool_decide as He; [|done].
  by rewrite He, Nat.sub_diag, app_nil_r.
Qed.

Lemma Bytes_ok {M} {I : Message M} {F : Format M} (m : M) : wf m -> Bytes m = Ok (wire m).
Proof. intros H. unfold Bytes. by rewrite fmt_marshal. Qed.

Lemma array_length n l : array (Z.of_nat n) l -> length l = n.
Proof. intros [H _]. lia. Qed.

(** The payload of a write fits a box. *)
Definition fits (g : PigeonholeGeometry) (m : ReplicaInnerMessage) : Prop :=
  forall w, WriteMsg m = Some w -> (length (rw_Payload w) <= CalculateBoxCiphertextLength g)%nat.

Lemma inner_message_bound {P : PigeonSizes} (g : PigeonholeGeometry) m :
  formatSizes P -> wf m -> fits g m -> (length (wire m) <= ReplicaInnerMessageWriteSize g)%nat.
Proof.
  intros [Hb Hs _] Hwf Hfit. unfold ReplicaInnerMessageWriteSize, replicaWriteFixedOverhead. rewrite Hb, Hs.
  cbn -[be_split Nat.add] in *. unfold wfTagged, wireTagged, wfUnion, messageTypeSize, payloadLenFieldSize in *.
  destruct m as [t r w]; cbn -[be_split Nat.add] in *.
  destruct Hwf as [(-> & a & [= -> ->] & Ha)|(-> & b & [= -> ->] & Hw)]; cbn -[be_split Nat.add].
  - destruct a as [i]. cbn in Ha |- *. destruct Ha as [Ha _]. golen.
  - specialize (Hfit b eq_refl). destruct b as [i s n p]. cbn in Hw, Hfit |- *.
    destruct Hw as ([Hi _] & [Hsg _] & _ & _). golen.
Qed.

Lemma length_envelope (e : CourierEnvelope) :
  wf e -> length (wire e) = (137 + length (SenderPubkey e) + length (Ciphertext e))%nat.
Proof.
  destruct e as [ir d1 d2 ri ep pl pk cl ct]. cbn -[be_split Nat.add].
  intros ([Hir _] & [Hd1 _] & [Hd2 _] & _). golen.
Qed.

Lemma query_marshal (e : CourierEnvelope) :
  wf e -> exists b, MarshalBinary (mkCourierQuery 0 (Some e) None) = Ok b /\
    length b = (138 + length (SenderPubkey e) + length (Ciphertext e))%nat.
Proof.
  intros He. eexists. split.
  - apply (fmt_marshal (mkCourierQuery 0 (Some e) None)). left. eauto.
  - change (wire _) with (be_split 1 0 ++ wire e). rewrite length_app, length_envelope by done. golen.
Qed.

(** Reads and writes look alike.  Any message to a replica that a box of the
    geometry holds, a read or a write, pads to one size, from which it is read
    back; and a courier query that carries it, encrypted, to a courier has
    exactly the length of a write query of the geometry. *)
Theorem pigeonhole_queries_uniform {P : PigeonSizes} nikeByName (nike : Nike) n g (m : ReplicaInnerMessage) :
  formatSizes P -> nikeByName (@nike_Name nike) = Some nike -> NewGeometry nikeByName n nike = Ok g ->
  wf m -> fits g m ->
  exists padded, PadInnerMessageForEncryption m (Some g) = Ok padded /\
    length padded = ReplicaInnerMessageWriteSize g /\ ParseMessage padded = Ok m /\
    forall e : CourierEnvelope, wf e -> length (SenderPubkey e) = @nike_PublicKeySize nike ->
      length (Ciphertext e) = (length padded + mkemEncryptionOverhead)%nat ->
      exists b, MarshalBinary (mkCourierQuery 0 (Some e) None) = Ok b /\ length b = CourierQueryWriteLength g.
Proof.
  intros Hsz Hreg Hg Hwf Hfit. pose proof (inner_message_bound g m Hsz Hwf Hfit) as Hle. pose proof Hsz as [Hb Hs Hd].
  destruct (NewGeometry_ok nikeByName nike Hreg n) as (g' & Hg' & Hn & _ & _ & Hw & _).
  assert (g' = g) as -> by congruence.
  exists (wire m ++ zeros (ReplicaInnerMessageWriteSize g - length (wire m))).
  assert (Hlen : length (wire m ++ zeros (ReplicaInnerMessageWriteSize g - length (wire m))) =
    ReplicaInnerMessageWriteSize g) by golen.
  split_and!; [|done| |].
  - unfold PadInnerMessageForEncryption. rewrite Bytes_ok by done. go. by apply PadToSize_ok.
  - unfold ParseMessage. by rewrite (rd_print _ _ _ fmt_reads).
  - intros e He Hpk Hct. destruct (query_marshal e He) as (b & Hm & Hlb). exists b. split; [done|].
    rewrite Hlb, Hpk, Hct, Hlen, Hw. unfold ReplicaInnerMessageWriteSize, totalOverhead, CalculateBoxCiphertextLength,
      calculateCourierEnvelopeOverhead, replicaWriteFixedOverhead. rewrite Hn, Hb, Hs, Hd.
    cbv [messageTypeSize payloadLenFieldSize lengthPrefixSize bacapEncryptionOverhead queryTypeSize
      intermediateReplicasSize replyIndexSize epochSize senderPubkeyLenSize ciphertextLenFieldSize]. lia.
Qed.

(** A courier's answer to a read is 45 bytes longer than the length the geometry
    computes for it. *)
Theorem pigeonhole_reply_length {P : PigeonSizes} (g : PigeonholeGeometry) (r : CourierEnvelopeReply) :
  formatSizes P -> wf r -> length (cer_Payload r) = CalculateEnvelopeReplySizeRead g ->
  exists b, MarshalBinary (mkCourierQueryReply 0 (Some r) None) = Ok b /\
    length b = (calculateCourierQueryReplyReadLength g + 45)%nat.
Proof.
  intros [Hb Hs _] Hr Hp. eexists. split.
  - apply (fmt_marshal (mkCourierQueryReply 0 (Some r) None)). left. eauto.
  - change (wire _) with (be_split 1 0 ++ wire r). rewrite length_app.
    assert (Hw : length (wire r) = (39 + length (cer_Payload r))%nat).
    { destruct r as [h ri rt pl p ec]. cbn -[be_split Nat.add]. cbn in Hr. destruct Hr as ([Hh _] & _). golen. }
    rewrite Hw, Hp. unfold CalculateEnvelopeReplySizeRead, calculateCourierQueryReplyReadLength,
      CalculateBoxCiphertextLength, mkemEncryptionOverhead. rewrite Hb, Hs.
    cbv [messageTypeSize payloadLenFieldSize lengthPrefixSize bacapEncryptionOverhead errorCodeFieldSize
      successFieldSize timestampFieldSize ciphertextLenFieldSize errorLenFieldSize]. golen.
Qed.

(** *** A concrete query *)

Definition toyRead : ReplicaInnerMessage := mkReplicaInnerMessage 0 (Some (mkReplicaRead (replicate 32 7))) None.
Definition toyPigeonGeo : PigeonholeGeometry :=
  Eval vm_compute in match NewGeometry toyRegistry 100 toyNike with Ok g => g | _ => toyPigeon end.

Lemma toyRead_wf : wf toyRead.
Proof.
  left. split; [done|]. exists (mkReplicaRead (replicate 32 7)). split; [done|]. split; [done|].
  apply Forall_replicate. unfold is_byte. lia.
Qed.

Lemma pigeonhole_queries_uniform_witness :
  exists padded, PadInnerMessageForEncryption toyRead (Some toyPigeonGeo) = Ok padded /\
    length padded = 221%nat /\ ParseMessage padded = Ok toyRead.
Proof.
  destruct (pigeonhole_queries_uniform toyRegistry toyNike 100 toyPigeonGeo toyRead) as (b & Hb & Hl & Hp & _).
  - split; reflexivity.
  - reflexivity.
  - vm_compute. reflexivity.
  - exact toyRead_wf.
  - intros w H. discriminate H.
  - exists b. split; [exact Hb|]. split; [rewrite Hl; reflexivity|exact Hp].
Defined.

(** A message is recovered from its padded payload. *)
Lemma padded_payload_roundtrip message targetSize :
  (length message + 4 <= targetSize)%nat -> Z.of_nat targetSize < 2 ^ 32 ->
  exists p, CreatePaddedPayload message targetSize = Ok p /\ length p = targetSize /\
    ExtractMessageFromPaddedPayload p = Ok message.
Proof.
  intros Hl Ht. unfold CreatePaddedPayload. rewrite bool_decide_eq_false_2 by lia.
  set (n := Z.of_nat (length message)). assert (Hn : wrap 32 n = n) by (apply Z.mod_small; lia). rewrite Hn.
  set (k := (targetSize - (length message + 4))%nat).
  assert (Hp : copy_at (copy_at (zeros targetSize) 0 4 (PutUint32 n)) 4 (4 + length message) message =
    PutUint32 n ++ message ++ zeros k).
  { replace targetSize with (4 + (length message + k))%nat by lia. rewrite !zeros_app.
    rewrite (copy_at_mid [] (zeros 4) (zeros (length message) ++ zeros k) (PutUint32 n)) by done.
    cbn [app]. apply copy_at_mid; golen; done. }
  rewrite Hp. eexists. split_and!; [reflexivity|unfold PutUint32; golen|].
  unfold ExtractMessageFromPaddedPayload, PutUint32.
  assert (Hlen : length (be_split 4 n ++ message ++ zeros k) = targetSize) by golen.
  rewrite Hlen, bool_decide_eq_false_2 by lia.
  rewrite (slice_mid' _ [] (be_split 4 n) (message ++ zeros k)) by (done || golen). go. rewrite be_combine_split_small by (cbn; lia).
  rewrite bool_decide_eq_false_2 by lia. unfold wrap. rewrite Z.mod_small by lia.
  rewrite slice_mid by (golen; lia). go. f_equal. apply copy_zeros. lia.
Qed.
