(* ===== verification/CopyStream.v ===== *)
(** The copy stream: [pigeonhole/copy_stream.go].

    A client streams courier envelopes to a courier in boxes of a fixed size: the
    encoder frames envelopes with their length and cuts the frames into elements
    that fit a box; the decoder of the courier joins the elements and parses the
    envelopes.  The loops of the code get the length of what they consume plus
    one as fuel, every round consumes at least a byte; the encoder's loops with a
    chunk size of 0, which do not end, run out of it. *)

From S2P Require Import Prelude Schemes ToySchemes SphinxGeo PigeonGeo PigeonMessages.
From Stdlib Require Import ZArith Lia.
From stdpp Require Import prelude list strings.

Local Open Scope Z_scope.

Definition CopyStreamFlagStart : Z := 1.
Definition CopyStreamFlagFinal : Z := 2.
Definition CopyStreamElementOverhead : Z := 5.

Definition errNoEnd : string := "the loop does not end".

(** ** The encoder *)

Record CopyStreamEncoder := mkEncoder { enc_buffer : bytes; maxChunkSize : Z; isFirstChunk : bool }.

Definition NewCopyStreamEncoder (g : PigeonholeGeometry) : CopyStreamEncoder :=
  mkEncoder [] (Z.of_nat (MaxPlaintextPayloadLength g) - CopyStreamElementOverhead) true.

Definition SuppressStart (e : CopyStreamEncoder) : CopyStreamEncoder :=
  mkEncoder (enc_buffer e) (maxChunkSize e) false.

(** The element for a chunk, [None] when it does not marshal. *)
Definition chunkElement (first final : bool) (chunk : bytes) : CopyStreamElement :=
  mkCopyStreamElement
    (Z.lor (if first then CopyStreamFlagStart else 0) (if final then CopyStreamFlagFinal else 0))
    (wrap 32 (Z.of_nat (length chunk))) chunk.

Definition marshalElement (el : CopyStreamElement) : outcome (list bytes) :=
  match MarshalBinary el with
  | Ok b => Ok [b]
  | Err _ => Ok []
  | Panic => Panic
  end.

(** Take [size] bytes off the buffer and make an element of them. *)
Definition takeChunk (size : Z) (final : bool) (e : CopyStreamEncoder) : outcome (list bytes * CopyStreamEncoder) :=
  if bool_decide (size < 0) then Panic
  else
    chunk ← slice_to (enc_buffer e) (Z.to_nat size);
    rest ← slice_from (enc_buffer e) (Z.to_nat size);
    els ← marshalElement (chunkElement (isFirstChunk e) final chunk);
    Ok (els, mkEncoder rest (maxChunkSize e) false).

(** [extractElements], and the first loop of [Flush]. *)
Fixpoint extractLoop (fuel : nat) (e : CopyStreamEncoder) : outcome (list bytes * CopyStreamEncoder) :=
  if bool_decide (maxChunkSize e < Z.of_nat (length (enc_buffer e))) then
    match fuel with
    | O => Err errNoEnd
    | S fuel =>
      '(els, e) ← takeChunk (maxChunkSize e) false e;
      '(els', e) ← extractLoop fuel e;
      Ok (els ++ els', e)
    end
  else Ok ([], e).

Definition extractElements (e : CopyStreamEncoder) : outcome (list bytes * CopyStreamEncoder) :=
  extractLoop (S (length (enc_buffer e))) e.

Definition AddEnvelope (envelope : option CourierEnvelope) (e : CopyStreamEncoder)
    : outcome (list bytes * CopyStreamEncoder) :=
  match envelope with
  | None => Err "envelope is nil"
  | Some envelope =>
    envelopeBytes ← MarshalBinary envelope;
    let lengthPrefix := PutUint32 (wrap 32 (Z.of_nat (length envelopeBytes))) in
    extractElements (mkEncoder (enc_buffer e ++ lengthPrefix ++ envelopeBytes) (maxChunkSize e) (isFirstChunk e))
  end.

Definition Flush (e : CopyStreamEncoder) : outcome (list bytes * CopyStreamEncoder) :=
  if bool_decide (length (enc_buffer e) = 0%nat) then Ok ([], e)
  else
    '(els, e) ← extractElements e;
    '(last, e) ← takeChunk (Z.of_nat (length (enc_buffer e))) true e;
    Ok (els ++ last, e).

Fixpoint flushLoop (fuel : nat) (e : CopyStreamEncoder) : outcome (list bytes * CopyStreamEncoder) :=
  if bool_decide (0 < length (enc_buffer e))%nat then
    match fuel with
    | O => Err errNoEnd
    | S fuel =>
      '(els, e) ← takeChunk (Z.min (maxChunkSize e) (Z.of_nat (length (enc_buffer e)))) false e;
      '(els', e) ← flushLoop fuel e;
      Ok (els ++ els', e)
    end
  else Ok ([], e).

Definition FlushWithoutFinal (e : CopyStreamEncoder) : outcome (list bytes * CopyStreamEncoder) :=
  if bool_decide (length (enc_buffer e) = 0%nat) then Ok ([], e) else flushLoop (S (length (enc_buffer e))) e.

(** [GetBuffer] and [SetBuffer]: the state that survives a restart. *)
Definition GetBuffer (e : CopyStreamEncoder) : bytes := enc_buffer e.
Definition SetBuffer (state : option bytes) (e : CopyStreamEncoder) : CopyStreamEncoder :=
  match state with
  | None => e
  | Some b => mkEncoder b (maxChunkSize e) (isFirstChunk e)
  end.

(** A stream of envelopes, from a new encoder to its flush. *)
Fixpoint addAll (envs : list CourierEnvelope) (e : CopyStreamEncoder) : outcome (list bytes * CopyStreamEncoder) :=
  match envs with
  | [] => Ok ([], e)
  | env :: envs =>
    '(els, e) ← AddEnvelope (Some env) e;
    '(els', e) ← addAll envs e;
    Ok (els ++ els', e)
  end.

Definition encodeStream (g : PigeonholeGeometry) (envs : list CourierEnvelope) : outcome (list bytes) :=
  '(els, e) ← addAll envs (NewCopyStreamEncoder g);
  '(els', _) ← Flush e;
  Ok (els ++ els').

(** ** The decoder *)

Record CopyStreamDecoder := mkDecoder { dec_buffer : bytes; maxElementSize : Z }.

Definition NewCopyStreamDecoder (g : PigeonholeGeometry) : CopyStreamDecoder :=
  mkDecoder [] (Z.of_nat (MaxPlaintextPayloadLength g)).

Definition AddData (data : bytes) (d : CopyStreamDecoder) : CopyStreamDecoder :=
  mkDecoder (dec_buffer d ++ data) (maxElementSize d).

Definition DecodeAvailable (d : CopyStreamDecoder) : outcome (option CopyStreamElement * CopyStreamDecoder) :=
  if bool_decide (Z.of_nat (length (dec_buffer d)) < CopyStreamElementOverhead) then Ok (None, d)
  else
    len ← slice (dec_buffer d) 1 5;
    let totalSize := CopyStreamElementOverhead + be_combine len in
    if bool_decide (0 < maxElementSize d) && bool_decide (maxElementSize d < totalSize)
    then Err "element size exceeds maximum"
    else
      match Parse (dec_buffer d) with
      | Panic => Panic
      | Err e => if bool_decide (e = errTooShort) then Ok (None, d) else Err "failed to parse element"
      | Ok (elem, remaining) => Ok (Some elem, mkDecoder remaining (maxElementSize d))
      end.

Definition IsStart (el : CopyStreamElement) : bool := negb (Z.eqb (Z.land (Flags el) CopyStreamFlagStart) 0).
Definition IsFinal (el : CopyStreamElement) : bool := negb (Z.eqb (Z.land (Flags el) CopyStreamFlagFinal) 0).

Record CopyStreamEnvelopeDecoder := mkEnvelopeDecoder {
  elementDecoder : CopyStreamDecoder;
  envelopeBuffer : bytes;
  sawFinal : bool;
  maxEnvelopeSize : Z;
}.

Definition NewCopyStreamEnvelopeDecoder (g : PigeonholeGeometry) : CopyStreamEnvelopeDecoder :=
  mkEnvelopeDecoder (NewCopyStreamDecoder g) [] false (Z.of_nat (CourierQueryWriteLength g)).

Definition AddBoxData (data : bytes) (d : CopyStreamEnvelopeDecoder) : CopyStreamEnvelopeDecoder :=
  mkEnvelopeDecoder (AddData data (elementDecoder d)) (envelopeBuffer d) (sawFinal d) (maxEnvelopeSize d).

(** The first loop of [DecodeEnvelopes]: the state it leaves, and its error. *)
Fixpoint elementLoop (fuel : nat) (d : CopyStreamEnvelopeDecoder)
    : outcome (CopyStreamEnvelopeDecoder * option string) :=
  match fuel with
  | O => Err errNoEnd
  | S fuel =>
    match DecodeAvailable (elementDecoder d) with
    | Panic => Panic
    | Err e => Ok (d, Some e)
    | Ok (None, _) => Ok (d, None)
    | Ok (Some elem, ed) =>
      elementLoop fuel (mkEnvelopeDecoder ed (envelopeBuffer d ++ EnvelopeData elem)
                          (if IsFinal elem then true else sawFinal d) (maxEnvelopeSize d))
    end
  end.

(** The second loop: envelopes, what is left of the buffer, and its error. *)
Fixpoint envelopeLoop (fuel : nat) (max : Z) (buf : bytes)
    : outcome (list CourierEnvelope * bytes * option string) :=
  match fuel with
  | O => Err errNoEnd
  | S fuel =>
    if bool_decide (length buf < 4)%nat then Ok ([], buf, None)
    else
      prefix ← slice_to buf 4;
      let envelopeLen := be_combine prefix in
      if bool_decide (0 < max) && bool_decide (max < envelopeLen)
      then Ok ([], buf, Some "envelope length exceeds maximum"%string)
      else
        let totalSize := 4 + envelopeLen in
        if bool_decide (Z.of_nat (length buf) < totalSize) then Ok ([], buf, None)
        else
          envelopeBytes ← slice buf 4 (Z.to_nat totalSize);
          match Parse envelopeBytes with
          | Panic => Panic
          | Err _ => Ok ([], buf, Some "failed to parse envelope"%string)
          | Ok (envelope, remaining) =>
            if bool_decide (0 < length remaining)%nat then Ok ([], buf, Some "envelope has trailing bytes"%string)
            else
              rest ← slice_from buf (Z.to_nat totalSize);
              '(envelopes, buf, err) ← envelopeLoop fuel max rest;
              Ok (envelope :: envelopes, buf, err)
          end
  end.

Definition DecodeEnvelopes (d : CopyStreamEnvelopeDecoder)
    : outcome (list CourierEnvelope * bool * option string * CopyStreamEnvelopeDecoder) :=
  '(d, err) ← elementLoop (S (length (dec_buffer (elementDecoder d)))) d;
  match err with
  | Some e => Ok ([], sawFinal d, Some e, d)
  | None =>
    '(envelopes, buf, err) ← envelopeLoop (S (length (envelopeBuffer d))) (maxEnvelopeSize d) (envelopeBuffer d);
    let d := mkEnvelopeDecoder (elementDecoder d) buf (sawFinal d) (maxEnvelopeSize d) in
    Ok (envelopes, sawFinal d, err, d)
  end.

Definition Remaining (d : CopyStreamEnvelopeDecoder) : nat :=
  (length (dec_buffer (elementDecoder d)) + length (envelopeBuffer d))%nat.

(** Boxes arrive one after the other; the decoder runs after each. *)
Fixpoint decodeStream (boxes : list bytes) (d : CopyStreamEnvelopeDecoder)
    : outcome (list CourierEnvelope * list bool * CopyStreamEnvelopeDecoder) :=
  match boxes with
  | [] => Ok ([], [], d)
  | box :: boxes =>
    '(envs, final, err, d) ← DecodeEnvelopes (AddBoxData box d);
    match err with
    | Some e => Err e
    | None =>
      '(envs', finals, d) ← decodeStream boxes d;
      Ok (envs ++ envs', final :: finals, d)
    end
  end.

(** ** What the encoder emits *)

(** The format of the stream under the elements: envelopes with their lengths. *)
Definition framed (e : CourierEnvelope) : bytes := be_split 4 (Z.of_nat (length (wire e))) ++ wire e.
Definition frames (envs : list CourierEnvelope) : bytes := concat (map framed envs).

(** The elements of chunks none of which is the last. *)
Fixpoint segments (first : bool) (chunks : list bytes) : list bytes :=
  match chunks with
  | [] => []
  | c :: chunks => wire (chunkElement first false c) :: segments false chunks
  end.

Definition noChunks {A} (l : list A) : bool := match l with [] => true | _ => false end.

Lemma noChunks_app {A} (a b : list A) : noChunks (a ++ b) = noChunks a && noChunks b.
Proof. by destruct a. Qed.

Lemma segments_app first a b :
  segments first (a ++ b) = segments first a ++ segments (first && noChunks a) b.
Proof.
  revert first. induction a as [|c a IH]; intros first; cbn; [by rewrite andb_true_r|].
  by rewrite IH, andb_false_r.
Qed.

Lemma length_segments first chunks : length (segments first chunks) = length chunks.
Proof. revert first. induction chunks as [|c chunks IH]; intros first; cbn; [done|]. by rewrite IH. Qed.

Lemma segments_length first chunks n :
  Forall (fun c => length c = n) chunks -> Forall (fun b => length b = (5 + n)%nat) (segments first chunks).
Proof.
  intros H. revert first. induction H as [|c chunks Hc _ IH]; intros first; cbn [segments]; constructor; [|done].
  cbn. golen.
Qed.

Lemma chunkElement_wf first final c :
  Z.of_nat (length c) < 2 ^ 32 -> Forall is_byte c -> wf (chunkElement first final c).
Proof.
  intros Hl Hc. unfold chunkElement.
  assert (E : wrap 32 (Z.of_nat (length c)) = Z.of_nat (length c)) by (apply Z.mod_small; lia).
  rewrite E. cbn [wf CopyStreamElement_format Flags EnvelopeLen EnvelopeData]. split_and!; [|split; [lia|exact Hl]|done].
  destruct first, final; split; vm_compute; congruence.
Qed.

Lemma envelope_bytes (e : CourierEnvelope) : wf e -> Forall is_byte (wire e).
Proof.
  cbn. unfold array. intros H. decompose [and] H. rewrite !Forall_app. split_and!; auto using be_split_bytes.
Qed.

Lemma framed_bytes e : wf e -> Forall is_byte (framed e).
Proof. intros H. apply Forall_app. split; [apply be_split_bytes|by apply envelope_bytes]. Qed.

Lemma takeChunk_ok (n : nat) size final e :
  size = Z.of_nat n -> (n <= length (enc_buffer e))%nat -> Z.of_nat n < 2 ^ 32 -> Forall is_byte (enc_buffer e) ->
  takeChunk size final e =
    Ok ([wire (chunkElement (isFirstChunk e) final (take n (enc_buffer e)))],
        mkEncoder (drop n (enc_buffer e)) (maxChunkSize e) false).
Proof.
  intros -> Hn Hb He. unfold takeChunk. rewrite bool_decide_eq_false_2, Nat2Z.id by lia.
  rewrite slice_to_cut, slice_from_cut by done. go.
  unfold marshalElement. rewrite fmt_marshal; [by go|].
  apply chunkElement_wf; [rewrite length_take; lia|by apply Forall_take].
Qed.

(** What an encoder still holds, and what an operation that has emitted [els]
    leaves of the bytes [buf]. *)
Definition emitted (max : nat) (first : bool) (buf : bytes) (r : outcome (list bytes * CopyStreamEncoder)) : Prop :=
  exists chunks rest,
    r = Ok (segments first chunks, mkEncoder rest (Z.of_nat max) (first && noChunks chunks)) /\
    buf = concat chunks ++ rest /\ Forall (fun c => length c = max) chunks /\
    (length rest <= max)%nat /\ (buf <> [] -> rest <> []).

Lemma extractLoop_ok (max : nat) fuel first buf :
  (0 < max)%nat -> Z.of_nat max < 2 ^ 32 -> Forall is_byte buf -> (length buf < fuel)%nat ->
  emitted max first buf (extractLoop fuel (mkEncoder buf (Z.of_nat max) first)).
Proof.
  intros Hm Hmb. revert first buf. induction fuel as [|fuel IH]; intros first buf Hb Hf; [lia|].
  cbn [extractLoop enc_buffer maxChunkSize]. case_bool_decide as Hlt.
  - rewrite (takeChunk_ok max) by (cbn; (done || lia)). cbn [isFirstChunk enc_buffer maxChunkSize]. go.
    destruct (IH false (drop max buf)) as (chunks & rest & -> & Hd & Hc & Hr & Hne);
      [by apply Forall_drop|rewrite length_drop; lia|]. go.
    exists (take max buf :: chunks), rest. split_and!; [by rewrite andb_false_r| | |done|].
    + cbn [concat]. by rewrite <- app_assoc, <- Hd, take_drop.
    + constructor; [rewrite length_take; lia|done].
    + intros _. apply Hne. intros E. apply (f_equal length) in E. rewrite length_drop in E. cbn in E. lia.
  - exists [], buf. split_and!; [by rewrite andb_true_r|done|constructor|lia|done].
Qed.

Lemma AddEnvelope_ok (max : nat) first buf e :
  (0 < max)%nat -> Z.of_nat max < 2 ^ 32 -> Forall is_byte buf -> wf e -> Z.of_nat (length (wire e)) < 2 ^ 32 ->
  emitted max first (buf ++ framed e) (AddEnvelope (Some e) (mkEncoder buf (Z.of_nat max) first)).
Proof.
  intros Hm Hmb Hb He Hl. unfold AddEnvelope. rewrite fmt_marshal by done. go.
  assert (E : wrap 32 (Z.of_nat (length (wire e))) = Z.of_nat (length (wire e))) by (apply Z.mod_small; lia).
  rewrite E. apply extractLoop_ok; [done..| |cbn; lia].
  apply Forall_app. split; [done|by apply framed_bytes].
Qed.

Lemma addAll_ok (max : nat) envs first buf :
  (0 < max)%nat -> Z.of_nat max < 2 ^ 32 -> Forall is_byte buf -> (length buf <= max)%nat ->
  Forall (fun e : CourierEnvelope => wf e /\ Z.of_nat (length (wire e)) < 2 ^ 32) envs ->
  emitted max first (buf ++ frames envs) (addAll envs (mkEncoder buf (Z.of_nat max) first)).
Proof.
  intros Hm Hmb Hb Hl He. revert first buf Hb Hl. induction He as [|e envs [He Hel] _ IH]; intros first buf Hb Hl.
  - exists [], buf. cbn. rewrite app_nil_r, andb_true_r. done.
  - cbn [addAll].
    destruct (AddEnvelope_ok max first buf e) as (c1 & r1 & -> & H1 & Hc1 & Hr1 & Hne1); [done..|]. go.
    assert (Hb1 : Forall is_byte r1).
    { assert (H : Forall is_byte (buf ++ framed e)) by (apply Forall_app; split; [done|by apply framed_bytes]).
      rewrite H1, Forall_app in H. by destruct H. }
    destruct (IH (first && noChunks c1) r1) as (c2 & r2 & -> & H2 & Hc2 & Hr2 & Hne2); [done..|]. go.
    exists (c1 ++ c2), r2. rewrite segments_app, noChunks_app, andb_assoc. split_and!; [done| |by apply Forall_app|done|].
    + unfold frames in *. cbn [map concat]. rewrite app_assoc, H1, <- app_assoc, H2, concat_app. by rewrite app_assoc.
    + intros _. apply Hne2. intros E. apply app_eq_nil in E as [E _]. apply Hne1; [|done].
      intros E'. apply app_eq_nil in E' as [_ E']. apply (f_equal length) in E'. unfold framed in E'.
      rewrite length_app, length_be_split in E'. cbn in E'. lia.
Qed.

(** The boxes of a stream: chunks of its frames, each of the size of a box but
    the last, whose element alone carries the final flag. *)
Lemma encodeStream_ok g (max : nat) envs :
  MaxPlaintextPayloadLength g = (5 + max)%nat -> (0 < max)%nat -> Z.of_nat max < 2 ^ 32 -> envs <> [] ->
  Forall (fun e : CourierEnvelope => wf e /\ Z.of_nat (length (wire e)) < 2 ^ 32) envs ->
  exists chunks last,
    encodeStream g envs = Ok (segments true chunks ++ [wire (chunkElement (noChunks chunks) true last)]) /\
    frames envs = concat chunks ++ last /\ Forall (fun c => length c = max) chunks /\
    (0 < length last <= max)%nat.
Proof.
  intros Hg Hm Hmb Hne He. unfold encodeStream, NewCopyStreamEncoder. rewrite Hg.
  replace (Z.of_nat (5 + max) - CopyStreamElementOverhead) with (Z.of_nat max) by (cbv [CopyStreamElementOverhead]; lia).
  destruct (addAll_ok max envs true []) as (chunks & rest & -> & Hf & Hc & Hr & Hn); [done..|cbn; lia|done|]. go.
  cbn [app] in Hf, Hn. exists chunks, rest.
  assert (Hnf : frames envs <> []).
  { destruct envs as [|e envs]; [done|]. intros E. apply (f_equal length) in E. unfold frames, framed in E. cbn [map concat] in E.
    rewrite !length_app, length_be_split in E. cbn in E. lia. }
  assert (Hb : Forall is_byte rest).
  { assert (H : Forall is_byte (frames envs)).
    { apply Forall_concat, Forall_map. eapply Forall_impl; [exact He|]. intros e [H _]. by apply framed_bytes. }
    rewrite Hf, Forall_app in H. by destruct H. }
  specialize (Hn Hnf). assert (0 < length rest)%nat by (destruct rest; cbn; [done|lia]).
  split_and!; [|done..|lia]. unfold Flush, extractElements. cbn [enc_buffer]. rewrite bool_decide_eq_false_2 by lia.
  cbn [extractLoop enc_buffer maxChunkSize]. rewrite bool_decide_eq_false_2 by lia. go.
  rewrite (takeChunk_ok (length rest)) by (cbn; (done || lia)). go. cbn [enc_buffer isFirstChunk app].
  by rewrite take_ge.
Qed.

(** ** What the decoder reads *)

Definition waiting (M maxE : Z) (buf : bytes) (final : bool) : CopyStreamEnvelopeDecoder :=
  mkEnvelopeDecoder (mkDecoder [] M) buf final maxE.

(** A box that is one element is joined to the stream. *)
Lemma elementLoop_box M maxE buf seen first final c :
  Z.of_nat (length c) + 5 <= M -> M < 2 ^ 32 -> Forall is_byte c ->
  let box := wire (chunkElement first final c) in
  elementLoop (S (length box)) (AddBoxData box (waiting M maxE buf seen)) =
    Ok (waiting M maxE (buf ++ c) (if final then true else seen), None).
Proof.
  intros Hl HM Hc box. set (el := chunkElement first final c) in *.
  assert (Hwf : wf el) by (apply chunkElement_wf; (done || lia)).
  assert (Hw : wrap 32 (Z.of_nat (length c)) = Z.of_nat (length c)) by (apply Z.mod_small; lia).
  assert (Hbox : box = be_split 1 (Flags el) ++ be_split 4 (Z.of_nat (length c)) ++ c) by (rewrite <- Hw; reflexivity).
  assert (Hlen : length box = (5 + length c)%nat) by (rewrite Hbox; golen).
  assert (Hd : DecodeAvailable (mkDecoder ([] ++ box) M) = Ok (Some el, mkDecoder [] M)).
  { unfold DecodeAvailable. cbn [dec_buffer maxElementSize app].
    rewrite bool_decide_eq_false_2 by (cbv [CopyStreamElementOverhead]; lia).
    rewrite (slice_mid' box _ _ _ 1 5 Hbox) by golen. go. rewrite be_combine_split_small by (change (2 ^ _) with (2 ^ 32); lia).
    rewrite (bool_decide_eq_false_2 (M < _)) by (cbv [CopyStreamElementOverhead]; lia). rewrite andb_false_r.
    pose proof (rd_print _ _ _ fmt_reads el [] Hwf) as Hp. rewrite app_nil_r in Hp. unfold box. by rewrite Hp. }
  rewrite Hlen. unfold AddBoxData, AddData, waiting. cbn [elementLoop elementDecoder dec_buffer maxElementSize Nat.add].
  rewrite Hd. cbn. destruct first, final; reflexivity.
Qed.

Lemma framed_length e : length (framed e) = (4 + length (wire e))%nat.
Proof. unfold framed. golen. Qed.

(** Cut a list where a prefix ends. *)
Lemma app_prefix {A} (x y u v : list A) : x ++ y = u ++ v -> (length u <= length x)%nat -> exists w, x = u ++ w /\ v = w ++ y.
Proof.
  intros H Hl. exists (drop (length u) x). assert (Hx : x = u ++ drop (length u) x).
  { rewrite <- (take_app_length u v) at 1. rewrite <- H, take_app_le by done. by rewrite take_drop. }
  split; [done|]. rewrite Hx, <- app_assoc in H. by apply app_inv_head in H.
Qed.

(** The decoder takes the envelopes that have arrived and keeps the rest. *)
Lemma envelopeLoop_ok (max : Z) envs fuel buf later :
  max < 2 ^ 32 -> Forall (fun e : CourierEnvelope => wf e /\ Z.of_nat (length (wire e)) <= max) envs ->
  buf ++ later = frames envs -> (length buf < fuel)%nat ->
  exists got rest buf', envelopeLoop fuel max buf = Ok (got, buf', None) /\ envs = got ++ rest /\
    buf' ++ later = frames rest /\ (later = [] -> rest = []).
Proof.
  intros Hmax He. revert fuel buf. induction He as [|e envs [He Hel] _ IH]; intros fuel buf H Hf;
    (destruct fuel as [|fuel]; [lia|]); cbn [envelopeLoop].
  - apply app_eq_nil in H as [-> ->]. by exists [], [], [].
  - unfold frames in *. cbn [map concat] in H.
    assert (Hstop : (length buf < length (framed e))%nat -> exists got rest buf',
      Ok ([], buf, @None string) = Ok (got, buf', None) /\ e :: envs = got ++ rest /\
      buf' ++ later = concat (map framed rest) /\ (later = [] -> rest = [])).
    { intros Hs. exists [], (e :: envs), buf. split_and!; [done..|].
      intros ->. apply (f_equal length) in H. rewrite app_nil_r, length_app in H. lia. }
    rewrite framed_length in Hstop. case_bool_decide as H4; [apply Hstop; lia|].
    unfold framed at 1 in H. rewrite <- app_assoc in H.
    apply app_prefix in H as (w & -> & Hw); [|golen].
    rewrite slice_to_app by golen. go. rewrite be_combine_split_small by (change (2 ^ _) with (2 ^ 32); lia).
    rewrite (bool_decide_eq_false_2 (max < _)) by lia. rewrite andb_false_r.
    case_bool_decide as Hlt; [apply Hstop; lia|].
    rewrite length_app, length_be_split in Hlt, Hf. symmetry in Hw. apply app_prefix in Hw as (w' & -> & Hw'); [|lia].
    rewrite slice_mid by golen. go.
    pose proof (rd_print _ _ _ fmt_reads e [] He) as Hp. rewrite app_nil_r in Hp. rewrite Hp. cbn [length].
    rewrite bool_decide_eq_false_2 by lia. rewrite app_assoc, slice_from_app by golen. go.
    rewrite length_app in Hf. destruct (IH fuel w') as (ds & rest & buf' & -> & -> & Hr & Hl); [done|lia|]. go.
    by exists (e :: ds), rest, buf'.
Qed.

(** A box more of the stream: the envelopes it completes are delivered. *)
Lemma DecodeEnvelopes_ok M maxE envs buf first final c later :
  Z.of_nat (length c) + 5 <= M -> M < 2 ^ 32 -> maxE < 2 ^ 32 -> Forall is_byte c ->
  Forall (fun e : CourierEnvelope => wf e /\ Z.of_nat (length (wire e)) <= maxE) envs ->
  (buf ++ c) ++ later = frames envs ->
  exists got rest buf',
    DecodeEnvelopes (AddBoxData (wire (chunkElement first final c)) (waiting M maxE buf false)) =
      Ok (got, final, None, waiting M maxE buf' final) /\
    envs = got ++ rest /\ buf' ++ later = frames rest /\ (later = [] -> rest = []).
Proof.
  intros Hc HM HE Hb He H.
  destruct (envelopeLoop_ok maxE envs (S (length (buf ++ c))) (buf ++ c) later)
    as (ds & rest & buf' & Hloop & -> & Hr & Hl); [done..|lia|].
  exists ds, rest, buf'. split_and!; try done. unfold DecodeEnvelopes.
  pose proof (elementLoop_box M maxE buf false first final c Hc HM Hb) as Hel. cbn zeta in Hel.
  change (dec_buffer (elementDecoder (AddBoxData ?b (waiting M maxE buf false)))) with b.
  rewrite Hel. go. unfold waiting. cbn [envelopeBuffer maxEnvelopeSize elementDecoder sawFinal]. rewrite Hloop.
  by destruct final.
Qed.

Lemma decodeStream_ok M maxE chunks last first buf envs :
  Forall (fun c => Z.of_nat (length c) + 5 <= M) (chunks ++ [last]) -> M < 2 ^ 32 -> maxE < 2 ^ 32 ->
  Forall (Forall is_byte) (chunks ++ [last]) ->
  Forall (fun e : CourierEnvelope => wf e /\ Z.of_nat (length (wire e)) <= maxE) envs ->
  buf ++ concat chunks ++ last = frames envs ->
  decodeStream (segments first chunks ++ [wire (chunkElement (first && noChunks chunks) true last)])
      (waiting M maxE buf false) =
    Ok (envs, replicate (length chunks) false ++ [true], waiting M maxE [] true).
Proof.
  intros Hc HM HE Hb. revert first buf envs.
  induction chunks as [|c chunks IH]; intros first buf envs He H; cbn [segments app decodeStream noChunks] in *;
    apply Forall_cons in Hc as [Hc1 Hc], Hb as [Hb1 Hb].
  - destruct (DecodeEnvelopes_ok M maxE envs buf (first && true) true last []) as (ds & rest & buf' & -> & -> & Hr & Hl);
      [done..|by rewrite app_nil_r|]. go. rewrite (Hl eq_refl), app_nil_r in *.
    by rewrite Hr.
  - destruct (DecodeEnvelopes_ok M maxE envs buf first false c (concat chunks ++ last))
      as (ds & rest & buf' & -> & -> & Hr & Hl); [done..| |].
    { cbn [concat] in H. by rewrite <- H, <- !app_assoc. } go.
    apply Forall_app in He as [_ He]. rewrite andb_false_r.
    pose proof (IH Hc Hb false buf' rest He Hr) as IH'. cbn [andb] in IH'. rewrite IH'. by go.
Qed.

(** A stream of envelopes survives the copy channel.  Every box an encoder
    makes of them fits a box of the geometry, and all but the last fill it; the
    courier's decoder, run after each box, delivers the envelopes in order,
    reports the final element with the last box and not before, and keeps
    nothing back. *)
Theorem copy_stream_roundtrip (g : PigeonholeGeometry) (envs : list CourierEnvelope) :
  (5 < MaxPlaintextPayloadLength g)%nat -> Z.of_nat (MaxPlaintextPayloadLength g) < 2 ^ 32 ->
  Z.of_nat (CourierQueryWriteLength g) < 2 ^ 32 -> envs <> [] ->
  Forall (fun e => wf e /\ (length (wire e) <= CourierQueryWriteLength g)%nat) envs ->
  exists full last d,
    encodeStream g envs = Ok (full ++ [last]) /\
    Forall (fun b => length b = MaxPlaintextPayloadLength g) full /\
    (length last <= MaxPlaintextPayloadLength g)%nat /\
    decodeStream (full ++ [last]) (NewCopyStreamEnvelopeDecoder g) =
      Ok (envs, replicate (length full) false ++ [true], d) /\
    Remaining d = 0%nat.
Proof.
  intros H5 HM HE Hne He. set (max := (MaxPlaintextPayloadLength g - 5)%nat).
  assert (Hg : MaxPlaintextPayloadLength g = (5 + max)%nat) by (unfold max; lia).
  destruct (encodeStream_ok g max envs) as (chunks & last & -> & Hf & Hc & Hl); [done|lia|lia|done| |].
  { eapply Forall_impl; [exact He|]. intros e [Hw Hle]. split; [done|lia]. }
  assert (Hb : Forall is_byte (frames envs)).
  { apply Forall_concat, Forall_map. eapply Forall_impl; [exact He|]. intros e [H _]. by apply framed_bytes. }
  rewrite Hf, Forall_app, Forall_concat in Hb. destruct Hb as [Hb1 Hb2].
  exists (segments true chunks), (wire (chunkElement (noChunks chunks) true last)), (waiting
    (Z.of_nat (MaxPlaintextPayloadLength g)) (Z.of_nat (CourierQueryWriteLength g)) [] true).
  rewrite length_segments, Hg. split_and!; [done|by apply segments_length|cbn; golen| |done].
  rewrite <- Hg. apply (decodeStream_ok _ _ chunks last true [] envs); [|done|done| | |done].
  - apply Forall_app. split; [eapply Forall_impl; [exact Hc|]; cbn; intros; lia|]. constructor; [lia|constructor].
  - apply Forall_app. split; [done|by constructor].
  - eapply Forall_impl; [exact He|]. intros e [Hw Hle]. split; [done|lia].
Qed.

(** A flush in the middle of a stream empties the buffer and flags no element
    final. *)
Theorem FlushWithoutFinal_ok (max : nat) first buf :
  (0 < max)%nat -> Z.of_nat max < 2 ^ 32 -> Forall is_byte buf ->
  exists chunks,
    FlushWithoutFinal (mkEncoder buf (Z.of_nat max) first) =
      Ok (segments first chunks, mkEncoder [] (Z.of_nat max) (first && noChunks chunks)) /\
    concat chunks = buf /\ Forall (fun c => 0 < length c <= max)%nat chunks.
Proof.
  intros Hm Hmb Hb. unfold FlushWithoutFinal. cbn [enc_buffer]. case_bool_decide as H0.
  { apply nil_length_inv in H0 as ->. exists []. by rewrite andb_true_r. }
  clear H0. assert (Hf : (length buf < S (length buf))%nat) by lia. revert Hf.
  generalize (S (length buf)). intros fuel. revert first buf Hb.
  induction fuel as [|fuel IH]; intros first buf Hb Hf; [lia|].
  cbn [flushLoop enc_buffer maxChunkSize]. case_bool_decide as Hlt.
  - rewrite (takeChunk_ok (max `min` length buf)) by (cbn; (done || lia)). cbn [isFirstChunk enc_buffer maxChunkSize]. go.
    destruct (IH false (drop (max `min` length buf) buf)) as (chunks & -> & Hd & Hc);
      [by apply Forall_drop|rewrite length_drop; lia|]. go.
    exists (take (max `min` length buf) buf :: chunks). split_and!; [by rewrite andb_false_r| |].
    + cbn [concat]. by rewrite Hd, take_drop.
    + constructor; [rewrite length_take; lia|done].
  - exists []. destruct buf; [|cbn in Hlt; lia]. by rewrite andb_true_r.
Qed.

(** *** A concrete stream *)

Definition toyEnvelope (x : Z) : CourierEnvelope :=
  mkCourierEnvelope [1; 2] (replicate 60 x) (replicate 60 3) 0 7 2 [4; 5] 40 (replicate 40 x).

Lemma toyEnvelope_wf x : is_byte x -> wf (toyEnvelope x).
Proof.
  intros Hx. assert (Hr : forall n z, is_byte z -> Forall is_byte (replicate n z)) by (intros; by apply Forall_replicate).
  assert (Hc : forall a b, is_byte a -> is_byte b -> Forall is_byte [a; b]) by (intros; by rewrite !Forall_cons, Forall_nil).
  cbn [wf CourierEnvelope_format]. unfold toyEnvelope.
  cbn [IntermediateReplicas Dek1 Dek2 ce_ReplyIndex ce_Epoch SenderPubkeyLen SenderPubkey CiphertextLen Ciphertext].
  split_and!; first [split; [reflexivity|first [apply Hr | apply Hc]] | split; [lia|reflexivity]];
    first [exact Hx | unfold is_byte; lia].
Qed.

Lemma copy_stream_roundtrip_witness :
  exists full last d,
    encodeStream toyPigeonGeo [toyEnvelope 8; toyEnvelope 9] = Ok (full ++ [last]) /\
    decodeStream (full ++ [last]) (NewCopyStreamEnvelopeDecoder toyPigeonGeo) =
      Ok ([toyEnvelope 8; toyEnvelope 9], replicate (length full) false ++ [true], d) /\
    Remaining d = 0%nat.
Proof.
  destruct (copy_stream_roundtrip toyPigeonGeo [toyEnvelope 8; toyEnvelope 9])
    as (full & last & d & H1 & _ & _ & H2 & H3).
  - vm_compute. repeat constructor.
  - reflexivity.
  - reflexivity.
  - discriminate.
  - rewrite !Forall_cons, Forall_nil. split; [|split; [|exact I]];
      (split; [apply toyEnvelope_wf; unfold is_byte; lia|apply Nat.leb_le; vm_compute; reflexivity]).
  - exists full, last, d. split; [exact H1|]. split; [exact H2|exact H3].
Defined.
