(* ===== verification/WireCommands.v ===== *)
(** Wire protocol commands: the package [core/wire/commands].

    Every command is a constructor of [Command] with the fields of its Go struct;
    [X_ToBytes], [X_Length] and [xFromBytes] are the methods and decoders of
    [commands.go], [old_client_commands.go], [pki_commands.go] and
    [storage_replica_commands.go].  Pointers and interfaces that may be nil are
    options.  [Commands] leaves out the two command lists, which only the
    constructors read.  Decoders work on a slice whose capacity may exceed its
    length; the one that slices past its length takes the bytes behind it. *)

From S2P Require Import Prelude Schemes SphinxGeo PigeonGeo.
From Stdlib Require Import ZArith Lia.
From stdpp Require Import prelude list strings.

(** ** [constants.go] *)

Definition CmdOverhead : nat := 1 + 1 + 4.
Definition cmdOverhead : nat := CmdOverhead.
Definition retreiveMessageLength : nat := 4.
Definition messageBaseLength : nat := 1 + 1 + 4.
Definition getConsensusLength : nat := 8.
Definition consensusBaseLength : nat := 1.
Definition consensus2BaseLength : nat := 1 + 4 + 4.
Definition postDescriptorStatusLength : nat := 1.
Definition postDescriptorLength : nat := 8.
Definition certStatusLength : nat := 1.
Definition revealStatusLength : nat := 1.
Definition sigStatusLength : nat := 1.
Definition voteStatusLength : nat := 1.
Definition replicaMessageReplyLength : nat := 1.
Definition replicaWriteReplyLength : nat := 1.

Definition messageTypeMessage : Z := 0.
Definition messageTypeACK : Z := 1.
Definition messageTypeEmpty : Z := 2.

Definition noOp : Z := 0.
Definition disconnect : Z := 1.
Definition sendPacket : Z := 2.
Definition sendRetrievePacket : Z := 3.
Definition sendRetrievePacketReply : Z := 4.
Definition replicaMessage : Z := 8.
Definition replicaMessageReply : Z := 9.
Definition postReplicaDescriptorStatus : Z := 10.
Definition postReplicaDescriptor : Z := 11.
Definition replicaWrite : Z := 12.
Definition replicaWriteReply : Z := 13.
Definition retreiveMessage : Z := 16.
Definition message : Z := 17.
Definition getConsensus : Z := 18.
Definition consensus : Z := 19.
Definition postDescriptor : Z := 20.
Definition postDescriptorStatus : Z := 21.
Definition vote : Z := 22.
Definition voteStatus : Z := 23.
Definition getVote : Z := 24.
Definition reveal : Z := 25.
Definition revealStatus : Z := 26.
Definition sig : Z := 27.
Definition sigStatus : Z := 28.
Definition certificate : Z := 29.
Definition certStatus : Z := 30.
Definition consensus2 : Z := 31.
Definition getConsensus2 : Z := 32.
Definition replicaDecoy : Z := 33.

Definition errInvalidWireCommand : string := "wire: invalid wire protocol command".
Definition errWtf : string := " wtf: errInvalidCommand".

Section Commands.

Context {Sg : Sign} {P : PigeonSizes}.

(** [type Commands struct].  [pkiSignatureScheme] says whether the interface is
    set; the scheme itself is the one of the context. *)
Record Commands := mkCommands {
  geo : option Geometry;
  pkiSignatureScheme : bool;
  replicaNikeScheme : option Nike;
  MaxMessageLenServerToClient : nat;
  MaxMessageLenClientToServer : nat;
  shouldPad : bool;
}.

Inductive Command :=
  | NoOp (Cmds : option Commands)
  | Disconnect (Cmds : option Commands)
  | SendRetrievePacket (Geo : option Geometry) (Cmds : option Commands) (SphinxPacket : bytes)
  | SendRetrievePacketReply (Cmds : option Commands) (Geo : option Geometry) (SURBID Payload : bytes)
  | SendPacket (SphinxPacket : bytes) (Cmds : option Commands)
  | RetrieveMessage (Sequence : Z) (Cmds : option Commands)
  | MessageACK (Geo : option Geometry) (Cmds : option Commands) (QueueSizeHint Sequence : Z)
      (ID Payload : bytes)
  | Message (Geo : option Geometry) (Cmds : option Commands) (QueueSizeHint Sequence : Z)
      (Payload : bytes)
  | MessageEmpty (Cmds : option Commands) (Sequence : Z)
  | GetConsensus2 (Cmds : option Commands) (Epoch : Z)
  | Consensus2 (Cmds : option Commands) (ErrorCode ChunkNum ChunkTotal : Z) (Payload : bytes)
  | PostReplicaDescriptorStatus (ErrorCode : Z)
  | PostReplicaDescriptor (Epoch : Z) (Payload : bytes)
  | GetConsensus (Epoch : Z) (Cmds : option Commands) (MixnetTransmission : bool)
  | GetVote (Cmds : option Commands) (Epoch : Z) (PublicKey : option sign_PublicKey)
  | Consensus (ErrorCode : Z) (Payload : bytes)
  | PostDescriptor (Epoch : Z) (Payload : bytes)
  | PostDescriptorStatus (ErrorCode : Z)
  | Reveal (Epoch : Z) (PublicKey : option sign_PublicKey) (Payload : bytes)
  | RevealStatus (ErrorCode : Z)
  | Vote (Epoch : Z) (PublicKey : option sign_PublicKey) (Payload : bytes)
  | VoteStatus (ErrorCode : Z)
  | Cert (Epoch : Z) (PublicKey : option sign_PublicKey) (Payload : bytes)
  | CertStatus (ErrorCode : Z)
  | Sig (Epoch : Z) (PublicKey : option sign_PublicKey) (Payload : bytes)
  | SigStatus (ErrorCode : Z)
  | ReplicaWrite (Cmds : option Commands) (PigeonholeGeometry : option PigeonholeGeometry)
      (BoxID Signature : option bytes) (Payload : bytes)
  | ReplicaWriteReply (Cmds : option Commands) (ErrorCode : Z)
  | ReplicaDecoy (Cmds : option Commands)
  | ReplicaMessage (Cmds : option Commands) (PigeonholeGeometry : option PigeonholeGeometry)
      (Scheme : option Nike) (SenderEPubKey : bytes) (DEK : option bytes) (Ciphertext : bytes)
  | ReplicaMessageReply (Cmds : option Commands) (PigeonholeGeometry : option PigeonholeGeometry)
      (ErrorCode : Z) (EnvelopeHash : option bytes) (ReplicaID : Z) (EnvelopeReply : bytes).

(** ** Padding *)

Definition MaxCommandSize (c : Commands) : nat :=
  if bool_decide (MaxMessageLenClientToServer c < MaxMessageLenServerToClient c)
  then MaxMessageLenServerToClient c else MaxMessageLenClientToServer c.

Definition padToMaxCommandSize (oc : option Commands) (data : bytes) (isUpstream : bool)
    : outcome bytes :=
  c ← deref oc;
  let maxMessageLen :=
    if isUpstream then MaxMessageLenClientToServer c else MaxMessageLenServerToClient c in
  if bool_decide (maxMessageLen = 0) then Ok data
  else if bool_decide (maxMessageLen <= length data) then Ok data
  else Ok (data ++ zeros (maxMessageLen - length data)).

(** The [if c.Cmds == nil] of the storage replica commands. *)
Definition padUnlessNil (oc : option Commands) (data : bytes) (isUpstream : bool) : outcome bytes :=
  match oc with
  | None => Ok data
  | Some _ => padToMaxCommandSize oc data isUpstream
  end.

(** The six header bytes every [ToBytes] writes: identifier, reserved zero and
    the length truncated to 32 bits. *)
Definition cmdHeader (id : Z) (cmdLen : nat) : bytes := [id; 0%Z] ++ PutUint32 (Z.of_nat cmdLen).

(** ** Generic and client commands *)

Definition NoOp_ToBytes (Cmds : option Commands) : outcome bytes :=
  padToMaxCommandSize Cmds (cmdHeader noOp 0) true.
Definition NoOp_Length : nat := cmdOverhead.

Definition Disconnect_ToBytes (Cmds : option Commands) : outcome bytes :=
  padToMaxCommandSize Cmds (cmdHeader disconnect 0) true.
Definition Disconnect_Length : nat := cmdOverhead.

Definition SendRetrievePacket_ToBytes (Geo : option Geometry) (Cmds : option Commands)
    (SphinxPacket : bytes) : outcome bytes :=
  g ← deref Geo;
  if negb (bool_decide (length SphinxPacket = PacketLength g)) then Panic
  else padToMaxCommandSize Cmds
         (cmdHeader sendRetrievePacket (length SphinxPacket) ++ SphinxPacket) true.
Definition SendRetrievePacket_Length (Geo : option Geometry) : outcome nat :=
  g ← deref Geo; Ok (cmdOverhead + PacketLength g).
Definition sendRetrievePacketFromBytes (b : bytes) (cmds : Commands) : outcome Command :=
  Ok (SendRetrievePacket (geo cmds) (Some cmds) b).

Definition SendRetrievePacketReply_ToBytes (Cmds : option Commands) (SURBID Payload : bytes)
    : outcome bytes :=
  let out := cmdHeader sendRetrievePacketReply (SURBIDLength + length Payload) ++
             copy_into (zeros SURBIDLength) SURBID in
  padToMaxCommandSize Cmds (out ++ Payload) false.
Definition SendRetrievePacketReply_Length (Geo : option Geometry) : outcome nat :=
  g ← deref Geo; Ok (cmdOverhead + SURBIDLength + UserForwardPayloadLength g).

(** [b[SURBIDLength:]] runs to the length of [b], so a short body panics
    whatever its capacity. *)
Definition sendRetrievePacketReplyFromBytes (b : bytes) (cmds : Commands) : outcome Command :=
  payload ← slice_from b SURBIDLength;
  id ← slice_to b SURBIDLength;
  Ok (SendRetrievePacketReply (Some cmds) (geo cmds) (copy_into (zeros SURBIDLength) id) payload).

(** ** Old client commands *)

Definition messageMsgPaddingLength (c : Commands) : outcome nat :=
  g ← deref (geo c);
  Ok (SURBIDLength + SphinxPlaintextHeaderLength g + SURBLength g + PayloadTagLength g).
Definition messageMsgLength (c : Commands) : outcome nat :=
  n ← messageMsgPaddingLength c; Ok (messageBaseLength + n).
Definition messageACKLength : nat := messageBaseLength + SURBIDLength.
Definition messageEmptyLength (c : Commands) : outcome nat :=
  g ← deref (geo c); Ok (messageACKLength + PayloadTagLength g + ForwardPayloadLength g).

Definition SendPacket_ToBytes (SphinxPacket : bytes) (Cmds : option Commands) : outcome bytes :=
  padToMaxCommandSize Cmds (cmdHeader sendPacket (length SphinxPacket) ++ SphinxPacket) true.
Definition SendPacket_Length (Cmds : option Commands) : outcome nat :=
  c ← deref Cmds; g ← deref (geo c); Ok (cmdOverhead + PacketLength g).
Definition sendPacketFromBytes (b : bytes) (cmds : Commands) : outcome Command :=
  Ok (SendPacket b (Some cmds)).

Definition RetrieveMessage_ToBytes (Sequence : Z) (Cmds : option Commands) : outcome bytes :=
  padToMaxCommandSize Cmds
    (cmdHeader retreiveMessage retreiveMessageLength ++ PutUint32 Sequence) true.
Definition RetrieveMessage_Length : nat := cmdOverhead + 4.
Definition retreiveMessageFromBytes (b : bytes) (cmds : Commands) : outcome Command :=
  if negb (bool_decide (length b = retreiveMessageLength)) then Err errInvalidWireCommand
  else
    s ← slice b 0 4;
    Ok (RetrieveMessage (be_combine s) (Some cmds)).

Definition MessageACK_ToBytes (Geo : option Geometry) (Cmds : option Commands)
    (QueueSizeHint Sequence : Z) (ID Payload : bytes) : outcome bytes :=
  g ← deref Geo;
  if negb (bool_decide (length Payload = PayloadTagLength g + ForwardPayloadLength g)) then Panic
  else
    let out := cmdHeader message (messageACKLength + length Payload) ++
               [messageTypeACK; QueueSizeHint] ++ PutUint32 Sequence ++
               copy_into (zeros SURBIDLength) ID in
    padToMaxCommandSize Cmds (out ++ Payload) false.
Definition MessageACK_Length (Geo : option Geometry) : outcome nat :=
  g ← deref Geo; Ok (cmdOverhead + 1 + 4 + SURBIDLength + PacketLength g).

(** [copy(out[12:], c.Payload)] into the zeroed tail of [out]. *)
Definition Message_ToBytes (Geo : option Geometry) (Cmds : option Commands)
    (QueueSizeHint Sequence : Z) (Payload : bytes) : outcome bytes :=
  g ← deref Geo;
  if negb (bool_decide (length Payload = UserForwardPayloadLength g)) then Panic
  else
    c ← deref Cmds;
    n ← messageMsgLength c;
    let out := cmdHeader message (n + length Payload) ++
               [messageTypeMessage; QueueSizeHint] ++ PutUint32 Sequence ++
               copy_into (zeros (n + length Payload - 6)) Payload in
    padToMaxCommandSize Cmds out false.
Definition Message_Length (Geo : option Geometry) : outcome nat :=
  g ← deref Geo; Ok (cmdOverhead + 1 + 4 + PacketLength g).

Definition MessageEmpty_ToBytes (Cmds : option Commands) (Sequence : Z) : outcome bytes :=
  c ← deref Cmds;
  n ← messageEmptyLength c;
  let out := cmdHeader message n ++
             [messageTypeEmpty; 0%Z] ++ PutUint32 Sequence ++ zeros (n - 6) in
  padToMaxCommandSize Cmds out false.
Definition MessageEmpty_Length (Cmds : option Commands) : outcome nat :=
  c ← deref Cmds; g ← deref (geo c); Ok (cmdOverhead + 4 + PacketLength g).

(** The decoded [Message] and [MessageACK] keep a nil [Geo]. *)
Definition messageFromBytes (c : Commands) (b : bytes) (cmds : Commands) : outcome Command :=
  if bool_decide (length b < messageBaseLength) then Err errInvalidWireCommand
  else
    t ← index b 0;
    hint ← index b 1;
    s ← slice b 2 6;
    let seq := be_combine s in
    b ← slice_from b messageBaseLength;
    if Z.eqb t messageTypeACK then
      g ← deref (geo c);
      if negb (bool_decide (length b = SURBIDLength + PayloadTagLength g + ForwardPayloadLength g))
      then Err errInvalidWireCommand
      else
        id ← slice_to b SURBIDLength;
        b ← slice_from b SURBIDLength;
        Ok (MessageACK None (Some cmds) hint seq (copy_into (zeros SURBIDLength) id) b)
    else if Z.eqb t messageTypeMessage then
      n ← messageMsgPaddingLength c;
      g ← deref (geo c);
      if negb (bool_decide (length b = n + UserForwardPayloadLength g))
      then Err errInvalidWireCommand
      else
        padding ← slice_from b (UserForwardPayloadLength g);
        if negb (CtIsZero padding) then Err errInvalidWireCommand
        else
          b ← slice_to b (UserForwardPayloadLength g);
          Ok (Message None (Some cmds) hint seq b)
    else if Z.eqb t messageTypeEmpty then
      n ← messageEmptyLength c;
      if negb (bool_decide (length b = n - messageBaseLength)) then Err errInvalidWireCommand
      else if negb (CtIsZero b) then Err errInvalidWireCommand
      else Ok (MessageEmpty (Some cmds) seq)
    else Err errInvalidWireCommand.

(** ** PKI commands *)

Definition GetConsensus2_ToBytes (Cmds : option Commands) (Epoch : Z) : outcome bytes :=
  padToMaxCommandSize Cmds (cmdHeader getConsensus2 getConsensusLength ++ PutUint64 Epoch) true.
Definition GetConsensus2_Length : nat := cmdOverhead + getConsensusLength.
Definition getConsensus2FromBytes (b : bytes) (cmds : Commands) : outcome Command :=
  if negb (bool_decide (length b = getConsensusLength)) then Err errInvalidWireCommand
  else
    e ← slice b 0 8;
    Ok (GetConsensus2 (Some cmds) (be_combine e)).

Definition Consensus2_ToBytes (Cmds : option Commands) (ErrorCode ChunkNum ChunkTotal : Z)
    (Payload : bytes) : outcome bytes :=
  let out := cmdHeader consensus2 (consensus2BaseLength + length Payload) ++
             [ErrorCode] ++ PutUint32 ChunkNum ++ PutUint32 ChunkTotal in
  padToMaxCommandSize Cmds (out ++ Payload) false.
Definition Consensus2_Length : nat := 0.

(** [len(b) < consensusBaseLength] is the guard of the source; the slices reach
    past it, into [tail], the bytes between the length of [b] and its capacity. *)
Definition consensus2FromBytes (b tail : bytes) : outcome Command :=
  if bool_decide (length b < consensusBaseLength) then Err errInvalidWireCommand
  else
    ec ← index b 0;
    cn ← slice (b ++ tail) 1 5;
    ct ← slice (b ++ tail) 5 9;
    Ok (Consensus2 None ec (be_combine cn) (be_combine ct) (drop consensus2BaseLength b)).

(** The commands whose body is one status byte. *)
Definition status_ToBytes (id : Z) (ErrorCode : Z) : outcome bytes :=
  Ok (cmdHeader id 1 ++ [ErrorCode]).
Definition statusFromBytes (mk : Z -> Command) (err : string) (b : bytes) : outcome Command :=
  if negb (bool_decide (length b = 1)) then Err err
  else ec ← index b 0; Ok (mk ec).

Definition PostReplicaDescriptorStatus_ToBytes := status_ToBytes postReplicaDescriptorStatus.
Definition postReplicaDescriptorStatusFromBytes :=
  statusFromBytes PostReplicaDescriptorStatus errInvalidWireCommand.
Definition PostDescriptorStatus_ToBytes := status_ToBytes postDescriptorStatus.
Definition postDescriptorStatusFromBytes :=
  statusFromBytes PostDescriptorStatus errInvalidWireCommand.
Definition RevealStatus_ToBytes := status_ToBytes revealStatus.
Definition revealStatusFromBytes := statusFromBytes RevealStatus errWtf.
Definition VoteStatus_ToBytes := status_ToBytes voteStatus.
Definition voteStatusFromBytes := statusFromBytes VoteStatus errInvalidWireCommand.
Definition CertStatus_ToBytes := status_ToBytes certStatus.
Definition certStatusFromBytes := statusFromBytes CertStatus errInvalidWireCommand.
Definition SigStatus_ToBytes := status_ToBytes sigStatus.
Definition sigStatusFromBytes := statusFromBytes SigStatus errInvalidWireCommand.

(** The two descriptor uploads: an epoch and a payload. *)
Definition descriptor_ToBytes (id : Z) (Epoch : Z) (Payload : bytes) : outcome bytes :=
  Ok (cmdHeader id (postDescriptorLength + length Payload) ++ PutUint64 Epoch ++ Payload).
Definition descriptorFromBytes (mk : Z -> bytes -> Command) (b : bytes) : outcome Command :=
  if bool_decide (length b < postDescriptorLength) then Err errInvalidWireCommand
  else
    e ← slice b 0 8;
    payload ← slice_from b postDescriptorLength;
    Ok (mk (be_combine e) payload).

Definition PostReplicaDescriptor_ToBytes := descriptor_ToBytes postReplicaDescriptor.
Definition postReplicaDescriptorFromBytes := descriptorFromBytes PostReplicaDescriptor.
Definition PostDescriptor_ToBytes := descriptor_ToBytes postDescriptor.
Definition postDescriptorFromBytes := descriptorFromBytes PostDescriptor.

Definition GetConsensus_ToBytes (Epoch : Z) (Cmds : option Commands) (MixnetTransmission : bool)
    : outcome bytes :=
  let out := cmdHeader getConsensus getConsensusLength ++ PutUint64 Epoch in
  if MixnetTransmission then padToMaxCommandSize Cmds out true else Ok out.
Definition GetConsensus_Length : nat := cmdOverhead + getConsensusLength.
Definition getConsensusFromBytes (b : bytes) (cmds : Commands) : outcome Command :=
  if negb (bool_decide (length b = getConsensusLength)) then Err errInvalidWireCommand
  else
    e ← slice b 0 8;
    Ok (GetConsensus (be_combine e) (Some cmds) false).

Definition Consensus_ToBytes (ErrorCode : Z) (Payload : bytes) : outcome bytes :=
  Ok (cmdHeader consensus (consensusBaseLength + length Payload) ++ [ErrorCode] ++ Payload).
Definition consensusFromBytes (b : bytes) : outcome Command :=
  if bool_decide (length b < consensusBaseLength) then Err errInvalidWireCommand
  else
    ec ← index b 0;
    payload ← slice_from b consensusBaseLength;
    Ok (Consensus ec payload).

(** [voteOverhead], [revealOverhead], [certOverhead] and [sigOverhead]; the
    scheme interface may be nil. *)
Definition voteOverhead (scheme : bool) : outcome nat :=
  if scheme then Ok (8 + sign_PublicKeySize) else Panic.
Definition revealOverhead := voteOverhead.
Definition certOverhead := voteOverhead.
Definition sigOverhead := voteOverhead.

Definition GetVote_ToBytes (Epoch : Z) (PublicKey : option sign_PublicKey) : outcome bytes :=
  pk ← deref PublicKey;
  n ← voteOverhead true;
  blob ← panic_on_err (sign_MarshalBinary pk);
  Ok (cmdHeader getVote n ++ PutUint64 Epoch ++ blob).
Definition GetVote_Length (Cmds : option Commands) : outcome nat :=
  c ← deref Cmds;
  if pkiSignatureScheme c then Ok (cmdOverhead + 8 + sign_PublicKeySize) else Panic.
Definition getVoteFromBytes (b : bytes) (scheme : bool) : outcome Command :=
  n ← voteOverhead scheme;
  if negb (bool_decide (length b = n)) then Err errInvalidWireCommand
  else
    e ← slice b 0 8;
    kb ← slice b 8 (sign_PublicKeySize + 8);
    pk ← sign_UnmarshalBinaryPublicKey kb;
    Ok (GetVote None (be_combine e) (Some pk)).

(** [Vote], [Cert] and [Sig] share their layout: epoch, key, payload. *)
Definition signed_ToBytes (id : Z) (Epoch : Z) (PublicKey : option sign_PublicKey) (Payload : bytes)
    : outcome bytes :=
  pk ← deref PublicKey;
  n ← voteOverhead true;
  blob ← panic_on_err (sign_MarshalBinary pk);
  Ok (cmdHeader id (n + length Payload) ++ PutUint64 Epoch ++ blob ++ Payload).
Definition signedFromBytes (mk : Z -> option sign_PublicKey -> bytes -> Command) (err : string)
    (b : bytes) (scheme : bool) : outcome Command :=
  n ← voteOverhead scheme;
  if bool_decide (length b < n) then Err err
  else
    e ← slice b 0 8;
    kb ← slice b 8 (8 + sign_PublicKeySize);
    pk ← sign_UnmarshalBinaryPublicKey kb;
    payload ← slice_from b n;
    Ok (mk (be_combine e) (Some pk) payload).

Definition Vote_ToBytes := signed_ToBytes vote.
Definition voteFromBytes := signedFromBytes Vote errInvalidWireCommand.
Definition Cert_ToBytes := signed_ToBytes certificate.
Definition certFromBytes := signedFromBytes Cert errInvalidWireCommand.
Definition Sig_ToBytes := signed_ToBytes sig.
Definition sigFromBytes := signedFromBytes Sig errInvalidWireCommand.

(** [Reveal] copies the key into a field of the scheme's size. *)
Definition Reveal_ToBytes (Epoch : Z) (PublicKey : option sign_PublicKey) (Payload : bytes)
    : outcome bytes :=
  pk ← deref PublicKey;
  n ← revealOverhead true;
  blob ← panic_on_err (sign_MarshalBinary pk);
  Ok (cmdHeader reveal (n + length Payload) ++ PutUint64 Epoch ++
      copy_into (zeros sign_PublicKeySize) blob ++ Payload).
Definition revealFromBytes := signedFromBytes Reveal errWtf.

(** ** Storage replica commands *)

Definition HybridKeySize (scheme : option Nike) : outcome nat :=
  s ← deref scheme; Ok (@nike_PublicKeySize s).

Definition ReplicaWrite_ToBytes (Cmds : option Commands) (BoxID Signature : option bytes)
    (Payload : bytes) : outcome bytes :=
  let cmdLen := BoxIDSize + SignatureSize + length Payload in
  box ← deref BoxID;
  sg ← deref Signature;
  padUnlessNil Cmds (cmdHeader replicaWrite cmdLen ++ box ++ sg ++ Payload) true.
Definition ReplicaWrite_Length (PigeonholeGeometry : option PigeonholeGeometry) (Payload : bytes)
    : nat :=
  let payloadSize := match PigeonholeGeometry with
                     | Some g => CalculateBoxCiphertextLength g
                     | None => length Payload
                     end in
  cmdOverhead + BoxIDSize + SignatureSize + payloadSize.
Definition replicaWriteFromBytes (b : bytes) (cmds : Commands) : outcome Command :=
  if bool_decide (length b < BoxIDSize + SignatureSize) then Err errInvalidWireCommand
  else
    box ← slice_to b BoxIDSize;
    sg ← slice b BoxIDSize (BoxIDSize + SignatureSize);
    payload ← slice_from b (BoxIDSize + SignatureSize);
    Ok (ReplicaWrite (Some cmds) None (Some (copy_into (zeros BoxIDSize) box))
          (Some (copy_into (zeros SignatureSize) sg)) payload).

Definition ReplicaWriteReply_ToBytes (Cmds : option Commands) (ErrorCode : Z) : outcome bytes :=
  padUnlessNil Cmds (cmdHeader replicaWriteReply replicaWriteReplyLength ++ [ErrorCode]) true.
Definition ReplicaWriteReply_Length : nat := cmdOverhead + replicaWriteReplyLength.
Definition replicaWriteReplyFromBytes (b : bytes) (cmds : Commands) : outcome Command :=
  if negb (bool_decide (length b = postDescriptorStatusLength)) then Err errInvalidWireCommand
  else ec ← index b 0; Ok (ReplicaWriteReply (Some cmds) ec).

Definition ReplicaDecoy_ToBytes (Cmds : option Commands) : outcome bytes :=
  padUnlessNil Cmds (cmdHeader replicaDecoy 0) true.
Definition ReplicaDecoy_Length : nat := cmdOverhead.
Definition replicaDecoyFromBytes (b : bytes) (cmds : Commands) : outcome Command :=
  Ok (ReplicaDecoy (Some cmds)).

Definition ReplicaMessage_ToBytes (Cmds : option Commands) (SenderEPubKey : bytes)
    (DEK : option bytes) (Ciphertext : bytes) : outcome bytes :=
  let hkSize := length SenderEPubKey in
  dek ← deref DEK;
  let totalLen := hkSize + DEKSize + length Ciphertext in
  padToMaxCommandSize Cmds
    (cmdHeader replicaMessage totalLen ++ SenderEPubKey ++ dek ++ Ciphertext) true.
Definition ReplicaMessage_Length (PigeonholeGeometry : option PigeonholeGeometry)
    (Scheme : option Nike) : outcome nat :=
  g ← deref PigeonholeGeometry;
  k ← HybridKeySize Scheme;
  Ok (cmdOverhead + DEKSize + k + CalculateCourierEnvelopeCiphertextSizeWrite g).
Definition replicaMessageFromBytes (b : bytes) (cmds : Commands) : outcome Command :=
  let uint32len := 4 in
  hkSize ← HybridKeySize (replicaNikeScheme cmds);
  if bool_decide (length b < hkSize + DEKSize + uint32len) then Err "message too short"
  else
    pk ← slice b 0 hkSize;
    dek ← slice b hkSize (hkSize + DEKSize);
    ct ← slice_from b (hkSize + DEKSize);
    Ok (ReplicaMessage (Some cmds) None (replicaNikeScheme cmds) pk
          (Some (copy_into (zeros DEKSize) dek)) ct).

Definition ReplicaMessageReply_ToBytes (Cmds : option Commands) (ErrorCode : Z)
    (EnvelopeHash : option bytes) (ReplicaID : Z) (EnvelopeReply : bytes) : outcome bytes :=
  h ← deref EnvelopeHash;
  padUnlessNil Cmds
    (cmdHeader replicaMessageReply (1 + 32 + 1 + length EnvelopeReply) ++
     [ErrorCode] ++ h ++ [ReplicaID] ++ EnvelopeReply) false.
Definition ReplicaMessageReply_Length (PigeonholeGeometry : option PigeonholeGeometry)
    : outcome nat :=
  g ← deref PigeonholeGeometry;
  Ok (cmdOverhead + 1 + 32 + 1 + CalculateEnvelopeReplySizeRead g).
Definition replicaMessageReplyFromBytes (b : bytes) (cmds : Commands) : outcome Command :=
  if bool_decide (length b < 1 + 32 + 1) then Err errInvalidWireCommand
  else
    ec ← index b 0;
    h ← slice b 1 (1 + 32);
    rid ← index b (1 + 32);
    reply ← slice_from b (1 + 32 + 1);
    Ok (ReplicaMessageReply (Some cmds) None ec (Some (copy_into (zeros 32) h)) rid reply).

(** ** The [Command] interface *)

Definition ToBytes (cmd : Command) : outcome bytes :=
  match cmd with
  | NoOp c => NoOp_ToBytes c
  | Disconnect c => Disconnect_ToBytes c
  | SendRetrievePacket g c p => SendRetrievePacket_ToBytes g c p
  | SendRetrievePacketReply c _ id p => SendRetrievePacketReply_ToBytes c id p
  | SendPacket p c => SendPacket_ToBytes p c
  | RetrieveMessage s c => RetrieveMessage_ToBytes s c
  | MessageACK g c h s id p => MessageACK_ToBytes g c h s id p
  | Message g c h s p => Message_ToBytes g c h s p
  | MessageEmpty c s => MessageEmpty_ToBytes c s
  | GetConsensus2 c e => GetConsensus2_ToBytes c e
  | Consensus2 c ec n t p => Consensus2_ToBytes c ec n t p
  | PostReplicaDescriptorStatus ec => PostReplicaDescriptorStatus_ToBytes ec
  | PostReplicaDescriptor e p => PostReplicaDescriptor_ToBytes e p
  | GetConsensus e c m => GetConsensus_ToBytes e c m
  | GetVote _ e k => GetVote_ToBytes e k
  | Consensus ec p => Consensus_ToBytes ec p
  | PostDescriptor e p => PostDescriptor_ToBytes e p
  | PostDescriptorStatus ec => PostDescriptorStatus_ToBytes ec
  | Reveal e k p => Reveal_ToBytes e k p
  | RevealStatus ec => RevealStatus_ToBytes ec
  | Vote e k p => Vote_ToBytes e k p
  | VoteStatus ec => VoteStatus_ToBytes ec
  | Cert e k p => Cert_ToBytes e k p
  | CertStatus ec => CertStatus_ToBytes ec
  | Sig e k p => Sig_ToBytes e k p
  | SigStatus ec => SigStatus_ToBytes ec
  | ReplicaWrite c _ b s p => ReplicaWrite_ToBytes c b s p
  | ReplicaWriteReply c ec => ReplicaWriteReply_ToBytes c ec
  | ReplicaDecoy c => ReplicaDecoy_ToBytes c
  | ReplicaMessage c _ _ k d ct => ReplicaMessage_ToBytes c k d ct
  | ReplicaMessageReply c _ ec h r e => ReplicaMessageReply_ToBytes c ec h r e
  end.

(** The remaining commands return 0: they are never traffic padded. *)
Definition Length (cmd : Command) : outcome nat :=
  match cmd with
  | NoOp _ => Ok NoOp_Length
  | Disconnect _ => Ok Disconnect_Length
  | SendRetrievePacket g _ _ => SendRetrievePacket_Length g
  | SendRetrievePacketReply _ g _ _ => SendRetrievePacketReply_Length g
  | SendPacket _ c => SendPacket_Length c
  | RetrieveMessage _ _ => Ok RetrieveMessage_Length
  | MessageACK g _ _ _ _ _ => MessageACK_Length g
  | Message g _ _ _ _ => Message_Length g
  | MessageEmpty c _ => MessageEmpty_Length c
  | GetConsensus2 _ _ => Ok GetConsensus2_Length
  | Consensus2 _ _ _ _ _ => Ok Consensus2_Length
  | GetConsensus _ _ _ => Ok GetConsensus_Length
  | GetVote c _ _ => GetVote_Length c
  | ReplicaWrite _ g _ _ p => Ok (ReplicaWrite_Length g p)
  | ReplicaWriteReply _ _ => Ok ReplicaWriteReply_Length
  | ReplicaDecoy _ => Ok ReplicaDecoy_Length
  | ReplicaMessage _ g s _ _ _ => ReplicaMessage_Length g s
  | ReplicaMessageReply _ g _ _ _ _ => ReplicaMessageReply_Length g
  | _ => Ok 0
  end.

(** ** Constructors of [Commands] *)

(** [calcMaxMessageLenServerToClient] and [calcMaxMessageLenClientToServer]. *)
Fixpoint calcMaxMessageLen (m : nat) (cmds : list Command) : outcome nat :=
  match cmds with
  | [] => Ok m
  | c :: cmds =>
    n ← Length c;
    calcMaxMessageLen (if bool_decide (m < n) then n else m) cmds
  end.

Definition setMaxMessageLen (c : Commands) (s2c c2s : list Command) : outcome Commands :=
  up ← calcMaxMessageLen 0 c2s;
  down ← calcMaxMessageLen 0 s2c;
  Ok (mkCommands (geo c) (pkiSignatureScheme c) (replicaNikeScheme c) down up (shouldPad c)).

Definition NewMixnetCommands (g : option Geometry) : outcome Commands :=
  let c := mkCommands g false None 0 0 true in
  let clientToServerCommands :=
    [NoOp None; SendPacket [] (Some c); Disconnect None; RetrieveMessage 0 None;
     GetConsensus 0 None false; GetConsensus2 None 0; SendRetrievePacket g (Some c) []] in
  let serverToClientCommands :=
    [Consensus 0 []; Consensus2 None 0 0 0 [];
     Message g (Some c) 0 0 []; MessageACK g (Some c) 0 0 (zeros SURBIDLength) [];
     MessageEmpty (Some c) 0; SendRetrievePacketReply (Some c) g (zeros SURBIDLength) []] in
  setMaxMessageLen c serverToClientCommands clientToServerCommands.

Definition NewStorageReplicaCommands (nikeByName : string -> option Nike) (g : Geometry)
    (scheme : Nike) : outcome Commands :=
  let c := mkCommands (Some g) false (Some scheme) 0 0 true in
  pigeonholeGeo ← panic_on_err (NewGeometryFromSphinx nikeByName g scheme);
  let payload := zeros (PacketLength g) in
  let clientToServerCommands :=
    [ReplicaMessage (Some c) (Some pigeonholeGeo) (Some scheme)
       (zeros (@nike_PublicKeySize scheme)) (Some (zeros DEKSize)) payload;
     ReplicaMessageReply (Some c) (Some pigeonholeGeo) 0 None 0 [];
     ReplicaWrite (Some c) (Some pigeonholeGeo) None None [];
     ReplicaWriteReply (Some c) 0; ReplicaDecoy (Some c); NoOp (Some c); Disconnect (Some c)] in
  setMaxMessageLen c clientToServerCommands clientToServerCommands.

Definition NewPKICommands : Commands :=
  mkCommands None true None (N.to_nat 50000000) (N.to_nat 50000000) false.

(** ** De-serialization *)

(** The second switch of [FromBytes]. *)
Definition commandFromBytes (c : Commands) (id : Z) (b tail : bytes) : outcome Command :=
  if Z.eqb id consensus2 then consensus2FromBytes b tail
  else if Z.eqb id postReplicaDescriptor then postReplicaDescriptorFromBytes b
  else if Z.eqb id postReplicaDescriptorStatus then postReplicaDescriptorStatusFromBytes b
  else if Z.eqb id replicaWrite then replicaWriteFromBytes b c
  else if Z.eqb id replicaWriteReply then replicaWriteReplyFromBytes b c
  else if Z.eqb id replicaMessage then replicaMessageFromBytes b c
  else if Z.eqb id replicaMessageReply then replicaMessageReplyFromBytes b c
  else if Z.eqb id replicaDecoy then replicaDecoyFromBytes b c
  else if Z.eqb id sendRetrievePacket then sendRetrievePacketFromBytes b c
  else if Z.eqb id sendRetrievePacketReply then sendRetrievePacketReplyFromBytes b c
  else if Z.eqb id sendPacket then sendPacketFromBytes b c
  else if Z.eqb id retreiveMessage then retreiveMessageFromBytes b c
  else if Z.eqb id message then messageFromBytes c b c
  else if Z.eqb id getConsensus then getConsensusFromBytes b c
  else if Z.eqb id getConsensus2 then getConsensus2FromBytes b c
  else if Z.eqb id consensus then consensusFromBytes b
  else if Z.eqb id postDescriptor then postDescriptorFromBytes b
  else if Z.eqb id postDescriptorStatus then postDescriptorStatusFromBytes b
  else if Z.eqb id getVote then getVoteFromBytes b (pkiSignatureScheme c)
  else if Z.eqb id vote then voteFromBytes b (pkiSignatureScheme c)
  else if Z.eqb id voteStatus then voteStatusFromBytes b
  else if Z.eqb id certificate then certFromBytes b (pkiSignatureScheme c)
  else if Z.eqb id certStatus then certStatusFromBytes b
  else if Z.eqb id reveal then revealFromBytes b (pkiSignatureScheme c)
  else if Z.eqb id revealStatus then revealStatusFromBytes b
  else if Z.eqb id sig then sigFromBytes b (pkiSignatureScheme c)
  else if Z.eqb id sigStatus then sigStatusFromBytes b
  else Err errInvalidWireCommand.

(** [Commands.FromBytes]; [spare] is what the buffer holds between its length
    and its capacity. *)
Definition FromBytes (c : Commands) (b spare : bytes) : outcome Command :=
  if bool_decide (length b < cmdOverhead) then Err errInvalidWireCommand
  else
    id ← index b 0;
    r ← index b 1;
    if negb (Z.eqb r 0) then Err errInvalidWireCommand
    else
      lb ← slice b 2 6;
      let cmdLen := be_combine lb in
      b ← slice_from b cmdOverhead;
      if bool_decide (wrap 32 (Z.of_nat (length b)) < cmdLen)%Z then Err errInvalidWireCommand
      else
        padding ← slice_from b (Z.to_nat cmdLen);
        if negb (CtIsZero padding) then Err errInvalidWireCommand
        else
          let parse := (b ← slice_to b (Z.to_nat cmdLen); commandFromBytes c id b (padding ++ spare)) in
          if Z.eqb cmdLen 0 then
            if Z.eqb id noOp then Ok (NoOp (Some c))
            else if Z.eqb id disconnect then Ok (Disconnect (Some c))
            else if Z.eqb id replicaDecoy then Ok (ReplicaDecoy (Some c))
            else if Z.eqb id sendPacket || Z.eqb id postDescriptor ||
                    Z.eqb id sendRetrievePacket || Z.eqb id sendRetrievePacketReply then parse
            else Err errInvalidWireCommand
          else parse.

End Commands.
