(* ===== verification/WireProofs.v ===== *)
(** Framing, padding and round trips of the wire protocol commands. *)

From S2P Require Import Prelude Schemes SphinxGeo PigeonGeo WireCommands.
From Stdlib Require Import ZArith Lia.
From stdpp Require Import prelude list strings.

Section WireProofs.

Context {Sg : Sign} {P : PigeonSizes}.

(** ** Padding *)

(** How many zero bytes [padToMaxCommandSize] appends. *)
Definition padAmount (c : Commands) (data : bytes) (isUpstream : bool) : nat :=
  (if isUpstream then MaxMessageLenClientToServer c else MaxMessageLenServerToClient c)
  - length data.

Lemma padToMaxCommandSize_eq c data up :
  padToMaxCommandSize (Some c) data up = Ok (data ++ zeros (padAmount c data up)).
Proof.
  unfold padToMaxCommandSize, padAmount. cbn [deref]. go.
  destruct up; repeat case_bool_decide; try done;
    (replace (_ - _) with 0 by lia); by rewrite app_nil_r.
Qed.

(** [frame b id body]: a header for [body], then [body], then zero padding. *)
Definition frame (b : bytes) (id : Z) (body : bytes) : Prop :=
  exists n, b = cmdHeader id (length body) ++ body ++ zeros n.

Lemma pad_frame c id body data up :
  data = cmdHeader id (length body) ++ body ->
  exists b, padToMaxCommandSize (Some c) data up = Ok b /\ frame b id body.
Proof.
  intros ->. rewrite padToMaxCommandSize_eq. eexists. split; [reflexivity|].
  eexists. by rewrite <- app_assoc.
Qed.

Lemma padUnlessNil_frame oc id body data up :
  data = cmdHeader id (length body) ++ body ->
  exists b, padUnlessNil oc data up = Ok b /\ frame b id body.
Proof.
  intros ->. destruct oc; [by apply pad_frame|]. eexists. split; [reflexivity|].
  exists 0. by rewrite app_nil_r.
Qed.

Lemma plain_frame id body data :
  data = cmdHeader id (length body) ++ body -> exists b, Ok data = Ok b /\ frame b id body.
Proof. intros ->. eexists. split; [reflexivity|]. exists 0. by rewrite app_nil_r. Qed.

(** ** De-serializing a frame *)

(** Which commands may have an empty body. *)
Definition emptyBodyAllowed (id : Z) : bool :=
  Z.eqb id sendPacket || Z.eqb id postDescriptor ||
  Z.eqb id sendRetrievePacket || Z.eqb id sendRetrievePacketReply.

Definition openFrame (c : Commands) (id : Z) (body tail : bytes) : outcome Command :=
  if bool_decide (length body = 0) then
    if Z.eqb id noOp then Ok (NoOp (Some c))
    else if Z.eqb id disconnect then Ok (Disconnect (Some c))
    else if Z.eqb id replicaDecoy then Ok (ReplicaDecoy (Some c))
    else if emptyBodyAllowed id then commandFromBytes c id body tail
    else Err errInvalidWireCommand
  else commandFromBytes c id body tail.

Lemma length_cmdHeader id n : length (cmdHeader id n) = 6.
Proof. done. Qed.

Lemma be_combine_PutUint32 n : (0 <= n < 2 ^ 32)%Z -> be_combine (PutUint32 n) = n.
Proof. intros. by apply be_combine_split_small. Qed.

Lemma be_combine_PutUint64 n : (0 <= n < 2 ^ 64)%Z -> be_combine (PutUint64 n) = n.
Proof. intros. by apply be_combine_split_small. Qed.

(** [FromBytes] on any header and body: the general form, for a body and a
    remainder that need not be zero. *)
Lemma FromBytes_header c id body rest spare :
  (Z.of_nat (length (body ++ rest)) < 2 ^ 32)%Z ->
  FromBytes c (cmdHeader id (length body) ++ body ++ rest) spare =
    if CtIsZero rest then openFrame c id body (rest ++ spare) else Err errInvalidWireCommand.
Proof.
  intros Hlen. unfold FromBytes.
  rewrite bool_decide_eq_false_2 by (rewrite length_app, length_cmdHeader; unfold cmdOverhead, CmdOverhead; lia).
  change (index (cmdHeader id (length body) ++ body ++ rest) 0) with (Ok id).
  change (index (cmdHeader id (length body) ++ body ++ rest) 1) with (Ok 0%Z). go.
  cbn [Z.eqb negb].
  rewrite (slice_mid' _ [id; 0%Z] (PutUint32 (Z.of_nat (length body))) (body ++ rest)); [|done..].
  go. rewrite be_combine_PutUint32 by (rewrite length_app in Hlen; lia).
  rewrite (slice_from_app (cmdHeader id (length body))) by done. go.
  rewrite bool_decide_eq_false_2
    by (unfold wrap; rewrite Z.mod_small by lia; rewrite length_app; lia).
  rewrite Nat2Z.id. rewrite (slice_from_app body) by done. go.
  rewrite (slice_to_app body) by done. go.
  destruct (CtIsZero rest); cbn [negb]; [|done].
  unfold openFrame, emptyBodyAllowed. case_bool_decide as Hb.
  - by rewrite Hb.
  - by rewrite (proj2 (Z.eqb_neq (Z.of_nat (length body)) 0)) by lia.
Qed.

Lemma FromBytes_frame c b id body spare :
  frame b id body -> (Z.of_nat (length b) < 2 ^ 32)%Z ->
  exists tail, FromBytes c b spare = openFrame c id body tail.
Proof.
  intros [n ->] Hlen. exists (zeros n ++ spare).
  rewrite FromBytes_header, CtIsZero_zeros; [done|].
  rewrite length_app in Hlen. lia.
Qed.

(** ** Decoding the body of each command *)

Lemma slice_head (a r : bytes) n : length a = n -> slice (a ++ r) 0 n = Ok a.
Proof. intros <-. by apply (slice_mid [] a r). Qed.

Lemma length_PutUint32 n : length (PutUint32 n) = 4.
Proof. done. Qed.
Lemma length_PutUint64 n : length (PutUint64 n) = 8.
Proof. done. Qed.

(** What a peer's session [c] can decode: the fields of fixed width fit, and
    both sides use the same geometry and schemes. *)
Definition sendable (c : Commands) (cmd : Command) : Prop :=
  match cmd with
  | NoOp o | Disconnect o | SendPacket _ o => is_Some o
  | SendRetrievePacket g o p => is_Some o /\ exists g', g = Some g' /\ length p = PacketLength g'
  | SendRetrievePacketReply o _ id _ => is_Some o /\ length id = SURBIDLength
  | RetrieveMessage s o => is_Some o /\ u32 s
  | MessageACK g o _ s id p => is_Some o /\ u32 s /\ length id = SURBIDLength /\
      exists g', g = Some g' /\ geo c = Some g' /\
        length p = PayloadTagLength g' + ForwardPayloadLength g'
  | Message g o _ s p => u32 s /\
      exists g' s', g = Some g' /\ geo c = Some g' /\ o = Some s' /\ geo s' = Some g' /\
        length p = UserForwardPayloadLength g'
  | MessageEmpty o s => u32 s /\
      exists g' s', geo c = Some g' /\ o = Some s' /\ geo s' = Some g'
  | GetConsensus2 o e => is_Some o /\ u64 e
  | Consensus2 o _ n t _ => is_Some o /\ u32 n /\ u32 t
  | PostReplicaDescriptor e _ | PostDescriptor e _ => u64 e
  | GetConsensus e o m => is_Some o /\ u64 e
  | GetVote _ e k => is_Some k /\ u64 e /\ pkiSignatureScheme c = true
  | Reveal e k _ | Vote e k _ | Cert e k _ | Sig e k _ =>
      is_Some k /\ u64 e /\ pkiSignatureScheme c = true
  | ReplicaWrite _ _ b s _ =>
      exists b' s', b = Some b' /\ s = Some s' /\ length b' = BoxIDSize /\ length s' = SignatureSize
  | ReplicaMessage o _ _ k d ct => is_Some o /\
      exists n d', replicaNikeScheme c = Some n /\ d = Some d' /\ length d' = DEKSize /\
        length k = @nike_PublicKeySize n /\ 4 <= length ct
  | ReplicaMessageReply _ _ _ h _ _ => exists h', h = Some h' /\ length h' = 32
  | _ => True
  end.

(** The command as the receiving session [c] sees it: the pointer fields are its own. *)
Definition received (c : Commands) (cmd : Command) : Command :=
  match cmd with
  | NoOp _ => NoOp (Some c)
  | Disconnect _ => Disconnect (Some c)
  | SendRetrievePacket _ _ p => SendRetrievePacket (geo c) (Some c) p
  | SendRetrievePacketReply _ _ id p => SendRetrievePacketReply (Some c) (geo c) id p
  | SendPacket p _ => SendPacket p (Some c)
  | RetrieveMessage s _ => RetrieveMessage s (Some c)
  | MessageACK _ _ h s id p => MessageACK None (Some c) h s id p
  | Message _ _ h s p => Message None (Some c) h s p
  | MessageEmpty _ s => MessageEmpty (Some c) s
  | GetConsensus2 _ e => GetConsensus2 (Some c) e
  | Consensus2 _ ec n t p => Consensus2 None ec n t p
  | GetConsensus e _ _ => GetConsensus e (Some c) false
  | GetVote _ e k => GetVote None e k
  | ReplicaWrite _ _ b s p => ReplicaWrite (Some c) None b s p
  | ReplicaWriteReply _ ec => ReplicaWriteReply (Some c) ec
  | ReplicaDecoy _ => ReplicaDecoy (Some c)
  | ReplicaMessage _ _ _ k d ct => ReplicaMessage (Some c) None (replicaNikeScheme c) k d ct
  | ReplicaMessageReply _ _ ec h r e => ReplicaMessageReply (Some c) None ec h r e
  | _ => cmd
  end.

(** A command is framed for [c] when it serializes to a frame that [c] opens
    to the received command. *)
Definition framed (c : Commands) (cmd : Command) : Prop :=
  exists b id body, ToBytes cmd = Ok b /\ frame b id body /\
    forall tail, openFrame c id body tail = Ok (received c cmd).

Lemma openFrame_body c id body tail r :
  length body <> 0 -> commandFromBytes c id body tail = r -> openFrame c id body tail = r.
Proof. intros. unfold openFrame. by rewrite bool_decide_eq_false_2. Qed.

(** Prove [framed] from the identifier, the body and the shape of [ToBytes]. *)
Lemma framed_intro c cmd id body :
  (exists b, ToBytes cmd = Ok b /\ frame b id body) ->
  (forall tail, openFrame c id body tail = Ok (received c cmd)) -> framed c cmd.
Proof. intros (b & Hb & Hf) Ho. by exists b, id, body. Qed.

Lemma status_framed c (mk : Z -> Command) id err ec :
  (forall x, ToBytes (mk x) = status_ToBytes id x) -> (forall x, received c (mk x) = mk x) ->
  (forall tail, commandFromBytes c id [ec] tail = statusFromBytes mk err [ec]) -> framed c (mk ec).
Proof.
  intros Hb Hr Hd. apply (framed_intro _ _ id [ec]).
  - rewrite Hb. by apply plain_frame.
  - intros tail. apply openFrame_body; [done|]. by rewrite Hd, Hr.
Qed.

Lemma descriptorFromBytes_ok mk e p :
  u64 e -> descriptorFromBytes mk (PutUint64 e ++ p) = Ok (mk e p).
Proof.
  intros He. unfold descriptorFromBytes, postDescriptorLength.
  rewrite bool_decide_eq_false_2 by (rewrite length_app, length_PutUint64; lia).
  rewrite slice_head by done. go. rewrite slice_from_app by done. go.
  by rewrite be_combine_PutUint64.
Qed.

Lemma descriptor_framed c mk id e p :
  ToBytes (mk e p) = descriptor_ToBytes id e p -> received c (mk e p) = mk e p -> u64 e ->
  (forall b tail, commandFromBytes c id b tail = descriptorFromBytes mk b) -> framed c (mk e p).
Proof.
  intros Hb Hr He Hd. apply (framed_intro _ _ id (PutUint64 e ++ p)).
  - rewrite Hb. by apply plain_frame.
  - intros tail. apply openFrame_body; [by rewrite length_app, length_PutUint64|].
    by rewrite Hd, descriptorFromBytes_ok, Hr.
Qed.

Context {SgL : SignLaws Sg}.

Lemma signedFromBytes_ok mk err e blob pk p :
  u64 e -> length blob = sign_PublicKeySize -> sign_UnmarshalBinaryPublicKey blob = Ok pk ->
  signedFromBytes mk err (PutUint64 e ++ blob ++ p) true = Ok (mk e (Some pk) p).
Proof.
  intros He Hl Hu. unfold signedFromBytes, voteOverhead. go.
  rewrite bool_decide_eq_false_2 by (rewrite !length_app, length_PutUint64; lia).
  rewrite slice_head by done. go.
  rewrite (slice_mid (PutUint64 e) blob p) by (rewrite ?length_PutUint64; lia). go.
  rewrite Hu. go. rewrite app_assoc, slice_from_app by (rewrite length_app, length_PutUint64; lia).
  go. by rewrite be_combine_PutUint64.
Qed.

Lemma signed_framed c mk id err e k p :
  is_Some k -> u64 e -> pkiSignatureScheme c = true ->
  (forall pk blob, k = Some pk -> sign_MarshalBinary pk = Ok blob ->
     length blob = sign_PublicKeySize ->
     ToBytes (mk e k p) = Ok (cmdHeader id (8 + sign_PublicKeySize + length p) ++
                              PutUint64 e ++ blob ++ p)) ->
  received c (mk e k p) = mk e k p ->
  (forall b tail, commandFromBytes c id b tail = signedFromBytes mk err b (pkiSignatureScheme c)) ->
  framed c (mk e k p).
Proof.
  intros [pk ->] He Hpki Hb Hr Hd. destruct (sign_marshal pk) as (blob & Hm & Hl & Hu).
  apply (framed_intro _ _ id (PutUint64 e ++ blob ++ p)).
  - rewrite (Hb pk blob) by done. apply plain_frame.
    by rewrite !length_app, length_PutUint64, Hl, Nat.add_assoc.
  - intros tail. apply openFrame_body; [by rewrite length_app, length_PutUint64|].
    by rewrite Hd, Hpki, (signedFromBytes_ok _ _ _ _ pk), Hr.
Qed.

Lemma signed_ToBytes_ok id e k p pk blob :
  k = Some pk -> sign_MarshalBinary pk = Ok blob ->
  signed_ToBytes id e k p =
    Ok (cmdHeader id (8 + sign_PublicKeySize + length p) ++ PutUint64 e ++ blob ++ p).
Proof. intros -> Hm. unfold signed_ToBytes. cbn [deref]. go. by rewrite Hm. Qed.

Lemma Reveal_ToBytes_ok e k p pk blob :
  k = Some pk -> sign_MarshalBinary pk = Ok blob -> length blob = sign_PublicKeySize ->
  Reveal_ToBytes e k p =
    Ok (cmdHeader reveal (8 + sign_PublicKeySize + length p) ++ PutUint64 e ++ blob ++ p).
Proof.
  intros -> Hm Hl. unfold Reveal_ToBytes. cbn [deref]. go. rewrite Hm.
  cbn [panic_on_err]. unfold revealOverhead, voteOverhead. go. by rewrite copy_zeros.
Qed.

Lemma GetVote_framed c o e k :
  is_Some k -> u64 e -> pkiSignatureScheme c = true -> framed c (GetVote o e k).
Proof.
  intros [pk ->] He Hpki. destruct (sign_marshal pk) as (blob & Hm & Hl & Hu).
  apply (framed_intro _ _ getVote (PutUint64 e ++ blob)).
  - cbn [ToBytes]. unfold GetVote_ToBytes, voteOverhead. cbn [deref]. go. rewrite Hm.
    apply plain_frame. by rewrite length_app, length_PutUint64, Hl.
  - intros tail. apply openFrame_body; [by rewrite length_app, length_PutUint64|].
    change (commandFromBytes _ _ _ _) with (getVoteFromBytes (PutUint64 e ++ blob) (pkiSignatureScheme c)).
    rewrite Hpki. unfold getVoteFromBytes, voteOverhead. go.
    rewrite bool_decide_eq_true_2 by (by rewrite length_app, length_PutUint64, Hl). cbn [negb].
    rewrite slice_head by done. go.
    rewrite (slice_mid' _ (PutUint64 e) blob []) by (rewrite ?app_nil_r, ?length_PutUint64; lia || done).
    go. rewrite Hu. go. by rewrite be_combine_PutUint64.
Qed.

(** ** Messages *)

Lemma messageFromBytes_head c t h s body :
  u32 s ->
  messageFromBytes c ([t; h] ++ PutUint32 s ++ body) c =
  (if Z.eqb t messageTypeACK then
    g ← deref (geo c);
    if negb (bool_decide (length body = SURBIDLength + PayloadTagLength g + ForwardPayloadLength g))
    then Err errInvalidWireCommand
    else
      id ← slice_to body SURBIDLength;
      b ← slice_from body SURBIDLength;
      Ok (MessageACK None (Some c) h s (copy_into (zeros SURBIDLength) id) b)
  else if Z.eqb t messageTypeMessage then
    n ← messageMsgPaddingLength c;
    g ← deref (geo c);
    if negb (bool_decide (length body = n + UserForwardPayloadLength g))
    then Err errInvalidWireCommand
    else
      padding ← slice_from body (UserForwardPayloadLength g);
      if negb (CtIsZero padding) then Err errInvalidWireCommand
      else
        b ← slice_to body (UserForwardPayloadLength g);
        Ok (Message None (Some c) h s b)
  else if Z.eqb t messageTypeEmpty then
    n ← messageEmptyLength c;
    if negb (bool_decide (length body = n - messageBaseLength)) then Err errInvalidWireCommand
    else if negb (CtIsZero body) then Err errInvalidWireCommand
    else Ok (MessageEmpty (Some c) s)
  else Err errInvalidWireCommand).
Proof.
  intros Hs. unfold messageFromBytes at 1.
  rewrite bool_decide_eq_false_2
    by (rewrite !length_app, length_PutUint32; cbn [length]; unfold messageBaseLength; lia).
  change (index ([t; h] ++ PutUint32 s ++ body) 0) with (Ok t).
  change (index ([t; h] ++ PutUint32 s ++ body) 1) with (Ok h). go.
  rewrite (slice_mid [t; h] (PutUint32 s) body) by done. go.
  rewrite app_assoc, (slice_from_app ([t; h] ++ PutUint32 s)) by done. go.
  by rewrite be_combine_PutUint32.
Qed.

Lemma MessageACK_framed c g o h s id p :
  is_Some o -> u32 s -> length id = SURBIDLength -> geo c = Some g ->
  length p = PayloadTagLength g + ForwardPayloadLength g ->
  framed c (MessageACK (Some g) o h s id p).
Proof.
  intros [s' ->] Hs Hid Hg Hp.
  apply (framed_intro _ _ message ([messageTypeACK; h] ++ PutUint32 s ++ id ++ p)).
  - cbn [ToBytes]. unfold MessageACK_ToBytes. cbn [deref]. go.
    rewrite bool_decide_eq_true_2 by done. cbn [negb]. apply pad_frame.
    rewrite copy_zeros by done. rewrite !length_app, length_PutUint32, Hid.
    by rewrite <- !app_assoc.
  - intros tail. apply openFrame_body; [by rewrite length_app|].
    change (commandFromBytes _ _ ?b _) with (messageFromBytes c b c).
    rewrite messageFromBytes_head by done. cbn [Z.eqb messageTypeACK Pos.eqb]. rewrite Hg. cbn [deref]. go.
    rewrite bool_decide_eq_true_2 by (rewrite length_app; lia). cbn [negb].
    rewrite slice_to_app by done. go. rewrite slice_from_app by done. go.
    by rewrite copy_zeros by done.
Qed.

Lemma Message_framed c g s' h s p :
  u32 s -> geo c = Some g -> geo s' = Some g -> length p = UserForwardPayloadLength g ->
  framed c (Message (Some g) (Some s') h s p).
Proof.
  intros Hs Hg Hg' Hp.
  pose (n := SURBIDLength + SphinxPlaintextHeaderLength g + SURBLength g + PayloadTagLength g).
  apply (framed_intro _ _ message ([messageTypeMessage; h] ++ PutUint32 s ++ p ++ zeros n)).
  - cbn [ToBytes]. unfold Message_ToBytes, messageMsgLength, messageMsgPaddingLength. cbn [deref]. go.
    rewrite bool_decide_eq_true_2 by done. cbn [negb]. rewrite Hg'. cbn [deref]. go.
    apply pad_frame. fold n. f_equal.
    + f_equal. golen. rewrite length_PutUint32. unfold messageBaseLength. lia.
    + do 2 f_equal. unfold copy_into. rewrite length_zeros, take_ge, drop_zeros by (unfold messageBaseLength; lia).
      do 2 f_equal. unfold messageBaseLength. lia.
  - intros tail. apply openFrame_body; [by rewrite length_app|].
    change (commandFromBytes _ _ ?b _) with (messageFromBytes c b c).
    rewrite messageFromBytes_head by done. cbn [Z.eqb messageTypeACK messageTypeMessage].
    unfold messageMsgPaddingLength. rewrite Hg. cbn [deref]. go. fold n.
    rewrite bool_decide_eq_true_2 by (golen). cbn [negb].
    rewrite slice_from_app by done. go. rewrite CtIsZero_zeros. cbn [negb].
    by rewrite slice_to_app by done.
Qed.

Lemma MessageEmpty_framed c g s' s :
  u32 s -> geo c = Some g -> geo s' = Some g -> framed c (MessageEmpty (Some s') s).
Proof.
  intros Hs Hg Hg'.
  pose (n := SURBIDLength + PayloadTagLength g + ForwardPayloadLength g).
  apply (framed_intro _ _ message ([messageTypeEmpty; 0%Z] ++ PutUint32 s ++ zeros n)).
  - cbn [ToBytes]. unfold MessageEmpty_ToBytes, messageEmptyLength. cbn [deref]. go.
    rewrite Hg'. cbn [deref]. go. apply pad_frame.
    unfold messageACKLength, messageBaseLength.
    replace (length _) with (6 + n) by (golen; rewrite length_PutUint32; lia). done.
  - intros tail. apply openFrame_body; [by rewrite length_app|].
    change (commandFromBytes _ _ ?b _) with (messageFromBytes c b c).
    rewrite messageFromBytes_head by done.
    cbn [Z.eqb messageTypeACK messageTypeMessage messageTypeEmpty Pos.eqb].
    unfold messageEmptyLength. rewrite Hg. cbn [deref]. go.
    rewrite bool_decide_eq_true_2
      by (rewrite length_zeros; unfold messageACKLength, messageBaseLength; lia).
    cbn [negb]. by rewrite CtIsZero_zeros.
Qed.

(** ** Storage replica commands *)

Lemma ReplicaWrite_framed c o pg b s p :
  length b = BoxIDSize -> length s = SignatureSize ->
  length (b ++ s ++ p) <> 0 -> framed c (ReplicaWrite o pg (Some b) (Some s) p).
Proof.
  intros Hb Hs Hne. apply (framed_intro _ _ replicaWrite (b ++ s ++ p)).
  - cbn [ToBytes]. unfold ReplicaWrite_ToBytes. cbn [deref]. go. apply padUnlessNil_frame.
    by rewrite !length_app, Hb, Hs, Nat.add_assoc.
  - intros tail. apply openFrame_body; [done|].
    change (commandFromBytes _ _ ?x _) with (replicaWriteFromBytes x c).
    unfold replicaWriteFromBytes. rewrite bool_decide_eq_false_2 by (rewrite !length_app; lia).
    rewrite slice_to_app by done. go. rewrite slice_mid by lia. go.
    rewrite app_assoc, slice_from_app by (rewrite length_app; lia). go.
    by rewrite !copy_zeros by done.
Qed.

Lemma ReplicaMessage_framed c o pg n sch k d ct :
  is_Some o -> replicaNikeScheme c = Some n -> length d = DEKSize ->
  length k = @nike_PublicKeySize n -> 4 <= length ct ->
  framed c (ReplicaMessage o pg sch k (Some d) ct).
Proof.
  intros [s' ->] Hn Hd Hk Hct. apply (framed_intro _ _ replicaMessage (k ++ d ++ ct)).
  - cbn [ToBytes]. unfold ReplicaMessage_ToBytes. cbn [deref]. go. apply pad_frame.
    by rewrite !length_app, Hd, Nat.add_assoc.
  - intros tail. apply openFrame_body; [rewrite !length_app; lia|].
    change (commandFromBytes _ _ ?x _) with (replicaMessageFromBytes x c).
    unfold replicaMessageFromBytes, HybridKeySize. cbn [received]. rewrite Hn. cbn [deref]. go.
    rewrite bool_decide_eq_false_2 by (rewrite !length_app; lia).
    rewrite slice_head by done. go. rewrite slice_mid by lia. go.
    rewrite app_assoc, slice_from_app by (rewrite length_app; lia). go.
    by rewrite copy_zeros by done.
Qed.

Lemma ReplicaMessageReply_framed c o pg ec h r e :
  length h = 32 -> framed c (ReplicaMessageReply o pg ec (Some h) r e).
Proof.
  intros Hh. apply (framed_intro _ _ replicaMessageReply ([ec] ++ h ++ [r] ++ e)).
  - cbn [ToBytes]. unfold ReplicaMessageReply_ToBytes. cbn [deref]. go. apply padUnlessNil_frame.
    by rewrite !length_app, Hh.
  - intros tail. apply openFrame_body; [by rewrite length_app|].
    change (commandFromBytes _ _ ?x _) with (replicaMessageReplyFromBytes x c).
    unfold replicaMessageReplyFromBytes.
    rewrite bool_decide_eq_false_2 by (rewrite !length_app; cbn [length]; lia).
    change (index ([ec] ++ h ++ [r] ++ e) 0) with (Ok ec). go.
    rewrite (slice_mid [ec] h ([r] ++ e)) by (cbn [length]; lia). go.
    assert (Hr : index ([ec] ++ h ++ [r] ++ e) (1 + 32) = Ok r).
    { unfold index. rewrite app_assoc, lookup_app_r by (rewrite length_app, Hh; done).
      by rewrite length_app, Hh. }
    rewrite Hr. go. rewrite (app_assoc [ec] h), (app_assoc _ [r]), slice_from_app
      by (rewrite !length_app, Hh; done). go.
    by rewrite copy_zeros by done.
Qed.

(** ** Fixed-width requests *)

Lemma epoch_body_ok (mk : Z -> Command) n e :
  n = 8 -> u64 e ->
  (if negb (bool_decide (length (PutUint64 e) = n)) then Err errInvalidWireCommand
   else x ← slice (PutUint64 e) 0 8; Ok (mk (be_combine x))) = Ok (mk e).
Proof.
  intros -> He. rewrite length_PutUint64, bool_decide_eq_true_2 by done. cbn [negb].
  rewrite (slice_mid' _ [] (PutUint64 e) []) by (by rewrite ?app_nil_r). go.
  by rewrite be_combine_PutUint64.
Qed.

Lemma GetConsensus2_framed c o e : is_Some o -> u64 e -> framed c (GetConsensus2 o e).
Proof.
  intros [s ->] He. apply (framed_intro _ _ getConsensus2 (PutUint64 e)).
  - by apply pad_frame.
  - intros tail. apply openFrame_body; [done|].
    by apply (epoch_body_ok (GetConsensus2 (Some c))).
Qed.

Lemma GetConsensus_framed c o e m : is_Some o -> u64 e -> framed c (GetConsensus e o m).
Proof.
  intros [s ->] He. apply (framed_intro _ _ getConsensus (PutUint64 e)).
  - cbn [ToBytes]. unfold GetConsensus_ToBytes. destruct m; [by apply pad_frame|by apply plain_frame].
  - intros tail. apply openFrame_body; [done|].
    by apply (epoch_body_ok (fun e => GetConsensus e (Some c) false)).
Qed.

Lemma RetrieveMessage_framed c o s : is_Some o -> u32 s -> framed c (RetrieveMessage s o).
Proof.
  intros [s' ->] Hs. apply (framed_intro _ _ retreiveMessage (PutUint32 s)).
  - by apply pad_frame.
  - intros tail. apply openFrame_body; [done|].
    change (commandFromBytes _ _ ?x _) with (retreiveMessageFromBytes x c).
    unfold retreiveMessageFromBytes. rewrite length_PutUint32, bool_decide_eq_true_2 by done. cbn [negb].
    rewrite (slice_mid' _ [] (PutUint32 s) []) by (by rewrite ?app_nil_r). go.
    by rewrite be_combine_PutUint32.
Qed.

Lemma Consensus2_framed c o ec n t p :
  is_Some o -> u32 n -> u32 t -> framed c (Consensus2 o ec n t p).
Proof.
  intros [s ->] Hn Ht.
  apply (framed_intro _ _ consensus2 ([ec] ++ PutUint32 n ++ PutUint32 t ++ p)).
  - cbn [ToBytes]. unfold Consensus2_ToBytes. apply pad_frame. by rewrite <- !app_assoc.
  - intros tail. apply openFrame_body; [done|].
    change (commandFromBytes _ _ ?x ?y) with (consensus2FromBytes x y).
    unfold consensus2FromBytes.
    rewrite bool_decide_eq_false_2 by (unfold consensusBaseLength; rewrite length_app; cbn [length]; lia).
    change (index ([ec] ++ _) 0) with (Ok ec). go.
    rewrite (slice_mid' _ [ec] (PutUint32 n) (PutUint32 t ++ p ++ tail) 1 5) by (rewrite <- ?app_assoc; reflexivity). go.
    rewrite (slice_mid' _ ([ec] ++ PutUint32 n) (PutUint32 t) (p ++ tail) 5 9) by (rewrite <- ?app_assoc; reflexivity). go.
    rewrite !be_combine_PutUint32 by done. cbn [received]. do 2 f_equal.
Qed.

Lemma SendRetrievePacketReply_framed c o g id p :
  is_Some o -> length id = SURBIDLength -> framed c (SendRetrievePacketReply o g id p).
Proof.
  intros [s ->] Hid. apply (framed_intro _ _ sendRetrievePacketReply (id ++ p)).
  - cbn [ToBytes]. unfold SendRetrievePacketReply_ToBytes. apply pad_frame.
    by rewrite copy_zeros, length_app, Hid, <- app_assoc by done.
  - intros tail. apply openFrame_body; [rewrite length_app, Hid; unfold SURBIDLength; lia|].
    change (commandFromBytes _ _ ?x _) with (sendRetrievePacketReplyFromBytes x c).
    unfold sendRetrievePacketReplyFromBytes. rewrite slice_from_app by done. go.
    rewrite slice_to_app by done. go. by rewrite copy_zeros by done.
Qed.

(** Packets may be empty; the other branch of the dispatch gives the same result. *)
Lemma openFrame_any c id body tail r :
  emptyBodyAllowed id = true -> id <> noOp -> id <> disconnect -> id <> replicaDecoy ->
  commandFromBytes c id body tail = r -> openFrame c id body tail = r.
Proof.
  intros He H1 H2 H3 <-. unfold openFrame. rewrite He.
  apply Z.eqb_neq in H1 as ->. apply Z.eqb_neq in H2 as ->. apply Z.eqb_neq in H3 as ->.
  by case_bool_decide.
Qed.

Lemma Consensus_framed c ec p : framed c (Consensus ec p).
Proof.
  apply (framed_intro _ _ consensus ([ec] ++ p)); [by apply plain_frame|].
  intros tail. apply openFrame_body; [done|].
  change (commandFromBytes _ _ ?x _) with (consensusFromBytes x).
  unfold consensusFromBytes.
  rewrite bool_decide_eq_false_2 by (unfold consensusBaseLength; rewrite length_app; cbn [length]; lia).
  change (index ([ec] ++ p) 0) with (Ok ec). go. by rewrite (slice_from_app [ec]) by done.
Qed.

Lemma sendable_framed c cmd : 0 < BoxIDSize -> sendable c cmd -> framed c cmd.
Proof.
  intros Hbox. destruct cmd; cbn [sendable]; intros H.
  - destruct H as [s ->]. apply (framed_intro _ _ noOp []); [by apply pad_frame|done].
  - destruct H as [s ->]. apply (framed_intro _ _ disconnect []); [by apply pad_frame|done].
  - destruct H as [[s ->] (g & -> & Hp)].
    apply (framed_intro _ _ sendRetrievePacket SphinxPacket).
    + cbn [ToBytes]. unfold SendRetrievePacket_ToBytes. cbn [deref]. go.
      rewrite bool_decide_eq_true_2 by done. by apply pad_frame.
    + intros. by apply openFrame_any.
  - destruct_and! H. by apply SendRetrievePacketReply_framed.
  - destruct H as [s ->]. apply (framed_intro _ _ sendPacket SphinxPacket); [by apply pad_frame|].
    intros. by apply openFrame_any.
  - destruct_and! H. by apply RetrieveMessage_framed.
  - destruct H as (Ho & Hs & Hid & g & -> & Hg & Hp). by apply MessageACK_framed.
  - destruct H as (Hs & g & s' & -> & Hg & -> & Hg' & Hp). by apply Message_framed.
  - destruct H as (Hs & g & s' & Hg & -> & Hg'). by apply (MessageEmpty_framed c g).
  - destruct_and! H. by apply GetConsensus2_framed.
  - destruct_and! H. by apply Consensus2_framed.
  - by apply (status_framed c PostReplicaDescriptorStatus postReplicaDescriptorStatus errInvalidWireCommand).
  - by apply (descriptor_framed c PostReplicaDescriptor postReplicaDescriptor).
  - destruct_and! H. by apply GetConsensus_framed.
  - destruct_and! H. by apply GetVote_framed.
  - apply Consensus_framed.
  - by apply (descriptor_framed c PostDescriptor postDescriptor).
  - by apply (status_framed c PostDescriptorStatus postDescriptorStatus errInvalidWireCommand).
  - destruct H as (Hk & He & Hp). apply (signed_framed c Reveal reveal errWtf); try done.
    intros pk blob. by apply Reveal_ToBytes_ok.
  - by apply (status_framed c RevealStatus revealStatus errWtf).
  - destruct H as (Hk & He & Hp). apply (signed_framed c Vote vote errInvalidWireCommand); try done.
    intros pk blob ? ? _. by eapply signed_ToBytes_ok.
  - by apply (status_framed c VoteStatus voteStatus errInvalidWireCommand).
  - destruct H as (Hk & He & Hp). apply (signed_framed c Cert certificate errInvalidWireCommand); try done.
    intros pk blob ? ? _. by eapply signed_ToBytes_ok.
  - by apply (status_framed c CertStatus certStatus errInvalidWireCommand).
  - destruct H as (Hk & He & Hp). apply (signed_framed c Sig sig errInvalidWireCommand); try done.
    intros pk blob ? ? _. by eapply signed_ToBytes_ok.
  - by apply (status_framed c SigStatus sigStatus errInvalidWireCommand).
  - destruct H as (b & s & -> & -> & Hb & Hs). apply ReplicaWrite_framed; [done..|].
    rewrite length_app. lia.
  - apply (framed_intro _ _ replicaWriteReply [ErrorCode]); [by apply padUnlessNil_frame|done].
  - apply (framed_intro _ _ replicaDecoy []); [by apply padUnlessNil_frame|done].
  - destruct H as (Ho & n & d & Hn & -> & Hd & Hk & Hct). by eapply ReplicaMessage_framed.
  - destruct H as (h & -> & Hh). by apply ReplicaMessageReply_framed.
Qed.

End WireProofs.
