(* ===== verification/WireSpec.v ===== *)
(** What the wire protocol commands guarantee: every command a session may send
    is decoded as sent, commands of one direction are indistinguishable by
    length, and which input makes [FromBytes] panic. *)

From S2P Require Import Prelude Schemes ToySchemes SphinxGeo PigeonGeo WireCommands WireProofs.
From Stdlib Require Import ZArith Lia.
From stdpp Require Import prelude list strings.

(** ** Round trip *)

(** C8: every command that a peer can send to the session [c] serializes, and
    the session decodes the (possibly padded) bytes to that command, with the
    pointer fields set to its own. *)
Theorem wire_roundtrip {Sg : Sign} {SgL : SignLaws Sg} {P : PigeonSizes} c cmd spare :
  0 < BoxIDSize -> sendable c cmd ->
  exists b, ToBytes cmd = Ok b /\
    ((Z.of_nat (length b) < 2 ^ 32)%Z -> FromBytes c b spare = Ok (received c cmd)).
Proof.
  intros Hbox Hs. destruct (sendable_framed c cmd Hbox Hs) as (b & id & body & Hb & Hf & Ho).
  exists b. split; [done|]. intros Hl.
  destruct (FromBytes_frame c b id body spare Hf Hl) as [tail ->]. apply Ho.
Qed.

(** ** Traffic padding *)

Section Padding.

Context {Sg : Sign} {P : PigeonSizes}.

(** The length computation is the maximum of the lengths. *)
Lemma calcMaxMessageLen_ok m cmds ns :
  Forall2 (fun cmd n => Length cmd = Ok n) cmds ns ->
  calcMaxMessageLen m cmds = Ok (fold_left Nat.max ns m).
Proof.
  intros H. revert m. induction H as [|cmd n cmds ns Hn _ IH]; intros m; [done|].
  cbn [calcMaxMessageLen fold_left]. rewrite Hn. go. rewrite IH. do 2 f_equal.
  case_bool_decide; lia.
Qed.

(** Data that fits is padded to exactly the maximum of its direction. *)
Lemma pad_exact (c : Commands) (data : bytes) (up : bool) M :
  (if up then MaxMessageLenClientToServer c else MaxMessageLenServerToClient c) = M ->
  length data <= M ->
  exists b, padToMaxCommandSize (Some c) data up = Ok b /\ length b = M.
Proof.
  intros HM Hd. rewrite padToMaxCommandSize_eq. eexists. split; [reflexivity|].
  unfold padAmount. rewrite HM. golen.
Qed.

Lemma NewMixnetCommands_ok g :
  exists c, NewMixnetCommands (Some g) = Ok c /\ geo c = Some g /\
    MaxMessageLenClientToServer c = Nat.max 14 (cmdOverhead + PacketLength g) /\
    MaxMessageLenServerToClient c =
      Nat.max (cmdOverhead + 1 + 4 + SURBIDLength + PacketLength g)
              (cmdOverhead + SURBIDLength + UserForwardPayloadLength g).
Proof.
  unfold NewMixnetCommands, setMaxMessageLen.
  erewrite calcMaxMessageLen_ok by (repeat first [apply Forall2_cons; split; [reflexivity|]|apply Forall2_nil; done]).
  go.
  erewrite calcMaxMessageLen_ok by (repeat first [apply Forall2_cons; split; [reflexivity|]|apply Forall2_nil; done]).
  go. eexists. split; [reflexivity|].
  cbn [geo MaxMessageLenClientToServer MaxMessageLenServerToClient fold_left].
  cbv [NoOp_Length Disconnect_Length RetrieveMessage_Length GetConsensus_Length GetConsensus2_Length
       Consensus2_Length cmdOverhead CmdOverhead getConsensusLength SURBIDLength].
  split_and!; [done|lia|lia].
Qed.

(** The commands a client sends over session [c]. *)
Definition upstream (c : Commands) (g : Geometry) (cmd : Command) : Prop :=
  match cmd with
  | NoOp o | Disconnect o | RetrieveMessage _ o | GetConsensus2 o _ => o = Some c
  | GetConsensus _ o m => o = Some c /\ m = true
  | SendPacket p o => o = Some c /\ length p = PacketLength g
  | SendRetrievePacket g' o p => g' = Some g /\ o = Some c /\ length p = PacketLength g
  | _ => False
  end.

(** The commands a gateway sends back; a reply or a consensus chunk must fit. *)
Definition downstream (c : Commands) (g : Geometry) (cmd : Command) : Prop :=
  match cmd with
  | Message g' o _ _ p =>
      g' = Some g /\ o = Some c /\ length p = UserForwardPayloadLength g
  | MessageACK g' o _ _ _ p =>
      g' = Some g /\ o = Some c /\ length p = PayloadTagLength g + ForwardPayloadLength g
  | MessageEmpty o _ => o = Some c
  | SendRetrievePacketReply o _ _ p => o = Some c /\ length p <= PacketLength g + 5
  | Consensus2 o _ _ _ p => o = Some c /\ length p <= PacketLength g + 12
  | _ => False
  end.

(** The commands exchanged by replicas and couriers, at the sizes of the
    pigeonhole geometry. *)
Definition replicaTraffic (c : Commands) (pg : PigeonholeGeometry) (scheme : Nike) (cmd : Command)
    : Prop :=
  match cmd with
  | NoOp o | Disconnect o | ReplicaDecoy o | ReplicaWriteReply o _ => o = Some c
  | ReplicaMessage o _ _ k d ct => o = Some c /\ length k = @nike_PublicKeySize scheme /\
      (exists d', d = Some d' /\ length d' = DEKSize) /\
      length ct <= CalculateCourierEnvelopeCiphertextSizeWrite pg
  | ReplicaMessageReply o _ _ h _ e => o = Some c /\ (exists h', h = Some h' /\ length h' = 32) /\
      length e <= CalculateEnvelopeReplySizeRead pg
  | ReplicaWrite o _ b s p => o = Some c /\ (exists b', b = Some b' /\ length b' = BoxIDSize) /\
      (exists s', s = Some s' /\ length s' = SignatureSize) /\
      length p <= CalculateBoxCiphertextLength pg
  | _ => False
  end.

End Padding.

(** Discharge a length bound of serialized data. *)
Ltac wirelen :=
  rewrite ?length_app, ?length_cmdHeader, ?length_PutUint32, ?length_PutUint64, ?length_copy_into,
    ?length_zeros; cbn [length];
  unfold cmdOverhead, CmdOverhead, SURBIDLength, messageBaseLength in *; lia.

(** C9: over a mixnet session every command a client sends has the same
    length, the length of a command that carries a Sphinx packet. *)
Theorem client_traffic_uniform {Sg : Sign} {P : PigeonSizes} g :
  8 <= PacketLength g ->
  exists c, NewMixnetCommands (Some g) = Ok c /\
    forall cmd, upstream c g cmd ->
      exists b, ToBytes cmd = Ok b /\ length b = cmdOverhead + PacketLength g.
Proof.
  intros Hg. destruct (NewMixnetCommands_ok g) as (c & Hc & _ & Hup & _).
  exists c. split; [done|]. intros cmd.
  assert (HM : MaxMessageLenClientToServer c = cmdOverhead + PacketLength g) by wirelen.
  destruct cmd; cbn [upstream]; intros H; try done; destruct_and? H; subst; cbn [ToBytes];
    try (eapply (pad_exact c _ true); [done|wirelen]).
  unfold SendRetrievePacket_ToBytes. cbn [deref]. go. rewrite bool_decide_eq_true_2 by done.
  eapply (pad_exact c _ true); [done|wirelen].
Qed.

(** With a geometry that carries a SURB, every command a gateway sends
    over a mixnet session has the same length. *)
Theorem gateway_traffic_uniform {Sg : Sign} {P : PigeonSizes} (nike : Nike) user nrHops :
  exists g c, GeometryFromUserForwardPayloadLength nike user true nrHops = Ok g /\
    NewMixnetCommands (Some g) = Ok c /\
    forall cmd, downstream c g cmd ->
      exists b, ToBytes cmd = Ok b /\ length b = cmdOverhead + 1 + 4 + SURBIDLength + PacketLength g.
Proof.
  destruct (GeometryFromUserForwardPayloadLength_ok nike user true nrHops)
    as (g & Hg & _ & _ & _ & Hh & Hp & Hs & Ht & _ & Hu & Hsp & Hf & _).
  destruct (NewMixnetCommands_ok g) as (c & Hc & Hgeo & _ & Hdown).
  exists g, c. split; [done|]. split; [done|]. intros cmd.
  unfold adLength, MACLength, payloadTagLength in *.
  assert (HM : MaxMessageLenServerToClient c = cmdOverhead + 1 + 4 + SURBIDLength + PacketLength g)
    by wirelen.
  destruct cmd; cbn [downstream]; intros H; try done; destruct_and? H; subst; cbn [ToBytes].
  - eapply (pad_exact c _ false); [done|wirelen].
  - unfold MessageACK_ToBytes. cbn [deref]. go. rewrite bool_decide_eq_true_2 by done.
    eapply (pad_exact c _ false); [done|wirelen].
  - unfold Message_ToBytes, messageMsgLength, messageMsgPaddingLength. cbn [deref]. go.
    rewrite bool_decide_eq_true_2 by done. cbn [negb]. rewrite Hgeo. cbn [deref]. go.
    eapply (pad_exact c _ false); [done|wirelen].
  - unfold MessageEmpty_ToBytes, messageEmptyLength. cbn [deref]. go. rewrite Hgeo. cbn [deref]. go.
    eapply (pad_exact c _ false); [done|unfold messageACKLength; wirelen].
  - eapply (pad_exact c _ false); [done|wirelen].
Qed.

Section Replica.

Context {Sg : Sign} {P : PigeonSizes}.

(** The maximum of a storage replica session covers every command of its list. *)
Lemma NewStorageReplicaCommands_ok nikeByName g scheme pg :
  NewGeometryFromSphinx nikeByName g scheme = Ok pg ->
  exists c, NewStorageReplicaCommands nikeByName g scheme = Ok c /\
    MaxMessageLenClientToServer c = MaxMessageLenServerToClient c /\
    MaxMessageLenClientToServer c =
      Nat.max (cmdOverhead + DEKSize + @nike_PublicKeySize scheme +
                 CalculateCourierEnvelopeCiphertextSizeWrite pg)
              (Nat.max (cmdOverhead + 34 + CalculateEnvelopeReplySizeRead pg)
                       (cmdOverhead + BoxIDSize + SignatureSize + CalculateBoxCiphertextLength pg)).
Proof.
  intros Hpg. unfold NewStorageReplicaCommands, setMaxMessageLen. rewrite Hpg. cbn [panic_on_err].
  go.
  erewrite calcMaxMessageLen_ok by (repeat first [apply Forall2_cons; split; [reflexivity|]|apply Forall2_nil; done]).
  go. eexists. split; [reflexivity|].
  cbn [geo MaxMessageLenClientToServer MaxMessageLenServerToClient fold_left].
  cbv [NoOp_Length Disconnect_Length ReplicaWrite_Length ReplicaWriteReply_Length ReplicaDecoy_Length
       replicaWriteReplyLength cmdOverhead CmdOverhead].
  split; [done|]. lia.
Qed.

Lemma padUnlessNil_exact (c : Commands) (data : bytes) (up : bool) M :
  (if up then MaxMessageLenClientToServer c else MaxMessageLenServerToClient c) = M ->
  length data <= M ->
  exists b, padUnlessNil (Some c) data up = Ok b /\ length b = M.
Proof. apply pad_exact. Qed.

End Replica.

(** Over a storage replica session every command, in both directions and
    decoys included, has the same length. *)
Theorem replica_traffic_uniform {Sg : Sign} {P : PigeonSizes} nikeByName g scheme pg :
  NewGeometryFromSphinx nikeByName g scheme = Ok pg ->
  exists c M, NewStorageReplicaCommands nikeByName g scheme = Ok c /\
    forall cmd, replicaTraffic c pg scheme cmd -> exists b, ToBytes cmd = Ok b /\ length b = M.
Proof.
  intros Hpg. destruct (NewStorageReplicaCommands_ok nikeByName g scheme pg Hpg) as (c & Hc & Heq & HM).
  exists c, (MaxMessageLenClientToServer c). split; [done|]. intros cmd.
  destruct cmd; cbn [replicaTraffic]; intros H; try done; subst; cbn [ToBytes].
  - eapply (pad_exact c _ true); [done|wirelen].
  - eapply (pad_exact c _ true); [done|wirelen].
  - destruct H as (-> & (b & -> & Hb) & (s & -> & Hs) & Hp).
    unfold ReplicaWrite_ToBytes. cbn [deref]. go.
    eapply (padUnlessNil_exact c _ true); [done|wirelen].
  - eapply (padUnlessNil_exact c _ true); [done|wirelen].
  - eapply (padUnlessNil_exact c _ true); [done|wirelen].
  - destruct H as (-> & Hk & (d & -> & Hd) & Hct).
    unfold ReplicaMessage_ToBytes. cbn [deref]. go. eapply (pad_exact c _ true); [done|wirelen].
  - destruct H as (-> & (h & -> & Hh) & He).
    unfold ReplicaMessageReply_ToBytes. cbn [deref]. go.
    eapply (padUnlessNil_exact c _ false); [done|wirelen].
Qed.

(** ** Which bytes are accepted, and which make the decoder panic *)

Section Decode.

Context {Sg : Sign} {P : PigeonSizes}.

(** Bytes long enough for a header split at their length field. *)
Lemma header_split b :
  Forall is_byte b -> 6 <= length b -> b !! 1 = Some 0%Z ->
  exists id n rest, b = cmdHeader id n ++ rest /\ (Z.of_nat n < 2 ^ 32)%Z.
Proof.
  intros Hb Hl H1.
  destruct b as [|id [|r [|x2 [|x3 [|x4 [|x5 rest]]]]]]; try (cbn in Hl; lia).
  injection H1 as ->. do 2 (apply Forall_cons_1 in Hb as [_ Hb]).
  assert (Hq : Forall is_byte [x2; x3; x4; x5]).
  { by rewrite !Forall_cons in *; intuition. }
  pose proof (be_combine_bound _ Hq) as Hbd. change (256 ^ _)%Z with (2 ^ 32)%Z in Hbd.
  exists id, (Z.to_nat (be_combine [x2; x3; x4; x5])), rest. split; [|lia].
  unfold cmdHeader. rewrite Z2Nat.id by lia.
  change (PutUint32 _) with (be_split (length [x2; x3; x4; x5]) (be_combine [x2; x3; x4; x5])).
  by rewrite be_split_combine by done.
Qed.

(** [FromBytes] refuses its input as malformed or opens a frame with zero padding. *)
Lemma FromBytes_inv c b spare :
  Forall is_byte b -> (Z.of_nat (length b) < 2 ^ 32)%Z ->
  FromBytes c b spare = Err errInvalidWireCommand \/
  exists id body n, b = cmdHeader id (length body) ++ body ++ zeros n /\
    FromBytes c b spare = openFrame c id body (zeros n ++ spare).
Proof.
  intros Hb Hlen. destruct (decide (length b < 6)) as [Hl|Hl].
  { left. unfold FromBytes. by rewrite bool_decide_eq_true_2. }
  destruct (lookup_lt_is_Some_2 b 1) as [r Hr]; [lia|].
  destruct (decide (r = 0%Z)) as [->|Hne]; cycle 1.
  { left. unfold FromBytes. rewrite bool_decide_eq_false_2 by (unfold cmdOverhead, CmdOverhead; lia).
    destruct b as [|id b]; [done|]. change (index (id :: b) 0) with (Ok id). go.
    unfold index. rewrite Hr. cbn [deref]. go. by apply Z.eqb_neq in Hne as ->. }
  destruct (header_split b) as (id & n & rest & -> & Hn); [done|lia|done|].
  rewrite length_app, length_cmdHeader in Hlen.
  destruct (decide (n <= length rest)) as [Hle|Hgt].
  - assert (Hrest : rest = take n rest ++ drop n rest) by (by rewrite take_drop).
    assert (Htk : length (take n rest) = n) by (rewrite length_take; lia).
    assert (Hd : cmdHeader id n ++ rest =
      cmdHeader id (length (take n rest)) ++ take n rest ++ drop n rest) by (by rewrite Htk, take_drop).
    rewrite Hd, FromBytes_header by (rewrite take_drop; lia).
    destruct (CtIsZero (drop n rest)) eqn:Hz; [|by left]. right.
    apply CtIsZero_true in Hz. exists id, (take n rest), (length (drop n rest)).
    by rewrite <- Hz.
  - left. unfold FromBytes.
    rewrite bool_decide_eq_false_2 by (rewrite length_app, length_cmdHeader; unfold cmdOverhead, CmdOverhead; lia).
    change (index (cmdHeader id n ++ rest) 0) with (Ok id).
    change (index (cmdHeader id n ++ rest) 1) with (Ok 0%Z). go. cbn [Z.eqb negb].
    rewrite (slice_mid' _ [id; 0%Z] (PutUint32 (Z.of_nat n)) rest 2 6) by done. go.
    rewrite be_combine_PutUint32 by lia.
    rewrite (slice_from_app (cmdHeader id n)) by done. go.
    rewrite bool_decide_eq_true_2; [done|]. unfold wrap. rewrite Z.mod_small by lia. lia.
Qed.

(** Run the guarded slices and reads of a decoder. *)
Ltac decode_ok :=
  repeat first
    [ progress go
    | rewrite slice_ok by (rewrite ?length_app, ?length_drop in *; lia)
    | rewrite slice_from_cut by (rewrite ?length_app, ?length_drop in *; lia)
    | rewrite slice_to_cut by (rewrite ?length_app, ?length_drop in *; lia)
    | match goal with |- context [index ?b ?i] =>
        let H := fresh "Hidx" in
        destruct (lookup_lt_is_Some_2 b i) as [? H]; [lia|];
        rewrite (eq_refl : index b i = deref (b !! i)), H; cbn [deref] end ].

Lemma statusFromBytes_total mk err b : statusFromBytes mk err b <> Panic.
Proof. unfold statusFromBytes. case_bool_decide; cbn [negb]; [|done]. by decode_ok. Qed.

Lemma descriptorFromBytes_total mk b : descriptorFromBytes mk b <> Panic.
Proof.
  unfold descriptorFromBytes, postDescriptorLength. case_bool_decide; [done|]. by decode_ok.
Qed.

Lemma consensusFromBytes_total b : consensusFromBytes b <> Panic.
Proof. unfold consensusFromBytes, consensusBaseLength. case_bool_decide; [done|]. by decode_ok. Qed.

Lemma epoch_request_total (mk : Z -> Command) b :
  (if negb (bool_decide (length b = getConsensusLength)) then Err errInvalidWireCommand
   else e ← slice b 0 8; Ok (mk (be_combine e))) <> Panic.
Proof. unfold getConsensusLength. case_bool_decide; cbn [negb]; [|done]. by decode_ok. Qed.

Lemma retreiveMessageFromBytes_total b c : retreiveMessageFromBytes b c <> Panic.
Proof.
  unfold retreiveMessageFromBytes, retreiveMessageLength.
  case_bool_decide; cbn [negb]; [|done]. by decode_ok.
Qed.

Lemma replicaWriteFromBytes_total b c : replicaWriteFromBytes b c <> Panic.
Proof. unfold replicaWriteFromBytes. case_bool_decide; [done|]. by decode_ok. Qed.

Lemma replicaWriteReplyFromBytes_total b c : replicaWriteReplyFromBytes b c <> Panic.
Proof.
  unfold replicaWriteReplyFromBytes, postDescriptorStatusLength.
  case_bool_decide; cbn [negb]; [|done]. by decode_ok.
Qed.

Lemma replicaMessageReplyFromBytes_total b c : replicaMessageReplyFromBytes b c <> Panic.
Proof. unfold replicaMessageReplyFromBytes. case_bool_decide; [done|]. by decode_ok. Qed.

Lemma consensus2FromBytes_panic b tail :
  consensus2FromBytes b tail = Panic <-> 1 <= length b /\ length b + length tail < 9.
Proof.
  unfold consensus2FromBytes, consensusBaseLength. case_bool_decide; [split; [done|lia]|].
  destruct (decide (length b + length tail < 9)).
  - split; [lia|]. intros _. decode_ok.
    destruct (decide (length b + length tail < 5)).
    + by rewrite (slice_panic _ 1 5) by (rewrite length_app; lia).
    + rewrite (slice_ok _ 1 5) by (rewrite ?length_app; lia). go.
      by rewrite (slice_panic _ 5 9) by (rewrite length_app; lia).
  - split; [|lia]. by decode_ok.
Qed.

Lemma sendRetrievePacketReplyFromBytes_panic b c :
  sendRetrievePacketReplyFromBytes b c = Panic <-> length b < SURBIDLength.
Proof.
  unfold sendRetrievePacketReplyFromBytes. destruct (decide (length b < SURBIDLength)).
  - split; [done|]. intros _. unfold slice_from. by rewrite slice_panic by lia.
  - split; [|lia]. by decode_ok.
Qed.

Lemma replicaMessageFromBytes_panic b c :
  replicaMessageFromBytes b c = Panic <-> replicaNikeScheme c = None.
Proof.
  unfold replicaMessageFromBytes, HybridKeySize. destruct (replicaNikeScheme c) as [n|]; cbn [deref]; go; [|done].
  split; [|done]. case_bool_decide; [done|]. by decode_ok.
Qed.

Lemma messageFromBytes_panic c b :
  messageFromBytes c b c = Panic <->
  geo c = None /\ messageBaseLength <= length b /\
  exists t, b !! 0 = Some t /\ (t = messageTypeACK \/ t = messageTypeMessage \/ t = messageTypeEmpty).
Proof.
  unfold messageFromBytes. case_bool_decide as Hl; [split; [done|lia]|].
  unfold messageBaseLength in *. destruct b as [|t [|h b]]; [cbn in Hl; lia..|].
  change (index (t :: h :: b) 0) with (Ok t). change (index (t :: h :: b) 1) with (Ok h). decode_ok.
  unfold messageMsgPaddingLength, messageEmptyLength.
  destruct (geo c) as [g|]; cbn [deref]; go.
  - split; [|by intros [? _]]. intros Hp. exfalso. revert Hp.
    repeat case_match; try done; case_bool_decide; cbn [negb]; try done;
      repeat (decode_ok; try case_match; try done).
  - destruct (Z.eqb_spec t messageTypeACK); [split; [intros _; split_and!; by eauto with lia|done]|].
    destruct (Z.eqb_spec t messageTypeMessage); [split; [intros _; split_and!; by eauto with lia|done]|].
    destruct (Z.eqb_spec t messageTypeEmpty); [split; [intros _; split_and!; by eauto with lia|done]|].
    split; [done|]. intros (_ & _ & t' & [= <-] & H). intuition.
Qed.

Context (Hsign : forall b, sign_UnmarshalBinaryPublicKey b <> Panic).

Lemma signedFromBytes_panic mk err b scheme :
  signedFromBytes mk err b scheme = Panic <-> scheme = false.
Proof.
  unfold signedFromBytes, voteOverhead. destruct scheme; go; [|done].
  split; [|done]. case_bool_decide; [done|]. decode_ok.
  destruct (sign_UnmarshalBinaryPublicKey _) eqn:Hu; [by decode_ok|done|by apply Hsign in Hu].
Qed.

Lemma getVoteFromBytes_panic b scheme : getVoteFromBytes b scheme = Panic <-> scheme = false.
Proof.
  unfold getVoteFromBytes, voteOverhead. destruct scheme; go; [|done].
  split; [|done]. case_bool_decide; cbn [negb]; [|done]. decode_ok.
  destruct (sign_UnmarshalBinaryPublicKey _) eqn:Hu; try done. by apply Hsign in Hu.
Qed.

(** When a decoder reached with [body], and [room] bytes of capacity behind it,
    panics: a truncated chunk or reply, or a command of a scheme or geometry the
    session was created without. *)
Definition exposed (c : Commands) (id : Z) (body : bytes) (room : nat) : bool :=
  if Z.eqb id consensus2 then bool_decide (1 <= length body /\ length body + room < 9)
  else if Z.eqb id sendRetrievePacketReply then bool_decide (length body < SURBIDLength)
  else if Z.eqb id replicaMessage then
    bool_decide (length body <> 0) && match replicaNikeScheme c with None => true | _ => false end
  else if Z.eqb id message then
    match geo c with None => true | _ => false end &&
    bool_decide (messageBaseLength <= length body) &&
    match head body with Some t => bool_decide (t = 0 \/ t = 1 \/ t = 2)%Z | None => false end
  else if Z.eqb id getVote || Z.eqb id vote || Z.eqb id certificate || Z.eqb id reveal || Z.eqb id sig
  then bool_decide (length body <> 0) && negb (pkiSignatureScheme c)
  else false.

Lemma never_panics (m : outcome Command) : m <> Panic -> (m = Panic <-> false = true).
Proof. by intros. Qed.

Lemma guarded_panic (m : outcome Command) (scheme : bool) (body : bytes) :
  (m = Panic <-> scheme = false) -> length body <> 0 ->
  (m = Panic <-> bool_decide (length body <> 0) && negb scheme = true).
Proof. intros -> Hb. rewrite bool_decide_eq_true_2 by done. by destruct scheme. Qed.

Lemma commandFromBytes_panic c id body tail :
  length body <> 0 \/ emptyBodyAllowed id = true ->
  commandFromBytes c id body tail = Panic <-> exposed c id body (length tail) = true.
Proof.
  intros Hbody. unfold commandFromBytes.
  (** One identifier after the other; the empty-body hypothesis computes. *)
  repeat (lazymatch goal with |- (if Z.eqb id ?k then _ else _) = Panic <-> _ =>
    destruct (Z.eqb_spec id k) as [->|?] end;
    [try (destruct Hbody as [Hbody|?]; [|discriminate])|]).
  all: try (apply never_panics;
    first [apply statusFromBytes_total | apply descriptorFromBytes_total | apply consensusFromBytes_total
          | apply (epoch_request_total (GetConsensus2 (Some c)))
          | apply (epoch_request_total (fun e => GetConsensus e (Some c) false))
          | apply retreiveMessageFromBytes_total | apply replicaWriteFromBytes_total
          | apply replicaWriteReplyFromBytes_total | apply replicaMessageReplyFromBytes_total | done ]).
  all: try (apply guarded_panic; [apply signedFromBytes_panic || apply getVoteFromBytes_panic|done]).
  - rewrite consensus2FromBytes_panic. apply (iff_sym (bool_decide_eq_true _)).
  - rewrite replicaMessageFromBytes_panic.
    change (exposed _ _ _ _) with (bool_decide (length body <> 0) &&
      match replicaNikeScheme c with None => true | _ => false end).
    rewrite bool_decide_eq_true_2 by done. by destruct (replicaNikeScheme c).
  - rewrite sendRetrievePacketReplyFromBytes_panic. apply (iff_sym (bool_decide_eq_true _)).
  - rewrite messageFromBytes_panic.
    change (exposed _ _ _ _) with (match geo c with None => true | _ => false end &&
      bool_decide (messageBaseLength <= length body) &&
      match head body with Some t => bool_decide (t = 0 \/ t = 1 \/ t = 2)%Z | None => false end).
    rewrite !andb_true_iff, bool_decide_eq_true. destruct (geo c), body as [|t body]; cbn.
    1-3: split; [by intros (? & ? & ? & ? & ?)|by intros [[? ?] ?]].
    rewrite bool_decide_eq_true. unfold messageTypeACK, messageTypeMessage, messageTypeEmpty.
    split; [intros (_ & ? & t' & [= <-] & ?); intuition|]. intros [[_ ?] ?].
    split_and!; [done..|]. exists t. intuition.
  - split; [done|]. unfold exposed. rewrite !(proj2 (Z.eqb_neq id _)) by done. done.
Qed.

Lemma exposed_empty c id room : exposed c id [] room = true -> id = sendRetrievePacketReply.
Proof.
  unfold exposed. cbn [length head].
  destruct (Z.eqb id consensus2); [rewrite bool_decide_eq_true; lia|].
  destruct (Z.eqb_spec id sendRetrievePacketReply); [done|].
  destruct (Z.eqb id replicaMessage); [done|].
  destruct (Z.eqb id message); [by rewrite andb_false_r|]. by case_match.
Qed.

End Decode.

(** C12: a session never accepts bytes other than a header with a zero reserved
    byte, the announced body and zero padding, and the decoder panics exactly
    on the frames listed by [exposed]. *)
Theorem wire_decoder_panics {Sg : Sign} {P : PigeonSizes} c b spare :
  (forall k, sign_UnmarshalBinaryPublicKey k <> Panic) ->
  Forall is_byte b -> (Z.of_nat (length b) < 2 ^ 32)%Z ->
  (FromBytes c b spare = Panic <->
     exists id body n, b = cmdHeader id (length body) ++ body ++ zeros n /\
       exposed c id body (n + length spare) = true) /\
  (forall cmd, FromBytes c b spare = Ok cmd ->
     exists id body n, b = cmdHeader id (length body) ++ body ++ zeros n).
Proof.
  intros Hsign Hb Hlen.
  split; [split|].
  - intros Hp. destruct (FromBytes_inv c b spare Hb Hlen) as [He|(id & body & n & Hf & Ho)]; [congruence|].
    exists id, body, n. split; [done|]. rewrite Ho in Hp. revert Hp. unfold openFrame.
    intros Hp. rewrite <- (length_zeros n), <- length_app. apply commandFromBytes_panic; [done|..].
    all: case_bool_decide; [|by auto]. all: repeat case_match; try done; by auto.
  - intros (id & body & n & -> & He). rewrite !length_app, length_cmdHeader in Hlen.
    rewrite FromBytes_header, CtIsZero_zeros by (rewrite length_app; lia).
    rewrite <- (length_zeros n), <- length_app in He.
    destruct (decide (length body = 0)) as [Hz|Hz]; cycle 1.
    { apply openFrame_body; [done|]. apply commandFromBytes_panic; auto. }
    apply length_zero_iff_nil in Hz as ->. apply exposed_empty in He as Hid. subst id.
    apply openFrame_any; [done..|]. apply commandFromBytes_panic; auto.
  - intros cmd Hc. destruct (FromBytes_inv c b spare Hb Hlen) as [He|(id & body & n & Hf & Ho)].
    + congruence.
    + by exists id, body, n.
Qed.

(** ** Concrete sessions *)

Definition wireGeo : Geometry :=
  mkGeometry 3020 5 445 410 82 541 2 32 2543 2000 65 64 "toy" "".

Definition wireMixnet : Commands :=
  mkCommands (Some wireGeo) false None 3047 3026 true.

Lemma wire_roundtrip_witness :
  exists b, ToBytes (Message (Some wireGeo) (Some wireMixnet) 3 7 (zeros 2000)) = Ok b /\
    ((Z.of_nat (length b) < 2 ^ 32)%Z ->
     FromBytes wireMixnet b [] = Ok (Message None (Some wireMixnet) 3 7 (zeros 2000))).
Proof.
  apply (wire_roundtrip wireMixnet (Message (Some wireGeo) (Some wireMixnet) 3 7 (zeros 2000)) []).
  - unfold BoxIDSize, toySizes. lia.
  - split; [unfold u32; lia|]. by exists wireGeo, wireMixnet.
Defined.

Lemma client_traffic_uniform_witness :
  exists c, NewMixnetCommands (Some wireGeo) = Ok c /\
    forall cmd, upstream c wireGeo cmd ->
      exists b, ToBytes cmd = Ok b /\ length b = cmdOverhead + PacketLength wireGeo.
Proof. apply (client_traffic_uniform wireGeo). unfold PacketLength, wireGeo. lia. Defined.

Definition wirePigeon : PigeonholeGeometry :=
  mkPigeonholeGeometry 1712 200 2000 1857 50 (@nike_Name toyNike) signatureSchemeName.

Lemma replica_traffic_uniform_witness :
  exists c M, NewStorageReplicaCommands toyRegistry wireGeo toyNike = Ok c /\
    forall cmd, replicaTraffic c wirePigeon toyNike cmd ->
      exists b, ToBytes cmd = Ok b /\ length b = M.
Proof. apply (replica_traffic_uniform toyRegistry wireGeo toyNike wirePigeon). vm_compute. reflexivity. Defined.

(** A peer's vote command reaches the nil signature scheme of a mixnet session. *)
Lemma wire_decoder_panics_witness : FromBytes wireMixnet [22; 0; 0; 0; 0; 1; 5]%Z [] = Panic.
Proof.
  refine (proj2 (proj1 (wire_decoder_panics wireMixnet [22; 0; 0; 0; 0; 1; 5]%Z [] _ _ _)) _).
  - intros [|z [|]]; simpl; [done|by case_bool_decide|done].
  - repeat constructor; unfold is_byte; lia.
  - simpl. lia.
  - by exists vote, [5%Z], 0.
Defined.
