(* ===== verification/Queue.v ===== *)
(** The priority queue of [core/queue/priority_queue.go], over the binary heap of
    Go's [container/heap].

    The heap is the list of entries of the slice [q.heap].  [heap_up] and
    [heap_down] are the two loops of [container/heap]; their fuel is the length
    of the slice, and each round moves strictly towards the root, respectively
    the leaves.  Priorities are [uint64]s as [Z]. *)

From S2P Require Import Prelude.
From Stdlib Require Import ZArith Lia Sorting.Sorted.
From stdpp Require Import prelude list strings.

Section Queue.

Context {V : Type}.

(** [type Entry struct]. *)
Record Entry := mkEntry { Value : V; Priority : Z }.

(** [type PriorityQueue struct]: the slice [heap]. *)
Abbreviation PriorityQueue := (list Entry).

Implicit Types (q : PriorityQueue) (e : Entry).

(** [Less] for indices in range. *)
Definition key q (i : nat) : Z := match q !! i with Some e => Priority e | None => 0%Z end.
Definition Less q (i j : nat) : bool := Z.ltb (key q i) (key q j).

(** [Swap] for indices in range. *)
Definition Swap q (i j : nat) : PriorityQueue :=
  match q !! i, q !! j with
  | Some a, Some b => <[j := a]> (<[i := b]> q)
  | _, _ => q
  end.

(** ** [container/heap] *)

Definition parent (j : nat) : nat := (j - 1) / 2.

Fixpoint heap_up (fuel : nat) q (j : nat) : PriorityQueue :=
  match fuel with
  | O => q
  | S fuel =>
    let i := parent j in
    if bool_decide (i = j) || negb (Less q j i) then q
    else heap_up fuel (Swap q i j) i
  end.

(** The heap and the final position; [down] of Go returns whether it moved. *)
Fixpoint heap_down (fuel : nat) q (i n : nat) : PriorityQueue * nat :=
  match fuel with
  | O => (q, i)
  | S fuel =>
    let j1 := 2 * i + 1 in
    if bool_decide (n <= j1) then (q, i)
    else
      let j2 := j1 + 1 in
      let j := if bool_decide (j2 < n) && Less q j2 j1 then j2 else j1 in
      if negb (Less q j i) then (q, i)
      else heap_down fuel (Swap q i j) j n
  end.

(** [PriorityQueue.Push] and [PriorityQueue.Pop], the methods [container/heap]
    calls: append, and remove the last element. *)
Definition Push q e : PriorityQueue := q ++ [e].
Definition Pop q : option Entry * PriorityQueue :=
  match last q with
  | None => (None, q)
  | Some e => (Some e, take (length q - 1) q)
  end.

Definition heap_Push q e : PriorityQueue :=
  let q := Push q e in heap_up (length q) q (length q - 1).

Definition heap_Pop q : option Entry * PriorityQueue :=
  let n := length q - 1 in
  let q := Swap q 0 n in
  Pop (fst (heap_down (length q) q 0 n)).

Definition heap_Remove q (i : nat) : option Entry * PriorityQueue :=
  let n := length q - 1 in
  if bool_decide (n = i) then Pop q
  else
    let q := Swap q i n in
    let '(q, i') := heap_down (length q) q i n in
    Pop (if bool_decide (i < i') then q else heap_up (length q) q i).

(** [heap.Init] on the empty slice does nothing. *)
Definition New : PriorityQueue := [].

(** ** The methods of [PriorityQueue] *)

Definition Len q : nat := length q.

Definition Enqueue q (priority : Z) (value : V) : PriorityQueue :=
  heap_Push q (mkEntry value priority).

Definition Peek q : option Entry := head q.

Definition Dequeue q : option Entry * PriorityQueue :=
  if bool_decide (Len q <= 0) then (None, q) else heap_Pop q.

(** [q.heap[i]] panics out of range; a negative index is out of range. *)
Definition PeekIndex q (i : Z) : outcome (option Entry) :=
  if bool_decide (Len q <= 0) then Ok None
  else if bool_decide (i < 0)%Z then Panic
  else e ← index q (Z.to_nat i); Ok (Some e).

(** A negative index passes through [Swap], [down] and [up] without effect, so
    [heap.Remove] then pops the last element; past the end [Swap] panics. *)
Definition DequeueIndex q (i : Z) : outcome (option Entry * PriorityQueue) :=
  if bool_decide (Len q <= 0) then Ok (None, q)
  else if bool_decide (i < 0)%Z then Ok (Pop q)
  else if bool_decide (length q <= Z.to_nat i) then Panic
  else Ok (heap_Remove q (Z.to_nat i)).

(** [r.Intn(n)] is the index drawn. *)
Definition DequeueRandom q (drawn : nat) : outcome (option Entry * PriorityQueue) :=
  if bool_decide (Len q <= 0) then Ok (None, q) else DequeueIndex q (Z.of_nat drawn).

Definition Remove q (i : Z) : outcome (option Entry * PriorityQueue) := DequeueIndex q i.

(** ** Heap order *)

(** Every entry of the first [n] is no smaller than its parent. *)
Definition heap_upto (n : nat) q : Prop :=
  forall i, 0 < i < n -> (key q (parent i) <= key q i)%Z.

Definition heap q : Prop := heap_upto (length q) q.

(** Heap order but for the edges at [k], whose parent is below its children. *)
Definition nearly (n : nat) q (k : nat) : Prop :=
  (forall i, 0 < i < n -> i <> k -> parent i <> k -> (key q (parent i) <= key q i)%Z) /\
  (forall i, 0 < i < n -> parent i = k -> 0 < k -> (key q (parent k) <= key q i)%Z).

Definition children_ok (n : nat) q (k : nat) : Prop :=
  forall i, 0 < i < n -> parent i = k -> (key q k <= key q i)%Z.

Definition parent_ok (q : PriorityQueue) (k : nat) : Prop :=
  0 < k -> (key q (parent k) <= key q k)%Z.

Lemma parent_lt i : 0 < i -> parent i < i.
Proof. intros. unfold parent. apply Nat.Div0.div_lt_upper_bound. lia. Qed.

Lemma parent_child i k : 0 < i -> parent i = k <-> i = 2 * k + 1 \/ i = 2 * k + 2.
Proof.
  intros. unfold parent. pose proof (Nat.div_mod (i - 1) 2) as D.
  pose proof (Nat.mod_upper_bound (i - 1) 2). lia.
Qed.

Lemma nearly_heap n q k : nearly n q k -> children_ok n q k -> parent_ok q k -> heap_upto n q.
Proof.
  intros [H1 _] Hc Hp i Hi. destruct (decide (i = k)) as [->|]; [apply Hp; lia|].
  destruct (decide (parent i = k)) as [Hpk|]; [rewrite Hpk; by apply Hc|by apply H1].
Qed.

Lemma length_Swap q i j : length (Swap q i j) = length q.
Proof. unfold Swap. repeat case_match; by rewrite ?length_insert. Qed.

Lemma key_Swap q i j k :
  i < length q -> j < length q ->
  key (Swap q i j) k = if decide (k = j) then key q i else if decide (k = i) then key q j else key q k.
Proof.
  intros Hi Hj. apply lookup_lt_is_Some_2 in Hi as [a Ha]. apply lookup_lt_is_Some_2 in Hj as [b Hb].
  unfold Swap, key. rewrite Ha, Hb. assert (i < length q) by (by eapply lookup_lt_Some).
  assert (j < length q) by (by eapply lookup_lt_Some).
  destruct (decide (k = j)) as [->|]; [by rewrite list_lookup_insert_eq by (by rewrite length_insert)|].
  rewrite list_lookup_insert_ne by done.
  destruct (decide (k = i)) as [->|]; [by rewrite list_lookup_insert_eq|].
  by rewrite list_lookup_insert_ne.
Qed.

Lemma Swap_Permutation q i j : Swap q i j ≡ₚ q.
Proof.
  unfold Swap. destruct (q !! i) as [a|] eqn:Ha; [|done]. destruct (q !! j) as [b|] eqn:Hb; [|done].
  by apply Permutation_insert_swap.
Qed.

(** ** The two loops *)

Lemma parent_0 : parent 0 = 0.
Proof. done. Qed.

(** One round of [down]: the hole moves to the smaller child [j]. *)
Lemma nearly_down n q k j :
  n <= length q -> nearly n q k -> parent j = k -> k < j < n ->
  (forall i, 0 < i < n -> parent i = k -> (key q j <= key q i)%Z) -> (key q j < key q k)%Z ->
  nearly n (Swap q k j) j /\ parent_ok (Swap q k j) j.
Proof.
  intros Hn [H1 H2] Hpj Hkj Hmin Hlt.
  assert (Hs : forall i, key (Swap q k j) i =
    if decide (i = j) then key q k else if decide (i = k) then key q j else key q i)
    by (intros; apply key_Swap; lia).
  split; [split|].
  - intros i Hi Hij Hpi. rewrite !Hs, !(decide_False (P := _ = j)) by done.
    destruct (decide (i = k)) as [->|Hik].
    + pose proof (parent_lt k) as Hlt'. rewrite decide_False by lia. apply H2; lia.
    + destruct (decide (parent i = k)) as [Hpk|Hpk]; [by apply Hmin|by apply H1].
  - intros i Hi Hpi _. pose proof (parent_lt i) as Hlt'.
    rewrite !Hs, Hpj. rewrite (decide_False (P := k = j)), decide_True by lia.
    rewrite (decide_False (P := i = j)), decide_False by lia.
    rewrite <- Hpi. apply H1; lia.
  - intros _. rewrite !Hs, Hpj. repeat case_decide; lia.
Qed.

(** [down] keeps a permutation, leaves the entries from [n] on alone, and ends
    with the children in order; when it has moved, the parent is in order too. *)
Lemma heap_down_spec fuel n q k :
  n <= length q -> n <= k + fuel -> nearly n q k ->
  let '(q', k') := heap_down fuel q k n in
  q' ≡ₚ q /\ (forall i, n <= i -> q' !! i = q !! i) /\ k <= k' /\
  nearly n q' k' /\ children_ok n q' k' /\ (k < k' -> parent_ok q' k') /\ (k = k' -> q' = q).
Proof.
  revert q k. induction fuel as [|fuel IH]; intros q k Hn Hf Hq; cbn [heap_down].
  { split_and!; try done; try lia. intros i Hi Hp. apply parent_child in Hp; lia. }
  case_bool_decide as Hj1.
  { split_and!; try done; try lia. intros i Hi Hp. apply parent_child in Hp; lia. }
  set (j := if bool_decide (2 * k + 1 + 1 < n) && Less q (2 * k + 1 + 1) (2 * k + 1)
            then 2 * k + 1 + 1 else 2 * k + 1).
  assert (Hj : (j = 2 * k + 1 \/ j = 2 * k + 2) /\ j < n /\
    forall i, 0 < i < n -> parent i = k -> (key q j <= key q i)%Z).
  { unfold j, Less. case_bool_decide as Hj2; cbn [andb];
      [destruct (Z.ltb_spec (key q (2 * k + 1 + 1)) (key q (2 * k + 1)))|];
      (split; [lia|split; [lia|]]); intros i Hi Hp; destruct (proj1 (parent_child i k (proj1 Hi)) Hp) as [-> | ->];
      rewrite <- ?Nat.add_assoc in *; cbn [Nat.add] in *; try lia. }
  destruct Hj as (Hj & Hjn & Hmin). clearbody j.
  assert (Hpj : parent j = k) by (apply parent_child; lia).
  unfold Less. destruct (Z.ltb_spec (key q j) (key q k)) as [Hlt|Hge]; cbn [negb]; cycle 1.
  { split_and!; try done; try lia. intros i Hi Hp. specialize (Hmin i Hi Hp). lia. }
  destruct (nearly_down n q k j) as [Hn' Hp']; [done..|lia|done|done|].
  specialize (IH (Swap q k j) j). rewrite length_Swap in IH.
  destruct (heap_down fuel (Swap q k j) j n) as [q' k'] eqn:Hd.
  destruct IH as (Hperm & Hrest & Hle & Hnear & Hch & Hpar & Heq); [done|lia|done|].
  split_and!; try done; try lia.
  - by rewrite Hperm, Swap_Permutation.
  - intros i Hi. rewrite Hrest by done. unfold Swap. repeat case_match; try done.
    by rewrite !list_lookup_insert_ne by lia.
  - intros _. destruct (decide (j < k')) as [|Hjk]; [by apply Hpar|].
    assert (j = k') as <- by lia. by rewrite Heq.
Qed.

(** Heap order but for the edge above [k]. *)
Definition above (n : nat) q (k : nat) : Prop := nearly n q k /\ children_ok n q k.

Lemma above_up n q k :
  n <= length q -> k < n -> 0 < k -> above n q k -> (key q k < key q (parent k))%Z ->
  above n (Swap q (parent k) k) (parent k).
Proof.
  intros Hn Hk H0 [[H1 H2] Hc] Hlt. pose proof (parent_lt k H0) as Hp.
  assert (Hs : forall i, key (Swap q (parent k) k) i =
    if decide (i = k) then key q (parent k) else if decide (i = parent k) then key q k else key q i)
    by (intros; apply key_Swap; lia).
  split; [split|].
  - intros i Hi Hip Hpi. rewrite !Hs. rewrite (decide_False (P := i = parent k)), (decide_False (P := parent i = parent k)) by done.
    destruct (decide (i = k)) as [->|Hik]; [done|].
    destruct (decide (parent i = k)) as [Hpk|Hpk]; [by apply H2|by apply H1].
  - intros i Hi Hpi Hpp. pose proof (parent_lt (parent k) Hpp) as Hpp'.
    rewrite !Hs. rewrite (decide_False (P := parent (parent k) = k)), (decide_False (P := parent (parent k) = parent k)) by lia.
    destruct (decide (i = k)) as [->|Hik].
    + apply H1; lia.
    + destruct (decide (i = parent k)) as [->|]; [lia|].
      transitivity (key q (parent k)); [apply H1; lia|]. rewrite <- Hpi. apply H1; lia.
  - intros i Hi Hpi. rewrite !Hs. rewrite (decide_False (P := parent k = k)), decide_True by lia.
    destruct (decide (i = k)) as [->|Hik]; [lia|].
    pose proof (parent_lt i) as Hpi'. destruct (decide (i = parent k)) as [->|Hne]; [lia|].
    transitivity (key q (parent k)); [lia|]. rewrite <- Hpi. apply H1; lia.
Qed.

(** [up] restores heap order and permutes the first [n] entries. *)
Lemma heap_up_spec fuel n q k :
  n <= length q -> k < n -> k < fuel -> above n q k ->
  heap_up fuel q k ≡ₚ q /\ (forall i, n <= i -> heap_up fuel q k !! i = q !! i) /\
  heap_upto n (heap_up fuel q k).
Proof.
  revert q k. induction fuel as [|fuel IH]; intros q k Hn Hk Hf [Hq Hc]; [lia|].
  cbn [heap_up]. case_bool_decide as Hpk.
  { cbn [orb]. split_and!; try done. apply (nearly_heap n q k); [done..|].
    intros H0. pose proof (parent_lt k H0). lia. }
  assert (0 < k) by (destruct k; [done|lia]). pose proof (parent_lt k) as Hp.
  unfold Less. destruct (Z.ltb_spec (key q k) (key q (parent k))) as [Hlt|Hge]; cbn [negb orb]; cycle 1.
  { split_and!; try done. apply (nearly_heap n q k); [done..|]. by intros _. }
  destruct (IH (Swap q (parent k) k) (parent k)) as (Hperm & Hrest & Hh);
    [by rewrite length_Swap|lia|lia|by apply above_up|].
  split_and!; [by rewrite Hperm, Swap_Permutation| |done].
  intros i Hi. rewrite Hrest by done. unfold Swap. repeat case_match; try done.
  by rewrite !list_lookup_insert_ne by lia.
Qed.

(** ** The operations *)

Lemma key_app_l q q' i : i < length q -> key (q ++ q') i = key q i.
Proof. intros. unfold key. by rewrite lookup_app_l. Qed.

Lemma key_ext q q' i : q !! i = q' !! i -> key q i = key q' i.
Proof. unfold key. by intros ->. Qed.

(** The root of a heap is a minimum. *)
Lemma heap_root_min q i : heap q -> i < length q -> (key q 0 <= key q i)%Z.
Proof.
  intros Hq. induction i as [i IH] using lt_wf_ind. intros Hi.
  destruct (decide (i = 0)) as [->|]; [done|]. pose proof (parent_lt i) as Hp.
  transitivity (key q (parent i)); [apply IH; lia|apply Hq; lia].
Qed.

Lemma heap_Push_spec q e : heap q -> heap (heap_Push q e) /\ heap_Push q e ≡ₚ e :: q.
Proof.
  intros Hq. unfold heap_Push, Push.
  assert (Hl : length (q ++ [e]) = S (length q)) by (rewrite length_app; cbn; lia).
  destruct (heap_up_spec (length (q ++ [e])) (length (q ++ [e])) (q ++ [e]) (length (q ++ [e]) - 1))
    as (Hperm & _ & Hh); [lia|lia|lia| |].
  - rewrite Hl. replace (S (length q) - 1) with (length q) by lia. split; [split|].
    + intros i Hi Hne Hpi. pose proof (parent_lt i) as Hp. rewrite !key_app_l by lia. apply Hq. lia.
    + intros i Hi Hpi _. pose proof (parent_lt i) as Hp. lia.
    + intros i Hi Hpi. pose proof (parent_lt i) as Hp. lia.
  - split; [|by rewrite Hperm, Permutation_app_comm].
    unfold heap. by rewrite (Permutation_length Hperm).
Qed.

(** Removing the last entry of a slice ordered below it. *)
Lemma Pop_spec q e :
  last q = Some e -> heap_upto (length q - 1) q ->
  exists q', Pop q = (Some e, q') /\ heap q' /\ e :: q' ≡ₚ q /\ q' = take (length q - 1) q.
Proof.
  intros Hl Hq. apply last_Some in Hl as [l ->]. unfold Pop. rewrite last_snoc.
  rewrite length_app in *. cbn [length] in *. replace (length l + 1 - 1) with (length l) in * by lia.
  rewrite take_app_length. exists l. split_and!; try done.
  - intros i Hi. pose proof (parent_lt i) as Hp. specialize (Hq i Hi).
    by rewrite !key_app_l in Hq by lia.
  - by rewrite Permutation_app_comm.
Qed.

Lemma key_Some q i e : q !! i = Some e -> key q i = Priority e.
Proof. unfold key. by intros ->. Qed.

Lemma last_lookup_eq q q' : length q = length q' -> q !! (length q - 1) = q' !! (length q' - 1) -> last q = last q'.
Proof. intros. rewrite !last_lookup. by replace (pred (length q)) with (length q - 1) by lia;
  replace (pred (length q')) with (length q' - 1) by lia. Qed.

(** Swapping entry [i] with the last one leaves a heap with a hole at [i]. *)
Lemma Swap_last_nearly q i :
  heap q -> i < length q - 1 -> nearly (length q - 1) (Swap q i (length q - 1)) i.
Proof.
  intros Hq Hi. split.
  - intros k Hk Hki Hpk. pose proof (parent_lt k) as Hp.
    rewrite !key_Swap by lia. rewrite !decide_False by lia. apply Hq. lia.
  - intros k Hk Hpk H0. pose proof (parent_lt k) as Hp. pose proof (parent_lt i H0) as Hp'.
    rewrite !key_Swap by lia. rewrite !decide_False by lia.
    transitivity (key q i); [apply Hq; lia|]. rewrite <- Hpk. apply Hq. lia.
Qed.

Lemma Swap_last q i e :
  i < length q -> q !! i = Some e -> last (Swap q i (length q - 1)) = Some e.
Proof.
  intros Hi He. destruct (lookup_lt_is_Some_2 q (length q - 1)) as [l Hl]; [lia|].
  unfold Swap. rewrite He, Hl. rewrite last_lookup, !length_insert.
  replace (pred (length q)) with (length q - 1) by lia.
  by rewrite list_lookup_insert_eq by (rewrite length_insert; lia).
Qed.

(** Removing entry [i]: the result is that entry, the rest is a heap of the
    other entries. *)
Lemma heap_Remove_spec q i e :
  heap q -> q !! i = Some e ->
  exists q', heap_Remove q i = (Some e, q') /\ heap q' /\ e :: q' ≡ₚ q.
Proof.
  intros Hq He. pose proof (lookup_lt_Some _ _ _ He) as Hi. unfold heap_Remove.
  case_bool_decide as Hn.
  { destruct (Pop_spec q e) as (q' & HP & Hh & Hperm & _); [|by intros k Hk; apply Hq; lia|by exists q'].
    rewrite last_lookup. by replace (pred (length q)) with i by lia. }
  set (s := Swap q i (length q - 1)).
  assert (Hls : length s = length q) by apply length_Swap.
  assert (Hlast : last s = Some e) by (by apply Swap_last).
  pose proof (heap_down_spec (length s) (length q - 1) s i) as Hd.
  destruct (heap_down (length s) s i (length q - 1)) as [d i'].
  destruct Hd as (Hperm & Hrest & Hle & Hnear & Hch & Hpar & Heq);
    [lia|lia|by apply Swap_last_nearly; [done|lia]|].
  assert (Hld : length d = length q) by (rewrite (Permutation_length Hperm); done).
  assert (Hlastd : last d = Some e).
  { rewrite <- Hlast. apply last_lookup_eq; [lia|]. rewrite Hrest by lia. by rewrite Hld, Hls. }
  case_bool_decide as Hmv.
  - destruct (Pop_spec d e) as (q' & HP & Hh & Hp' & _); [done| |].
    + rewrite Hld. by apply (nearly_heap _ _ i'); [..|apply Hpar].
    + exists q'. split_and!; [done..|]. by rewrite Hp', Hperm; apply Swap_Permutation.
  - assert (i = i') as <- by lia. specialize (Heq eq_refl). subst d.
    destruct (heap_up_spec (length s) (length q - 1) s i) as (Hpu & Hru & Hhu); [lia|lia|lia|done|].
    assert (Hlu : length (heap_up (length s) s i) = length q)
      by (rewrite (Permutation_length Hpu); done).
    destruct (Pop_spec (heap_up (length s) s i) e) as (q' & HP & Hh & Hp' & _).
    + rewrite <- Hlast. apply last_lookup_eq; [lia|]. rewrite Hru by lia. by rewrite Hlu, Hls.
    + by rewrite Hlu.
    + exists q'. split_and!; [done..|]. by rewrite Hp', Hpu; apply Swap_Permutation.
Qed.

Lemma heap_Pop_spec q e :
  heap q -> head q = Some e ->
  exists q', heap_Pop q = (Some e, q') /\ heap q' /\ e :: q' ≡ₚ q.
Proof.
  intros Hq He. assert (He0 : q !! 0 = Some e) by (by destruct q).
  destruct (decide (length q - 1 = 0)) as [H1|H1].
  { destruct q as [|x [|]]; try done. injection He as ->. by exists []. }
  unfold heap_Pop. set (s := Swap q 0 (length q - 1)).
  assert (Hls : length s = length q) by apply length_Swap.
  assert (Hlast : last s = Some e) by (apply Swap_last; [lia|done]).
  pose proof (heap_down_spec (length s) (length q - 1) s 0) as Hd.
  destruct (heap_down (length s) s 0 (length q - 1)) as [d i'].
  destruct Hd as (Hperm & Hrest & Hle & Hnear & Hch & Hpar & Heq);
    [lia|lia|by apply Swap_last_nearly; [done|lia]|].
  assert (Hld : length d = length q) by (rewrite (Permutation_length Hperm); done).
  cbn [fst]. destruct (Pop_spec d e) as (q' & HP & Hh & Hp' & _).
  - rewrite <- Hlast. apply last_lookup_eq; [lia|]. rewrite Hrest by lia. by rewrite Hld, Hls.
  - rewrite Hld. apply (nearly_heap _ _ i'); [done..|]. destruct (decide (0 < i')); [by apply Hpar|].
    intros ?. lia.
  - exists q'. split_and!; [done..|]. by rewrite Hp', Hperm; apply Swap_Permutation.
Qed.

Lemma Peek_min q e : heap q -> Peek q = Some e -> Forall (fun x => (Priority e <= Priority x)%Z) q.
Proof.
  intros Hq He. apply Forall_lookup. intros i x Hx.
  pose proof (heap_root_min q i Hq (lookup_lt_Some _ _ _ Hx)) as Hm.
  rewrite (key_Some q i x Hx), (key_Some q 0 e) in Hm by (by destruct q). done.
Qed.

Lemma Dequeue_spec q e :
  heap q -> Peek q = Some e ->
  exists q', Dequeue q = (Some e, q') /\ heap q' /\ e :: q' ≡ₚ q.
Proof.
  intros Hq He. unfold Dequeue, Len. rewrite bool_decide_eq_false_2 by (by destruct q; cbn in *; [|lia]).
  by apply heap_Pop_spec.
Qed.

(** ** The queue as a bag *)

Inductive op :=
  | OpEnqueue (priority : Z) (value : V)
  | OpDequeue
  | OpPeek
  | OpDequeueIndex (i : Z).

(** A call on the slice: its result and the new slice. *)
Definition call q (o : op) : outcome (option Entry * PriorityQueue) :=
  match o with
  | OpEnqueue p v => Ok (None, Enqueue q p v)
  | OpDequeue => Ok (Dequeue q)
  | OpPeek => Ok (Peek q, q)
  | OpDequeueIndex i => DequeueIndex q i
  end.

(** The contract: a bag of entries from which [Dequeue] takes a minimum.  An
    index only says that some entry is removed. *)
Inductive bag_step : PriorityQueue -> op -> option Entry -> PriorityQueue -> Prop :=
  | bag_enqueue b p v b' :
      b' ≡ₚ mkEntry v p :: b -> bag_step b (OpEnqueue p v) None b'
  | bag_empty o : o <> OpPeek -> (forall p v, o <> OpEnqueue p v) -> bag_step [] o None []
  | bag_dequeue b e b' :
      b ≡ₚ e :: b' -> Forall (fun x => (Priority e <= Priority x)%Z) b ->
      bag_step b OpDequeue (Some e) b'
  | bag_peek_empty : bag_step [] OpPeek None []
  | bag_peek b e :
      e ∈ b -> Forall (fun x => (Priority e <= Priority x)%Z) b -> bag_step b OpPeek (Some e) b
  | bag_remove b i e b' : b ≡ₚ e :: b' -> bag_step b (OpDequeueIndex i) (Some e) b'.

(** Run a sequence of calls, collecting the results. *)
Fixpoint calls q (os : list op) : outcome (list (option Entry) * PriorityQueue) :=
  match os with
  | [] => Ok ([], q)
  | o :: os =>
    '(r, q) ← call q o;
    '(rs, q) ← calls q os;
    Ok (r :: rs, q)
  end.

Inductive bag_steps : PriorityQueue -> list op -> list (option Entry) -> PriorityQueue -> Prop :=
  | bag_steps_nil b : bag_steps b [] [] b
  | bag_steps_cons b o os r rs b' b'' :
      bag_step b o r b' -> bag_steps b' os rs b'' -> bag_steps b (o :: os) (r :: rs) b''.

Lemma call_refines q o r q' :
  heap q -> call q o = Ok (r, q') -> heap q' /\ bag_step q o r q'.
Proof.
  intros Hq. destruct o as [p v| | |i]; cbn [call]; intros H.
  - injection H as <- <-. destruct (heap_Push_spec q (mkEntry v p) Hq). by split; [|constructor].
  - injection H as H. destruct (Peek q) as [e|] eqn:He.
    + destruct (Dequeue_spec q e Hq He) as (q'' & Hd & Hh & Hp). rewrite Hd in H. simplify_eq.
      split; [done|]. constructor; [by symmetry|by apply Peek_min].
    + destruct q; [|done]. injection H as <- <-. by split; [|constructor].
  - injection H as <- <-. split; [done|]. destruct (Peek q) as [e|] eqn:He.
    + apply bag_peek; [|by apply Peek_min]. destruct q; [done|]. injection He as ->. by left.
    + destruct q; [apply bag_peek_empty|done].
  - unfold DequeueIndex, Len in H. case_bool_decide as Hl.
    { injection H as <- <-. destruct q; [|cbn in Hl; lia]. by split; [|constructor]. }
    case_bool_decide as Hneg.
    { injection H as H. destruct (last q) as [e|] eqn:He; [|by apply last_None in He as ->].
      destruct (Pop_spec q e He) as (q'' & HP & Hh & Hp & _); [intros k Hk; apply Hq; lia|].
      rewrite HP in H. simplify_eq. by split; [|constructor]. }
    case_bool_decide as Hr; [done|]. injection H as H.
    destruct (lookup_lt_is_Some_2 q (Z.to_nat i)) as [e He]; [lia|].
    destruct (heap_Remove_spec q (Z.to_nat i) e Hq He) as (q'' & HP & Hh & Hp).
    rewrite HP in H. simplify_eq. by split; [|constructor].
Qed.

Lemma calls_refines q os rs q' :
  heap q -> calls q os = Ok (rs, q') -> heap q' /\ bag_steps q os rs q'.
Proof.
  revert q rs. induction os as [|o os IH]; intros q rs Hq H; cbn [calls] in H.
  { injection H as <- <-. by split; [|constructor]. }
  go_inv H. destruct v as [r q1]. go_inv H. destruct v as [rs' q2]. injection H as <- <-.
  apply call_refines in E as [Hq1 Hs]; [|done]. apply IH in E0 as [Hq2 Hss]; [|done].
  split; [done|]. by econstructor.
Qed.

(** [Dequeue] until the queue is empty. *)
Fixpoint drain (fuel : nat) q : list Entry :=
  match fuel with
  | O => []
  | S fuel => match Dequeue q with
              | (Some e, q) => e :: drain fuel q
              | (None, _) => []
              end
  end.

Lemma drain_spec q :
  heap q -> Sorted (fun a b => (Priority a <= Priority b)%Z) (drain (length q) q) /\
            drain (length q) q ≡ₚ q.
Proof.
  remember (length q) as n eqn:Hn. revert q Hn. induction n as [|n IH]; intros q Hn Hq; cbn [drain].
  { destruct q; [|done]. by split; [constructor|]. }
  destruct (Peek q) as [e|] eqn:He; [|by destruct q].
  destruct (Dequeue_spec q e Hq He) as (q' & Hd & Hh & Hp). rewrite Hd.
  assert (n = length q') as Hn' by (apply Permutation_length in Hp; cbn in Hp; lia).
  destruct (IH q' Hn' Hh) as [Hs Hp']. split; [|by rewrite Hp'].
  constructor; [done|]. pose proof (Peek_min q e Hq He) as Hm.
  destruct (drain n q') as [|x l] eqn:Hdr; constructor.
  rewrite <- Hp, <- Hp' in Hm. by apply Forall_cons_1 in Hm as [_ [Hx _]%Forall_cons_1].
Qed.

End Queue.

Arguments Entry : clear implicits.


(** After any sequence of calls, dequeuing until the queue is empty gives
    exactly the queued entries in order of priority. *)
Theorem queue_drain_sorted {V} (os : list op) (rs : list (option (Entry V))) (q : list (Entry V)) :
  calls New os = Ok (rs, q) ->
  Sorted (fun a b => (Priority a <= Priority b)%Z) (drain (length q) q) /\ drain (length q) q ≡ₚ q.
Proof.
  intros H. apply calls_refines in H as [Hq _]; [by apply drain_spec|]. intros i Hi. cbn in Hi. lia.
Qed.

Definition toyCalls : list (@op nat) :=
  [OpEnqueue 7 1; OpEnqueue 3 2; OpEnqueue 9 3; OpEnqueue 1 4; OpEnqueue 3 5; OpDequeue;
   OpDequeueIndex 1; OpPeek].

Definition toyQueue : list (Entry nat) := [mkEntry 5 3; mkEntry 1 7; mkEntry 3 9].

