(* ===== verification/TimerQueue.v ===== *)
(** The timer queue of [core/queue/timer_queue.go].

    The worker goroutine, its timer and the push channel are one state; an
    [event] is one thing that can happen: time passes, a caller pushes, cancels
    or pops, the timer fires, or the worker takes an item from the channel.  The
    worker's case body and the rescheduling loop that follows it run as one
    event, at the clock reading of that moment.  Timestamps are the nanosecond
    clock; [int64] and [uint64] conversions wrap. *)

From S2P Require Import Prelude Queue.
From Stdlib Require Import ZArith Lia.
From stdpp Require Import prelude list strings.

(** [int64(v)]. *)
Definition int64 (v : Z) : Z :=
  let u := (v mod 2 ^ 64)%Z in if (u <? 2 ^ 63)%Z then u else (u - 2 ^ 64)%Z.

Section TimerQueue.

Context {V : Type} `{EqDecision V}.

(** [type TimerQueue struct]: the heap, the buffered channel of pushed items
    and, for the worker, the time its timer is set to ([None] for the maximal
    duration), the clock, and the actions started so far. *)
Record TimerQueue := mkTimerQueue {
  tq_queue : list (Entry V);
  pushCh : list (Entry V);
  timer : option Z;
  clock : Z;
  started : list (Z * Entry V);
}.

Definition pushChCap : nat := 100.

Definition NewTimerQueue (now : Z) : TimerQueue := mkTimerQueue New [] None now [].

(** The test of the rescheduling loop. *)
Definition timeLeft (priority now : Z) : Z := int64 (int64 priority - now).
Definition due (priority now : Z) : bool :=
  (timeLeft priority now <? 0)%Z || (priority <? now mod 2 ^ 64)%Z.

(** The rescheduling loop: start the action of every due entry, then set the
    timer for the next one.  Every round removes an entry, so the length of the
    heap bounds the rounds. *)
Fixpoint reschedule (fuel : nat) (t : TimerQueue) : TimerQueue :=
  match fuel with
  | O => t
  | S fuel =>
    match Peek (tq_queue t) with
    | None => mkTimerQueue (tq_queue t) (pushCh t) None (clock t) (started t)
    | Some m =>
      if due (Priority m) (clock t) then
        reschedule fuel (mkTimerQueue (snd (Dequeue (tq_queue t))) (pushCh t) (timer t) (clock t)
                           (started t ++ [(clock t, m)]))
      else mkTimerQueue (tq_queue t) (pushCh t)
             (Some (clock t + timeLeft (Priority m) (clock t))%Z) (clock t) (started t)
    end
  end.

(** [case <-timer.C]: the head entry is dequeued and its action started, without
    a look at its priority. *)
Definition timerFired (t : TimerQueue) : option TimerQueue :=
  match timer t with
  | Some d =>
    if bool_decide (d <= clock t)%Z then
      let t :=
        match Peek (tq_queue t) with
        | None => t
        | Some m => mkTimerQueue (snd (Dequeue (tq_queue t))) (pushCh t) (timer t) (clock t)
                      (started t ++ [(clock t, m)])
        end in
      Some (reschedule (S (length (tq_queue t))) t)
    else None
  | None => None
  end.

(** [case item := <-t.pushCh]. *)
Definition itemReceived (t : TimerQueue) : option TimerQueue :=
  match pushCh t with
  | [] => None
  | item :: rest =>
    let q := Enqueue (tq_queue t) (Priority item) (Value item) in
    Some (reschedule (S (length q)) (mkTimerQueue q rest (timer t) (clock t) (started t)))
  end.

(** [Push] blocks while the channel is full. *)
Definition tq_Push (t : TimerQueue) (priority : Z) (value : V) : option TimerQueue :=
  if bool_decide (length (pushCh t) < pushChCap) then
    Some (mkTimerQueue (tq_queue t) (pushCh t ++ [mkEntry value priority]) (timer t) (clock t)
            (started t))
  else None.

Definition tq_Pop (t : TimerQueue) : option (Entry V) * TimerQueue :=
  let '(e, q) := Dequeue (tq_queue t) in
  (e, mkTimerQueue q (pushCh t) (timer t) (clock t) (started t)).

Definition tq_Peek (t : TimerQueue) : option (Entry V) := Peek (tq_queue t).
Definition tq_Len (t : TimerQueue) : nat := Len (tq_queue t).
Definition PushChLen (t : TimerQueue) : nat := length (pushCh t).

Definition EnqueueDirect (t : TimerQueue) (priority : Z) (value : V) : TimerQueue :=
  mkTimerQueue (Enqueue (tq_queue t) priority value) (pushCh t) (timer t) (clock t) (started t).

(** The search loop of [Cancel]: the first entry of the slice with the value. *)
Fixpoint cancelIndex (q : list (Entry V)) (i : nat) (value : V) : option nat :=
  match q with
  | [] => None
  | e :: q => if bool_decide (Value e = value) then Some i else cancelIndex q (S i) value
  end.

Definition Cancel (t : TimerQueue) (value : V) : bool * TimerQueue :=
  match cancelIndex (tq_queue t) 0 value with
  | None => (false, t)
  | Some i =>
    (true, mkTimerQueue (snd (heap_Remove (tq_queue t) i)) (pushCh t) (timer t) (clock t) (started t))
  end.

(** ** Runs *)

Inductive event :=
  | EvTick (now : Z)
  | EvPush (priority : Z) (value : V)
  | EvTimer
  | EvItem
  | EvCancel (value : V)
  | EvPop.

Definition run_event (t : TimerQueue) (ev : event) : option TimerQueue :=
  match ev with
  | EvTick now => if bool_decide (clock t <= now)%Z
                  then Some (mkTimerQueue (tq_queue t) (pushCh t) (timer t) now (started t)) else None
  | EvPush p v => tq_Push t p v
  | EvTimer => timerFired t
  | EvItem => itemReceived t
  | EvCancel v => Some (snd (Cancel t v))
  | EvPop => Some (snd (tq_Pop t))
  end.

Fixpoint run (t : TimerQueue) (evs : list event) : option TimerQueue :=
  match evs with
  | [] => Some t
  | ev :: evs => match run_event t ev with Some t => run t evs | None => None end
  end.

(** The events of a queue nobody takes entries from: pushes with a timestamp
    that fits [int64], clock readings, and the worker. *)
Definition worker_event (ev : event) : Prop :=
  match ev with
  | EvTick now => (0 <= now < 2 ^ 63)%Z
  | EvPush p _ => (0 <= p < 2 ^ 63)%Z
  | EvTimer | EvItem => True
  | EvCancel _ | EvPop => False
  end.

(** ** Invariant *)

(** Whether an entry was pushed with a priority in range. *)
Definition in_range (e : Entry V) : Prop := (0 <= Priority e < 2 ^ 63)%Z.

Record tq_inv (t : TimerQueue) : Prop := {
  inv_heap : heap (tq_queue t);
  inv_clock : (0 <= clock t < 2 ^ 63)%Z;
  inv_timer : timer t = Priority <$> Peek (tq_queue t);
  inv_range : Forall in_range (tq_queue t ++ pushCh t);
  inv_started : Forall (fun '(now, e) => Priority e <= now)%Z (started t);
}.

Lemma int64_small v : (0 <= v < 2 ^ 63)%Z -> int64 v = v.
Proof. intros. unfold int64. rewrite Z.mod_small by lia. destruct (Z.ltb_spec v (2 ^ 63)); lia. Qed.

Lemma int64_neg v : (- 2 ^ 63 <= v < 0)%Z -> int64 v = v.
Proof.
  intros. unfold int64. rewrite <- (Z.mod_add v 1) by lia. rewrite Z.mod_small by lia.
  destruct (Z.ltb_spec (v + 1 * 2 ^ 64) (2 ^ 63)); lia.
Qed.

(** In range, an entry is due when its time lies in the past, and the time left
    is the plain difference. *)
Lemma due_spec p now :
  (0 <= p < 2 ^ 63)%Z -> (0 <= now < 2 ^ 63)%Z ->
  due p now = (p <? now)%Z /\ timeLeft p now = (p - now)%Z.
Proof.
  intros Hp Hn. assert (Ht : timeLeft p now = (p - now)%Z).
  { unfold timeLeft. rewrite (int64_small p) by done.
    destruct (Z.lt_ge_cases p now); [apply int64_neg|apply int64_small]; lia. }
  split; [|done]. unfold due. rewrite Ht, Z.mod_small by lia.
  destruct (Z.ltb_spec (p - now) 0), (Z.ltb_spec p now); lia || done.
Qed.

(** What the rescheduling loop does: it starts exactly the entries whose time
    lies in the past and sets the timer for the first of the others. *)
Lemma reschedule_spec fuel t :
  length (tq_queue t) < fuel -> heap (tq_queue t) -> (0 <= clock t < 2 ^ 63)%Z ->
  Forall in_range (tq_queue t) ->
  let t' := reschedule fuel t in
  heap (tq_queue t') /\ clock t' = clock t /\ pushCh t' = pushCh t /\
  timer t' = Priority <$> Peek (tq_queue t') /\
  exists fired, started t' = started t ++ map (pair (clock t)) fired /\
    tq_queue t ≡ₚ fired ++ tq_queue t' /\
    Forall (fun e => Priority e < clock t)%Z fired /\
    Forall (fun e => clock t <= Priority e)%Z (tq_queue t').
Proof.
  revert t. induction fuel as [|fuel IH]; intros t Hf Hh Hc Hr; [lia|]. cbn [reschedule].
  destruct (Peek (tq_queue t)) as [m|] eqn:Hm; cycle 1.
  { cbn. rewrite Hm. split_and!; try done. exists []. cbn. rewrite app_nil_r.
    split_and!; try done. by destruct (tq_queue t). }
  destruct (Dequeue_spec _ m Hh Hm) as (q' & Hd & Hh' & Hp).
  assert (Hrm : in_range m) by (rewrite <- Hp in Hr; by apply Forall_cons_1 in Hr as [? _]).
  destruct (due_spec (Priority m) (clock t)) as [Hdue Hleft]; [done..|].
  rewrite Hdue. destruct (Z.ltb_spec (Priority m) (clock t)) as [Hlt|Hge].
  - rewrite Hd. cbn [snd].
    destruct (IH (mkTimerQueue q' (pushCh t) (timer t) (clock t) (started t ++ [(clock t, m)])))
      as (H1 & H2 & H3 & H4 & fired & Hs & Hq & Hf1 & Hf2); cbn [tq_queue clock] in *; try done.
    { apply Permutation_length in Hp. cbn in Hp. lia. }
    { rewrite <- Hp in Hr. by apply Forall_cons_1 in Hr as [_ ?]. }
    split_and!; try done. exists (m :: fired). cbn [started map app] in *.
    split_and!; [by rewrite Hs, <- app_assoc| |by constructor|done].
    etransitivity; [symmetry; exact Hp|]. by constructor.
  - cbn. rewrite Hm, Hleft. cbn. split_and!; try done.
    + f_equal. lia.
    + exists []. cbn. rewrite app_nil_r. split_and!; try done.
      eapply Forall_impl; [by apply Peek_min|]. cbn. lia.
Qed.

Lemma reschedule_inv fuel t :
  length (tq_queue t) < fuel -> heap (tq_queue t) -> (0 <= clock t < 2 ^ 63)%Z ->
  Forall in_range (tq_queue t ++ pushCh t) ->
  Forall (fun '(now, e) => Priority e <= now)%Z (started t) -> tq_inv (reschedule fuel t).
Proof.
  intros Hf Hh Hc [Hr1 Hr2]%Forall_app Hs.
  destruct (reschedule_spec fuel t) as (H1 & H2 & H3 & H4 & fired & Hst & Hq & Hf1 & Hf2); [done..|].
  split; try done.
  - by rewrite H2.
  - rewrite H3. apply Forall_app. split; [|done]. rewrite Hq in Hr1. by apply Forall_app in Hr1 as [_ ?].
  - rewrite Hst. apply Forall_app. split; [done|]. apply Forall_map. cbn.
    eapply Forall_impl; [done|]. cbn. lia.
Qed.

(** Entries pushed so far. *)
Definition pushed (evs : list event) : list (Entry V) :=
  flat_map (fun ev => match ev with EvPush p v => [mkEntry v p] | _ => [] end) evs.

(** All entries a queue accounts for. *)
Definition held (t : TimerQueue) : list (Entry V) := map snd (started t) ++ tq_queue t ++ pushCh t.

Lemma reschedule_held fuel t :
  length (tq_queue t) < fuel -> heap (tq_queue t) -> (0 <= clock t < 2 ^ 63)%Z ->
  Forall in_range (tq_queue t) -> held (reschedule fuel t) ≡ₚ held t.
Proof.
  intros Hf Hh Hc Hr.
  destruct (reschedule_spec fuel t) as (_ & _ & H3 & _ & fired & Hst & Hq & _); [done..|].
  unfold held. rewrite Hst, H3, map_app, map_map, Hq. cbn. rewrite map_id.
  by rewrite <- !app_assoc.
Qed.

(** Both cases of the worker end in the rescheduling loop, from a state that
    accounts for the same entries. *)
Lemma worker_case t ev t' :
  tq_inv t -> ev = EvTimer \/ ev = EvItem -> run_event t ev = Some t' ->
  exists fuel t1, t' = reschedule fuel t1 /\ length (tq_queue t1) < fuel /\ heap (tq_queue t1) /\
    clock t1 = clock t /\ Forall in_range (tq_queue t1 ++ pushCh t1) /\
    Forall (fun '(now, e) => Priority e <= now)%Z (started t1) /\ held t1 ≡ₚ held t.
Proof.
  intros [Hh Hc Ht Hr Hs] [-> | ->] H; cbn [run_event] in H; apply Forall_app in Hr as [Hr1 Hr2].
  - unfold timerFired in H. rewrite Ht in H. destruct (Peek (tq_queue t)) as [m|] eqn:Hm; [|done].
    change (Priority <$> Some m) with (Some (Priority m)) in H. cbn iota in H.
    case_bool_decide as Hle; [|done]. apply (inj Some) in H as <-.
    destruct (Dequeue_spec _ m Hh Hm) as (q' & Hd & Hh' & Hp). rewrite Hd. cbn [snd].
    rewrite <- Hp in Hr1. apply Forall_cons_1 in Hr1 as [Hrm Hr1].
    eexists _, _. split; [reflexivity|]. cbn [tq_queue clock pushCh started]. split_and!; try done; [lia|..].
    + by apply Forall_app.
    + apply Forall_app. split; [done|]. by repeat constructor.
    + unfold held. cbn. rewrite map_app, <- Hp, <- app_assoc. done.
  - unfold itemReceived in H. destruct (pushCh t) as [|[v p] rest] eqn:Hpc; [done|]. apply (inj Some) in H as <-.
    apply Forall_cons_1 in Hr2 as [Hri Hr2]. cbn [Value Priority].
    destruct (heap_Push_spec (tq_queue t) (mkEntry v p) Hh) as [Hh' Hp].
    change (heap_Push _ _) with (Enqueue (tq_queue t) p v) in *.
    eexists _, _. split; [reflexivity|]. cbn [tq_queue clock pushCh started]. split_and!; try done; [lia|..].
    + apply Forall_app. split; [rewrite Hp; by constructor|done].
    + unfold held. cbn. rewrite Hpc, Hp. f_equiv. cbn. by rewrite Permutation_middle.
Qed.

Lemma run_event_inv t ev t' :
  tq_inv t -> worker_event ev -> run_event t ev = Some t' ->
  tq_inv t' /\ held t' ≡ₚ held t ++ pushed [ev].
Proof.
  intros Hi Hev H.
  assert (ev = EvTimer \/ ev = EvItem \/ (ev <> EvTimer /\ ev <> EvItem)) as Hcases
    by (destruct ev; auto).
  apply or_assoc in Hcases. destruct Hcases as [Hw|[Hw1 Hw2]].
  { destruct (worker_case t ev t' Hi Hw H) as (fuel & t1 & -> & Hf & Hh & Hc & Hr & Hs & Hheld).
    destruct Hi as [_ Hclk _ _ _]. rewrite <- Hc in Hclk. split; [by apply reschedule_inv|].
    rewrite reschedule_held, Hheld by (done || by apply Forall_app in Hr as [? _]).
    destruct Hw as [-> | ->]; cbn; by rewrite app_nil_r. }
  destruct Hi as [Hh Hc Ht Hr Hs].
  destruct ev as [now|p v| | |v|]; cbn [run_event worker_event] in *; try done.
  - case_bool_decide as Hle; [|done]. injection H as <-. unfold held. cbn. rewrite app_nil_r. by split.
  - unfold tq_Push in H. case_bool_decide; [|done]. injection H as <-.
    split; [|by unfold held; cbn; rewrite !app_assoc].
    split; cbn; try done. rewrite app_assoc. apply Forall_app. split; [done|]. by apply Forall_singleton.
Qed.

Lemma run_inv t evs t' :
  tq_inv t -> Forall worker_event evs -> run t evs = Some t' ->
  tq_inv t' /\ held t' ≡ₚ held t ++ pushed evs.
Proof.
  revert t. induction evs as [|ev evs IH]; intros t Hi Hev H; cbn [run] in H.
  { injection H as <-. by rewrite app_nil_r. }
  apply Forall_cons_1 in Hev as [He Hev]. destruct (run_event t ev) as [t1|] eqn:E; [|done].
  apply run_event_inv in E as [Hi1 Hh1]; [|done..]. apply IH in H as [Hi2 Hh2]; [|done..].
  split; [done|]. rewrite Hh2, Hh1. unfold pushed. cbn. by rewrite app_nil_r, <- app_assoc.
Qed.

Lemma NewTimerQueue_inv now : (0 <= now < 2 ^ 63)%Z -> tq_inv (NewTimerQueue now).
Proof. intros. by split; cbn; try done; intros i Hi; cbn in Hi; lia. Qed.

End TimerQueue.

Arguments TimerQueue : clear implicits.
Arguments event : clear implicits.

(** Without [Cancel] and [Pop], no action is started before the time of
    its entry, and every pushed entry is, exactly once, started, queued or
    waiting in the channel. *)
Theorem timer_never_early {V} `{EqDecision V} now (evs : list (event V)) t :
  (0 <= now < 2 ^ 63)%Z -> Forall worker_event evs -> run (NewTimerQueue now) evs = Some t ->
  Forall (fun '(at_, e) => Priority e <= at_)%Z (started t) /\
  map snd (started t) ++ tq_queue t ++ pushCh t ≡ₚ pushed evs.
Proof.
  intros Hn Hev H. apply run_inv in H as [[_ _ _ _ Hs] Hh]; [by split|by apply NewTimerQueue_inv|done].
Qed.

(** When the worker has handled an event, no queued entry is overdue and
    its timer is set to the time of the first one. *)
Theorem timer_rescheduled {V} `{EqDecision V} now (evs : list (event V)) ev t t' :
  (0 <= now < 2 ^ 63)%Z -> Forall worker_event evs -> run (NewTimerQueue now) evs = Some t ->
  ev = EvTimer \/ ev = EvItem -> run_event t ev = Some t' ->
  Forall (fun e => clock t <= Priority e)%Z (tq_queue t') /\
  timer t' = Priority <$> Peek (tq_queue t').
Proof.
  intros Hn Hev H Hw H'. apply run_inv in H as [Hi _]; [|by apply NewTimerQueue_inv|done].
  destruct (worker_case t ev t' Hi Hw H') as (fuel & t1 & -> & Hf & Hh & Hc & Hr & _).
  destruct Hi as [_ Hclk _ _ _]. rewrite <- Hc in *.
  destruct (reschedule_spec fuel t1) as (_ & _ & _ & Ht & _ & _ & _ & _ & Hle);
    [done..|by apply Forall_app in Hr as [? _]|done].
Qed.

(** With [Cancel] an action can start before its time.  The timer stays
    set for the cancelled entry, and when it fires the worker dequeues whatever
    is first. *)
Theorem timer_cancel_early :
  exists (t : TimerQueue nat) at_ e,
    run (NewTimerQueue 0) [EvPush 10 1; EvPush 1000 2; EvItem; EvItem; EvCancel 1; EvTick 10; EvTimer]
      = Some t /\ (at_, e) ∈ started t /\ (at_ < Priority e)%Z.
Proof.
  eexists _, 10%Z, (mkEntry 2 1000). split; [vm_compute; reflexivity|].
  split; [by left|cbn; lia].
Qed.

Definition toyEvents : list (event nat) :=
  [EvPush 10 1; EvPush 5 2; EvItem; EvItem; EvTick 7; EvTimer; EvPush 3 3].

Definition toyTimer : TimerQueue nat :=
  mkTimerQueue [mkEntry 1 10] [mkEntry 3 3] (Some 10%Z) 7 [(7%Z, mkEntry 2 5)].

Lemma timer_never_early_witness :
  Forall (fun '(at_, e) => Priority e <= at_)%Z (started toyTimer) /\
  map snd (started toyTimer) ++ tq_queue toyTimer ++ pushCh toyTimer ≡ₚ pushed toyEvents.
Proof.
  apply (timer_never_early 0 toyEvents toyTimer); [lia| |vm_compute; reflexivity].
  repeat constructor; cbn; lia.
Defined.

Lemma timer_rescheduled_witness :
  Forall (fun e => 7 <= Priority e)%Z [@mkEntry nat 1 10] /\
  Some 10%Z = Priority <$> Peek [@mkEntry nat 1 10].
Proof.
  apply (timer_rescheduled 0 toyEvents EvItem toyTimer
    (mkTimerQueue [mkEntry 1 10] [] (Some 10%Z) 7 [(7%Z, mkEntry 2 5); (7%Z, mkEntry 3 3)]));
    [lia| |vm_compute; reflexivity|by right|vm_compute; reflexivity].
  repeat constructor; cbn; lia.
Defined.
