(* ===== verification/EpochTime.v ===== *)
(** Epoch timekeeping: [core/epochtime/time.go].

    A [time.Time] is its number of nanoseconds since the Unix epoch, a
    [time.Duration] an [int64] of nanoseconds: multiplication wraps and
    [Time.Sub] saturates, as in Go.  [Period] is a variable of the package, set
    once at start-up, hence an argument. *)

From S2P Require Import Prelude TimerQueue.
From Stdlib Require Import ZArith Lia.
From stdpp Require Import prelude list strings.

Local Open Scope Z_scope.

Definition millisecond : Z := 1000000.
Definition second : Z := 1000000000.
Definition minute : Z := 60 * second.
Definition hour : Z := 60 * minute.

(** The default [Period], and the one of a warped build. *)
Definition defaultPeriod : Z := 20 * minute.
Definition warpedPeriod : Z := 2 * minute.

(** [time.Date(2017, 6, 1, 0, 0, 0, 0, time.UTC)]. *)
Definition Epoch : Z := 1496275200 * second.

Definition maxDuration : Z := 2 ^ 63 - 1.
Definition minDuration : Z := - 2 ^ 63.

(** [Time.Sub], [Time.Add] and the product of two durations. *)
Definition Sub (t u : Z) : Z :=
  if bool_decide (maxDuration < t - u) then maxDuration
  else if bool_decide (t - u < minDuration) then minDuration else t - u.
Definition Add (t d : Z) : Z := t + d.
Definition mulDuration (a b : Z) : Z := int64 (int64 a * b).

Section EpochTime.

Context (Period : Z).

Definition WeekOfEpochs : Z := Z.quot (hour * 24 * 7) Period.

Definition getEpoch (t : Z) : outcome (Z * Z * Z) :=
  let fromEpoch := Sub t Epoch in
  if bool_decide (fromEpoch < 0) then Panic
  else if bool_decide (Period = 0) then Panic
  else
    let current := Z.quot fromEpoch Period mod 2 ^ 64 in
    let base := Add Epoch (mulDuration current Period) in
    let elapsed := Sub t base in
    let till := Sub (Add base Period) t in
    Ok (current, elapsed, till).

(** [FromUnix(t)], with [t] in seconds. *)
Definition FromUnix (t : Z) : outcome (Z * Z * Z) := getEpoch (t * second).

Definition IsInEpoch (e t : Z) : bool :=
  let deltaStart := mulDuration e Period in
  let deltaEnd := mulDuration ((e + 1) mod 2 ^ 64) Period in
  let startTime := Add Epoch deltaStart in
  let endTime := Add Epoch deltaEnd in
  let tt := int64 t * second in
  if bool_decide (tt = startTime) then true
  else bool_decide (startTime < tt) && bool_decide (tt < endTime).

End EpochTime.

Lemma Sub_small t u : minDuration <= t - u <= maxDuration -> Sub t u = t - u.
Proof. intros. unfold Sub. repeat case_bool_decide; lia. Qed.

Lemma mulDuration_small a b : 0 <= a -> 0 < b -> a * b < 2 ^ 63 -> mulDuration a b = a * b.
Proof. intros. unfold mulDuration. rewrite (int64_small a) by nia. apply int64_small. nia. Qed.

(** The latest time the [int64] nanosecond arithmetic reaches: an epoch before
    the end of the range. *)
Definition representable (Period t : Z) : Prop := Epoch <= t /\ t - Epoch + Period < 2 ^ 63.

Lemma getEpoch_ok Period t :
  0 < Period -> representable Period t ->
  exists e el till, getEpoch Period t = Ok (e, el, till) /\
    0 <= e /\ e * Period < 2 ^ 63 - Period /\ t = Epoch + e * Period + el /\
    0 <= el < Period /\ el + till = Period.
Proof.
  intros HP [Hlo Hhi]. unfold getEpoch.
  assert (Hs : Sub t Epoch = t - Epoch) by (apply Sub_small; unfold minDuration, maxDuration; lia).
  rewrite Hs, !bool_decide_eq_false_2 by lia. rewrite Z.quot_div_nonneg by lia.
  pose proof (Z.div_mod (t - Epoch) Period) as D. pose proof (Z.mod_pos_bound (t - Epoch) Period) as B.
  set (e := (t - Epoch) / Period) in *. set (r := (t - Epoch) mod Period) in *.
  assert (0 <= e) by (apply Z.div_pos; lia). assert (e * Period <= t - Epoch) by nia.
  assert (e < 2 ^ 63) by nia. rewrite (Z.mod_small e) by lia.
  rewrite mulDuration_small by nia. unfold Add.
  rewrite !Sub_small by (unfold minDuration, maxDuration; nia).
  eexists _, _, _. split; [reflexivity|]. split_and!; nia.
Qed.

(** For every time the arithmetic can represent, the current epoch and the
    elapsed time recompose to that time, the elapsed time lies within the
    period, and elapsed plus remaining time is the period. *)
Theorem epoch_decomposes Period t :
  0 < Period -> representable Period t ->
  exists e elapsed till, getEpoch Period t = Ok (e, elapsed, till) /\
    t = Epoch + e * Period + elapsed /\ 0 <= elapsed < Period /\ elapsed + till = Period.
Proof.
  intros HP Ht. destruct (getEpoch_ok Period t HP Ht) as (e & el & till & H & _ & _ & ? & ? & ?).
  by exists e, el, till.
Qed.

(** [IsInEpoch] agrees with [FromUnix]: a second lies in the epoch
    [FromUnix] computes for it and in no other. *)
Theorem epoch_membership Period t e e' elapsed till :
  0 < Period -> 0 <= t < 2 ^ 63 -> representable Period (t * second) ->
  FromUnix Period t = Ok (e, elapsed, till) -> 0 <= e' -> (e' + 1) * Period < 2 ^ 63 ->
  IsInEpoch Period e' t = true <-> e' = e.
Proof.
  intros HP Ht Hr Hf He' Hb.
  destruct (getEpoch_ok Period (t * second) HP Hr) as (e0 & el0 & till0 & H & H0 & H1 & H2 & H3 & H4).
  unfold FromUnix in Hf. rewrite H in Hf. injection Hf as -> -> ->.
  unfold IsInEpoch. rewrite (int64_small t) by lia. assert (e' + 1 < 2 ^ 64) by nia.
  rewrite (Z.mod_small (e' + 1)) by lia. rewrite !mulDuration_small by nia. unfold Add.
  rewrite H2. case_bool_decide as Heq; [split; [intros _; nia|done]|].
  rewrite andb_true_iff, !bool_decide_eq_true. split; [intros []; nia|intros ->; nia].
Qed.

Lemma epoch_decomposes_witness :
  exists e elapsed till, getEpoch defaultPeriod (1735689600 * second) = Ok (e, elapsed, till) /\
    1735689600 * second = Epoch + e * defaultPeriod + elapsed /\
    0 <= elapsed < defaultPeriod /\ elapsed + till = defaultPeriod.
Proof.
  apply (epoch_decomposes defaultPeriod (1735689600 * second)); [reflexivity|].
  split; vm_compute; [discriminate|reflexivity].
Defined.

Lemma epoch_membership_witness : IsInEpoch defaultPeriod 199512 1735689600 = true <-> 199512 = 199512.
Proof.
  apply (epoch_membership defaultPeriod 1735689600 199512 199512 0 defaultPeriod);
    try (vm_compute; done).
Defined.
