(* ===== verification/Consensus.v ===== *)
(** Transfer of the PKI document from a gateway to a client:
    [core/pki/chunking.go], [onGetConsensus2] of
    [server/internal/incoming/incoming_conn.go] and the [Consensus2] case of
    [onWireConn] in [client/connection.go].

    The gateway compresses the document, cuts it into chunks and sends one
    [Consensus2] command per chunk; the client feeds them to a [Dechunker].
    Compression is an interface; the wire encoding in between is that of
    [WireCommands]. *)

From S2P Require Import Prelude Schemes ToySchemes SphinxGeo PigeonGeo WireCommands WireProofs WireSpec.
From Stdlib Require Import ZArith Lia.
From stdpp Require Import prelude list strings.

(** ** [compress/gzip] *)

(** The writer's output, whether [NewReader] accepts a stream, and what
    [io.Copy] reads from it (its error is dropped by the caller). *)
Class Gzip := {
  gzip : bytes -> bytes;
  gzip_NewReader : bytes -> bool;
  gzip_read : bytes -> bytes;
}.

Class GzipLaws (G : Gzip) : Prop := {
  gzip_accepts b : gzip_NewReader (gzip b) = true;
  gzip_roundtrip b : gzip_read (gzip b) = b;
  gzip_not_empty b : 0 < length (gzip b);
}.

Section Consensus.

Context {G : Gzip} {Sg : Sign} {P : PigeonSizes}.

(** ** [core/pki/chunking.go] *)

(** The loop over [i]; [rem] counts the chunks still to cut. *)
Fixpoint chunkLoop (compressed : bytes) (chunkSize offset rem : nat) : outcome (list bytes) :=
  match rem with
  | O => Ok []
  | S rem =>
    chunk ← (if bool_decide (rem = 0) then slice_from compressed offset
             else slice compressed offset (offset + chunkSize));
    rest ← chunkLoop compressed chunkSize (offset + chunkSize) rem;
    Ok (chunk :: rest)
  end.

Definition Chunk (blob : bytes) (chunkSize : nat) : outcome (list bytes) :=
  let compressedRawDoc := gzip blob in
  let docSize := length compressedRawDoc in
  if bool_decide (chunkSize = 0) then Panic
  else
    let total := docSize / chunkSize in
    let size := chunkSize * total in
    let total := if bool_decide (size < docSize) then total + 1 else total in
    chunkLoop compressedRawDoc chunkSize 0 total.

Record Dechunker := mkDechunker {
  dc_ChunkNum : Z;
  dc_ChunkTotal : Z;
  Chunks : bytes;
  Output : bytes;
}.

Definition NewDechunker : Dechunker := mkDechunker 0 0 [] [].

Definition Consume (d : Dechunker) (payload : bytes) (num total : Z) : outcome Dechunker :=
  if bool_decide (dc_ChunkNum d <> 0%Z /\ total <> dc_ChunkTotal d) then
    Err "Receive invalid Consensus2.ChunkTotal"
  else
    let buf := Chunks d ++ payload in
    if bool_decide (num = dc_ChunkTotal d - 1)%Z then
      if gzip_NewReader buf then
        Ok (mkDechunker (dc_ChunkNum d) (dc_ChunkTotal d) [] (gzip_read buf))
      else Err "gzip: invalid header"
    else Ok (mkDechunker (dc_ChunkNum d) (dc_ChunkTotal d) buf (Output d)).

(** ** The gateway *)

Definition ConsensusOk : Z := 0.
Definition ConsensusNotFound : Z := 1.
Definition ConsensusGone : Z := 2.
Definition ErrNoDocument : string := "pki: requested epoch has no document".

(** The commands sent for chunk [i] and up. *)
Fixpoint chunkCommands (Cmds : option Commands) (i total : nat) (chunks : list bytes) : list Command :=
  match chunks with
  | [] => []
  | c :: chunks =>
    Consensus2 Cmds ConsensusOk (wrap 32 (Z.of_nat i)) (wrap 32 (Z.of_nat total)) c ::
    chunkCommands Cmds (i + 1) total chunks
  end.

(** [onGetConsensus2]: the commands sent for the outcome of [GetRawConsensus]. *)
Definition onGetConsensus2 (Cmds : option Commands) (rawDoc : outcome bytes) : outcome (list Command) :=
  match rawDoc with
  | Panic => Panic
  | Err e =>
    let errorCode := if bool_decide (e = ErrNoDocument) then ConsensusGone else ConsensusNotFound in
    Ok [Consensus2 Cmds errorCode 0 1 []]
  | Ok doc =>
    c ← deref Cmds;
    let chunkSize := MaxMessageLenServerToClient c in
    chunks ← Chunk doc chunkSize;
    Ok (chunkCommands Cmds 0 (length chunks) chunks)
  end.

(** ** The client *)

(** What the client does with a [Consensus2] command: wait for more, hand the
    error code and the document to the waiting caller, or close the connection. *)
Inductive reaction :=
  | Waiting
  | Replied (ErrorCode : Z) (Payload : bytes)
  | WireErr (e : string).

Record ClientState := mkClientState { consensusCtx : bool; dechunker : Dechunker }.

Definition onConsensus2 (st : ClientState) (ErrorCode ChunkNum ChunkTotal : Z) (Payload : bytes)
    : outcome (ClientState * reaction) :=
  if negb (consensusCtx st) then Ok (st, WireErr "received spurious Consensus")
  else if negb (Z.eqb ErrorCode ConsensusOk) then
    Ok (mkClientState false NewDechunker, Replied ErrorCode Payload)
  else
    let d := dechunker st in
    let d := if bool_decide (dc_ChunkNum d = 0%Z)
             then mkDechunker ChunkNum ChunkTotal (Chunks d) (Output d) else d in
    match Consume d Payload ChunkNum ChunkTotal with
    | Panic => Panic
    | Err e => Ok (mkClientState true d, WireErr "consensus dechunker error")
    | Ok d =>
      if bool_decide (ChunkNum = dc_ChunkTotal d - 1)%Z then
        if bool_decide (length (Output d) = 0) then
          Ok (mkClientState true d, WireErr "empty consensus response during shutdown")
        else Ok (mkClientState false NewDechunker, Replied ErrorCode (Output d))
      else Ok (mkClientState true d, Waiting)
    end.

(** A client that waits for a consensus reads frames until it reacts. *)
Fixpoint receive (c : Commands) (st : ClientState) (frames : list bytes)
    : outcome (ClientState * reaction * list bytes) :=
  match frames with
  | [] => Ok (st, Waiting, [])
  | b :: frames =>
    cmd ← FromBytes c b [];
    match cmd with
    | Consensus2 _ ec n t p =>
      '(st, r) ← onConsensus2 st ec n t p;
      match r with
      | Waiting => receive c st frames
      | _ => Ok (st, r, frames)
      end
    | _ => Ok (st, WireErr "received unknown command", frames)
    end
  end.

(** ** Chunks *)

(** Cutting [rem] chunks off what is left past [offset]: all but the last have
    the chunk size, the last at most that, and together they are the rest. *)
Lemma chunkLoop_ok b sz offset rem :
  0 < rem -> 0 < sz -> offset + (rem - 1) * sz < length b <= offset + rem * sz ->
  exists chunks, chunkLoop b sz offset rem = Ok chunks /\ length chunks = rem /\
    concat chunks = drop offset b /\ Forall (fun c => 0 < length c <= sz) chunks /\
    (1 < rem -> exists c rest, chunks = c :: rest /\ length c = sz).
Proof.
  revert offset. induction rem as [|rem IH]; intros offset H0 Hsz Hb; [lia|]. cbn [chunkLoop].
  case_bool_decide as Hr.
  - subst rem. rewrite slice_from_cut by lia. go. cbn [chunkLoop]. go. eexists. split; [reflexivity|].
    cbn [length concat]. rewrite app_nil_r. split_and!; try done; [|lia].
    repeat constructor; rewrite length_drop; lia.
  - rewrite slice_ok by nia. go.
    destruct (IH (offset + sz)) as (chunks & -> & Hl & Hc & Hf & _); [lia|done|nia|]. go.
    replace (offset + sz - offset) with sz by lia.
    assert (Hlen : length (take sz (drop offset b)) = sz) by (rewrite length_take, length_drop; nia).
    eexists. split; [reflexivity|]. cbn [length concat]. split_and!.
    + lia.
    + rewrite Hc, <- drop_drop. apply take_drop.
    + constructor; [lia|done].
    + intros _. by eexists _, _.
Qed.

Context {GL : GzipLaws G}.

Lemma Chunk_ok doc sz :
  0 < sz -> exists chunks, Chunk doc sz = Ok chunks /\ concat chunks = gzip doc /\
    0 < length chunks <= length (gzip doc) /\ Forall (fun c => 0 < length c <= sz) chunks /\
    (sz < length (gzip doc) -> exists c rest, chunks = c :: rest /\ length c = sz).
Proof.
  intros Hsz. pose proof (gzip_not_empty doc) as Hne. unfold Chunk.
  rewrite bool_decide_eq_false_2 by lia.
  pose proof (Nat.div_mod (length (gzip doc)) sz) as D.
  pose proof (Nat.mod_upper_bound (length (gzip doc)) sz) as B.
  set (q := length (gzip doc) / sz) in *. set (r := length (gzip doc) mod sz) in *.
  destruct (chunkLoop_ok (gzip doc) sz 0 (if bool_decide (sz * q < length (gzip doc)) then q + 1 else q))
    as (chunks & Hc & Hl & Hcat & Hf & H1); [case_bool_decide; nia|done|case_bool_decide; nia|].
  exists chunks. split_and!; try done; [case_bool_decide; nia|case_bool_decide; nia|].
  intros Hbig. apply H1. case_bool_decide; nia.
Qed.

(** ** Reassembly *)

(** A dechunker that has taken in [acc] of a transfer of [T] chunks. *)
Definition partial (d : Dechunker) (T : Z) (acc : bytes) : Prop :=
  Chunks d = acc /\ (dc_ChunkNum d = 0%Z \/ dc_ChunkTotal d = T).

(** The dechunker as the client hands it to [Consume]. *)
Lemma partial_started d T acc n :
  partial d T acc ->
  let d1 := if bool_decide (dc_ChunkNum d = 0%Z)
            then mkDechunker n T (Chunks d) (Output d) else d in
  dc_ChunkTotal d1 = T /\ Chunks d1 = acc.
Proof. intros [<- Hd]. cbv zeta. case_bool_decide; [done|]. by destruct Hd. Qed.

Lemma onConsensus2_more d T acc n p :
  partial d T acc -> n <> (T - 1)%Z ->
  exists d', onConsensus2 (mkClientState true d) ConsensusOk n T p = Ok (mkClientState true d', Waiting) /\
    partial d' T (acc ++ p).
Proof.
  intros Hd Hn. unfold onConsensus2. cbn [consensusCtx dechunker negb Z.eqb ConsensusOk]. cbv zeta.
  destruct (partial_started d T acc n Hd) as [HT HC].
  set (d1 := if bool_decide (dc_ChunkNum d = 0%Z) then _ else d) in *. clearbody d1.
  unfold Consume. rewrite HT, HC.
  rewrite (bool_decide_eq_false_2 (_ /\ _)) by (intros [_ Hx]; by apply Hx).
  rewrite bool_decide_eq_false_2 by done. cbn [dc_ChunkTotal]. rewrite bool_decide_eq_false_2 by done.
  eexists. split; [reflexivity|]. split; cbn; auto.
Qed.

Lemma onConsensus2_last d T acc p doc :
  partial d T acc -> acc ++ p = gzip doc -> doc <> [] ->
  onConsensus2 (mkClientState true d) ConsensusOk (T - 1) T p =
    Ok (mkClientState false NewDechunker, Replied ConsensusOk doc).
Proof.
  intros Hd Hp Hne. unfold onConsensus2. cbn [consensusCtx dechunker negb Z.eqb ConsensusOk]. cbv zeta.
  destruct (partial_started d T acc (T - 1)%Z Hd) as [HT HC].
  set (d1 := if bool_decide (dc_ChunkNum d = 0%Z) then _ else d) in *. clearbody d1.
  unfold Consume. rewrite HT, HC, Hp, gzip_accepts, gzip_roundtrip.
  rewrite (bool_decide_eq_false_2 (_ /\ _)) by (intros [_ Hx]; by apply Hx).
  rewrite bool_decide_eq_true_2 by done. cbn [dc_ChunkTotal Output].
  rewrite bool_decide_eq_true_2 by done. by rewrite bool_decide_eq_false_2 by (by destruct doc).
Qed.

(** A frame of a chunk command decodes to that command. *)
Lemma chunk_frame s c n t p :
  u32 n -> u32 t -> (Z.of_nat (MaxMessageLenServerToClient s + length p) < 2 ^ 31)%Z ->
  exists b, ToBytes (Consensus2 (Some s) ConsensusOk n t p) = Ok b /\
    FromBytes c b [] = Ok (Consensus2 None ConsensusOk n t p) /\
    length b = Nat.max (MaxMessageLenServerToClient s) (15 + length p).
Proof.
  intros Hn Ht Hl.
  destruct (Consensus2_framed c (Some s) ConsensusOk n t p) as (b & id & body & Hb & Hf & Ho); [done..|].
  assert (Hlen : length b = Nat.max (MaxMessageLenServerToClient s) (15 + length p)).
  { cbn [ToBytes] in Hb. unfold Consensus2_ToBytes in Hb. rewrite padToMaxCommandSize_eq in Hb.
    match type of Hb with Ok ?x = Ok ?y => assert (x = y) as <- by congruence end.
    unfold padAmount.
    rewrite !length_app, length_zeros, length_cmdHeader, !length_PutUint32. cbn [length]. lia. }
  exists b. split_and!; [done| |done].
  destruct (FromBytes_frame c b id body [] Hf) as [tail ->]; [lia|]. apply Ho.
Qed.

Lemma receive_chunks s c doc d T i chunks acc :
  (Z.of_nat (MaxMessageLenServerToClient s + length (gzip doc)) < 2 ^ 31)%Z -> doc <> [] ->
  T = i + length chunks -> Forall (fun c => 0 < length c) chunks -> length (gzip doc) >= T ->
  partial d (Z.of_nat T) acc -> acc ++ concat chunks = gzip doc -> 0 < length chunks ->
  exists frames, mapM ToBytes (chunkCommands (Some s) i T chunks) = Ok frames /\
    receive c (mkClientState true d) frames =
      Ok (mkClientState false NewDechunker, Replied ConsensusOk doc, []).
Proof.
  intros Hsz Hne HT Hf HTl Hd Hacc H0. revert i d acc HT Hf Hd Hacc H0.
  induction chunks as [|p chunks IH]; intros i d acc HT Hf Hd Hacc H0; [cbn in H0; lia|].
  cbn [length concat] in *. apply Forall_cons_1 in Hf as [Hp Hf].
  assert (Hpl : length p <= length (gzip doc)) by (rewrite <- Hacc, !length_app; lia).
  assert (Hw : forall k, k <= T -> wrap 32 (Z.of_nat k) = Z.of_nat k)
    by (intros; unfold wrap; apply Z.mod_small; lia).
  cbn [chunkCommands]. rewrite !Hw by lia.
  destruct (chunk_frame s c (Z.of_nat i) (Z.of_nat T) p) as (b & Hb & Hfb & _);
    [unfold u32; lia|unfold u32; lia|lia|].
  destruct chunks as [|p' chunks].
  - cbn [concat] in *. rewrite app_nil_r in Hacc.
    exists [b]. split; [cbn [chunkCommands mapM]; by rewrite Hb|]. cbn [receive]. rewrite Hfb. go.
    replace (Z.of_nat i) with (Z.of_nat T - 1)%Z by (cbn in HT; lia).
    by rewrite (onConsensus2_last d (Z.of_nat T) acc p doc).
  - destruct (onConsensus2_more d (Z.of_nat T) acc (Z.of_nat i) p) as (d' & Hr & Hd');
      [done|cbn in HT; lia|].
    destruct (IH (i + 1) d' (acc ++ p)) as (frames & Hm & Hrec);
      [cbn in *; lia|done|done|by rewrite <- app_assoc|cbn; lia|].
    exists (b :: frames). split; [cbn [mapM]; rewrite Hb; go; by rewrite Hm|].
    cbn [receive]. rewrite Hfb. go. rewrite Hr. go. done.
Qed.

End Consensus.

(** C22: a document the gateway has reaches the client: the chunk commands
    serialize, the client's session decodes every frame, waits until the last,
    then replies with exactly the document, ready for the next request. *)
Theorem consensus_delivered {G : Gzip} {GL : GzipLaws G} {Sg : Sign} {P : PigeonSizes}
    (s c : Commands) doc :
  0 < MaxMessageLenServerToClient s -> doc <> [] ->
  (Z.of_nat (MaxMessageLenServerToClient s + length (gzip doc)) < 2 ^ 31)%Z ->
  exists cmds frames, onGetConsensus2 (Some s) (Ok doc) = Ok cmds /\
    mapM ToBytes cmds = Ok frames /\
    receive c (mkClientState true NewDechunker) frames =
      Ok (mkClientState false NewDechunker, Replied ConsensusOk doc, []).
Proof.
  intros Hs Hne Hsz. destruct (Chunk_ok doc _ Hs) as (chunks & Hc & Hcat & Hl & Hf & _).
  destruct (receive_chunks s c doc NewDechunker (length chunks) 0 chunks []) as (frames & Hm & Hr);
    try done; [|lia|by split; [|left]|lia|].
  - eapply Forall_impl; [exact Hf|]. cbn. lia.
  - exists (chunkCommands (Some s) 0 (length chunks) chunks), frames. split_and!; try done.
    cbn [onGetConsensus2 deref]. go. by rewrite Hc.
Qed.

(** The gateway cuts chunks of the size of a whole command, so a chunk
    command of a document that needs more than one chunk is 15 bytes longer
    than the length every other command of its direction is padded to. *)
Theorem consensus_chunk_oversized {G : Gzip} {GL : GzipLaws G} {Sg : Sign} {P : PigeonSizes}
    (s : Commands) doc :
  0 < MaxMessageLenServerToClient s < length (gzip doc) ->
  (Z.of_nat (MaxMessageLenServerToClient s + length (gzip doc)) < 2 ^ 31)%Z ->
  exists cmd cmds b, onGetConsensus2 (Some s) (Ok doc) = Ok (cmd :: cmds) /\
    ToBytes cmd = Ok b /\ length b = MaxMessageLenServerToClient s + 15.
Proof.
  intros Hs Hsz. destruct (Chunk_ok doc (MaxMessageLenServerToClient s))
    as (chunks & Hc & Hcat & Hl & Hf & Hbig); [lia|].
  destruct Hbig as (p & rest & -> & Hp); [lia|].
  destruct (chunk_frame s s (wrap 32 0) (wrap 32 (Z.of_nat (length (p :: rest)))) p)
    as (b & Hb & _ & Hlen); [by unfold u32, wrap; apply Z.mod_pos_bound..|lia|].
  eexists _, _, b. split; [|split; [exact Hb|lia]].
  cbn [onGetConsensus2 deref]. go. by rewrite Hc.
Qed.

(** ** A concrete transfer *)

(** A compression that only adds a one-byte magic number. *)
#[export] Instance toyGzip : Gzip := {|
  gzip b := 31%Z :: b;
  gzip_NewReader b := match b with z :: _ => Z.eqb z 31 | [] => false end;
  gzip_read b := drop 1 b;
|}.

#[export] Instance toyGzipLaws : GzipLaws toyGzip.
Proof. split; intros b; cbn; [done|done|lia]. Qed.

Definition smallSession : Commands := mkCommands None false None 20 20 true.

Lemma consensus_delivered_witness :
  exists cmds frames, onGetConsensus2 (Some smallSession) (Ok (replicate 50 7%Z)) = Ok cmds /\
    mapM ToBytes cmds = Ok frames /\
    receive smallSession (mkClientState true NewDechunker) frames =
      Ok (mkClientState false NewDechunker, Replied ConsensusOk (replicate 50 7%Z), []).
Proof.
  apply (consensus_delivered smallSession smallSession (replicate 50 7%Z));
    [cbn; lia|done|vm_compute; reflexivity].
Defined.

Lemma consensus_chunk_oversized_witness :
  exists cmd cmds b, onGetConsensus2 (Some smallSession) (Ok (replicate 50 7%Z)) = Ok (cmd :: cmds) /\
    ToBytes cmd = Ok b /\ length b = 35.
Proof.
  apply (consensus_chunk_oversized smallSession (replicate 50 7%Z)); [cbn; lia|vm_compute; reflexivity].
Defined.
