(* ===== verification/ByteOrder.v ===== *)
(** Sorting by a byte string: Go's comparison of strings, and [sort.Slice] by a
    key of the elements.  [sort.Slice] promises a sorted permutation and no order
    among equal keys; with distinct keys its result does not depend on the order
    of its input. *)

From S2P Require Import Prelude.
From Stdlib Require Import ZArith Lia.
From stdpp Require Import prelude list sorting.

Local Open Scope Z_scope.

(** [a <= b] on strings. *)
Fixpoint bytes_le (a b : bytes) : bool :=
  match a, b with
  | [], _ => true
  | _ :: _, [] => false
  | x :: a, y :: b => if Z.eqb x y then bytes_le a b else Z.ltb x y
  end.

Lemma bytes_le_total a b : bytes_le a b = true \/ bytes_le b a = true.
Proof.
  revert b. induction a as [|x a IH]; intros [|y b]; cbn; auto.
  destruct (Z.eqb_spec x y) as [->|]; [rewrite Z.eqb_refl; apply IH|].
  destruct (Z.eqb_spec y x); [lia|]. rewrite !Z.ltb_lt. lia.
Qed.

Lemma bytes_le_trans a b c : bytes_le a b = true -> bytes_le b c = true -> bytes_le a c = true.
Proof.
  revert b c. induction a as [|x a IH]; intros [|y b] [|z c]; cbn; try done.
  destruct (Z.eqb_spec x y) as [->|].
  - destruct (Z.eqb_spec y z); [by apply IH|done].
  - rewrite Z.ltb_lt. intros ?. destruct (Z.eqb_spec y z) as [->|].
    + intros _. destruct (Z.eqb_spec x z); [lia|]. by apply Z.ltb_lt.
    + rewrite Z.ltb_lt. intros ?. destruct (Z.eqb_spec x z); [lia|]. apply Z.ltb_lt. lia.
Qed.

Lemma bytes_le_antisymm a b : bytes_le a b = true -> bytes_le b a = true -> a = b.
Proof.
  revert b. induction a as [|x a IH]; intros [|y b]; cbn; try done.
  destruct (Z.eqb_spec x y) as [->|]; [rewrite Z.eqb_refl; intros; f_equal; auto|].
  destruct (Z.eqb_spec y x); [lia|]. rewrite !Z.ltb_lt. lia.
Qed.

Section SortBy.

Context {A : Type} (key : A -> bytes).

Definition key_le (x y : A) : Prop := bytes_le (key x) (key y) = true.

#[local] Instance key_le_dec : RelDecision key_le.
Proof. intros x y. unfold key_le. apply _. Defined.

#[local] Instance key_le_total : Total key_le.
Proof. intros x y. apply bytes_le_total. Qed.

#[local] Instance key_le_trans : Transitive key_le.
Proof. intros x y z. apply bytes_le_trans. Qed.

(** [sort.Slice(l, func(i, j) bool { return key(l[i]) < key(l[j]) })]. *)
Definition sortBy (l : list A) : list A := merge_sort key_le l.

Lemma sortBy_perm l : sortBy l ≡ₚ l.
Proof. apply merge_sort_Permutation. Qed.

(** Elements with the same key are the same element. *)
Definition keyed (l : list A) : Prop := forall x y, x ∈ l -> y ∈ l -> key x = key y -> x = y.

Lemma sortBy_unique l1 l2 : l1 ≡ₚ l2 -> keyed l1 -> sortBy l1 = sortBy l2.
Proof.
  intros Hp Hk. apply (StronglySorted_unique_strong key_le).
  - intros x y Hx Hy Hxy Hyx. rewrite sortBy_perm in Hx, Hy. rewrite <- Hp in Hy.
    apply Hk; [done..|]. by apply bytes_le_antisymm.
  - apply (StronglySorted_merge_sort key_le).
  - apply (StronglySorted_merge_sort key_le).
  - by rewrite !sortBy_perm.
Qed.

Lemma sortBy_sorted l : StronglySorted key_le (sortBy l).
Proof. apply (StronglySorted_merge_sort key_le). Qed.

Lemma nodup_keyed l : NoDup (map key l) -> keyed l.
Proof.
  intros Hn x y Hx Hy He. apply list_elem_of_lookup in Hx as [i Hi], Hy as [j Hj].
  assert (i = j) as ->; [|by simplify_eq]. eapply NoDup_lookup; [exact Hn| |].
  - change (map ?f ?l) with (f <$> l). by rewrite list_lookup_fmap, Hi.
  - change (map ?f ?l) with (f <$> l). rewrite list_lookup_fmap, Hj. cbn. by rewrite He.
Qed.

End SortBy.
