(* ===== verification/Cert.v ===== *)
(** Certificates: [core/cert/cert.go].

    A certificate carries data and the signatures of any number of signers.  The
    signature scheme and the CBOR codec are third-party code, hence classes with
    the laws the callers rely on.  Go ranges over a map in any order: [MapOrder]
    gives the order, and theorems hold for all.  A nil map of signatures is the
    empty one, [sanityCheck] allocates it before anything is written.  [now] is
    the current epoch the clock gives. *)

From S2P Require Import Prelude.
From Stdlib Require Import ZArith Lia.
From stdpp Require Import prelude list strings gmap.

Local Open Scope Z_scope.

(** ** Interfaces *)

(** hpqc [sign.Scheme], with [hash.Sum256From] of a key. *)
Class SignScheme := {
  sg_PublicKey : Type;
  sg_PrivateKey : Type;
  sg_Name : string;
  sg_Public : sg_PrivateKey -> sg_PublicKey;
  sg_Sign : sg_PrivateKey -> bytes -> bytes;
  sg_Verify : sg_PublicKey -> bytes -> bytes -> bool;
  Sum256From : sg_PublicKey -> bytes;
}.

Class SignSchemeLaws (S : SignScheme) : Prop := {
  sg_correct k m : sg_Verify (sg_Public k) m (sg_Sign k m) = true;
  sg_bytes k m : Forall is_byte (sg_Sign k m);
  Sum256From_bytes k : Forall is_byte (Sum256From k);
}.

(** A serialization of the values of a type: [ccbor.Marshal] and
    [cbor.Unmarshal], or [encoding/gob]; [None] is an error. *)
Class Codec (A : Type) := {
  codec_Marshal : A -> option bytes;
  codec_Unmarshal : bytes -> option A;
}.

Class CodecLaws (A : Type) (C : Codec A) (valid : A -> Prop) : Prop := {
  codec_roundtrip a : valid a -> exists b, codec_Marshal a = Some b /\ codec_Unmarshal b = Some a;
}.

(** The order in which [range] visits a map. *)
Class MapOrder := { entries : forall {V}, gmap bytes V -> list (bytes * V) }.

Class MapOrderLaws (O : MapOrder) : Prop := {
  entries_perm {V} (m : gmap bytes V) : entries m ≡ₚ map_to_list m;
}.

(** ** Data *)

Definition CertVersion : Z := 0.

Definition ErrImpossibleDecode : string := "impossible to decode".
Definition ErrImpossibleEncode : string := "impossible to encode".
Definition ErrBadSignature : string := "signature does not sign certificate".
Definition ErrDuplicateSignature : string := "signature must not be duplicate".
Definition ErrInvalidCertified : string := "invalid certified field of certificate".
Definition ErrKeyTypeMismatch : string := "certificate key type mismatch".
Definition ErrInvalidKeyType : string := "invalid certificate key type".
Definition ErrVersionMismatch : string := "certificate version mismatch".
Definition ErrCertificateExpired : string := "certificate expired".
Definition ErrIdentitySignatureNotFound : string := "failure to find signature associated with the given identity".
Definition ErrInvalidThreshold : string := "threshold must be equal or less than the number of verifiers".
Definition ErrThresholdNotMet : string := "threshold failure".

Record Signature := mkSignature { PublicKeySum256 : bytes; sig_Payload : bytes }.

Record Certificate := mkCertificate {
  Version : Z;
  Expiration : Z;
  KeyType : string;
  Certified : bytes;
  cert_Signatures : gmap bytes Signature;
}.

(** A CBOR text string has to be UTF-8; ASCII is. *)
Definition plainText (s : string) : Prop := Forall (fun b => b < 128) (string_bytes s).

(** The certificates CBOR is known to return as they were: those with fields in
    the range of their types and a key type in ASCII. *)
Definition plainCert (c : Certificate) : Prop :=
  plainText (KeyType c) /\ 0 <= Version c < 2 ^ 32 /\ 0 <= Expiration c < 2 ^ 64 /\ Forall is_byte (Certified c) /\
  map_Forall (fun h s => Forall is_byte h /\ Forall is_byte (PublicKeySum256 s) /\ Forall is_byte (sig_Payload s)) (cert_Signatures c).

(** What a caller signs: bytes, until an epoch to come. *)
Definition signable (now : Z) (data : bytes) (expiration : Z) : Prop :=
  0 <= now < expiration /\ expiration < 2 ^ 64 /\ data <> [] /\ Forall is_byte data.

(** [binary.Write(message, binary.LittleEndian, v)]. *)
Definition le_split (n : nat) (v : Z) : bytes := reverse (be_split n v).

Definition message (c : Certificate) : bytes :=
  le_split 4 (Version c) ++ le_split 8 (Expiration c) ++ string_bytes (KeyType c) ++ Certified c.

Section Cert.

Context {S : SignScheme} {C : Codec Certificate} {O : MapOrder} (now : Z).

Definition sanityCheck (c : Certificate) : outcome () :=
  if negb (Z.eqb (Version c) CertVersion) then Err ErrVersionMismatch
  else if bool_decide (Expiration c <= now) then Err ErrCertificateExpired
  else if bool_decide (KeyType c = ""%string) then Err ErrInvalidKeyType
  else if bool_decide (Certified c = []) then Err ErrInvalidCertified
  else Ok ().

(** Decode and check, with the error a failed decoding is reported as. *)
Definition decodeCert (onErr : string) (rawCert : bytes) : outcome Certificate :=
  match codec_Unmarshal rawCert with
  | None => Err onErr
  | Some c => _ ← sanityCheck c; Ok c
  end.

(** [cert.Marshal], and what [SignMulti] and [AddSignature] make of its error. *)
Definition cert_Marshal (c : Certificate) : outcome bytes :=
  match codec_Marshal c with
  | None => Err "cbor: cannot encode"
  | Some b => Ok b
  end.

Definition encodeCert (c : Certificate) : outcome bytes :=
  match cert_Marshal c with
  | Err _ => Err ErrImpossibleEncode
  | r => r
  end.

Definition signature (signer : sg_PrivateKey) (verifier : sg_PublicKey) (c : Certificate) : Signature :=
  mkSignature (Sum256From verifier) (sg_Sign signer (message c)).

Definition withSignatures (c : Certificate) (sigs : gmap bytes Signature) : Certificate :=
  mkCertificate (Version c) (Expiration c) (KeyType c) (Certified c) sigs.

Definition cert_Sign (signer : sg_PrivateKey) (verifier : sg_PublicKey) (data : bytes) (expiration : Z)
    : outcome bytes :=
  let cert := mkCertificate CertVersion expiration sg_Name data ∅ in
  _ ← sanityCheck cert;
  cert_Marshal (withSignatures cert {[ Sum256From verifier := signature signer verifier cert ]}).

Definition GetCertified (rawCert : bytes) : outcome bytes :=
  cert ← decodeCert ErrImpossibleDecode rawCert; Ok (Certified cert).

Definition sigsOf (c : Certificate) : list Signature := map snd (entries (cert_Signatures c)).

Definition GetSignatures (rawCert : bytes) : outcome (list Signature) :=
  cert ← decodeCert ErrImpossibleDecode rawCert; Ok (sigsOf cert).

Definition byKeyHash (identity : bytes) (s : Signature) : bool := bool_decide (identity = PublicKeySum256 s).

Definition GetSignature (identity rawCert : bytes) : outcome Signature :=
  cert ← decodeCert ErrImpossibleDecode rawCert;
  match List.find (byKeyHash identity) (sigsOf cert) with
  | Some s => Ok s
  | None => Err ErrIdentitySignatureNotFound
  end.

Definition SignMulti (signer : sg_PrivateKey) (verifier : sg_PublicKey) (rawCert : bytes) : outcome bytes :=
  cert ← decodeCert ErrImpossibleDecode rawCert;
  if negb (bool_decide (sg_Name = KeyType cert)) then Err ErrKeyTypeMismatch
  else encodeCert (withSignatures cert (<[Sum256From verifier := signature signer verifier cert]> (cert_Signatures cert))).

Definition cert_AddSignature (verifier : sg_PublicKey) (sig : Signature) (rawCert : bytes) : outcome bytes :=
  cert ← decodeCert ErrImpossibleDecode rawCert;
  if existsb (byKeyHash (PublicKeySum256 sig)) (sigsOf cert) then Err ErrDuplicateSignature
  else if sg_Verify verifier (message cert) (sig_Payload sig)
  then encodeCert (withSignatures cert (<[PublicKeySum256 sig := sig]> (cert_Signatures cert)))
  else Err ErrBadSignature.

Definition cert_Verify (verifier : sg_PublicKey) (rawCert : bytes) : outcome bytes :=
  cert ← decodeCert ErrImpossibleEncode rawCert;
  match List.find (byKeyHash (Sum256From verifier)) (sigsOf cert) with
  | Some sig => if sg_Verify verifier (message cert) (sig_Payload sig) then Ok (Certified cert) else Err ErrBadSignature
  | None => Err ErrIdentitySignatureNotFound
  end.

Fixpoint verifyLoop (verifiers : list sg_PublicKey) (certified rawCert : bytes) : outcome bytes :=
  match verifiers with
  | [] => Ok certified
  | verifier :: verifiers => certified ← cert_Verify verifier rawCert; verifyLoop verifiers certified rawCert
  end.

Definition VerifyAll (verifiers : list sg_PublicKey) (rawCert : bytes) : outcome bytes :=
  verifyLoop verifiers [] rawCert.

(** The loop of [VerifyThreshold]: the data, the good and the bad verifiers. *)
Fixpoint thresholdLoop (verifiers : list sg_PublicKey) (rawCert certified : bytes)
    (good : gmap bytes sg_PublicKey) (bad : list sg_PublicKey)
    : outcome (bytes * gmap bytes sg_PublicKey * list sg_PublicKey) :=
  match verifiers with
  | [] => Ok (certified, good, bad)
  | verifier :: verifiers =>
    match cert_Verify verifier rawCert with
    | Panic => Panic
    | Err _ => thresholdLoop verifiers rawCert certified good (bad ++ [verifier])
    | Ok c => thresholdLoop verifiers rawCert c (<[Sum256From verifier := verifier]> good) bad
    end
  end.

(** The data, the good and the bad verifiers, and the error. *)
Definition VerifyThreshold (verifiers : list sg_PublicKey) (threshold : Z) (rawCert : bytes)
    : outcome (bytes * list sg_PublicKey * list sg_PublicKey * option string) :=
  if bool_decide (Z.of_nat (length verifiers) < threshold) then Ok ([], [], [], Some ErrInvalidThreshold)
  else
    '(certified, good, bad) ← thresholdLoop verifiers rawCert [] ∅ [];
    let good_out := map snd (entries good) in
    if bool_decide (threshold <= Z.of_nat (size good)) then Ok (certified, good_out, bad, None)
    else Ok ([], good_out, bad, Some ErrThresholdNotMet).

End Cert.

(** ** Correctness *)

Section CertProofs.

Context {S : SignScheme} {SL : SignSchemeLaws S} {C : Codec Certificate} {CL : CodecLaws Certificate C plainCert}.
Context {O : MapOrder} {OL : MapOrderLaws O} (now : Z).

Lemma decodeCert_ok onErr raw c :
  decodeCert now onErr raw = Ok c <->
  codec_Unmarshal raw = Some c /\ Version c = CertVersion /\ now < Expiration c /\ KeyType c <> ""%string /\ Certified c <> [].
Proof.
  unfold decodeCert, sanityCheck. split.
  - destruct (codec_Unmarshal raw) as [c'|]; [|done].
    destruct (Z.eqb_spec (Version c') CertVersion); cbn [negb]; [|done].
    repeat (case_bool_decide; [done|]). go. intros [= ->]. split_and!; (done || lia).
  - intros (-> & -> & ? & ? & ?). cbn [Z.eqb CertVersion negb].
    rewrite !bool_decide_eq_false_2 by (done || lia). by go.
Qed.

Lemma decodeCert_total onErr raw : decodeCert now onErr raw <> Panic.
Proof.
  unfold decodeCert, sanityCheck. destruct (codec_Unmarshal raw) as [c|]; [|done].
  destruct (negb _); [done|]. by repeat (case_bool_decide; [done|]).
Qed.

Lemma sigsOf_elem c sig : sig ∈ sigsOf c <-> exists k, cert_Signatures c !! k = Some sig.
Proof.
  unfold sigsOf. change (map snd ?l) with (snd <$> l). rewrite list_elem_of_fmap. split.
  - intros ([k v] & -> & H). exists k. rewrite entries_perm in H. by apply elem_of_map_to_list.
  - intros [k H]. exists (k, sig). split; [done|]. rewrite entries_perm. by apply elem_of_map_to_list.
Qed.

(** What a successful [Verify] means. *)
Definition signedBy (v : sg_PublicKey) (raw data : bytes) : Prop :=
  exists c k sig, codec_Unmarshal raw = Some c /\ now < Expiration c /\ Certified c = data /\
    cert_Signatures c !! k = Some sig /\ PublicKeySum256 sig = Sum256From v /\
    sg_Verify v (message c) (sig_Payload sig) = true.

Lemma Verify_signed v raw data : cert_Verify now v raw = Ok data -> signedBy v raw data.
Proof.
  unfold cert_Verify. intros H. go_inv H. rename v0 into c. apply decodeCert_ok in E as (Hc & _ & He & _).
  destruct (List.find _ _) as [sig|] eqn:Hf; [|done]. apply find_some in Hf as [Hin Hk].
  apply list_elem_of_In, sigsOf_elem in Hin as [k Hin]. apply bool_decide_eq_true in Hk.
  destruct (sg_Verify _ _ _) eqn:Hv; [|done]. injection H as <-. by exists c, k, sig.
Qed.

Lemma Verify_total v raw : cert_Verify now v raw <> Panic.
Proof.
  unfold cert_Verify. pose proof (decodeCert_total ErrImpossibleEncode raw).
  destruct (decodeCert now _ raw) as [c| |]; try done. cbn. destruct (List.find _ _); [|done]. by destruct (sg_Verify _ _ _).
Qed.

Lemma Verify_single v raw c sig :
  codec_Unmarshal raw = Some (withSignatures c {[ Sum256From v := sig ]}) ->
  Version c = CertVersion -> now < Expiration c -> KeyType c <> ""%string -> Certified c <> [] ->
  PublicKeySum256 sig = Sum256From v -> sg_Verify v (message c) (sig_Payload sig) = true ->
  cert_Verify now v raw = Ok (Certified c).
Proof.
  intros Hu ? ? ? ? Hk Hv. unfold cert_Verify. set (c' := withSignatures c _) in *.
  rewrite (proj2 (decodeCert_ok ErrImpossibleEncode raw c')) by done. go.
  assert (Hl : sigsOf c' = [sig]).
  { unfold sigsOf. pose proof (entries_perm (cert_Signatures c')) as Hp. cbn in Hp |- *.
    rewrite map_to_list_singleton in Hp. apply Permutation_singleton_r in Hp. by rewrite Hp. }
  rewrite Hl. cbn [List.find]. unfold byKeyHash. rewrite Hk, bool_decide_eq_true_2 by done.
  change (message c') with (message c). by rewrite Hv.
Qed.

Lemma string_bytes_app s t : string_bytes (s +:+ t) = string_bytes s ++ string_bytes t.
Proof.
  induction s as [|a s IH]; [done|].
  exact (f_equal (cons (Z.of_N (Ascii.N_of_ascii a))) IH).
Qed.

Lemma plainText_app s t : plainText (s +:+ t) <-> plainText s /\ plainText t.
Proof. unfold plainText. by rewrite string_bytes_app, Forall_app. Qed.

Lemma plainCert_single k kt m data expiration :
  signable now data expiration -> plainText kt ->
  plainCert (mkCertificate CertVersion expiration kt data {[ Sum256From (sg_Public k) := mkSignature (Sum256From (sg_Public k)) (sg_Sign k m) ]}).
Proof.
  intros (He & Hlt & Hd & Hb) Hp. split_and!; cbn; try (done || (cbn; lia)).
  apply map_Forall_singleton. split_and!; cbn; (apply Sum256From_bytes || apply sg_bytes).
Qed.

(** A signed certificate as its signer built it. *)
Lemma Sign_ok k data expiration :
  signable now data expiration -> sg_Name <> ""%string -> plainText sg_Name ->
  let c := mkCertificate CertVersion expiration sg_Name data ∅ in
  exists raw, cert_Sign now k (sg_Public k) data expiration = Ok raw /\
    codec_Unmarshal raw = Some (withSignatures c {[ Sum256From (sg_Public k) := signature k (sg_Public k) c ]}).
Proof.
  intros Hs Hn Hp c.
  destruct (codec_roundtrip (withSignatures c {[ Sum256From (sg_Public k) := signature k (sg_Public k) c ]}))
    as (b & Hm & Hu); [by apply plainCert_single|]. destruct Hs as (He & _ & Hd & _). exists b. split; [|done]. unfold cert_Sign, sanityCheck, cert_Marshal, c in *.
  cbn [Version Expiration KeyType Certified Z.eqb CertVersion negb].
  rewrite !bool_decide_eq_false_2 by (done || lia). go. by rewrite Hm.
Qed.

Lemma Sign_Verify k data expiration :
  signable now data expiration -> sg_Name <> ""%string -> plainText sg_Name ->
  exists raw, cert_Sign now k (sg_Public k) data expiration = Ok raw /\ cert_Verify now (sg_Public k) raw = Ok data.
Proof.
  intros (He & Hr) Hn Hp. destruct (Sign_ok k data expiration) as (raw & Hs & Hu); [done..|]. exists raw. split; [done|].
  apply (Verify_single _ raw _ _ Hu); try (done || (cbn; lia) || apply sg_correct). apply Hr.
Qed.

(** The good verifiers after the loop are those that verify, by key hash, and
    the bad ones the others. *)
Definition verifies (raw : bytes) (v : sg_PublicKey) : bool :=
  match cert_Verify now v raw with Ok _ => true | _ => false end.

Lemma thresholdLoop_ok vs raw data good bad :
  exists data' good', thresholdLoop now vs raw data good bad =
      Ok (data', good', bad ++ List.filter (fun v => negb (verifies raw v)) vs) /\
    dom good' = dom good ∪ list_to_set (map Sum256From (List.filter (verifies raw) vs)) /\
    (forall h v, good' !! h = Some v -> good !! h = Some v \/ (v ∈ vs /\ h = Sum256From v /\ verifies raw v = true)) /\
    ((data' = data /\ good' = good) \/ exists v, cert_Verify now v raw = Ok data').
Proof.
  revert data good bad. induction vs as [|v vs IH]; intros data good bad; cbn [thresholdLoop List.filter].
  - exists data, good. rewrite app_nil_r. cbn. split_and!; [done|by rewrite union_empty_r_L|by auto|by auto].
  - pose proof (Verify_total v raw). destruct (cert_Verify now v raw) as [c| |] eqn:E; [| |done];
      [assert (Hv : verifies raw v = true)|assert (Hv : verifies raw v = false)];
      try (by unfold verifies; rewrite E); rewrite Hv; cbn [negb].
    + destruct (IH c (<[Sum256From v := v]> good) bad) as (d' & g' & -> & Hd & Hg & Hc). exists d', g'. split_and!; [done| | |].
      * rewrite Hd, dom_insert_L. cbn [map list_to_set]. clear. set_solver.
      * intros h w Hw. destruct (Hg h w Hw) as [Hi|(? & ? & ?)].
        -- apply lookup_insert_Some in Hi as [[<- <-]|[_ Hi]]; [|by auto]. right. split_and!; [by left|done|done].
        -- right. split_and!; [by right|done|done].
      * right. destruct Hc as [[-> _] | Hc]; eauto.
    + destruct (IH data good (bad ++ [v])) as (d' & g' & -> & Hd & Hg & Hc). exists d', g'. rewrite <- app_assoc.
      split_and!; [done|done| |done]. intros h w Hw. destruct (Hg h w Hw) as [Hi|(? & ? & ?)]; [by auto|].
      right. split_and!; [by right|done|done].
Qed.

Lemma Verify_same v w raw d d' : cert_Verify now v raw = Ok d -> cert_Verify now w raw = Ok d' -> d = d'.
Proof. intros (c & ? & ? & Hc & _ & <- & _)%Verify_signed (c' & ? & ? & Hc' & _ & <- & _)%Verify_signed. congruence. Qed.

(** The hashes of the keys whose signature verifies. *)
Definition signers (vs : list sg_PublicKey) (raw : bytes) : gset bytes :=
  list_to_set (map Sum256From (List.filter (verifies raw) vs)).

Lemma VerifyThreshold_ok vs threshold raw :
  exists data good bad err, VerifyThreshold now vs threshold raw = Ok (data, good, bad, err) /\
    (err = None <-> threshold <= Z.of_nat (length vs) /\ threshold <= Z.of_nat (size (signers vs raw))) /\
    (err = None -> length good = size (signers vs raw) /\ NoDup (map Sum256From good) /\
       Forall (fun v => v ∈ vs /\ signedBy v raw data) good).
Proof.
  unfold VerifyThreshold. case_bool_decide as Hlen.
  { do 4 eexists. split; [reflexivity|]. split; [split; [done|lia]|done]. }
  destruct (thresholdLoop_ok vs raw [] ∅ []) as (data & good & -> & Hd & Hg & Hdata). go.
  assert (Hsize : size (signers vs raw) = size good).
  { rewrite <- size_dom, Hd. unfold signers. by rewrite dom_empty_L, union_empty_l_L. }
  case_bool_decide as Ht; do 4 eexists; (split; [reflexivity|]); (split; [split; [done || intros _; lia|intros [_ ?]; lia || done]|]); [|done].
  intros _. rewrite Hsize. split_and!.
  - by rewrite length_map, entries_perm, length_map_to_list.
  - rewrite map_map. rewrite (Permutation_map _ (entries_perm good)).
    assert (Hk : map (fun x => Sum256From x.2) (map_to_list good) = (map_to_list good).*1).
    { apply map_ext_in. intros [h v] Hin%list_elem_of_In. apply elem_of_map_to_list in Hin. cbn.
      by destruct (Hg h v Hin) as [H|(_ & -> & _)]; [rewrite lookup_empty in H|]. }
    rewrite Hk. apply NoDup_fst_map_to_list.
  - apply Forall_forall. intros v Hv. change (map snd ?l) with (snd <$> l) in Hv.
    apply list_elem_of_fmap in Hv as ([h w] & -> & Hin). rewrite entries_perm in Hin. apply elem_of_map_to_list in Hin.
    destruct (Hg h w Hin) as [H|(Hin' & _ & Hver)]; [by rewrite lookup_empty in H|]. split; [done|]. cbn.
    unfold verifies in Hver. destruct (cert_Verify now w raw) as [d| |] eqn:E; try done.
    apply Verify_signed. rewrite E. f_equal. destruct Hdata as [[_ ->]|[u Hu]]; [done|]. by eapply Verify_same.
Qed.

End CertProofs.

(** Threshold verification counts signers.  [VerifyThreshold] never panics; it
    succeeds exactly when the threshold does not exceed the number of verifiers
    and of key hashes among them whose signature verifies, and then the good
    verifiers are distinct, at least as many as the threshold, and each has
    signed the data that is returned, in a certificate that has not expired. *)
Theorem threshold_signatures {S : SignScheme} {C : Codec Certificate} {O : MapOrder} {OL : MapOrderLaws O} (now threshold : Z)
    (vs : list sg_PublicKey) (raw : bytes) :
  exists data good bad err, VerifyThreshold now vs threshold raw = Ok (data, good, bad, err) /\
    (err = None <-> threshold <= Z.of_nat (length vs) /\ threshold <= Z.of_nat (size (signers now vs raw))) /\
    (err = None -> threshold <= Z.of_nat (length good) /\ NoDup (map Sum256From good) /\
       Forall (fun v => v ∈ vs /\ signedBy now v raw data) good).
Proof.
  destruct (VerifyThreshold_ok now vs threshold raw) as (data & good & bad & err & H & He & Hg).
  exists data, good, bad, err. split_and!; [done|done|]. intros ->. destruct (Hg eq_refl) as (Hl & Hn & Hf).
  split_and!; [|done|done]. rewrite Hl. by apply He.
Qed.

(** A certificate does not bind the data it certifies.  The signed message joins
    the key type and the data without a separator, and [Verify] does not look at
    the key type: from a certificate that certifies [p] followed by [rest] anybody
    makes one that the same key certifies [rest] alone. *)
Theorem certificate_malleable {S : SignScheme} {SL : SignSchemeLaws S} {C : Codec Certificate}
    {CL : CodecLaws Certificate C plainCert} {O : MapOrder} {OL : MapOrderLaws O} now k p rest expiration raw :
  signable now (string_bytes p ++ rest) expiration -> sg_Name <> ""%string -> plainText sg_Name -> plainText p -> rest <> [] ->
  cert_Sign now k (sg_Public k) (string_bytes p ++ rest) expiration = Ok raw ->
  cert_Verify now (sg_Public k) raw = Ok (string_bytes p ++ rest) /\
  exists c, codec_Unmarshal raw = Some c /\
    exists raw', codec_Marshal (mkCertificate (Version c) (Expiration c) (KeyType c +:+ p) rest (cert_Signatures c)) = Some raw' /\
      cert_Verify now (sg_Public k) raw' = Ok rest.
Proof.
  intros Hsg Hn Hp Hpp Hr Hs. set (data := string_bytes p ++ rest) in *.
  assert (Hsr : signable now rest expiration).
  { destruct Hsg as (? & ? & _ & Hb). by apply Forall_app in Hb as [_ Hb]. }
  destruct (Sign_ok now k data expiration) as (raw' & Hs' & Hu); [done..|]. assert (raw' = raw) as -> by congruence.
  destruct Hsg as (He & _ & Hd & _). set (sig := signature _ _ _) in Hu. split; [apply (Verify_single now _ raw _ _ Hu); try (done || (cbn; lia) || apply sg_correct)|].
  eexists. split; [exact Hu|]. cbn [Version Expiration KeyType cert_Signatures withSignatures].
  set (c := mkCertificate CertVersion expiration (sg_Name +:+ p) rest ∅).
  destruct (codec_roundtrip (withSignatures c {[ Sum256From (sg_Public k) := sig ]})) as (b & Hm & Hb).
  { apply (plainCert_single now); [done|by apply plainText_app]. }
  exists b. split; [exact Hm|]. apply (Verify_single now _ b _ _ Hb); try (done || (cbn; lia)).
  - destruct sg_Name; done.
  - assert (Hmsg : message c = message (mkCertificate CertVersion expiration sg_Name data ∅)).
    { unfold message, c, data. cbn [Version Expiration KeyType Certified]. by rewrite string_bytes_app, <- !app_assoc. }
    rewrite Hmsg. apply sg_correct.
Qed.

(** ** Concrete instances *)

(** Signatures that show the key and the message. *)
Definition toySig (k : Z) (m : bytes) : bytes := map (fun b => b `mod` 256) (k :: m).

Definition toySign : SignScheme := {|
  sg_PublicKey := Z; sg_PrivateKey := Z; sg_Name := "toy"; sg_Public := fun k => k;
  sg_Sign := toySig; sg_Verify := fun k m s => bool_decide (s = toySig k m); Sum256From := fun k => [k `mod` 256] |}.

Lemma toySign_laws : SignSchemeLaws toySign.
Proof.
  split; intros; cbn.
  - by apply bool_decide_eq_true.
  - constructor; [|apply Forall_forall; intros b (x & <- & _)%list_elem_of_In%in_map_iff]; apply Z.mod_pos_bound; lia.
  - constructor; [|constructor]. apply Z.mod_pos_bound. lia.
Qed.

(** A codec that numbers the values. *)
Definition toyCodec (A : Type) `{Countable A} : Codec A := {|
  codec_Marshal := fun a => Some [Z.pos (encode a)];
  codec_Unmarshal := fun b => match b with [Z.pos p] => decode p | _ => None end |}.

Lemma toyCodec_laws (A : Type) `{Countable A} valid : CodecLaws A (toyCodec A) valid.
Proof. split. intros a _. exists [Z.pos (encode a)]. split; [done|]. cbn. by rewrite decode_encode. Qed.

(** A codec of the values of a list. *)
Definition listCodec {A} `{EqDecision A} (l : list A) : Codec A := {|
  codec_Marshal := fun a => (fun x => [Z.of_nat x.1]) <$> list_find (eq a) l;
  codec_Unmarshal := fun b => match b with [z] => l !! Z.to_nat z | _ => None end |}.

Definition toyOrder : MapOrder := {| entries := fun V m => map_to_list m |}.

Lemma toyOrder_laws : MapOrderLaws toyOrder.
Proof. by split. Qed.

(** Another order of the same map. *)
Definition toyReverse : MapOrder := {| entries := fun V m => reverse (map_to_list m) |}.

Lemma toyReverse_laws : MapOrderLaws toyReverse.
Proof. split. intros V m. apply reverse_Permutation. Qed.

#[export] Instance Signature_eq_dec : EqDecision Signature.
Proof. solve_decision. Defined.

#[export] Instance Signature_countable : Countable Signature.
Proof.
  refine (inj_countable' (fun s => (PublicKeySum256 s, sig_Payload s)) (fun x => mkSignature x.1 x.2) _). by intros [].
Defined.

#[export] Instance Certificate_eq_dec : EqDecision Certificate.
Proof. solve_decision. Defined.

#[export] Instance Certificate_countable : Countable Certificate.
Proof.
  refine (inj_countable' (fun c => (Version c, Expiration c, KeyType c, Certified c, cert_Signatures c))
    (fun '(v, e, k, d, s) => mkCertificate v e k d s) _). by intros [].
Defined.

Definition toyRaw : bytes :=
  Eval vm_compute in
    match @cert_Sign toySign (toyCodec Certificate) 5 7 7 (string_bytes "a" ++ [9]) 6 with Ok b => b | _ => [] end.

Lemma certificate_malleable_witness :
  exists raw', @cert_Verify toySign (toyCodec Certificate) toyOrder 5 7 raw' = Ok [9].
Proof.
  destruct (@certificate_malleable toySign toySign_laws (toyCodec Certificate) (toyCodec_laws Certificate plainCert)
    toyOrder toyOrder_laws 5 7 "a" [9] 6 toyRaw) as (_ & c & _ & raw' & _ & H).
  - split_and!; [lia|lia|lia|discriminate|]. by apply (bool_decide_unpack _), I.
  - discriminate.
  - repeat constructor.
  - repeat constructor.
  - discriminate.
  - vm_compute. reflexivity.
  - exists raw'. exact H.
Defined.

Lemma threshold_signatures_witness :
  exists data good bad err, @VerifyThreshold toySign (toyCodec Certificate) toyOrder 5 [7; 8] 1 toyRaw =
      Ok (data, good, bad, err) /\ (err = None -> 1 <= Z.of_nat (length good)).
Proof.
  destruct (@threshold_signatures toySign (toyCodec Certificate)
    toyOrder toyOrder_laws 5 1 [7; 8] toyRaw) as (data & good & bad & err & H & _ & Hg).
  exists data, good, bad, err. split; [exact H|]. intros He. apply (Hg He).
Defined.
