(* ===== verification/PkiDocument.v ===== *)
(** The PKI document and its lookups: [core/pki/document.go] and the descriptor
    types of [core/pki/descriptor.go], with the shared random value protocol of
    [core/pki/sharedrandom.go].

    [hash.Sum256] of hpqc and BLAKE2b are parameters.  A nil byte
    slice is [None]; hashing it hashes the empty string. *)

From S2P Require Import Prelude Cert.
From Stdlib Require Import ZArith Lia.
From stdpp Require Import prelude list strings gmap.

Definition LayerGateway : Z := 255.
Definition LayerService : Z := 254.
Definition PublicKeyHashSize : nat := 32.
Definition SharedRandomLength : nat := 40.
Definition SharedRandomValueLength : nat := 32.

(** [type MixDescriptor struct].  A value of an agent's parameters is [Some] of a
    string or, of another type, [None]; the advertised data no modelled operation
    looks into. *)
Record MixDescriptor := mkMixDescriptor {
  Name : string;
  IdentityKey : option bytes;
  MixKeys : gmap Z (option bytes);
  IsGatewayNode : bool;
  IsServiceNode : bool;
  md_Epoch : Z;
  LinkKey : option bytes;
  Addresses : gmap string (list string);
  Kaetzchen : option (gmap string (option (gmap string (option string))));
  KaetzchenAdvertizedData : bytes;
  LoadWeight : Z;
  AuthenticationType : string;
  md_Version : string;
}.

#[export] Instance MixDescriptor_eq_dec : EqDecision MixDescriptor.
Proof. solve_decision. Defined.

(** [type ReplicaDescriptor struct]. *)
Record ReplicaDescriptor := mkReplicaDescriptor {
  rd_Name : string;
  ReplicaID : Z;
  rd_IdentityKey : option bytes;
  EnvelopeKeys : gmap Z bytes;
  rd_Epoch : Z;
  rd_LinkKey : option bytes;
  rd_Addresses : gmap string (list string);
}.

#[export] Instance ReplicaDescriptor_eq_dec : EqDecision ReplicaDescriptor.
Proof. solve_decision. Defined.

(** [type Document struct]; a [float64] is its bit pattern. *)
Record Document := mkDocument {
  doc_Epoch : Z;
  Topology : list (list MixDescriptor);
  GatewayNodes : list MixDescriptor;
  ServiceNodes : list MixDescriptor;
  StorageReplicas : list ReplicaDescriptor;
  MuMaxDelay : Z;
  GenesisEpoch : Z;
  SendRatePerMinute : Z;
  Mu : Z;
  LambdaP : Z;
  LambdaPMaxDelay : Z;
  LambdaL : Z;
  LambdaLMaxDelay : Z;
  LambdaD : Z;
  LambdaDMaxDelay : Z;
  LambdaM : Z;
  LambdaMMaxDelay : Z;
  LambdaG : Z;
  LambdaGMaxDelay : Z;
  LambdaR : Z;
  LambdaRMaxDelay : Z;
  ConfiguredReplicaIDs : list Z;
  ConfiguredReplicaIdentityKeys : list bytes;
  ReplicaEnvelopeKeys : gmap Z (gmap Z bytes);
  Signatures : gmap bytes Signature;
  SharedRandomCommit : gmap bytes bytes;
  SharedRandomReveal : gmap bytes bytes;
  SharedRandomValue : bytes;
  PriorSharedRandom : list bytes;
  SphinxGeometryHash : bytes;
  doc_Version : string;
  PKISignatureScheme : string;
}.

Section Pki.

Context (Sum256 : bytes -> bytes).

(** [hash.Sum256(v.IdentityKey)]. *)
Definition idHash (k : option bytes) : bytes := Sum256 (default [] k).

(** The first descriptor of a list with a name. *)
Definition byName (name : string) (l : list MixDescriptor) : option MixDescriptor :=
  List.find (fun v => bool_decide (Name v = name)) l.

Definition GetGateway (d : Document) (name : string) : outcome MixDescriptor :=
  match byName name (GatewayNodes d) with
  | Some v => Ok v
  | None => Err "pki: gateway node not found"
  end.

Definition GetServiceNode (d : Document) (name : string) : outcome MixDescriptor :=
  match byName name (ServiceNodes d) with
  | Some v => Ok v
  | None => Err "pki: service node not found"
  end.

(** The scan of the [ByKeyHash] lookups: a nil identity key on the way is an
    error, [None] means no match. *)
Fixpoint scanKeyHash {A} (key : A -> option bytes) (keyhash : bytes) (l : list A)
    : outcome (option A) :=
  match l with
  | [] => Ok None
  | v :: l =>
    match key v with
    | None => Err "pki: document contains invalid descriptors"
    | Some _ =>
      if bool_decide (idHash (key v) = keyhash) then Ok (Some v) else scanKeyHash key keyhash l
    end
  end.

Definition orNotFound {A} (msg : string) (m : outcome (option A)) : outcome A :=
  r ← m; match r with Some v => Ok v | None => Err msg end.

Definition GetGatewayByKeyHash (d : Document) (keyhash : bytes) : outcome MixDescriptor :=
  orNotFound "pki: gateway not found" (scanKeyHash IdentityKey keyhash (GatewayNodes d)).

Definition GetServiceNodeByKeyHash (d : Document) (keyhash : bytes) : outcome MixDescriptor :=
  orNotFound "pki: service not found" (scanKeyHash IdentityKey keyhash (ServiceNodes d)).

Definition GetReplicaNodeByKeyHash (d : Document) (keyhash : bytes) : outcome ReplicaDescriptor :=
  orNotFound "pki: replica not found" (scanKeyHash rd_IdentityKey keyhash (StorageReplicas d)).

(** [idkey.MarshalBinary] is the argument. *)
Definition GetReplicaIDByIdentityKey (d : Document) (keyblob : outcome bytes) : outcome Z :=
  blob ← keyblob;
  match List.find (fun r => bool_decide (blob = default [] (rd_IdentityKey r))) (StorageReplicas d) with
  | Some r => Ok (ReplicaID r)
  | None => Err "replica not found"
  end.

Definition GetReplicaNodeByReplicaID (d : Document) (replicaID : Z) : outcome ReplicaDescriptor :=
  match List.find (fun r => bool_decide (ReplicaID r = replicaID)) (StorageReplicas d) with
  | Some r => Ok r
  | None => Err "replica with ID not found"
  end.

(** The nested loop over layers and nodes visits the concatenation. *)
Definition GetMix (d : Document) (name : string) : outcome MixDescriptor :=
  match byName name (concat (Topology d)) with
  | Some v => Ok v
  | None => Err "pki: mix not found"
  end.

Definition matches (keyhash : bytes) (v : MixDescriptor) : bool :=
  bool_decide (idHash (IdentityKey v) = keyhash).

(** The loop over the layers; the layer number is truncated to 8 bits. *)
Fixpoint layerOf (keyhash : bytes) (n : Z) (layers : list (list MixDescriptor)) : outcome Z :=
  match layers with
  | [] => Err "pki: mix not found"
  | l :: layers => if existsb (matches keyhash) l then Ok (wrap 8 n) else layerOf keyhash (n + 1) layers
  end.

Definition GetMixLayer (d : Document) (keyhash : bytes) : outcome Z :=
  if existsb (matches keyhash) (GatewayNodes d) then Ok LayerGateway
  else if existsb (matches keyhash) (ServiceNodes d) then Ok LayerService
  else layerOf keyhash 0 (Topology d).

Definition GetMixesInLayer (d : Document) (layer : Z) : outcome (list MixDescriptor) :=
  if bool_decide (Z.of_nat (length (Topology d)) - 1 < layer)%Z then Err "pki: invalid layer"
  else index (Topology d) (Z.to_nat layer).

Definition GetMixByKeyHash (d : Document) (keyhash : bytes) : outcome MixDescriptor :=
  orNotFound "pki: mix not found" (scanKeyHash IdentityKey keyhash (concat (Topology d))).

(** Try one lookup, then the other, whatever the error. *)
Definition orElse {A} (m n : outcome A) : outcome A :=
  match m with Err _ => n | _ => m end.

Definition GetNode (d : Document) (name : string) : outcome MixDescriptor :=
  orElse (GetMix d name) (orElse (GetGateway d name) (orElse (GetServiceNode d name)
    (Err "pki: node not found"))).

Definition GetNodeByKeyHash (d : Document) (keyhash : bytes) : outcome MixDescriptor :=
  orElse (GetMixByKeyHash d keyhash) (orElse (GetGatewayByKeyHash d keyhash)
    (orElse (GetServiceNodeByKeyHash d keyhash) (Err "pki: node not found"))).

(** ** What the lookups find *)

Definition allNodes (d : Document) : list MixDescriptor :=
  concat (Topology d) ++ GatewayNodes d ++ ServiceNodes d.

(** Every node has an identity key, and no two nodes share its hash: what
    [IsDocumentWellFormed] checks. *)
Definition distinct_keys (d : Document) : Prop :=
  Forall (fun v => is_Some (IdentityKey v)) (allNodes d) /\
  NoDup (map (fun v => idHash (IdentityKey v)) (allNodes d)).

Lemma scanKeyHash_found {A} (key : A -> option bytes) keyhash l :
  Forall (fun v => is_Some (key v)) l ->
  exists r, scanKeyHash key keyhash l = Ok r /\
    match r with
    | Some v => v ∈ l /\ idHash (key v) = keyhash
    | None => Forall (fun v => idHash (key v) <> keyhash) l
    end.
Proof.
  induction 1 as [|v l [k Hk] _ IH]; [by exists None|]. cbn [scanKeyHash]. rewrite Hk.
  case_bool_decide as He.
  - exists (Some v). split; [done|]. rewrite Hk. split; [by left|done].
  - destruct IH as (r & -> & Hr). exists r. split; [done|]. destruct r as [w|].
    + destruct Hr. split; [by right|done].
    + constructor; [by rewrite Hk|done].
Qed.

Lemma nodup_hash_inj d v w :
  distinct_keys d -> v ∈ allNodes d -> w ∈ allNodes d ->
  idHash (IdentityKey v) = idHash (IdentityKey w) -> v = w.
Proof.
  intros [_ Hn] Hv Hw He. apply list_elem_of_lookup in Hv as [i Hi]. apply list_elem_of_lookup in Hw as [j Hj].
  assert (i = j) as ->; [|by simplify_eq].
  eapply NoDup_lookup; [exact Hn| |].
  - change (map ?f ?l) with (f <$> l). by rewrite list_lookup_fmap, Hi.
  - change (map ?f ?l) with (f <$> l). rewrite list_lookup_fmap, Hj. cbn. by rewrite He.
Qed.

Lemma scanKeyHash_here d l v :
  distinct_keys d -> Forall (fun w => w ∈ allNodes d) l -> v ∈ l ->
  scanKeyHash IdentityKey (idHash (IdentityKey v)) l = Ok (Some v).
Proof.
  intros Hd Hl Hv. rewrite Forall_forall in Hl.
  destruct (scanKeyHash_found IdentityKey (idHash (IdentityKey v)) l) as (r & -> & Hr).
  - destruct Hd as [Hk _]. rewrite Forall_forall in *. auto.
  - destruct r as [w|].
    + destruct Hr as [Hw He]. do 2 f_equal. eapply (nodup_hash_inj d); eauto.
    + rewrite Forall_forall in Hr. by apply Hr in Hv.
Qed.

Lemma scanKeyHash_elsewhere d l v :
  distinct_keys d -> Forall (fun w => w ∈ allNodes d) l -> v ∈ allNodes d -> v ∉ l ->
  scanKeyHash IdentityKey (idHash (IdentityKey v)) l = Ok None.
Proof.
  intros Hd Hl Hv Hnv. rewrite Forall_forall in Hl.
  destruct (scanKeyHash_found IdentityKey (idHash (IdentityKey v)) l) as (r & -> & Hr).
  - destruct Hd as [Hk _]. rewrite Forall_forall in *. auto.
  - destruct r as [w|]; [|done]. destruct Hr as [Hw He]. destruct Hnv.
    replace v with w; [done|]. eapply (nodup_hash_inj d); eauto.
Qed.

Lemma existsb_matches_here l v : v ∈ l -> existsb (matches (idHash (IdentityKey v))) l = true.
Proof.
  intros Hv. apply existsb_exists. exists v. split; [by apply list_elem_of_In|].
  by apply bool_decide_eq_true.
Qed.

Lemma existsb_matches_elsewhere d l v :
  distinct_keys d -> Forall (fun w => w ∈ allNodes d) l -> v ∈ allNodes d -> v ∉ l ->
  existsb (matches (idHash (IdentityKey v))) l = false.
Proof.
  intros Hd Hl Hv Hnv. apply not_true_is_false. intros (w & Hw & Hm)%existsb_exists.
  apply list_elem_of_In in Hw. apply bool_decide_eq_true in Hm. destruct Hnv. rewrite Forall_forall in Hl.
  replace v with w; [done|]. eapply (nodup_hash_inj d); eauto.
Qed.

(** The parts of a document with distinct keys are disjoint. *)
Lemma parts_disjoint d v :
  distinct_keys d ->
  (v ∈ concat (Topology d) -> (v ∉ GatewayNodes d) /\ (v ∉ ServiceNodes d)) /\
  (v ∈ GatewayNodes d -> v ∉ ServiceNodes d).
Proof.
  intros [_ Hn]. apply NoDup_fmap_1 in Hn. unfold allNodes in Hn.
  apply NoDup_app in Hn as (_ & H1 & H2). apply NoDup_app in H2 as (_ & H2 & _).
  split; [|by apply H2]. intros Hv. specialize (H1 v Hv). rewrite elem_of_app in H1. tauto.
Qed.

Lemma parts_nodes d :
  Forall (fun w => w ∈ allNodes d) (concat (Topology d)) /\
  Forall (fun w => w ∈ allNodes d) (GatewayNodes d) /\ Forall (fun w => w ∈ allNodes d) (ServiceNodes d).
Proof.
  unfold allNodes. split_and!; apply Forall_forall; intros w Hw; rewrite !elem_of_app; auto.
Qed.

Lemma elem_of_layer (ls : list (list MixDescriptor)) i l v : ls !! i = Some l -> v ∈ l -> v ∈ concat ls.
Proof.
  intros Hl Hv. apply list_elem_of_In, in_concat. exists l. split; [|by apply list_elem_of_In].
  apply list_elem_of_In. by eapply list_elem_of_lookup_2.
Qed.

Lemma layerOf_ok d v n ls i l :
  distinct_keys d -> Forall (fun w => w ∈ allNodes d) (concat ls) -> NoDup (concat ls) ->
  ls !! i = Some l -> v ∈ l -> layerOf (idHash (IdentityKey v)) n ls = Ok (wrap 8 (n + Z.of_nat i)).
Proof.
  intros Hd. revert n i. induction ls as [|l0 ls IH]; intros n i Hf Hn Hi Hv; [done|]. cbn [layerOf].
  cbn [concat] in Hf, Hn. apply Forall_app in Hf as [Hf0 Hf]. apply NoDup_app in Hn as (_ & Hdis & Hn).
  destruct i as [|i]; cbn in Hi.
  - injection Hi as ->. rewrite existsb_matches_here by done. by rewrite Z.add_0_r.
  - assert (Hvc : v ∈ concat ls) by (by eapply elem_of_layer).
    rewrite (existsb_matches_elsewhere d); [|done..| |].
    + rewrite (IH (n + 1)%Z i) by done. do 2 f_equal. lia.
    + rewrite Forall_forall in Hf. by apply Hf.
    + intros Hv0. by apply (Hdis v).
Qed.

Lemma GetMixLayer_topology d v i l :
  distinct_keys d -> Topology d !! i = Some l -> v ∈ l ->
  GetMixLayer d (idHash (IdentityKey v)) = Ok (wrap 8 (Z.of_nat i)).
Proof.
  intros Hd Hi Hv. destruct (parts_nodes d) as (Ht & Hg & Hs).
  assert (Hvc : v ∈ concat (Topology d)) by (by eapply elem_of_layer).
  assert (Hva : v ∈ allNodes d) by (rewrite Forall_forall in Ht; by apply Ht).
  destruct (proj1 (parts_disjoint d v Hd) Hvc) as [Hng Hns]. unfold GetMixLayer.
  rewrite !(existsb_matches_elsewhere d) by done.
  rewrite (layerOf_ok d v 0 (Topology d) i l); try done.
  destruct Hd as [_ Hn]. apply NoDup_fmap_1 in Hn. by apply NoDup_app in Hn as [? _].
Qed.

Lemma GetMixLayer_gateway d v :
  v ∈ GatewayNodes d -> GetMixLayer d (idHash (IdentityKey v)) = Ok LayerGateway.
Proof. intros Hv. unfold GetMixLayer. by rewrite existsb_matches_here. Qed.

Lemma GetMixLayer_service d v :
  distinct_keys d -> v ∈ ServiceNodes d -> GetMixLayer d (idHash (IdentityKey v)) = Ok LayerService.
Proof.
  intros Hd Hv. destruct (parts_nodes d) as (Ht & Hg & Hs). unfold GetMixLayer.
  rewrite (existsb_matches_elsewhere d); [by rewrite existsb_matches_here|done|done| |].
  - rewrite Forall_forall in Hs. by apply Hs.
  - intros Hvg. by apply (proj2 (parts_disjoint d v Hd)) in Hvg.
Qed.

End Pki.

(** In a document whose nodes have distinct identity key hashes, every node
    is found under the hash of its key, and its layer is the one it is listed
    in (modulo 256 for a mix). *)
Theorem document_lookup Sum256 d v :
  distinct_keys Sum256 d -> v ∈ allNodes d ->
  GetNodeByKeyHash Sum256 d (idHash Sum256 (IdentityKey v)) = Ok v /\
  (v ∈ GatewayNodes d -> GetMixLayer Sum256 d (idHash Sum256 (IdentityKey v)) = Ok LayerGateway) /\
  (v ∈ ServiceNodes d -> GetMixLayer Sum256 d (idHash Sum256 (IdentityKey v)) = Ok LayerService) /\
  (forall i l, Topology d !! i = Some l -> v ∈ l ->
     GetMixLayer Sum256 d (idHash Sum256 (IdentityKey v)) = Ok (wrap 8 (Z.of_nat i))).
Proof.
  intros Hd Hv. destruct (parts_nodes d) as (Ht & Hg & Hs). split_and!.
  - unfold GetNodeByKeyHash, GetMixByKeyHash, GetGatewayByKeyHash, GetServiceNodeByKeyHash.
    pose proof Hv as Hv'. unfold allNodes in Hv'. rewrite !elem_of_app in Hv'.
    destruct (decide (v ∈ concat (Topology d))) as [?|Hnt]; [by rewrite (scanKeyHash_here _ d)|].
    rewrite (scanKeyHash_elsewhere _ d) by done. cbn.
    destruct (decide (v ∈ GatewayNodes d)) as [?|Hng]; [by rewrite (scanKeyHash_here _ d)|].
    rewrite (scanKeyHash_elsewhere _ d) by done. cbn.
    by rewrite (scanKeyHash_here _ d) by (done || tauto).
  - intros. by apply GetMixLayer_gateway.
  - intros. by apply GetMixLayer_service.
  - intros i l. by apply GetMixLayer_topology.
Qed.

(** ** Shared random values *)

Section SharedRandom.

Context (blake2b_Sum256 : bytes -> bytes).

(** [type SharedRandom struct]. *)
Record SharedRandom := mkSharedRandom { sr_epoch : Z; sr_commit : bytes; sr_reveal : bytes }.

(** [Commit], for the 32 random bytes drawn. *)
Definition Commit (epoch : Z) (rn : outcome bytes) : outcome SharedRandom :=
  rn ← rn;
  let reveal := copy_at (PutUint64 epoch ++ zeros 32) 8 SharedRandomLength (blake2b_Sum256 rn) in
  let commit := copy_at (PutUint64 epoch ++ zeros 32) 8 SharedRandomLength (blake2b_Sum256 reveal) in
  Ok (mkSharedRandom epoch commit reveal).

Definition GetCommit (s : SharedRandom) : bytes := sr_commit s.
Definition sr_GetEpoch (s : SharedRandom) : Z := sr_epoch s.
Definition sr_Reveal (s : SharedRandom) : bytes := sr_reveal s.

Definition SetCommit (s : SharedRandom) (rawCommit : bytes) : outcome SharedRandom :=
  e ← slice rawCommit 0 8;
  Ok (mkSharedRandom (be_combine e) rawCommit (sr_reveal s)).

Definition sr_Verify (s : SharedRandom) (reveal : bytes) : outcome bool :=
  if negb (bool_decide (length reveal = SharedRandomLength)) then Ok false
  else
    e ← slice reveal 0 8;
    let allegedCommit := blake2b_Sum256 reveal in
    if Z.eqb (be_combine e) (sr_epoch s) then
      c ← slice_from (sr_commit s) 8;
      Ok (bool_decide (c = allegedCommit))
    else Ok false.

Context (Hsum : forall b, length (blake2b_Sum256 b) = 32).

(** The layout of a value: the epoch, then a digest. *)
Lemma sr_layout epoch h :
  length h = 32 -> copy_at (PutUint64 epoch ++ zeros 32) 8 SharedRandomLength h = PutUint64 epoch ++ h.
Proof.
  intros Hh. rewrite <- (app_nil_r (zeros 32)), (copy_at_mid (PutUint64 epoch) (zeros 32) []); try done.
  by rewrite app_nil_r.
Qed.

Lemma Commit_ok epoch rn :
  Commit epoch (Ok rn) =
    Ok (mkSharedRandom epoch (PutUint64 epoch ++ blake2b_Sum256 (PutUint64 epoch ++ blake2b_Sum256 rn))
          (PutUint64 epoch ++ blake2b_Sum256 rn)).
Proof. unfold Commit. go. by rewrite !sr_layout by auto. Qed.

End SharedRandom.

(** A verifier that holds the commit of an epoch accepts a 40-byte value
    exactly when it names that epoch and its digest is the committed one; in
    particular it accepts the reveal that was committed to. *)
Theorem shared_random_binding H epoch rn s v0 v reveal :
  (forall b, length (H b) = 32) -> (0 <= epoch < 2 ^ 64)%Z ->
  Commit H epoch (Ok rn) = Ok s -> SetCommit v0 (GetCommit s) = Ok v ->
  length (GetCommit s) = SharedRandomLength /\ length (sr_Reveal s) = SharedRandomLength /\
  sr_Verify H v (sr_Reveal s) = Ok true /\
  (sr_Verify H v reveal = Ok true <->
     length reveal = SharedRandomLength /\ be_combine (take 8 reveal) = epoch /\
     H reveal = H (sr_Reveal s)).
Proof.
  intros Hs He Hc Hv. rewrite Commit_ok in Hc by done.
  assert (s = mkSharedRandom epoch (PutUint64 epoch ++ H (PutUint64 epoch ++ H rn))
    (PutUint64 epoch ++ H rn)) as -> by congruence. clear Hc. cbn [GetCommit sr_commit sr_Reveal sr_reveal] in *.
  set (r := PutUint64 epoch ++ H rn) in *.
  assert (Hr : length r = 40) by (unfold r; rewrite length_app, Hs; done).
  unfold SetCommit in Hv. go_inv Hv. apply slice_inv in E as [_ ->].
  match type of Hv with Ok ?x = Ok ?y => assert (x = y) as Hv' by congruence end. clear Hv.
  assert (Hve : sr_epoch v = epoch).
  { rewrite <- Hv'. cbn [sr_epoch]. rewrite drop_0.
    change (8 - 0) with (length (PutUint64 epoch)). rewrite take_app_length.
    apply be_combine_split_small. cbn. lia. }
  assert (Hvc : sr_commit v = PutUint64 epoch ++ H r) by (by rewrite <- Hv').
  assert (Hver : forall x, sr_Verify H v x = Ok true <->
    length x = SharedRandomLength /\ be_combine (take 8 x) = epoch /\ H x = H r).
  { intros x. unfold sr_Verify. case_bool_decide as Hx; cbn [negb]; [|split; [done|by intros [? _]]].
    rewrite slice_ok by (rewrite ?Hx; unfold SharedRandomLength; lia). go. rewrite drop_0, Hve, Hvc.
    change (8 - 0) with 8. destruct (Z.eqb_spec (be_combine (take 8 x)) epoch) as [Heq|Hne].
    - rewrite slice_from_app by done. go. case_bool_decide as Hh; [by rewrite Hh|].
      split; [done|]. intros (_ & _ & ?). congruence.
    - split; [done|]. by intros (_ & ? & _). }
  split_and!; [|done| |apply Hver].
  - unfold SharedRandomLength. by rewrite length_app, Hs.
  - apply Hver. split_and!; [done| |done]. unfold r.
    change 8 with (length (PutUint64 epoch)) at 1. rewrite take_app_length.
    apply be_combine_split_small. cbn. lia.
Qed.

(** ** Concrete instances *)

(** A digest that pads or truncates to 32 bytes. *)
Definition toySum (b : bytes) : bytes := take 32 (b ++ zeros 32).

(** A descriptor and a document with the fields lookups read. *)
Definition bareDescriptor (name : string) (key : option bytes) (keys : gmap Z (option bytes)) (gw sv : bool) : MixDescriptor :=
  mkMixDescriptor name key keys gw sv 0 None ∅ None [] 0 "" "".

Definition bareDocument (epoch : Z) (topology : list (list MixDescriptor)) (gateways services : list MixDescriptor)
    (replicas : list ReplicaDescriptor) (muMaxDelay : Z) : Document :=
  mkDocument epoch topology gateways services replicas muMaxDelay 0 0 0 0 0 0 0 0 0 0 0 0 0 0 0 [] [] ∅ ∅ ∅ ∅ [] [] [] "" "".

Definition toyNode (name : string) (k : Z) (gw sv : bool) : MixDescriptor :=
  bareDescriptor name (Some [k]) {[ 5%Z := Some [k] ]} gw sv.

Definition toyDocument : Document :=
  bareDocument 5 [[toyNode "mix1" 3 false false; toyNode "mix2" 5 false false];
                [toyNode "mix3" 7 false false]]
    [toyNode "gateway" 11 true false] [toyNode "service" 13 false true] [] 0.

Lemma toyDocument_distinct : distinct_keys toySum toyDocument.
Proof.
  split; [repeat constructor; by eexists|].
  apply (bool_decide_unpack _). vm_compute. exact I.
Qed.

Lemma document_lookup_witness :
  GetNodeByKeyHash toySum toyDocument (idHash toySum (Some [7%Z])) = Ok (toyNode "mix3" 7 false false) /\
  GetMixLayer toySum toyDocument (idHash toySum (Some [7%Z])) = Ok 1%Z.
Proof.
  destruct (document_lookup toySum toyDocument (toyNode "mix3" 7 false false)) as (H & _ & _ & Hl).
  - exact toyDocument_distinct.
  - apply (bool_decide_unpack _). vm_compute. exact I.
  - split; [exact H|]. apply (Hl 1 [toyNode "mix3" 7 false false]); [reflexivity|by left].
Defined.

Definition toyShared : SharedRandom :=
  mkSharedRandom 9 (PutUint64 9 ++ toySum (PutUint64 9 ++ toySum [1%Z])) (PutUint64 9 ++ toySum [1%Z]).

Lemma shared_random_binding_witness :
  sr_Verify toySum (mkSharedRandom 9 (GetCommit toyShared) []) (sr_Reveal toyShared) = Ok true.
Proof.
  refine (proj1 (proj2 (proj2 (shared_random_binding toySum 9 [1%Z] toyShared
    (mkSharedRandom 0 [] []) (mkSharedRandom 9 (GetCommit toyShared) []) [] _ _ _ _)))).
  - intros b. unfold toySum. rewrite length_take, length_app, length_zeros. lia.
  - lia.
  - vm_compute. reflexivity.
  - vm_compute. reflexivity.
Defined.
