(* ===== verification/MixTopology.v ===== *)
(** The assignment of mixes to layers by a directory authority:
    [generateTopology], [generateRandomTopology], [generateFixedTopology] and
    [verifyTopology] of [authority/voting/server/state.go].

    The deterministic random reader of hpqc is a parameter: the permutations it
    gives for a seed and the sizes it was asked for before.  When it cannot be
    made the code reports a fatal error, which ends the server: an [Err].  The
    keys a fixed topology lists are read from files, hence an argument. *)

From S2P Require Import Prelude ByteOrder Cert PkiDocument.
From Stdlib Require Import ZArith Lia.
From stdpp Require Import prelude list strings gmap.

(** hpqc [rand.NewDeterministicRandReader] and its [Perm]. *)
Class Rng := {
  rng_valid : bytes -> bool;
  rng_Perm : bytes -> list nat -> nat -> list nat;
}.

Class RngLaws (R : Rng) : Prop := {
  rng_valid_seed srv : length srv = 32 -> rng_valid srv = true;
  rng_perm srv asked n : rng_Perm srv asked n ≡ₚ seq 0 n;
}.

Definition errFatal : string := "fatal error".
Definition errInvalidTopology : string := "authority: Invalid Topology".

Section MixTopology.

Context (Sum256 : bytes -> bytes) {R : Rng} {O : MapOrder}.

Definition nodeId (v : MixDescriptor) : bytes := idHash Sum256 (IdentityKey v).

Definition sortNodesByPublicKey (nodes : list MixDescriptor) : list MixDescriptor := sortBy nodeId nodes.

(** [nodeMap[id] = v] for all nodes. *)
Definition nodeMap (nodes : list MixDescriptor) : gmap bytes MixDescriptor :=
  foldl (fun m v => <[nodeId v := v]> m) ∅ nodes.

(** Deal nodes to the layers in turn, from layer [layer] on. *)
Fixpoint dealLoop (nodes : list MixDescriptor) (idxs : list nat) (layer : nat) (topology : list (list MixDescriptor))
    : outcome (list (list MixDescriptor)) :=
  match idxs with
  | [] => Ok topology
  | i :: idxs =>
    n ← index nodes i;
    l ← index topology layer;
    dealLoop nodes idxs (S layer mod length topology) (<[layer := l ++ [n]]> topology)
  end.

Definition generateRandomTopology (layers : nat) (nodes : list MixDescriptor) (srv : bytes)
    : outcome (list (list MixDescriptor)) :=
  if negb (bool_decide (length srv = 32)) then Err errFatal
  else if negb (rng_valid srv) then Err errFatal
  else dealLoop nodes (rng_Perm srv [] (length nodes)) 0 (replicate layers []).

(** Keep the nodes of a layer that still exist, up to the target size. *)
Fixpoint keepLoop (nodes : list MixDescriptor) (idxs : list nat) (target layer : nat)
    (topology : list (list MixDescriptor)) (pending : gmap bytes MixDescriptor)
    : outcome (list (list MixDescriptor) * gmap bytes MixDescriptor) :=
  match idxs with
  | [] => Ok (topology, pending)
  | i :: idxs =>
    l ← index topology layer;
    if bool_decide (target <= length l) then Ok (topology, pending)
    else
      v ← index nodes i;
      match pending !! nodeId v with
      | Some n => keepLoop nodes idxs target layer (<[layer := l ++ [n]]> topology) (delete (nodeId v) pending)
      | None => keepLoop nodes idxs target layer topology pending
      end
  end.

Fixpoint keepLayers (srv : bytes) (asked : list nat) (old : list (list MixDescriptor)) (target layer : nat)
    (topology : list (list MixDescriptor)) (pending : gmap bytes MixDescriptor)
    : outcome (list (list MixDescriptor) * gmap bytes MixDescriptor * list nat) :=
  match old with
  | [] => Ok (topology, pending, asked)
  | nodes :: old =>
    '(topology, pending) ← keepLoop nodes (rng_Perm srv asked (length nodes)) target layer topology pending;
    keepLayers srv (asked ++ [length nodes]) old target (S layer) topology pending
  end.

(** Fill a layer up to the target size from the nodes pending assignment; the
    indexes that are left. *)
Fixpoint fillLayer (toAssign : list MixDescriptor) (idxs : list nat) (target layer : nat)
    (topology : list (list MixDescriptor)) : outcome (list (list MixDescriptor) * list nat) :=
  l ← index topology layer;
  if bool_decide (length l < target) then
    match idxs with
    | [] => Panic
    | i :: idxs => n ← index toAssign i; fillLayer toAssign idxs target layer (<[layer := l ++ [n]]> topology)
    end
  else Ok (topology, idxs).

Fixpoint fillLayers (toAssign : list MixDescriptor) (count : nat) (idxs : list nat) (target layer : nat)
    (topology : list (list MixDescriptor)) : outcome (list (list MixDescriptor) * list nat) :=
  match count with
  | 0 => Ok (topology, idxs)
  | S count =>
    '(topology, idxs) ← fillLayer toAssign idxs target layer topology;
    fillLayers toAssign count idxs target (S layer) topology
  end.

Definition generateTopology (layers : nat) (nodeList : list MixDescriptor) (doc : Document) (srv : bytes)
    : outcome (list (list MixDescriptor)) :=
  if negb (rng_valid srv) then Err errFatal
  else if bool_decide (layers = 0) then Panic
  else
    let target := length nodeList / layers in
    '(topology, pending, asked) ← keepLayers srv [] (Topology doc) target 0 (replicate layers []) (nodeMap nodeList);
    let toAssign := sortNodesByPublicKey (map snd (entries pending)) in
    '(topology, idxs) ← fillLayers toAssign (length (Topology doc)) (rng_Perm srv asked (length toAssign)) target 0 topology;
    dealLoop toAssign idxs 0 topology.

(** The layers of the configuration, as the hashes of the keys they list. *)
Definition generateFixedTopology (layers : list (list bytes)) (nodes : list MixDescriptor) : list (list MixDescriptor) :=
  map (omap (fun id => nodeMap nodes !! id)) layers.

Definition verifyTopology (layers minNodesPerLayer : nat) (topology : list (list MixDescriptor)) : outcome () :=
  if bool_decide (length topology < layers) then Err errInvalidTopology
  else if existsb (fun l => bool_decide (length l < minNodesPerLayer)) topology then Err errInvalidTopology
  else Ok ().

(** ** Dealing *)

Lemma concat_insert (t : list (list MixDescriptor)) i l ns :
  t !! i = Some l -> concat (<[i := l ++ ns]> t) ≡ₚ concat t ++ ns.
Proof.
  intros H. apply list_elem_of_split_length in H as (t1 & t2 & -> & ->).
  replace (length t1) with (length t1 + 0) by lia. rewrite insert_app_r. cbn [insert list_insert].
  rewrite !concat_app. cbn [concat]. rewrite <- !app_assoc.
  apply Permutation_app_head, Permutation_app_head, Permutation_app_comm.
Qed.

Lemma index_ok {A} (l : list A) i x : l !! i = Some x -> index l i = Ok x.
Proof. intros H. unfold index. by rewrite H. Qed.

(** The nodes at some indexes. *)
Definition at_indexes (nodes : list MixDescriptor) (idxs : list nat) (ns : list MixDescriptor) : Prop :=
  Forall2 (fun i n => nodes !! i = Some n) idxs ns.

Lemma at_indexes_ex nodes idxs :
  Forall (fun i => i < length nodes) idxs -> exists ns, at_indexes nodes idxs ns.
Proof.
  induction 1 as [|i idxs Hi _ [ns IH]]; [exists []; constructor|].
  apply lookup_lt_is_Some in Hi as [n Hn]. exists (n :: ns). by constructor.
Qed.

Lemma at_indexes_perm nodes idxs ns :
  idxs ≡ₚ seq 0 (length nodes) -> at_indexes nodes idxs ns -> ns ≡ₚ nodes.
Proof.
  intros Hp H. assert (Hn : ns = omap (fun i => nodes !! i) idxs).
  { clear Hp. induction H as [|i n idxs ns Hi _ IH]; [done|]. cbn. by rewrite Hi, IH. }
  rewrite Hn, Hp. clear. induction nodes as [|n nodes IH]; [done|]. cbn.
  apply perm_skip. rewrite <- IH at 2. rewrite <- fmap_S_seq.
  assert (Hs : forall l : list nat, omap (fun i => (n :: nodes) !! i) (S <$> l) = omap (fun i => nodes !! i) l)
    by (intros l; induction l as [|i l IHl]; [done|]; cbn; by rewrite IHl).
  by rewrite <- Hs.
Qed.

(** Layers below [layer] have a node more than the others, which have [s]. *)
Definition level (s layer : nat) (t : list (list MixDescriptor)) : Prop :=
  layer < length t /\ forall j l, t !! j = Some l -> length l = if decide (j < layer) then S s else s.

Lemma level_step s layer t l n :
  level s layer t -> t !! layer = Some l ->
  level (if decide (S layer = length t) then S s else s) (S layer mod length t) (<[layer := l ++ [n]]> t).
Proof.
  intros [Hl Hs] Hlay. split; [rewrite length_insert; apply Nat.mod_upper_bound; lia|].
  intros j x Hj. pose proof (Hs layer l Hlay) as Hll. rewrite decide_False in Hll by lia.
  destruct (decide (S layer = length t)) as [He|Hne].
  - rewrite He, Nat.Div0.mod_same, decide_False by lia. apply list_lookup_insert_Some in Hj as [(<- & <- & _)|[Hn Hj]].
    + rewrite length_app. cbn. lia.
    + pose proof (lookup_lt_Some _ _ _ Hj). rewrite (Hs j x Hj), decide_True by lia. done.
  - rewrite Nat.mod_small by lia. apply list_lookup_insert_Some in Hj as [(<- & <- & _)|[Hn Hj]].
    + rewrite length_app, decide_True by lia. cbn. lia.
    + rewrite (Hs j x Hj). destruct (decide (j < layer)), (decide (j < S layer)); lia.
Qed.

Lemma dealLoop_ok nodes idxs ns s layer t :
  level s layer t -> at_indexes nodes idxs ns ->
  exists t' s' layer', dealLoop nodes idxs layer t = Ok t' /\ level s' layer' t' /\ length t' = length t /\
    concat t' ≡ₚ concat t ++ ns /\ s' * length t + layer' = s * length t + layer + length ns /\
    forall j l, t !! j = Some l -> exists more, t' !! j = Some (l ++ more).
Proof.
  intros Hlev H. revert s layer t Hlev. induction H as [|i n idxs ns Hi _ IH]; intros s layer t Hlev; cbn [dealLoop].
  - exists t, s, layer. rewrite app_nil_r. split_and!; [done..|cbn; lia|]. intros j l Hj. exists []. by rewrite app_nil_r.
  - rewrite (index_ok _ _ _ Hi). go. destruct (lookup_lt_is_Some_2 t layer) as [l Hl]; [by destruct Hlev|].
    rewrite (index_ok _ _ _ Hl). go. pose proof (level_step s layer t l n Hlev Hl) as Hlev'.
    destruct (IH _ _ _ Hlev') as (t' & s' & layer' & -> & Hlev2 & Hlen & Hc & Hn & Hext).
    rewrite length_insert in Hlen, Hn. exists t', s', layer'. split_and!; [done..| | |].
    + rewrite Hc, (concat_insert _ _ _ _ Hl), <- app_assoc. done.
    + rewrite Hn. cbn [length]. destruct Hlev as [Hlt _]. destruct (decide (S layer = length t)) as [He|Hne].
      * rewrite He, Nat.Div0.mod_same. lia.
      * rewrite Nat.mod_small by lia. lia.
    + intros j x Hj. destruct (decide (j = layer)) as [->|Hne].
      * destruct (Hext layer (l ++ [n])) as [more Hm]; [by apply list_lookup_insert_eq, (lookup_lt_Some _ _ _ Hl)|].
        simplify_eq. exists ([n] ++ more). by rewrite app_assoc.
      * apply Hext. by rewrite list_lookup_insert_ne.
Qed.

(** Every layer has its share of [n] nodes, rounded down or up. *)
Definition balanced (layers n : nat) (t : list (list MixDescriptor)) : Prop :=
  length t = layers /\ Forall (fun l => n / layers <= length l <= S (n / layers)) t.

Lemma level_balanced s layer t n :
  level s layer t -> s * length t + layer = n -> balanced (length t) n t.
Proof.
  intros [Hl Hs] Hn. split; [done|]. apply Forall_lookup. intros j l Hj. rewrite (Hs j l Hj).
  assert (n / length t = s) as ->; [|destruct (decide _); lia].
  symmetry. apply (Nat.div_unique n (length t) s layer); lia.
Qed.

(** ** Keeping nodes in their layers *)

Definition values (m : gmap bytes MixDescriptor) : list MixDescriptor := map snd (map_to_list m).

Lemma values_delete m id n : m !! id = Some n -> values m ≡ₚ n :: values (delete id m).
Proof.
  intros H. unfold values. rewrite <- (insert_delete_id m id n H) at 1.
  rewrite (map_to_list_insert (delete id m) id n) by apply lookup_delete_eq. done.
Qed.

(** What the loop over a layer keeps: nodes that are pending under the key of a
    node of the layer, and all of those unless the layer is full. *)
Definition kept_of (old : list MixDescriptor) (target : nat) (m : gmap bytes MixDescriptor) (kept : list MixDescriptor) : Prop :=
  Forall (fun n => exists v, v ∈ old /\ m !! nodeId v = Some n) kept /\
  (length kept = target \/ forall v n, v ∈ old -> m !! nodeId v = Some n -> n ∈ kept).

Lemma keepLoop_ok nodes idxs target layer t m l :
  Forall (fun i => i < length nodes) idxs -> t !! layer = Some l -> length l <= target ->
  exists kept m', keepLoop nodes idxs target layer t m = Ok (<[layer := l ++ kept]> t, m') /\
    length (l ++ kept) <= target /\ values m ≡ₚ kept ++ values m' /\
    Forall (fun n => exists v, v ∈ nodes /\ m !! nodeId v = Some n) kept /\
    (length (l ++ kept) = target \/
       forall i v n, i ∈ idxs -> nodes !! i = Some v -> m !! nodeId v = Some n -> n ∈ kept) /\
    (forall id, (forall v, v ∈ nodes -> nodeId v <> id) -> m' !! id = m !! id).
Proof.
  intros Hi. revert t m l. induction Hi as [|i idxs Hi _ IH]; intros t m l Hl Hlen; cbn [keepLoop].
  - exists [], m. rewrite app_nil_r, list_insert_id by done. split_and!; try done. right. intros ? ? ? H. by apply elem_of_nil in H.
  - rewrite (index_ok _ _ _ Hl). go. case_bool_decide as Ht.
    { exists [], m. rewrite app_nil_r, list_insert_id by done. split_and!; try done. left. lia. }
    apply lookup_lt_is_Some in Hi as [v Hv]. rewrite (index_ok _ _ _ Hv). go.
    assert (Hvn : v ∈ nodes) by (by eapply list_elem_of_lookup_2).
    destruct (m !! nodeId v) as [n|] eqn:Hm.
    + destruct (IH (<[layer := l ++ [n]]> t) (delete (nodeId v) m) (l ++ [n])) as (kept & m' & -> & Hle & Hp & Hk & Hf & Hu).
      { apply list_lookup_insert_eq. by eapply lookup_lt_Some. } { rewrite length_app. cbn. lia. }
      rewrite list_insert_insert_eq, <- app_assoc in *. cbn [app] in *. exists (n :: kept), m'. split_and!; try done.
      * rewrite (values_delete m _ _ Hm), Hp. done.
      * constructor; [by exists v|]. eapply Forall_impl; [exact Hk|]. intros x (w & Hw & Hx).
        apply lookup_delete_Some in Hx as [_ Hx]. by exists w.
      * destruct Hf as [Hf|Hf]; [by left|right]. intros j w x Hj Hw Hx.
        destruct (decide (nodeId w = nodeId v)) as [He|He]; [rewrite He, Hm in Hx; injection Hx as ->; by left|].
        apply elem_of_cons in Hj as [->|Hj]; [simplify_eq; done|]. right. apply (Hf j w); try done. by rewrite lookup_delete_ne.
      * intros id Hid. rewrite Hu by done. apply lookup_delete_ne. by apply Hid.
    + destruct (IH t m l Hl Hlen) as (kept & m' & -> & Hle & Hp & Hk & Hf & Hu). exists kept, m'. split_and!; try done.
      destruct Hf as [Hf|Hf]; [by left|right]. intros j w x Hj Hw Hx.
      apply elem_of_cons in Hj as [->|Hj]; [simplify_eq; congruence|]. by apply (Hf j w).
Qed.

Context {RL : RngLaws R}.

Lemma perm_indexes srv asked n : Forall (fun i => i < n) (rng_Perm srv asked n).
Proof. rewrite rng_perm. apply Forall_forall. intros i [_ ?]%elem_of_seq. lia. Qed.

Lemma perm_all srv asked (nodes : list MixDescriptor) v :
  v ∈ nodes -> exists i, i ∈ rng_Perm srv asked (length nodes) /\ nodes !! i = Some v.
Proof.
  intros [i Hi]%list_elem_of_lookup. exists i. split; [|done]. rewrite rng_perm. apply elem_of_seq.
  apply lookup_lt_Some in Hi. lia.
Qed.

(** Over all layers, when no key is listed twice, each layer keeps its own. *)
Lemma keepLayers_ok srv asked old target ready m m0 :
  NoDup (map nodeId (concat old)) -> (forall v, v ∈ concat old -> m !! nodeId v = m0 !! nodeId v) ->
  exists kepts m' asked', keepLayers srv asked old target (length ready) (ready ++ replicate (length old) []) m =
      Ok (ready ++ kepts, m', asked') /\
    Forall2 (fun o k => length k <= target /\ kept_of o target m0 k) old kepts /\
    values m ≡ₚ concat kepts ++ values m'.
Proof.
  revert asked ready m. induction old as [|nodes old IH]; intros asked ready m Hn Hm; cbn [keepLayers length replicate].
  - exists [], m, asked. split_and!; [done|constructor|done].
  - cbn [concat] in Hn, Hm. rewrite map_app in Hn. apply NoDup_app in Hn as (_ & Hdis & Hn).
    destruct (keepLoop_ok nodes (rng_Perm srv asked (length nodes)) target (length ready)
      (ready ++ [] :: replicate (length old) []) m []) as (kept & m' & -> & Hle & Hp & Hk & Hf & Hu).
    { apply perm_indexes. } { by rewrite list_lookup_middle. } { cbn. lia. } go.
    replace (<[length ready := [] ++ kept]> (ready ++ [] :: replicate (length old) []))
      with ((ready ++ [kept]) ++ replicate (length old) []).
    2:{ replace (length ready) with (length ready + 0) by lia. rewrite insert_app_r, <- app_assoc. done. }
    destruct (IH (asked ++ [length nodes]) (ready ++ [kept]) m' Hn) as (kepts & m'' & asked' & Hrec & Hall & Hp').
    { intros v Hv. rewrite Hu; [apply Hm, elem_of_app; by right|]. intros w Hw He.
      apply (Hdis (nodeId v)); [rewrite <- He|]; by apply list_elem_of_In, in_map, list_elem_of_In. }
    rewrite length_app in Hrec. cbn [length] in Hrec. rewrite Nat.add_1_r in Hrec. rewrite Hrec.
    exists (kept :: kepts), m'', asked'. rewrite <- app_assoc. split_and!; [done| |].
    + constructor; [|done]. split; [done|]. split.
      * eapply Forall_impl; [exact Hk|]. intros n (v & Hv & Hvn). exists v. split; [done|].
        rewrite <- Hm; [done|]. apply elem_of_app. by left.
      * destruct Hf as [Hf|Hf]; [by left|right]. intros v n Hv Hvn. destruct (perm_all srv asked nodes v Hv) as (i & Hi & Hiv).
        apply (Hf i v n Hi Hiv). rewrite Hm; [done|]. apply elem_of_app. by left.
    + cbn [concat]. by rewrite Hp, Hp', app_assoc.
Qed.

(** ** Filling the layers *)

Lemma fillLayer_ok toAssign idxs ns target layer t l :
  at_indexes toAssign idxs ns -> t !! layer = Some l -> length l <= target -> target - length l <= length ns ->
  exists added idxs' ns', fillLayer toAssign idxs target layer t = Ok (<[layer := l ++ added]> t, idxs') /\
    length (l ++ added) = target /\ ns = added ++ ns' /\ at_indexes toAssign idxs' ns'.
Proof.
  intros H. revert t l. induction H as [|i n idxs ns Hi H IH]; intros t l Hl Hle Hn; cbn [fillLayer];
    rewrite (index_ok _ _ _ Hl); go; case_bool_decide as Hlt.
  - cbn in Hn. lia.
  - exists [], [], []. rewrite app_nil_r, list_insert_id by done. split_and!; [done|lia|done|constructor].
  - rewrite (index_ok _ _ _ Hi). go.
    destruct (IH (<[layer := l ++ [n]]> t) (l ++ [n])) as (added & idxs' & ns' & -> & Hlen & -> & Hat).
    { apply list_lookup_insert_eq. by eapply lookup_lt_Some. } { golen. } { cbn in Hn. golen. }
    rewrite list_insert_insert_eq, <- app_assoc in *. by exists (n :: added), idxs', ns'.
  - exists [], (i :: idxs), (n :: ns). rewrite app_nil_r, list_insert_id by done. split_and!; [done|lia|done|by constructor].
Qed.

Definition room (target : nat) (kepts : list (list MixDescriptor)) : nat :=
  foldr (fun k s => target - length k + s) 0 kepts.

Lemma fillLayers_ok toAssign idxs ns target kepts ready :
  at_indexes toAssign idxs ns -> Forall (fun k => length k <= target) kepts -> room target kepts <= length ns ->
  exists full idxs' ns' used, fillLayers toAssign (length kepts) idxs target (length ready) (ready ++ kepts) = Ok (ready ++ full, idxs') /\
    Forall2 (fun k f => exists added, f = k ++ added /\ length f = target) kepts full /\
    ns = used ++ ns' /\ concat full ≡ₚ concat kepts ++ used /\ at_indexes toAssign idxs' ns'.
Proof.
  intros Hat Hk. revert idxs ns ready Hat. induction Hk as [|k kepts Hk _ IH]; intros idxs ns ready Hat Hr;
    cbn [length fillLayers room foldr] in *.
  - exists [], idxs, ns, []. split_and!; [done|constructor|done..].
  - fold (room target kepts) in Hr.
    destruct (fillLayer_ok toAssign idxs ns target (length ready) (ready ++ k :: kepts) k)
      as (added & idxs' & ns' & -> & Hlen & -> & Hat'); [done|by rewrite list_lookup_middle|done|lia|]. go.
    replace (<[length ready := k ++ added]> (ready ++ k :: kepts)) with ((ready ++ [k ++ added]) ++ kepts).
    2:{ replace (length ready) with (length ready + 0) by lia. rewrite insert_app_r, <- app_assoc. done. }
    rewrite length_app in Hr, Hlen.
    destruct (IH idxs' ns' (ready ++ [k ++ added]) Hat') as (full & idxs'' & ns'' & used & Hrec & Hall & -> & Hc & Hat''); [lia|].
    rewrite length_app in Hrec. cbn [length] in Hrec. rewrite Nat.add_1_r in Hrec. rewrite Hrec.
    exists ((k ++ added) :: full), idxs'', ns'', (added ++ used). rewrite <- app_assoc. split_and!; [done| |by rewrite app_assoc| |done].
    + constructor; [|done]. exists added. by rewrite length_app.
    + cbn [concat]. rewrite Hc, <- !app_assoc. apply Permutation_app_head. rewrite !app_assoc.
      apply Permutation_app_tail, Permutation_app_comm.
Qed.

End MixTopology.

Section TopologyProofs.

Context (Sum256 : bytes -> bytes) {R : Rng} {RL : RngLaws R}.

Abbreviation id := (nodeId Sum256).

Lemma nodeMap_fold nodes m :
  NoDup (map id nodes) -> (forall v, v ∈ nodes -> m !! id v = None) ->
  values (foldl (fun m v => <[id v := v]> m) m nodes) ≡ₚ nodes ++ values m /\
  forall v, v ∈ nodes -> foldl (fun m v => <[id v := v]> m) m nodes !! id v = Some v.
Proof.
  revert m. induction nodes as [|n nodes IH]; intros m Hn Hm; cbn [foldl map] in *.
  { split; [done|]. intros v Hv. by apply elem_of_nil in Hv. }
  apply NoDup_cons in Hn as [Hnn Hn].
  assert (Hne : forall v, v ∈ nodes -> id n <> id v).
  { intros v Hv He. apply Hnn. rewrite He. by apply list_elem_of_In, in_map, list_elem_of_In. }
  destruct (IH (<[id n := n]> m) Hn) as [Hp Hl].
  { intros v Hv. rewrite lookup_insert_ne by auto. apply Hm. by right. }
  split.
  - rewrite Hp. unfold values at 1. rewrite map_to_list_insert by (apply Hm; by left). cbn [map snd].
    by rewrite <- Permutation_middle.
  - intros v Hv. apply elem_of_cons in Hv as [->|Hv]; [|by apply Hl].
    clear - Hne. assert (H : (<[id n := n]> m) !! id n = Some n) by apply lookup_insert_eq. revert H.
    generalize (<[id n := n]> m). induction nodes as [|w nodes IH]; intros m' H; [done|]. cbn.
    apply IH; [intros; apply Hne; by right|]. rewrite lookup_insert_ne; [done|]. intros He. by apply (Hne w); [left|].
Qed.

Lemma nodeMap_ok nodes :
  NoDup (map id nodes) ->
  values (nodeMap Sum256 nodes) ≡ₚ nodes /\ forall v, v ∈ nodes -> nodeMap Sum256 nodes !! id v = Some v.
Proof.
  intros Hn. destruct (nodeMap_fold nodes ∅ Hn) as [Hp Hl]; [intros; apply lookup_empty|].
  split; [|done]. unfold nodeMap. rewrite Hp. unfold values. rewrite map_to_list_empty. by rewrite app_nil_r.
Qed.

Lemma nodeMap_id nodes k n : nodeMap Sum256 nodes !! k = Some n -> n ∈ nodes /\ id n = k.
Proof.
  unfold nodeMap. assert (H0 : forall k n, (∅ : gmap bytes MixDescriptor) !! k = Some n -> n ∈ nodes /\ id n = k)
    by (intros; simplify_map_eq). revert H0. generalize (∅ : gmap bytes MixDescriptor) as m.
  assert (Hs : forall v, v ∈ nodes -> v ∈ nodes) by done. revert Hs. generalize nodes at 1 4 as ns.
  induction ns as [|v ns IH]; intros Hs m Hm; cbn [foldl]; [by apply Hm|]. apply IH.
  - intros w Hw. apply Hs. by right.
  - intros k' n' [[<- <-]|[_ H]]%lookup_insert_Some; [|by apply Hm]. split; [apply Hs; by left|done].
Qed.

Lemma room_sum target kepts :
  Forall (fun k : list MixDescriptor => length k <= target) kepts ->
  room target kepts + length (concat kepts) = length kepts * target.
Proof.
  induction 1 as [|k kepts Hk _ IH]; [done|]. cbn [room foldr concat length]. fold (room target kepts).
  rewrite length_app. lia.
Qed.

End TopologyProofs.

(** With the topology of the previous document, every authority assigns
    each mix to exactly one layer, whatever order it visits its maps in, and all
    of them the same way; layers get their share of the mixes, rounded down or
    up; and a layer is first filled with mixes it had before, all of those that
    are still there unless its share is full. *)
Theorem topology_preserved (Sum256 : bytes -> bytes) {R : Rng} {RL : RngLaws R} layers nodes doc srv :
  0 < layers -> length srv = 32 -> length (Topology doc) = layers ->
  NoDup (map (nodeId Sum256) nodes) -> NoDup (map (nodeId Sum256) (concat (Topology doc))) ->
  exists t, (forall (O : MapOrder), MapOrderLaws O -> generateTopology Sum256 layers nodes doc srv = Ok t) /\
    concat t ≡ₚ nodes /\ balanced layers (length nodes) t /\
    forall i old l, Topology doc !! i = Some old -> t !! i = Some l ->
      exists kept more, l = kept ++ more /\ Forall (fun n => nodeId Sum256 n ∈ map (nodeId Sum256) old) kept /\
        (length kept = length nodes / layers \/
         forall n, n ∈ nodes -> nodeId Sum256 n ∈ map (nodeId Sum256) old -> n ∈ kept).
Proof.
  intros Hl0 Hsrv Hold Hn Hdoc. set (target := length nodes / layers).
  destruct (nodeMap_ok Sum256 nodes Hn) as [Hvals Hlook].
  destruct (keepLayers_ok Sum256 srv [] (Topology doc) target [] (nodeMap Sum256 nodes) (nodeMap Sum256 nodes) Hdoc)
    as (kepts & m' & asked & Hkeep & Hkept & Hvm); [done|]. cbn [app length] in Hkeep. rewrite Hold in Hkeep.
  set (toAssign := sortBy (nodeId Sum256) (values m')).
  assert (Hassign : toAssign ≡ₚ values m') by apply sortBy_perm.
  destruct (at_indexes_ex toAssign (rng_Perm srv asked (length toAssign))) as [ns Hat]; [apply perm_indexes|].
  assert (Hns : ns ≡ₚ toAssign) by (eapply at_indexes_perm; [apply rng_perm|done]).
  assert (Hkl : Forall (fun k => length k <= target) kepts).
  { clear - Hkept. induction Hkept as [|? ? ? ? [? _] _ IH]; by constructor. }
  pose proof (Forall2_length _ _ _ Hkept) as Hlen. rewrite Hold in Hlen.
  assert (Hcount : length nodes = length (concat kepts) + length ns).
  { by rewrite <- Hvals, Hvm, length_app, Hns, Hassign. }
  assert (Hdiv : layers * target <= length nodes) by apply Nat.Div0.mul_div_le.
  pose proof (room_sum target kepts Hkl) as Hroom.
  destruct (fillLayers_ok toAssign _ ns target kepts [] Hat Hkl) as (full & idxs' & ns' & used & Hfill & Hfull & -> & Hcf & Hat'); [lia|].
  cbn [app length] in Hfill. pose proof (Forall2_length _ _ _ Hfull) as Hlenf.
  assert (Hlev : level target 0 full).
  { split; [lia|]. intros j f Hj. destruct (Forall2_lookup_r _ _ _ _ _ Hfull Hj) as (k & _ & _ & _ & ?). by rewrite decide_False by lia. }
  destruct (dealLoop_ok toAssign idxs' ns' target 0 full Hlev Hat') as (t & s' & lay' & Hdeal & Hlev' & Hlt & Hct & Hsum & Hext).
  exists t. split_and!.
  - intros O OL. unfold generateTopology. rewrite rng_valid_seed by done. rewrite bool_decide_eq_false_2 by lia. cbn [negb].
    fold target. rewrite Hkeep. go.
    assert (Hsort : sortNodesByPublicKey Sum256 (map snd (entries m')) = toAssign).
    { apply sortBy_unique; [apply Permutation_map, entries_perm|]. intros x y Hx Hy He.
      assert (Hin : forall z, z ∈ map snd (entries m') -> z ∈ nodes).
      { intros z Hz. rewrite <- Hvals, Hvm. apply elem_of_app. right. unfold values.
        by rewrite <- (Permutation_map snd (entries_perm m')). }
      by apply (nodup_keyed (nodeId Sum256) nodes Hn); auto. }
    rewrite <- Hlen in Hfill. rewrite Hsort, Hold, Hfill. by go.
  - rewrite Hct, Hcf, <- app_assoc, Hns, Hassign, <- Hvm. done.
  - assert (HL : length full = layers) by lia. rewrite HL in Hlt, Hsum.
    assert (Hfc : length (concat full) = layers * target).
    { rewrite <- HL. clear - Hfull. induction Hfull as [|k f kepts full (added & _ & Hf) _ IH]; [done|].
      cbn [concat length]. rewrite length_app. lia. }
    rewrite Hcf, length_app in Hfc. rewrite length_app in Hcount.
    pose proof (level_balanced s' lay' t (length nodes) Hlev') as Hbal. rewrite Hlt in Hbal. apply Hbal. lia.
  - intros i old l Hi Hti. destruct (Forall2_lookup_l _ _ _ _ _ Hkept Hi) as (k & Hk & _ & Hall & Hfullk).
    destruct (Forall2_lookup_l _ _ _ _ _ Hfull Hk) as (f & Hf & added & -> & _).
    destruct (Hext i _ Hf) as [more Hm]. exists k, (added ++ more). rewrite Hm in Hti. injection Hti as <-.
    rewrite app_assoc. split_and!; [done| |].
    + eapply Forall_impl; [exact Hall|]. intros n (v & Hv & Hvn). apply nodeMap_id in Hvn as [_ ->].
      by apply list_elem_of_In, in_map, list_elem_of_In.
    + destruct Hfullk as [?|Hfullk]; [by left|right]. intros n Hnn Hno.
      apply list_elem_of_In, in_map_iff in Hno as (v & Hv & Hvo). apply list_elem_of_In in Hvo.
      apply (Hfullk v n Hvo). rewrite Hv. by apply Hlook.
Qed.

(** Without a previous document the layers get their share as well. *)
Theorem random_topology {R : Rng} {RL : RngLaws R} layers nodes srv :
  0 < layers -> length srv = 32 ->
  exists t, generateRandomTopology layers nodes srv = Ok t /\ concat t ≡ₚ nodes /\ balanced layers (length nodes) t.
Proof.
  intros Hl Hsrv. unfold generateRandomTopology. rewrite bool_decide_eq_true_2, rng_valid_seed by done. cbn [negb].
  destruct (at_indexes_ex nodes (rng_Perm srv [] (length nodes))) as [ns Hat]; [apply perm_indexes|].
  assert (Hns : ns ≡ₚ nodes) by (eapply at_indexes_perm; [apply rng_perm|done]).
  assert (Hlev0 : level 0 0 (replicate layers [])).
  { split; [by rewrite length_replicate|]. by intros j l [-> _]%lookup_replicate. }
  destruct (dealLoop_ok nodes _ ns 0 0 (replicate layers []) Hlev0 Hat) as (t & s' & lay' & -> & Hlev & Hlen & Hc & Hsum & _).
  rewrite length_replicate in *. exists t. split_and!; [done| |].
  - rewrite Hc, Hns. replace (concat (replicate layers [])) with ([] : list MixDescriptor); [done|].
    clear. by induction layers.
  - rewrite <- Hlen. apply (level_balanced s' lay' t); [done|]. rewrite Hlen, Hsum, Hns. lia.
Qed.

(** A node is in a layer of a fixed topology exactly when the layer lists its
    key and the node has published a descriptor. *)
Theorem fixed_topology Sum256 layers nodes i ids l n :
  NoDup (map (nodeId Sum256) nodes) -> layers !! i = Some ids ->
  generateFixedTopology Sum256 layers nodes !! i = Some l ->
  n ∈ l <-> n ∈ nodes /\ nodeId Sum256 n ∈ ids.
Proof.
  intros Hn Hi Hl. unfold generateFixedTopology in Hl. change (map ?f ?x) with (f <$> x) in Hl.
  rewrite list_lookup_fmap, Hi in Hl. injection Hl as <-. rewrite list_elem_of_omap. split.
  - intros (k & Hk & Hkn). apply nodeMap_id in Hkn as [? ->]. done.
  - intros [Hnn Hk]. exists (nodeId Sum256 n). split; [done|]. by apply nodeMap_ok.
Qed.

(** *** A concrete topology *)

Definition toyRng : Rng := {| rng_valid := fun _ => true; rng_Perm := fun _ _ n => seq 0 n |}.

Lemma toyRng_laws : RngLaws toyRng.
Proof. by split. Qed.

Definition toyMixes : list MixDescriptor :=
  [toyNode "mix1" 3 false false; toyNode "mix3" 7 false false; toyNode "mix4" 9 false false; toyNode "mix5" 15 false false].

Lemma topology_preserved_witness :
  exists t, @generateTopology toySum toyRng toyOrder 2 toyMixes toyDocument (zeros 32) = Ok t /\ concat t ≡ₚ toyMixes.
Proof.
  destruct (@topology_preserved toySum toyRng toyRng_laws 2 toyMixes toyDocument (zeros 32)) as (t & H & Hc & _).
  - lia.
  - reflexivity.
  - reflexivity.
  - apply (bool_decide_unpack _). vm_compute. exact I.
  - apply (bool_decide_unpack _). vm_compute. exact I.
  - exists t. split; [apply H; exact toyOrder_laws|exact Hc].
Defined.
