(* ===== verification/DocumentCert.v ===== *)
(** Signed and well-formed documents: certificates around documents and the
    checks of [core/pki/document.go] and [core/pki/descriptor.go].

    Signatures, serializations, map order and hashes are the parameters of
    [Cert]; the serialization of a document leaves out its signatures.  Go's
    [url.Parse] and [net.SplitHostPort] are [WebAddresses]. *)

From S2P Require Import Prelude SphinxGeo ByteOrder Cert PkiDocument.
From Stdlib Require Import ZArith Lia.
From stdpp Require Import prelude list strings gmap.

Local Open Scope Z_scope.

Definition DocumentVersion : string := "v1".
Definition ErrDocumentNotSigned : string := "document not signed".

Definition setSignatures (d : Document) (sigs : gmap bytes Signature) : Document :=
  mkDocument (doc_Epoch d) (Topology d) (GatewayNodes d) (ServiceNodes d) (StorageReplicas d) (MuMaxDelay d)
    (GenesisEpoch d) (SendRatePerMinute d) (Mu d) (LambdaP d) (LambdaPMaxDelay d) (LambdaL d) (LambdaLMaxDelay d)
    (LambdaD d) (LambdaDMaxDelay d) (LambdaM d) (LambdaMMaxDelay d) (LambdaG d) (LambdaGMaxDelay d) (LambdaR d)
    (LambdaRMaxDelay d) (ConfiguredReplicaIDs d) (ConfiguredReplicaIdentityKeys d) (ReplicaEnvelopeKeys d) sigs
    (SharedRandomCommit d) (SharedRandomReveal d) (SharedRandomValue d) (PriorSharedRandom d) (SphinxGeometryHash d)
    (doc_Version d) (PKISignatureScheme d).

Definition setVersion (d : Document) (v : string) : Document :=
  mkDocument (doc_Epoch d) (Topology d) (GatewayNodes d) (ServiceNodes d) (StorageReplicas d) (MuMaxDelay d)
    (GenesisEpoch d) (SendRatePerMinute d) (Mu d) (LambdaP d) (LambdaPMaxDelay d) (LambdaL d) (LambdaLMaxDelay d)
    (LambdaD d) (LambdaDMaxDelay d) (LambdaM d) (LambdaMMaxDelay d) (LambdaG d) (LambdaGMaxDelay d) (LambdaR d)
    (LambdaRMaxDelay d) (ConfiguredReplicaIDs d) (ConfiguredReplicaIdentityKeys d) (ReplicaEnvelopeKeys d) (Signatures d)
    (SharedRandomCommit d) (SharedRandomReveal d) (SharedRandomValue d) (PriorSharedRandom d) (SphinxGeometryHash d)
    v (PKISignatureScheme d).

(** [url.Parse], as the scheme, the host and the path, and whether
    [net.SplitHostPort] accepts a host. *)
Class WebAddresses := {
  url_Parse : string -> option (string * string * string);
  splitHostPort : string -> bool;
}.

(** [for _, x := range l { if err := check(x); err != nil { return err } }]. *)
Fixpoint checkAll {A} (check : A -> outcome ()) (l : list A) : outcome () :=
  match l with
  | [] => Ok ()
  | x :: l => _ ← check x; checkAll check l
  end.

Lemma checkAll_ok {A} (check : A -> outcome ()) l : checkAll check l = Ok () <-> Forall (fun x => check x = Ok ()) l.
Proof.
  induction l as [|x l IH]; cbn; [by split|]. rewrite Forall_cons, <- IH. split.
  - intros H. go_inv H. by destruct v.
  - intros [-> ?]. by go.
Qed.

Section Descriptors.

Context {W : WebAddresses}.

Definition TransportWebTransport : string := "webtransport".
Definition hostTransports : list string := ["ws"; "tcp"; "tcp4"; "tcp6"; "quic"]%string.

Definition isDescriptorAddressWellFormed (transport : string) (isGatewayNode allowOnion : bool) (addr : string) : outcome () :=
  match url_Parse addr with
  | None => Err "url"
  | Some (scheme, host, path) =>
    if bool_decide (transport = TransportWebTransport) then
      if negb isGatewayNode then Err "Non-gateway published Transport"
      else if negb (bool_decide (scheme = "https"%string)) then Err "WebTransport descriptor address must use https"
      else if negb (splitHostPort host) then Err "invalid descriptor address"
      else if bool_decide (path = ""%string) then Err "WebTransport descriptor address must include a path"
      else Ok ()
    else if bool_decide (scheme ∈ hostTransports) then
      if negb (splitHostPort host) then Err "invalid descriptor address" else Ok ()
    else if bool_decide (scheme = "onion"%string) then
      if negb allowOnion then Err "Onion Transport not yet supported in pigeonhole storage replica"
      else if negb isGatewayNode then Err "Non-gateway published Transport"
      else Ok ()
    else Err "Unsupported listener scheme"
  end.

(** The addresses of a descriptor; the order of transports only decides which
    error is reported. *)
Definition addressesWellFormed (isGatewayNode allowOnion : bool) (addresses : gmap string (list string)) : outcome () :=
  checkAll (fun '(transport, addrs) =>
    if bool_decide (addrs = []) then Err "Descriptor contains empty Address list"
    else checkAll (isDescriptorAddressWellFormed transport isGatewayNode allowOnion) addrs) (map_to_list addresses).

Definition validateKaetzchen (m : option (gmap string (option (gmap string (option string))))) : outcome () :=
  match m with
  | None => Ok ()
  | Some m =>
    checkAll (fun '(capa, params) =>
      if bool_decide (capa = ""%string) then Err "capability lenght out of bounds"
      else match params with
      | None => Err "capability has no parameters"
      | Some params =>
        match params !! "endpoint"%string with
        | None => Err "capaiblity provided no endpoint"
        | Some None => Err "capability invalid endpoint type"
        | Some (Some ep) =>
          if bool_decide (String.length ep = 0%nat) || bool_decide (RecipientIDLength < String.length ep)%nat
          then Err "capability invalid endpoint, length out of bounds" else Ok ()
        end
      end) (map_to_list m)
  end.

Definition IsDescriptorWellFormed (d : MixDescriptor) (epoch : Z) : outcome () :=
  if bool_decide (Name d = ""%string) then Err "Descriptor missing Name"
  else if bool_decide (NodeIDLength < String.length (Name d))%nat then Err "Descriptor Name exceeds max length"
  else if bool_decide (LinkKey d = None) then Err "Descriptor missing LinkKey"
  else if bool_decide (IdentityKey d = None) then Err "Descriptor missing IdentityKey"
  else if bool_decide (mjoin (PkiDocument.MixKeys d !! epoch) = None) then Err "Descriptor missing MixKey"
  else
    _ ← checkAll (fun '(e, _) => if bool_decide (e < epoch) || bool_decide (wrap 64 (epoch + 3) <= e)
                                 then Err "Descriptor contains MixKey for invalid epoch" else Ok ())
          (map_to_list (PkiDocument.MixKeys d));
    if bool_decide (Addresses d = ∅) then Err "Descriptor missing Addresses"
    else
      _ ← addressesWellFormed (IsGatewayNode d) true (Addresses d);
      if negb (IsServiceNode d) then
        if bool_decide (Kaetzchen d = None) then Ok () else Err "Descriptor contains Kaetzchen when a mix"
      else validateKaetzchen (Kaetzchen d).

Definition IsReplicaDescriptorWellFormed (d : ReplicaDescriptor) : outcome () :=
  if bool_decide (rd_Name d = ""%string) then Err "ReplicaDescriptor missing Name"
  else if bool_decide (NodeIDLength < String.length (rd_Name d))%nat then Err "ReplicaDescriptor Name exceeds max length"
  else if bool_decide (rd_LinkKey d = None) then Err "ReplicaDescriptor missing LinkKey"
  else if bool_decide (rd_IdentityKey d = None) then Err "ReplicaDescriptor missing IdentityKey"
  else if bool_decide (EnvelopeKeys d = ∅) then Err "ReplicaDescriptor EnvelopeKeys is zero size"
  else if bool_decide (rd_Addresses d = ∅) then Err "ReplicaDescriptor missing Addresses"
  else addressesWellFormed false false (rd_Addresses d).

End Descriptors.

Section DocumentCert.

Context {S : SignScheme} {C : Codec Certificate} {CD : Codec Document} {O : MapOrder} {W : WebAddresses}.
Context (Sum256 blake2b_Sum256 : bytes -> bytes) (now : Z).

Definition MarshalCertificate (d : Document) : outcome bytes :=
  match codec_Marshal (setVersion d DocumentVersion) with
  | None => Err "cbor: cannot encode"
  | Some payload =>
    cert_Marshal (mkCertificate CertVersion (wrap 64 (doc_Epoch d + 5)) (PKISignatureScheme d) payload (Signatures d))
  end.

Definition UnmarshalCertificate (data : bytes) : outcome Document :=
  certified ← GetCertified now data;
  sigs ← GetSignatures now data;
  if bool_decide (length sigs = 0%nat) then Err ErrDocumentNotSigned
  else
    match codec_Unmarshal certified with
    | None => Err "cbor: cannot decode"
    | Some d => Ok (setSignatures d (foldl (fun m s => <[PublicKeySum256 s := s]> m) (∅ : gmap bytes Signature) sigs))
    end.

Definition ParseDocument (b : bytes) : outcome Document := UnmarshalCertificate b.

Definition FromPayload (verifier : sg_PublicKey) (payload : bytes) : outcome Document :=
  _ ← cert_Verify now verifier payload; UnmarshalCertificate payload.

(** The signed bytes and the document with the signature. *)
Definition SignDocument (signer : sg_PrivateKey) (verifier : sg_PublicKey) (d : Document) : outcome (bytes * Document) :=
  let d := setVersion d DocumentVersion in
  certified ← panic_on_err (MarshalCertificate d);
  recertified ← panic_on_err (SignMulti now signer verifier certified);
  d ← UnmarshalCertificate recertified;
  Ok (recertified, d).

(** [Document.AddSignature]. *)
Definition doc_AddSignature (verifier : sg_PublicKey) (sig : Signature) (d : Document) : outcome Document :=
  payload ← MarshalCertificate d;
  _ ← cert_AddSignature now verifier sig payload;
  Ok (setSignatures d (<[Sum256From verifier := sig]> (Signatures d))).

(** The commit, and in a certificate the reveal, of an authority. *)
Definition commitWellFormed (vmap : gmap bytes sg_PublicKey) (d : Document) (x : bytes * bytes) : outcome () :=
  let '(id, signedCommit) := x in
  match vmap !! id with
  | None => Err "Document has unknown verifier on a SharedRandomCommit"
  | Some verifier =>
    match cert_Verify now verifier signedCommit with
    | Panic => Panic
    | Err _ => Err "Document has invalid signed SharedRandomCommit"
    | Ok commit =>
      if negb (bool_decide (length commit = SharedRandomLength)) then Err "Document has invalid SharedRandomCommit"
      else if negb (Z.eqb (be_combine (take 8 commit)) (doc_Epoch d)) then Err "Document with invalid Epoch in SharedRandomCommit"
      else if bool_decide (size (SharedRandomCommit d) = 1%nat) then
        if bool_decide (size (SharedRandomReveal d) = 0%nat) then Ok () else Err "Document is not a valid Vote"
      else if negb (bool_decide (size (SharedRandomReveal d) = size (SharedRandomCommit d))) then Err "Document is Malformed"
      else
        match SharedRandomReveal d !! id with
        | None => Err "Document is missing a SharedRandomReveal"
        | Some signedReveal =>
          match cert_Verify now verifier signedReveal with
          | Panic => Panic
          | Err _ => Err "Document has an Invalid Signature on SharedRandomReveal"
          | Ok reveal =>
            srv ← SetCommit (mkSharedRandom 0 [] []) commit;
            ok ← sr_Verify blake2b_Sum256 srv reveal;
            match ok with true => Ok () | false => Err "Document has an invalid Reveal" end
          end
        end
    end
  end.

(** Check nodes one after the other and that no key appears twice; the key
    hashes seen. *)
Fixpoint nodesWellFormed (check : MixDescriptor -> outcome ()) (pks : gset bytes) (nodes : list MixDescriptor)
    : outcome (gset bytes) :=
  match nodes with
  | [] => Ok pks
  | desc :: nodes =>
    _ ← check desc;
    let pk := idHash Sum256 (IdentityKey desc) in
    if bool_decide (pk ∈ pks) then Err "Document contains multiple entries"
    else nodesWellFormed check ({[pk]} ∪ pks) nodes
  end.

Fixpoint layersWellFormed (epoch : Z) (pks : gset bytes) (layers : list (list MixDescriptor)) : outcome (gset bytes) :=
  match layers with
  | [] => Ok pks
  | nodes :: layers =>
    if bool_decide (nodes = []) then Err "Document Topology layer contains no nodes"
    else
      pks ← nodesWellFormed (fun d => IsDescriptorWellFormed d epoch) pks nodes;
      layersWellFormed epoch pks layers
  end.

Definition gatewayWellFormed (epoch : Z) (desc : MixDescriptor) : outcome () :=
  _ ← IsDescriptorWellFormed desc epoch;
  if IsGatewayNode desc then Ok () else Err "Document lists as a Provider with desc.IsGatewayNode".

Definition serviceWellFormed (epoch : Z) (desc : MixDescriptor) : outcome () :=
  _ ← IsDescriptorWellFormed desc epoch;
  if IsServiceNode desc then Ok () else Err "Document lists as a Provider with desc.IsServiceNode".

Definition IsDocumentWellFormed (d : Document) (verifiers : list sg_PublicKey) : outcome () :=
  if negb (bool_decide (doc_Version d = DocumentVersion)) then Err "Invalid Document Version"
  else if Z.eqb (GenesisEpoch d) 0 then Err "Document has invalid GenesisEpoch"
  else if bool_decide (length (PriorSharedRandom d) = 0%nat) && negb (Z.eqb (GenesisEpoch d) (doc_Epoch d))
  then Err "Document has invalid PriorSharedRandom"
  else
    let vmap := foldl (fun m v => <[Sum256From v := v]> m) (∅ : gmap bytes sg_PublicKey) verifiers in
    _ ← checkAll (commitWellFormed vmap d) (entries (SharedRandomCommit d));
    if bool_decide (length (Topology d) = 0%nat) then Err "Document contains no Topology"
    else
      pks ← layersWellFormed (doc_Epoch d) ∅ (Topology d);
      if bool_decide (length (GatewayNodes d) = 0%nat) then Err "Document contains no Gateway Nodes"
      else if bool_decide (length (ServiceNodes d) = 0%nat) then Err "Document contains no Service Nodes"
      else
        pks ← nodesWellFormed (gatewayWellFormed (doc_Epoch d)) pks (GatewayNodes d);
        _ ← nodesWellFormed (serviceWellFormed (doc_Epoch d)) pks (ServiceNodes d);
        checkAll IsReplicaDescriptorWellFormed (StorageReplicas d).

End DocumentCert.

(** ** What the checks establish *)

Section WellFormed.

Context {W : WebAddresses} (Sum256 : bytes -> bytes).

Abbreviation key := (fun v => idHash Sum256 (IdentityKey v)).

Lemma IsDescriptorWellFormed_key d epoch :
  IsDescriptorWellFormed d epoch = Ok () -> is_Some (IdentityKey d) /\ is_Some (mjoin (PkiDocument.MixKeys d !! epoch)).
Proof.
  unfold IsDescriptorWellFormed. do 3 (case_bool_decide; [done|]). case_bool_decide as Hi; [done|].
  case_bool_decide as Hm; [done|]. intros _. split; by apply not_eq_None_Some.
Qed.

Lemma nodesWellFormed_ok check pks nodes pks' :
  nodesWellFormed Sum256 check pks nodes = Ok pks' ->
  Forall (fun v => check v = Ok ()) nodes /\ NoDup (map key nodes) /\
  (forall k, k ∈ map key nodes -> k ∉ pks) /\ pks' = list_to_set (map key nodes) ∪ pks.
Proof.
  revert pks. induction nodes as [|d nodes IH]; intros pks; cbn [nodesWellFormed map list_to_set].
  - intros [= ->]. split_and!; [constructor|constructor|by intros k ?%elem_of_nil|by rewrite union_empty_l_L].
  - intros H. go_inv H. destruct v. case_bool_decide as Hin; [done|].
    apply IH in H as (Hc & Hn & Hd & ->). split_and!; [by constructor| | |].
    + constructor; [|done]. intros Hk. apply Hd in Hk. apply Hk, elem_of_union. left. by apply elem_of_singleton.
    + intros k [->|Hk]%elem_of_cons; [done|]. apply Hd in Hk. intros Hp. apply Hk, elem_of_union. by right.
    + rewrite assoc_L by apply _. f_equal. apply comm_L. apply _.
Qed.

Lemma layersWellFormed_ok epoch pks layers pks' :
  layersWellFormed Sum256 epoch pks layers = Ok pks' ->
  Forall (fun v => IsDescriptorWellFormed v epoch = Ok ()) (concat layers) /\ Forall (fun l => l <> []) layers /\
  NoDup (map key (concat layers)) /\
  (forall k, k ∈ map key (concat layers) -> k ∉ pks) /\ pks' = list_to_set (map key (concat layers)) ∪ pks.
Proof.
  revert pks. induction layers as [|l layers IH]; intros pks; cbn [layersWellFormed concat].
  - intros [= ->]. cbn [map list_to_set]. split_and!; [by apply Forall_nil|by apply Forall_nil|by apply NoDup_nil|by intros k ?%elem_of_nil|by rewrite union_empty_l_L].
  - case_bool_decide as Hl; [done|]. intros H. go_inv H. apply nodesWellFormed_ok in E as (Hc & Hn & Hd & ->).
    apply IH in H as (Hc' & Hne & Hn' & Hd' & ->). rewrite map_app. split_and!; [by apply Forall_app|by constructor| | |].
    + apply NoDup_app. split_and!; [done| |done]. intros k Hk Hk'. apply Hd' in Hk'. apply Hk', elem_of_union. left.
      by apply elem_of_list_to_set.
    + intros k [Hk|Hk]%elem_of_app; [by apply Hd|]. apply Hd' in Hk. intros Hp. apply Hk, elem_of_union. by right.
    + rewrite list_to_set_app_L, assoc_L by apply _. f_equal. apply comm_L. apply _.
Qed.

End WellFormed.

(** C23: a document that passes [IsDocumentWellFormed] is one the lookups and
    path selection work on: no two nodes share an identity key, every layer has
    a mix, there is a gateway and a service node, each says so, and every node has an
    identity key and a mix key for the epoch; and no node appears twice. *)
Theorem well_formed_document {S : SignScheme} {C : Codec Certificate} {O : MapOrder} {W : WebAddresses}
    Sum256 blake2b now d verifiers :
  IsDocumentWellFormed Sum256 blake2b now d verifiers = Ok () ->
  distinct_keys Sum256 d /\
  Topology d <> [] /\ Forall (fun l => l <> []) (Topology d) /\ GatewayNodes d <> [] /\ ServiceNodes d <> [] /\
  Forall (fun v => IsGatewayNode v = true) (GatewayNodes d) /\ Forall (fun v => IsServiceNode v = true) (ServiceNodes d) /\
  Forall (fun v => is_Some (mjoin (PkiDocument.MixKeys v !! doc_Epoch d))) (allNodes d).
Proof.
  unfold IsDocumentWellFormed. destruct (negb (bool_decide _)); [done|]. destruct (Z.eqb _ _); [done|].
  destruct (_ && _); [done|]. intros H. go_inv H. clear E. case_bool_decide as Ht; [done|].
  go_inv H. apply layersWellFormed_ok in E as (Hc & Hne & Hn & _ & ->).
  case_bool_decide as Hg; [done|]. case_bool_decide as Hs; [done|].
  go_inv H. apply nodesWellFormed_ok in E as (Hcg & Hng & Hdg & ->).
  go_inv H. apply nodesWellFormed_ok in E as (Hcs & Hns & Hds & _). clear H.
  assert (Hgw : Forall (fun v => IsDescriptorWellFormed v (doc_Epoch d) = Ok () /\ IsGatewayNode v = true) (GatewayNodes d)).
  { eapply Forall_impl; [exact Hcg|]. intros w Hw. unfold gatewayWellFormed in Hw.
    destruct (IsDescriptorWellFormed w _) as [[]| |]; try done. by destruct (IsGatewayNode w). }
  assert (Hsn : Forall (fun v => IsDescriptorWellFormed v (doc_Epoch d) = Ok () /\ IsServiceNode v = true) (ServiceNodes d)).
  { eapply Forall_impl; [exact Hcs|]. intros w Hw. unfold serviceWellFormed in Hw.
    destruct (IsDescriptorWellFormed w _) as [[]| |]; try done. by destruct (IsServiceNode w). }
  assert (Hall : Forall (fun v => IsDescriptorWellFormed v (doc_Epoch d) = Ok ()) (allNodes d)).
  { unfold allNodes. rewrite !Forall_app. split_and!; [done| |]; eapply Forall_impl; [exact Hgw|by intros ? []|exact Hsn|by intros ? []]. }
  split_and!.
  - split; [eapply Forall_impl; [exact Hall|]; intros w Hw; by apply IsDescriptorWellFormed_key in Hw as []|].
    unfold allNodes. rewrite !map_app. rewrite !NoDup_app. split_and!; try done.
    + intros k Hk [Hk'|Hk']%elem_of_app; [apply Hdg in Hk'|apply Hds in Hk']; apply Hk'; rewrite !elem_of_union, !elem_of_list_to_set; auto.
    + intros k Hk Hk'. apply Hds in Hk'. apply Hk'. rewrite !elem_of_union, !elem_of_list_to_set. auto.
  - intros E. by rewrite E in Ht.
  - done.
  - intros E. by rewrite E in Hg.
  - intros E. by rewrite E in Hs.
  - eapply Forall_impl; [exact Hgw|by intros ? []].
  - eapply Forall_impl; [exact Hsn|by intros ? []].
  - eapply Forall_impl; [exact Hall|]. intros w Hw. by apply IsDescriptorWellFormed_key in Hw as [].
Qed.

(** *** A concrete document *)

Definition toyWeb : WebAddresses := {|
  url_Parse := fun _ => Some ("tcp"%string, "host:1"%string, "/"%string); splitHostPort := fun _ => true |}.

Definition toyDescriptor (name : string) (k : Z) (gw sv : bool) : MixDescriptor :=
  mkMixDescriptor name (Some [k]) {[ 6 := Some [k] ]} gw sv 6 (Some [k]) {[ "tcp"%string := ["tcp://host:1"%string] ]}
    None [] 0 "" "v0".

Definition toyConsensus : Document :=
  mkDocument 6 [[toyDescriptor "mix1" 3 false false]; [toyDescriptor "mix2" 5 false false]]
    [toyDescriptor "gateway" 11 true false] [toyDescriptor "service" 13 false true] [] 0
    6 0 0 0 0 0 0 0 0 0 0 0 0 0 0 [] [] ∅ ∅ ∅ ∅ [] [] [] "v1" "toy".

Lemma well_formed_document_witness : distinct_keys toySum toyConsensus /\ GatewayNodes toyConsensus <> [].
Proof.
  destruct (@well_formed_document toySign (toyCodec Certificate) toyOrder toyWeb toySum toySum 5 toyConsensus [])
    as (H & _ & _ & Hg & _).
  - vm_compute. reflexivity.
  - split; [exact H|exact Hg].
Defined.
