(* ===== verification/VotingState.v ===== *)
(** The state of a directory authority and the uploads it accepts:
    [authority/voting/server/state.go].

    [config] is what the configuration files give, the keys in them included;
    [newState] builds the tables of an authority from it.  The tables never
    change; [state] holds what the protocol writes.  A Go map from epochs to maps
    is a map of maps: reading an epoch without an entry reads the empty map.  The
    handlers run under the lock of the state, one at a time; [now] is the epoch
    of the clock when they do. *)

From S2P Require Import Prelude ByteOrder Cert PkiDocument MixTopology DocumentCert.
From Stdlib Require Import ZArith Lia.
From stdpp Require Import prelude list strings gmap.

Local Open Scope Z_scope.

(** ** Configuration *)

(** [config.Parameters]; a [float64] is its bit pattern. *)
Record Parameters := mkParameters {
  p_SendRatePerMinute : Z;
  p_Mu : Z;
  p_MuMaxDelay : Z;
  p_LambdaP : Z;
  p_LambdaPMaxDelay : Z;
  p_LambdaL : Z;
  p_LambdaLMaxDelay : Z;
  p_LambdaD : Z;
  p_LambdaDMaxDelay : Z;
  p_LambdaM : Z;
  p_LambdaG : Z;
  p_LambdaMMaxDelay : Z;
  p_LambdaGMaxDelay : Z;
  p_LambdaR : Z;
  p_LambdaRMaxDelay : Z;
}.

Section Tables.

Context {S : SignScheme}.

(** The parts of [config.Config] the state reads; a fixed topology lists the
    hashes of the keys of its nodes. *)
Record config := mkConfig {
  cfg_Authorities : list sg_PublicKey;
  cfg_Mixes : list (string * sg_PublicKey);
  cfg_GatewayNodes : list (string * sg_PublicKey);
  cfg_ServiceNodes : list (string * sg_PublicKey);
  cfg_StorageReplicas : list (string * Z * sg_PublicKey);
  cfg_Parameters : Parameters;
  cfg_Topology : option (list (list bytes));
  cfg_Layers : nat;
  cfg_MinNodesPerLayer : nat;
  cfg_PKISignatureScheme : string;
  cfg_SphinxGeometryHash : bytes;
}.

(** The tables of [type state struct]. *)
Record authority := mkAuthority {
  cfg : config;
  identityPrivateKey : sg_PrivateKey;
  identityPublicKey : sg_PublicKey;
  reverseHash : gmap bytes sg_PublicKey;
  authorizedMixes : gmap bytes string;
  authorizedGatewayNodes : gmap bytes string;
  authorizedServiceNodes : gmap bytes string;
  authorizedReplicaNodes : gmap bytes (string * Z);
  authorizedAuthorities : gset bytes;
  verifiers : gmap bytes sg_PublicKey;
  threshold : Z;
  dissenters : Z;
}.

(** One table of authorized nodes: [table[pk] = v.Identifier]. *)
Definition nodeTable {V} (l : list (V * sg_PublicKey)) : gmap bytes V :=
  foldl (fun m '(v, k) => <[Sum256From k := v]> m) ∅ l.

Definition addKeys (m : gmap bytes sg_PublicKey) (l : list sg_PublicKey) : gmap bytes sg_PublicKey :=
  foldl (fun m k => <[Sum256From k := k]> m) m l.

(** The tables [newState] builds. *)
Definition newState (c : config) (priv : sg_PrivateKey) (pub : sg_PublicKey) : authority :=
  let verifiers := <[Sum256From pub := pub]> (addKeys ∅ (cfg_Authorities c)) in
  let reverse := addKeys ∅ (map snd (cfg_Mixes c) ++ map snd (cfg_GatewayNodes c) ++ map snd (cfg_ServiceNodes c) ++
                            map snd (cfg_StorageReplicas c) ++ cfg_Authorities c) in
  mkAuthority c priv pub (<[Sum256From pub := pub]> reverse)
    (nodeTable (cfg_Mixes c)) (nodeTable (cfg_GatewayNodes c)) (nodeTable (cfg_ServiceNodes c))
    (nodeTable (cfg_StorageReplicas c)) (list_to_set (map Sum256From (cfg_Authorities c)))
    verifiers (Z.quot (Z.of_nat (size verifiers)) 2 + 1) (Z.quot (Z.of_nat (length (cfg_Authorities c))) 2 - 1).

Definition identityPubKeyHash (a : authority) : bytes := Sum256From (identityPublicKey a).

Definition isReplicaDescriptorAuthorized (Sum256 : bytes -> bytes) (a : authority) (desc : ReplicaDescriptor) : bool :=
  match authorizedReplicaNodes a !! idHash Sum256 (rd_IdentityKey desc) with
  | None => false
  | Some (name, id) => bool_decide (name = rd_Name desc) && Z.eqb id (ReplicaID desc)
  end.

Definition nameMatches (table : gmap bytes string) (pk : bytes) (name : string) : bool :=
  match table !! pk with
  | None => false
  | Some n => bool_decide (n = name)
  end.

Definition isDescriptorAuthorized (Sum256 : bytes -> bytes) (a : authority) (desc : MixDescriptor) : bool :=
  let pk := idHash Sum256 (IdentityKey desc) in
  if negb (IsGatewayNode desc) && negb (IsServiceNode desc) then nameMatches (authorizedMixes a) pk (Name desc)
  else if IsGatewayNode desc then nameMatches (authorizedGatewayNodes a) pk (Name desc)
  else nameMatches (authorizedServiceNodes a) pk (Name desc).

End Tables.

(** ** State *)

Inductive phase :=
  | stateBootstrap | stateAcceptDescriptor | stateAcceptVote | stateAcceptReveal | stateAcceptCert | stateAcceptSignature.

#[export] Instance phase_eq_dec : EqDecision phase.
Proof. solve_decision. Defined.

(** Maps from epochs to maps. *)
Abbreviation perEpoch V := (gmap Z (gmap bytes V)).

Definition at_epoch {V} (m : perEpoch V) (e : Z) : gmap bytes V := default ∅ (m !! e).

(** [if _, ok := m[e]; !ok { m[e] = make(...) }]. *)
Definition touch {V} (m : perEpoch V) (e : Z) : perEpoch V :=
  match m !! e with
  | Some _ => m
  | None => <[e := ∅]> m
  end.

(** [m[e][k] = v], where [m[e]] has been made. *)
Definition put {V} (m : perEpoch V) (e : Z) (k : bytes) (v : V) : perEpoch V := <[e := <[k := v]> (at_epoch m e)]> m.

Record state := mkState {
  documents : gmap Z Document;
  myconsensus : gmap Z Document;
  descriptors : perEpoch MixDescriptor;
  replicaDescriptors : perEpoch ReplicaDescriptor;
  votes : perEpoch Document;
  certificates : perEpoch Document;
  signatures : perEpoch Signature;
  priorSRV : list bytes;
  reveals : perEpoch bytes;
  commits : perEpoch bytes;
  cachedReplicaEnvelopeKeys : gmap Z (gmap Z bytes);
  votingEpoch : Z;
  genesisEpoch : Z;
  st_phase : phase;
}.

Definition emptyState : state := mkState ∅ ∅ ∅ ∅ ∅ ∅ ∅ [] ∅ ∅ ∅ 0 0 stateBootstrap.

Definition setVotes (s : state) v : state :=
  mkState (documents s) (myconsensus s) (descriptors s) (replicaDescriptors s) v (certificates s) (signatures s)
    (priorSRV s) (reveals s) (commits s) (cachedReplicaEnvelopeKeys s) (votingEpoch s) (genesisEpoch s) (st_phase s).
Definition setCommits (s : state) v : state :=
  mkState (documents s) (myconsensus s) (descriptors s) (replicaDescriptors s) (votes s) (certificates s) (signatures s)
    (priorSRV s) (reveals s) v (cachedReplicaEnvelopeKeys s) (votingEpoch s) (genesisEpoch s) (st_phase s).
Definition setReveals (s : state) v : state :=
  mkState (documents s) (myconsensus s) (descriptors s) (replicaDescriptors s) (votes s) (certificates s) (signatures s)
    (priorSRV s) v (commits s) (cachedReplicaEnvelopeKeys s) (votingEpoch s) (genesisEpoch s) (st_phase s).
Definition setCertificates (s : state) v : state :=
  mkState (documents s) (myconsensus s) (descriptors s) (replicaDescriptors s) (votes s) v (signatures s)
    (priorSRV s) (reveals s) (commits s) (cachedReplicaEnvelopeKeys s) (votingEpoch s) (genesisEpoch s) (st_phase s).
Definition setSigs (s : state) v : state :=
  mkState (documents s) (myconsensus s) (descriptors s) (replicaDescriptors s) (votes s) (certificates s) v
    (priorSRV s) (reveals s) (commits s) (cachedReplicaEnvelopeKeys s) (votingEpoch s) (genesisEpoch s) (st_phase s).
Definition setDescriptors (s : state) v : state :=
  mkState (documents s) (myconsensus s) v (replicaDescriptors s) (votes s) (certificates s) (signatures s)
    (priorSRV s) (reveals s) (commits s) (cachedReplicaEnvelopeKeys s) (votingEpoch s) (genesisEpoch s) (st_phase s).
Definition setReplicaDescriptors (s : state) v : state :=
  mkState (documents s) (myconsensus s) (descriptors s) v (votes s) (certificates s) (signatures s)
    (priorSRV s) (reveals s) (commits s) (cachedReplicaEnvelopeKeys s) (votingEpoch s) (genesisEpoch s) (st_phase s).

(** [pruneDocuments], for the current epoch [now], which is an unsigned integer;
    the caches that are pruned by epoch. *)
Definition preserveForPastEpochs : Z := 3.

Definition pruneMap {V} (cmpEpoch : Z) (m : gmap Z V) : gmap Z V := filter (fun '(e, _) => ~ e < cmpEpoch) m.

Definition pruneDocuments (now : Z) (s : state) : state :=
  let cmp := wrap 64 (now - preserveForPastEpochs) in
  mkState (pruneMap cmp (documents s)) (pruneMap cmp (myconsensus s)) (pruneMap cmp (descriptors s))
    (pruneMap cmp (replicaDescriptors s)) (pruneMap cmp (votes s)) (pruneMap cmp (certificates s))
    (pruneMap cmp (signatures s)) (priorSRV s) (pruneMap cmp (reveals s)) (pruneMap cmp (commits s))
    (cachedReplicaEnvelopeKeys s) (votingEpoch s) (genesisEpoch s) (st_phase s).

(** ** Uploads *)

(** The error codes of the four replies: [VoteOk], [RevealOk], [CertOk], [SigOk]
    and so on. *)
Inductive status :=
  | StOk | StNotAuthorized | StTooEarly | StTooLate | StNotSigned | StMalformed | StAlreadyReceived | StInvalid.

(** The commands, with the key the signature of the payload is checked with. *)
Record upload {S : SignScheme} := mkUpload { up_PublicKey : sg_PublicKey; up_Epoch : Z; up_Payload : bytes }.
Arguments upload {S}.
Arguments mkUpload {S} _ _ _.

Section Uploads.

Context {S : SignScheme} {C : Codec Certificate} {CD : Codec Document} {CS : Codec Signature} {O : MapOrder}.
Context (a : authority) (now : Z).

(** [cert.Verify] as the handlers use it: the data, or a reply. *)
Definition verified (u : upload) : option bytes :=
  match cert_Verify now (up_PublicKey u) (up_Payload u) with
  | Ok b => Some b
  | _ => None
  end.

Definition onVoteUpload (vote : upload) (s : state) : status * state :=
  let pk := Sum256From (up_PublicKey vote) in
  if negb (bool_decide (pk ∈ authorizedAuthorities a)) then (StNotAuthorized, s)
  else if bool_decide (up_Epoch vote < votingEpoch s) then (StTooEarly, s)
  else if bool_decide (votingEpoch s < up_Epoch vote) then (StTooLate, s)
  else
    let e := votingEpoch s in
    let s := setVotes s (touch (votes s) e) in
    let s := setCommits s (touch (commits s) e) in
    match at_epoch (votes s) e !! pk with
    | Some _ => (StAlreadyReceived, s)
    | None =>
      match verified vote with
      | None => (StNotSigned, s)
      | Some _ =>
        match ParseDocument now (up_Payload vote) with
        | Ok doc =>
          if negb (Z.eqb (doc_Epoch doc) e) then (StMalformed, s)
          else
            match SharedRandomCommit doc !! pk with
            | None => (StMalformed, s)
            | Some commit => (StOk, setCommits (setVotes s (put (votes s) e pk doc)) (put (commits s) e pk commit))
            end
        | _ => (StNotSigned, s)
        end
      end
    end.

(** A reveal whose payload certifies fewer than 8 bytes makes the handler panic. *)
Definition onRevealUpload (reveal : upload) (s : state) : outcome (status * state) :=
  let pk := Sum256From (up_PublicKey reveal) in
  if negb (bool_decide (pk ∈ authorizedAuthorities a)) then Ok (StNotAuthorized, s)
  else
    match verified reveal with
    | None => Ok (StNotSigned, s)
    | Some certified =>
      b ← slice_to certified 8;
      let e := be_combine b in
      if bool_decide (e < votingEpoch s) then Ok (StTooLate, s)
      else if bool_decide (votingEpoch s < e) then Ok (StTooEarly, s)
      else
        let e := votingEpoch s in
        match at_epoch (commits s) e !! pk with
        | None => Ok (StTooEarly, s)
        | Some _ =>
          let s := setReveals s (touch (reveals s) e) in
          match at_epoch (reveals s) e !! pk with
          | Some _ => Ok (StAlreadyReceived, s)
          | None => Ok (StOk, setReveals s (put (reveals s) e pk (up_Payload reveal)))
          end
        end
    end.

Definition onCertUpload (certificate : upload) (s : state) : status * state :=
  let pk := Sum256From (up_PublicKey certificate) in
  if negb (bool_decide (pk ∈ authorizedAuthorities a)) then (StNotAuthorized, s)
  else if bool_decide (up_Epoch certificate < votingEpoch s) then (StTooEarly, s)
  else if bool_decide (votingEpoch s < up_Epoch certificate) then (StTooLate, s)
  else
    match verified certificate with
    | None => (StNotSigned, s)
    | Some _ =>
      match ParseDocument now (up_Payload certificate) with
      | Ok doc =>
        let e := votingEpoch s in
        match at_epoch (votes s) e !! pk with
        | None => (StTooEarly, s)
        | Some _ =>
          let s := setCertificates s (touch (certificates s) e) in
          match at_epoch (certificates s) e !! pk with
          | Some _ => (StAlreadyReceived, s)
          | None => (StOk, setCertificates s (put (certificates s) e pk doc))
          end
        end
      | _ => (StNotSigned, s)
      end
    end.

Definition dupSig (sig : upload) (s : state) : bool :=
  bool_decide (is_Some (at_epoch (signatures s) (votingEpoch s) !! Sum256From (up_PublicKey sig))).

Definition onSigUpload (sig : upload) (s : state) : status * state :=
  let pk := Sum256From (up_PublicKey sig) in
  if negb (bool_decide (pk ∈ authorizedAuthorities a)) then (StNotAuthorized, s)
  else if bool_decide (up_Epoch sig < votingEpoch s) then (StTooEarly, s)
  else if bool_decide (votingEpoch s < up_Epoch sig) then (StTooLate, s)
  else
    match verified sig with
    | None => (StNotSigned, s)
    | Some v =>
      let e := votingEpoch s in
      let s := setSigs s (touch (signatures s) e) in
      if negb (dupSig sig s) then
        match codec_Unmarshal v with
        | None => (StInvalid, s)
        | Some csig => (StOk, setSigs s (put (signatures s) e pk csig))
        end
      else (StAlreadyReceived, s)
    end.

(** Descriptor uploads: the check under the read lock, and the update under the
    write lock after the descriptor is on disk, which other uploads may come
    between.  [Some] reply ends the upload. *)
Context (Sum256 : bytes -> bytes) {CM : Codec MixDescriptor} {CR : Codec ReplicaDescriptor}.

Definition checkUpload {D} {CDesc : Codec D} (known : perEpoch D) (docs : gmap Z Document) (rawDesc pk : bytes) (epoch : Z)
    : option (outcome ()) :=
  match at_epoch known epoch !! pk with
  | Some d =>
    match codec_Marshal d with
    | None => Some (Err "cbor: cannot encode")
    | Some serialized =>
      if bool_decide (serialized = rawDesc) then Some (Ok ()) else Some (Err "state: Conflicting descriptor")
    end
  | None => if bool_decide (is_Some (docs !! epoch)) then Some (Err "state: Late descriptor upload") else None
  end.

Definition storeUpload {D} (known : perEpoch D) (desc : D) (pk : bytes) (epoch : Z) : perEpoch D :=
  let known := touch known epoch in
  match at_epoch known epoch !! pk with
  | Some _ => known
  | None => put known epoch pk desc
  end.

(** [persisted] says whether the database took the descriptor. *)
Definition onDescriptorUpload (rawDesc : bytes) (desc : MixDescriptor) (epoch : Z) (persisted : bool) (s : state)
    : outcome () * state :=
  let pk := idHash Sum256 (IdentityKey desc) in
  match checkUpload (descriptors s) (documents s) rawDesc pk epoch with
  | Some r => (r, s)
  | None =>
    if persisted then (Ok (), setDescriptors s (storeUpload (descriptors s) desc pk epoch)) else (Err errFatal, s)
  end.

Definition onReplicaDescriptorUpload (rawDesc : bytes) (desc : ReplicaDescriptor) (epoch : Z) (persisted : bool) (s : state)
    : outcome () * state :=
  let pk := idHash Sum256 (rd_IdentityKey desc) in
  match checkUpload (replicaDescriptors s) (documents s) rawDesc pk epoch with
  | Some r => (r, s)
  | None =>
    if persisted then (Ok (), setReplicaDescriptors s (storeUpload (replicaDescriptors s) desc pk epoch)) else (Err errFatal, s)
  end.

(** Serving documents; [elapsed] and [Period] in nanoseconds. *)
Definition errGone : string := "authority: Requested epoch will never get a Document".
Definition errNotYet : string := "authority: Document is not ready yet".

Definition documentForEpoch (Period elapsed epoch : Z) (s : state) : outcome bytes :=
  let generationDeadline := 7 * Z.quot Period 8 in
  match documents s !! epoch with
  | Some d => MarshalCertificate d
  | None =>
    if Z.eqb epoch now then Err errGone
    else if Z.eqb epoch (wrap 64 (now + 1)) then
      if bool_decide (generationDeadline < elapsed) then Err errGone else Err errNotYet
    else if bool_decide (epoch < now) then Err errGone
    else Err "state: Request for invalid epoch"
  end.

End Uploads.

(** ** What uploads do to the state *)

Lemma at_epoch_touch {V} (m : perEpoch V) e e' : at_epoch (touch m e) e' = at_epoch m e'.
Proof.
  unfold touch, at_epoch. destruct (m !! e) as [x|] eqn:E; [done|].
  destruct (decide (e = e')) as [<-|Hne]; [by rewrite lookup_insert_eq, E|by rewrite lookup_insert_ne].
Qed.

Lemma at_epoch_put {V} (m : perEpoch V) e k v e' :
  at_epoch (put m e k v) e' = if decide (e = e') then <[k := v]> (at_epoch m e) else at_epoch m e'.
Proof.
  unfold put. unfold at_epoch at 1. destruct (decide (e = e')) as [<-|Hne]; [by rewrite lookup_insert_eq|].
  by rewrite lookup_insert_ne.
Qed.

(** Entries are added and never change; the new ones satisfy [P]. *)
Definition extends {V} (P : Z -> bytes -> V -> Prop) (m m' : perEpoch V) : Prop :=
  forall e k v, at_epoch m' e !! k = Some v <-> at_epoch m e !! k = Some v \/
    (at_epoch m e !! k = None /\ at_epoch m' e !! k = Some v /\ P e k v).

Lemma extends_refl {V} (P : Z -> bytes -> V -> Prop) (m : perEpoch V) : extends P m m.
Proof. intros e k v. split; [by left|]. intros [?|(? & ? & _)]; [done|congruence]. Qed.

Lemma extends_touch {V} (P : Z -> bytes -> V -> Prop) (m : perEpoch V) e : extends P m (touch m e).
Proof. intros e' k v. rewrite at_epoch_touch. apply extends_refl. Qed.

Lemma extends_put {V} (P : Z -> bytes -> V -> Prop) (m : perEpoch V) e k v :
  at_epoch m e !! k = None -> P e k v -> extends P m (put (touch m e) e k v).
Proof.
  intros Hn HP e' k' v'. rewrite at_epoch_put, !at_epoch_touch. destruct (decide (e = e')) as [<-|Hne]; [|apply extends_refl].
  destruct (decide (k = k')) as [<-|Hk].
  - rewrite lookup_insert_eq, Hn. split; [intros [= <-]; auto|intros [?|(_ & ? & _)]; congruence].
  - rewrite lookup_insert_ne by done. apply extends_refl.
Qed.

Lemma extends_trans {V} (P : Z -> bytes -> V -> Prop) m m' m'' : extends P m m' -> extends P m' m'' -> extends P m m''.
Proof.
  intros H H' e k v. split.
  - intros Hv. destruct (at_epoch m e !! k) as [w|] eqn:E.
    + left. rewrite <- E, E. assert (at_epoch m'' e !! k = Some w); [|congruence]. apply H'. left. apply H. by left.
    + right. split_and!; [done|done|]. apply H' in Hv as [Hv|(_ & _ & Hp)]; [|done].
      apply H in Hv as [Hv|(_ & _ & Hp)]; [congruence|done].
  - intros [Hv|(_ & Hv & _)]; [|done]. apply H'. left. apply H. by left.
Qed.

Lemma extends_impl {V} (P Q : Z -> bytes -> V -> Prop) m m' :
  (forall e k v, P e k v -> Q e k v) -> extends P m m' -> extends Q m m'.
Proof. intros HPQ H e k v. rewrite (H e k v). naive_solver. Qed.

Section UploadProofs.

Context {S : SignScheme} {C : Codec Certificate} {CD : Codec Document} {CS : Codec Signature} {O : MapOrder} {OL : MapOrderLaws O}.
Context (a : authority).

Inductive arrival := ArVote (u : upload) | ArReveal (u : upload) | ArCert (u : upload) | ArSig (u : upload).

Definition receive (now : Z) (ev : arrival) (s : state) : outcome state :=
  match ev with
  | ArVote u => Ok (onVoteUpload a now u s).2
  | ArReveal u => snd <$> onRevealUpload a now u s
  | ArCert u => Ok (onCertUpload a now u s).2
  | ArSig u => Ok (onSigUpload a now u s).2
  end.

Fixpoint receiveAll (evs : list (Z * arrival)) (s : state) : outcome state :=
  match evs with
  | [] => Ok s
  | (now, ev) :: evs => s ← receive now ev s; receiveAll evs s
  end.

(** Some authorized authority with the key hash signed a payload in the run. *)
Definition from_authority (evs : list (Z * arrival)) (mk : upload -> arrival) (pk : bytes) (Q : Z -> upload -> bytes -> Prop) : Prop :=
  exists now u data, (now, mk u) ∈ evs /\ Sum256From (up_PublicKey u) = pk /\ pk ∈ authorizedAuthorities a /\
    signedBy now (up_PublicKey u) (up_Payload u) data /\ Q now u data.

(** What a stored vote, commit, reveal, certificate and signature is. *)
Definition voteOf evs (e : Z) (pk : bytes) (doc : Document) : Prop :=
  from_authority evs ArVote pk (fun now u _ => ParseDocument now (up_Payload u) = Ok doc /\ doc_Epoch doc = e).
Definition commitOf evs (e : Z) (pk commit : bytes) : Prop :=
  from_authority evs ArVote pk (fun now u _ => exists doc, ParseDocument now (up_Payload u) = Ok doc /\ doc_Epoch doc = e /\
    SharedRandomCommit doc !! pk = Some commit).
Definition revealOf evs (e : Z) (pk reveal : bytes) : Prop :=
  from_authority evs ArReveal pk (fun _ u data => up_Payload u = reveal /\ be_combine (take 8 data) = e).
Definition certificateOf evs (e : Z) (pk : bytes) (doc : Document) : Prop :=
  from_authority evs ArCert pk (fun now u _ => ParseDocument now (up_Payload u) = Ok doc /\ up_Epoch u = e).
Definition signatureOf evs (e : Z) (pk : bytes) (sig : Signature) : Prop :=
  from_authority evs ArSig pk (fun _ u data => codec_Unmarshal data = Some sig /\ up_Epoch u = e).

Record recorded evs (s s' : state) : Prop := {
  rec_votes : extends (voteOf evs) (votes s) (votes s');
  rec_commits : extends (commitOf evs) (commits s) (commits s');
  rec_reveals : extends (revealOf evs) (reveals s) (reveals s');
  rec_certificates : extends (certificateOf evs) (certificates s) (certificates s');
  rec_signatures : extends (signatureOf evs) (signatures s) (signatures s');
  rec_same : votingEpoch s' = votingEpoch s /\ documents s' = documents s /\ descriptors s' = descriptors s;
}.

Lemma from_authority_weaken evs evs' mk pk Q :
  evs ⊆ evs' -> from_authority evs mk pk Q -> from_authority evs' mk pk Q.
Proof. intros Hs (now & u & d & ? & ?). exists now, u, d. split; [by apply Hs|done]. Qed.

Lemma recorded_weaken evs evs' s s' : evs ⊆ evs' -> recorded evs s s' -> recorded evs' s s'.
Proof.
  intros Hs [? ? ? ? ? ?]. split; try done; (eapply extends_impl; [|done]); intros e k v; by apply from_authority_weaken.
Qed.

Lemma recorded_refl evs s : recorded evs s s.
Proof. split; try apply extends_refl. done. Qed.

Lemma recorded_trans evs s s' s'' : recorded evs s s' -> recorded evs s' s'' -> recorded evs s s''.
Proof.
  intros [? ? ? ? ? (? & ? & ?)] [? ? ? ? ? (? & ? & ?)]. split; try (eapply extends_trans; eassumption).
  split_and!; congruence.
Qed.

Lemma verified_signed now u b : verified now u = Some b -> signedBy now (up_PublicKey u) (up_Payload u) b.
Proof. unfold verified. destruct (cert_Verify _ _ _) eqn:E; intros [= <-]. by apply Verify_signed. Qed.

(** An upload of one kind leaves the other maps alone. *)
Ltac upload_case := try apply recorded_refl; try (split; cbn; try apply extends_refl; try apply extends_touch; done).

(** A commit comes with a vote. *)
Definition committed (s : state) : Prop :=
  forall pk, at_epoch (votes s) (votingEpoch s) !! pk = None -> at_epoch (commits s) (votingEpoch s) !! pk = None.

Lemma onVoteUpload_recorded now u s : committed s -> recorded [(now, ArVote u)] s (onVoteUpload a now u s).2.
Proof.
  intros Hcom. unfold onVoteUpload. case_bool_decide as Hauth; cbn [negb]; [|upload_case].
  do 2 (case_bool_decide; [upload_case|]). cbn [setCommits setVotes votes commits].
  destruct (at_epoch (touch (votes s) (votingEpoch s)) (votingEpoch s) !! _) eqn:Hnew; [upload_case|].
  destruct (verified now u) as [b|] eqn:Hv; [|upload_case]. apply verified_signed in Hv.
  destruct (ParseDocument now (up_Payload u)) as [doc| |] eqn:Hp; [|upload_case..].
  destruct (Z.eqb_spec (doc_Epoch doc) (votingEpoch s)) as [He|]; cbn [negb]; [|upload_case].
  destruct (SharedRandomCommit doc !! _) as [c|] eqn:Hc; [|upload_case]. rewrite at_epoch_touch in Hnew.
  split; cbn; try apply extends_refl; [| |done].
  - apply extends_put; [done|]. exists now, u, b. split_and!; (done || by left).
  - apply extends_put; [by apply Hcom|]. exists now, u, b. split_and!; try (done || by left). by exists doc.
Qed.

Lemma onVoteUpload_committed now u s : committed s -> committed (onVoteUpload a now u s).2.
Proof.
  intros Hcom. unfold onVoteUpload, committed. case_bool_decide; cbn [negb]; [|done].
  do 2 (case_bool_decide; [done|]). cbn [setCommits setVotes votes commits].
  assert (Htouch : forall pk, at_epoch (touch (votes s) (votingEpoch s)) (votingEpoch s) !! pk = None ->
    at_epoch (touch (commits s) (votingEpoch s)) (votingEpoch s) !! pk = None).
  { intros pk. rewrite !at_epoch_touch. apply Hcom. }
  destruct (at_epoch _ _ !! _); [done|]. destruct (verified now u); [|done].
  destruct (ParseDocument _ _) as [doc| |]; [|done..]. destruct (negb _); [done|].
  destruct (SharedRandomCommit doc !! _); [|done]. cbn. intros pk. rewrite !at_epoch_put, !decide_True by done.
  rewrite !lookup_insert_None. intros [Hpk ?]. split; [|done]. by apply Htouch.
Qed.

Lemma onRevealUpload_recorded now u s st s' : onRevealUpload a now u s = Ok (st, s') -> recorded [(now, ArReveal u)] s s'.
Proof.
  unfold onRevealUpload. case_bool_decide as Hauth; cbn [negb]; [|intros [= _ <-]; upload_case].
  destruct (verified now u) as [b|] eqn:Hv; [|intros [= _ <-]; upload_case]. apply verified_signed in Hv.
  intros H. go_inv H. apply slice_inv in E as [_ ->]. change (take (8 - 0) (drop 0 b)) with (take 8 b) in H. revert H.
  case_bool_decide as H1; [intros [= _ <-]; upload_case|]. case_bool_decide as H2; [intros [= _ <-]; upload_case|].
  destruct (at_epoch (commits s) _ !! _); [|intros [= _ <-]; upload_case]. cbn [setReveals reveals].
  destruct (at_epoch (touch (reveals s) _) _ !! _) eqn:Hnew; intros [= _ <-]; [upload_case|].
  rewrite at_epoch_touch in Hnew. split; cbn; try apply extends_refl; [|done].
  apply extends_put; [done|]. exists now, u, b. split_and!; try (done || by left). lia.
Qed.

Lemma onCertUpload_recorded now u s : recorded [(now, ArCert u)] s (onCertUpload a now u s).2.
Proof.
  unfold onCertUpload. case_bool_decide as Hauth; cbn [negb]; [|upload_case].
  do 2 (case_bool_decide; [upload_case|]). destruct (verified now u) as [b|] eqn:Hv; [|upload_case]. apply verified_signed in Hv.
  destruct (ParseDocument now (up_Payload u)) as [doc| |] eqn:Hp; [|upload_case..].
  destruct (at_epoch (votes s) _ !! _); [|upload_case]. cbn [setCertificates certificates].
  destruct (at_epoch (touch (certificates s) _) _ !! _) eqn:Hnew; [upload_case|].
  rewrite at_epoch_touch in Hnew. split; cbn; try apply extends_refl; [|done].
  apply extends_put; [done|]. exists now, u, b. split_and!; try (done || by left). lia.
Qed.

Lemma onSigUpload_recorded now u s : recorded [(now, ArSig u)] s (onSigUpload a now u s).2.
Proof.
  unfold onSigUpload. case_bool_decide as Hauth; cbn [negb]; [|upload_case].
  do 2 (case_bool_decide; [upload_case|]). destruct (verified now u) as [b|] eqn:Hv; [|upload_case]. apply verified_signed in Hv.
  unfold dupSig. cbn [setSigs signatures votingEpoch]. case_bool_decide as Hnew; cbn [negb]; [upload_case|].
  destruct (codec_Unmarshal b) as [sig|] eqn:Hs; [|upload_case]. rewrite at_epoch_touch in Hnew.
  apply eq_None_not_Some in Hnew. split; cbn; try apply extends_refl; [|done].
  apply extends_put; [done|]. exists now, u, b. split_and!; try (done || by left). lia.
Qed.

Lemma receive_recorded now ev s s' : committed s -> receive now ev s = Ok s' -> recorded [(now, ev)] s s' /\ committed s'.
Proof.
  intros Hcom. assert (Hkeep : recorded [(now, ev)] s s' -> votes s' = votes s /\ commits s' = commits s -> committed s').
  { intros [_ _ _ _ _ (He & _)] [Hv Hc]. unfold committed. by rewrite Hv, Hc, He. }
  destruct ev as [u|u|u|u]; cbn [receive]; intros H.
  - injection H as <-. split; [by apply onVoteUpload_recorded|by apply onVoteUpload_committed].
  - destruct (onRevealUpload a now u s) as [[st s1]| |] eqn:E; cbn in H; try done. injection H as ->. rename E into H. pose proof (onRevealUpload_recorded _ _ _ _ _ H) as Hr. split; [done|].
    apply Hkeep; [done|]. revert H. unfold onRevealUpload. destruct (negb _); [by intros [= _ <-]|].
    destruct (verified now u); [|by intros [= _ <-]]. intros H. go_inv H. revert H. do 2 (case_bool_decide; [by intros [= _ <-]|]).
    destruct (_ !! _); [|by intros [= _ <-]]. destruct (_ !! _); by intros [= _ <-].
  - injection H as <-. split; [apply onCertUpload_recorded|]. apply Hkeep; [apply onCertUpload_recorded|].
    unfold onCertUpload. destruct (negb _); [done|]. do 2 (case_bool_decide; [done|]). destruct (verified now u); [|done].
    destruct (ParseDocument _ _); [|done..]. destruct (_ !! _); [|done]. by destruct (_ !! _).
  - injection H as <-. split; [apply onSigUpload_recorded|]. apply Hkeep; [apply onSigUpload_recorded|].
    unfold onSigUpload. destruct (negb _); [done|]. do 2 (case_bool_decide; [done|]). destruct (verified now u); [|done].
    destruct (negb _); [|done]. by destruct (codec_Unmarshal _).
Qed.

End UploadProofs.


(** An authority that certifies fewer than eight bytes as its reveal makes
    every other authority panic. *)
Theorem short_reveal_panics {S : SignScheme} {SL : SignSchemeLaws S} {C : Codec Certificate} {CL : CodecLaws Certificate C plainCert}
    {O : MapOrder} {OL : MapOrderLaws O} (a : authority) now k data expiration epoch s :
  Sum256From (sg_Public k) ∈ authorizedAuthorities a -> signable now data expiration -> (length data < 8)%nat ->
  sg_Name <> ""%string -> plainText sg_Name ->
  exists raw, cert_Sign now k (sg_Public k) data expiration = Ok raw /\
    onRevealUpload a now (mkUpload (sg_Public k) epoch raw) s = Panic.
Proof.
  intros Ha He Hd Hn Hp. destruct (Sign_Verify now k data expiration) as (raw & Hs & Hv); [done..|].
  exists raw. split; [done|]. unfold onRevealUpload, verified. cbn [up_PublicKey up_Payload].
  rewrite bool_decide_eq_true_2 by done. cbn [negb]. rewrite Hv. unfold slice_to. rewrite slice_panic by lia. done.
Qed.

(** ** A concrete authority *)

(** Three authorities with the keys 1, 2 and 3; this one has the key 1. *)
Definition toyConfig : @config toySign :=
  @mkConfig toySign [2; 3] [("mix1", 3); ("mix2", 5)]%string [("gateway", 11)]%string [("service", 13)]%string [("replica", 0, 17)]%string
    (mkParameters 0 0 0 0 0 0 0 0 0 0 0 0 0 0 0) (Some [[ [3] ]; [ [5] ]]) 2 1 "toy" [].

Definition toyAuthority : @authority toySign := @newState toySign toyConfig 1 1.

Definition toyVote : Document :=
  mkDocument 6 [[toyDescriptor "mix1" 3 false false]; [toyDescriptor "mix2" 5 false false]]
    [toyDescriptor "gateway" 11 true false] [toyDescriptor "service" 13 false true] [] 0
    6 0 0 0 0 0 0 0 0 0 0 0 0 0 0 [] [] ∅ ∅ {[ [2] := [42] ]} ∅ [] [] [] "v1" "toy".

#[export] Instance Document_eq_dec : EqDecision Document.
Proof. solve_decision. Defined.

(** The vote of the authority with the key 2. *)
Definition toyUpload : @upload toySign :=
  @mkUpload toySign 2 6 match @cert_Sign toySign (toyCodec Certificate) 5 2 2 [0] 9 with Ok b => b | _ => [] end.

Definition toyState : state := mkState ∅ ∅ ∅ ∅ ∅ ∅ ∅ [] ∅ ∅ ∅ 6 6 stateAcceptVote.


Lemma short_reveal_panics_witness :
  exists raw, @onRevealUpload toySign (toyCodec Certificate) toyOrder toyAuthority 5 (@mkUpload toySign 2 6 raw) toyState = Panic.
Proof.
  destruct (@short_reveal_panics toySign toySign_laws (toyCodec Certificate) (toyCodec_laws Certificate plainCert)
    toyOrder toyOrder_laws toyAuthority 5 2 [7] 9 6 toyState) as (raw & _ & H).
  - by apply (bool_decide_unpack _), I.
  - split_and!; [lia..|discriminate|]. by apply (bool_decide_unpack _), I.
  - cbn. lia.
  - discriminate.
  - repeat constructor.
  - exists raw. exact H.
Defined.
