(* ===== verification/VotingTally.v ===== *)
(** The tally of votes: [tallyVotes] of [authority/voting/server/state.go].

    Serializations are parameters: CBOR of descriptors, gob of the parameters.
    A tally maps a serialization to the votes that contain it, once for each
    time they do. *)

From S2P Require Import Prelude ByteOrder Cert PkiDocument MixTopology DocumentCert VotingState.
From Stdlib Require Import ZArith Lia.
From stdpp Require Import prelude list strings gmap.

Local Open Scope Z_scope.

Abbreviation tally := (gmap bytes (list Document)).

(** [t[k] = append(t[k], vote)]. *)
Definition count (t : tally) (k : bytes) (vote : Document) : tally := <[k := default [] (t !! k) ++ [vote]]> t.

(** The loops over the descriptors of a vote; one that does not serialize is
    skipped. *)
Definition countAll {D} {CDesc : Codec D} (vote : Document) (descs : list D) (t : tally) : tally :=
  foldl (fun t d => match codec_Marshal d with Some raw => count t raw vote | None => t end) t descs.

Section Tally.

Context {S : SignScheme} {CM : Codec MixDescriptor} {CR : Codec ReplicaDescriptor} {CP : Codec Parameters} {O : MapOrder}.
Context (Sum256 : bytes -> bytes) (fsum3 : Z -> Z -> Z -> Z) (nLogN : nat -> Z) (a : authority).

(** [computeLambdaG], over the floating point operations it uses.  Without a
    fixed topology it dereferences nil. *)
Definition computeLambdaG : outcome Z :=
  match cfg_Topology (cfg a) with
  | Some (layer :: _) =>
    let p := cfg_Parameters (cfg a) in
    if bool_decide (length layer = 1%nat) then Ok (fsum3 (p_LambdaP p) (p_LambdaL p) (p_LambdaD p))
    else Ok (nLogN (length layer))
  | _ => Panic
  end.

(** The parameters of a vote, with the [LambdaG] of the authority itself. *)
Definition paramsOf (lambdaG : Z) (vote : Document) : Parameters :=
  mkParameters (SendRatePerMinute vote) (Mu vote) (MuMaxDelay vote) (LambdaP vote) (LambdaPMaxDelay vote)
    (LambdaL vote) (LambdaLMaxDelay vote) (LambdaD vote) (LambdaDMaxDelay vote) (LambdaM vote) lambdaG
    (LambdaMMaxDelay vote) (LambdaGMaxDelay vote) (LambdaR vote) (LambdaRMaxDelay vote).

Record tallies := mkTallies { mixTally : tally; mixParams : tally; replicaTally : tally }.

(** One vote; one whose parameters do not serialize is skipped. *)
Definition tallyVote (lambdaG : Z) (t : tallies) (vote : Document) : tallies :=
  match codec_Marshal (paramsOf lambdaG vote) with
  | None => t
  | Some bs =>
    mkTallies
      (countAll vote (concat (Topology vote)) (countAll vote (ServiceNodes vote) (countAll vote (GatewayNodes vote) (mixTally t))))
      (count (mixParams t) bs vote)
      (countAll vote (StorageReplicas vote) (replicaTally t))
  end.

(** The descriptors with a threshold of votes, those authorized. *)
Fixpoint elected {D} {CDesc : Codec D} (authorized : D -> bool) (l : list (bytes * list Document)) : outcome (list D) :=
  match l with
  | [] => Ok []
  | (rawDesc, vs) :: l =>
    if bool_decide (threshold a <= Z.of_nat (length vs)) then
      match codec_Unmarshal rawDesc with
      | None => Err "cbor: cannot decode"
      | Some desc =>
        ds ← elected authorized l;
        Ok (if authorized desc then desc :: ds else ds)
      end
    else elected authorized l
  end.

(** The first parameters with a threshold of votes. *)
Fixpoint electedParams (l : list (bytes * list Document)) : option Parameters :=
  match l with
  | [] => None
  | (bs, vs) :: l =>
    match codec_Unmarshal bs with
    | None => electedParams l
    | Some params => if bool_decide (threshold a <= Z.of_nat (length vs)) then Some params else electedParams l
    end
  end.

Definition replicaId (d : ReplicaDescriptor) : bytes := idHash Sum256 (rd_IdentityKey d).

Definition sortReplicaNodesByPublicKey (nodes : list ReplicaDescriptor) : list ReplicaDescriptor := sortBy replicaId nodes.

Definition tallyVotes (epoch : Z) (s : state) : outcome (list MixDescriptor * list ReplicaDescriptor * Parameters) :=
  match votes s !! epoch with
  | None => Err "no votes"
  | Some vs =>
    if bool_decide (Z.of_nat (size vs) < threshold a) then Err "not enough votes"
    else
      lambdaG ← computeLambdaG;
      let t := foldl (tallyVote lambdaG) (mkTallies ∅ ∅ ∅) (map snd (entries vs)) in
      nodes ← elected (isDescriptorAuthorized Sum256 a) (entries (mixTally t));
      replicaNodes ← elected (isReplicaDescriptorAuthorized Sum256 a) (entries (replicaTally t));
      match electedParams (entries (mixParams t)) with
      | None => Err "consensus failure (mixParams empty)"
      | Some params => Ok (sortNodesByPublicKey Sum256 nodes, sortReplicaNodesByPublicKey replicaNodes, params)
      end
  end.

End Tally.

(** ** Counting *)

Definition occ (k : bytes) (l : list bytes) : nat := length (List.filter (fun x => bool_decide (x = k)) l).

Lemma occ_app k l1 l2 : occ k (l1 ++ l2) = (occ k l1 + occ k l2)%nat.
Proof. unfold occ. by rewrite List.filter_app, length_app. Qed.

Lemma occ_perm k l1 l2 : l1 ≡ₚ l2 -> occ k l1 = occ k l2.
Proof.
  unfold occ. induction 1 as [|x l1 l2 _ IH|x y l|l1 l2 l3 _ IH1 _ IH2]; cbn; try done; [| |congruence].
  - case_bool_decide; cbn; lia.
  - by do 2 case_bool_decide.
Qed.

Lemma occ_elem k l : (0 < occ k l)%nat <-> k ∈ l.
Proof.
  unfold occ. induction l as [|x l IH]; cbn; [split; [lia|by intros ?%elem_of_nil]|].
  case_bool_decide as Hx; cbn; rewrite elem_of_cons; [subst; split; [by left|lia]|]. rewrite IH. naive_solver.
Qed.

(** Two keys share the positions of a list. *)
Lemma occ_two k1 k2 l : k1 <> k2 -> (occ k1 l + occ k2 l <= length l)%nat.
Proof.
  intros Hne. unfold occ. induction l as [|x l IH]; cbn; [lia|].
  do 2 case_bool_decide; cbn; try lia. congruence.
Qed.

(** Per ballot, at most one of two keys, then at most as often as there are ballots. *)
Lemma occ_ballots k1 k2 (ballots : list (list bytes)) :
  Forall (fun b => (occ k1 b + occ k2 b <= 1)%nat) ballots ->
  (occ k1 (concat ballots) + occ k2 (concat ballots) <= length ballots)%nat.
Proof. induction 1 as [|b l Hb _ IH]; [done|]. cbn [concat length]. rewrite !occ_app. lia. Qed.

Definition votesFor (t : tally) (k : bytes) : nat := length (default [] (t !! k)).

(** A key is in a tally only if it has been counted. *)
Definition counted (t : tally) (keys : list bytes) : Prop :=
  (forall k, votesFor t k = occ k keys) /\ (forall k, is_Some (t !! k) <-> k ∈ keys).

Lemma tally_counted_empty : counted ∅ [].
Proof.
  split; [done|]. intros k. rewrite lookup_empty. split; [by intros [? ?]|by intros ?%elem_of_nil].
Qed.

Lemma count_counted t keys k vote : counted t keys -> counted (count t k vote) (keys ++ [k]).
Proof.
  intros [Hv Hk]. split; intros k'.
  - rewrite occ_app, <- Hv. unfold votesFor, count, occ. cbn. destruct (decide (k = k')) as [->|Hne].
    + rewrite lookup_insert_eq, bool_decide_eq_true_2 by done. cbn. by rewrite length_app.
    + rewrite lookup_insert_ne, bool_decide_eq_false_2 by done. cbn. lia.
  - unfold count. rewrite lookup_insert_is_Some, elem_of_app, list_elem_of_singleton, Hk. destruct (decide (k = k')); naive_solver.
Qed.

(** A value the codec returns as it was. *)
Definition exact {D} {CDesc : Codec D} (d : D) : Prop :=
  exists k, codec_Marshal d = Some k /\ codec_Unmarshal k = Some d.

#[export] Instance exact_dec {D} `{EqDecision D} {CDesc : Codec D} (d : D) : Decision (exact d).
Proof.
  refine (cast_if (decide (codec_Marshal d ≫= codec_Unmarshal = Some d))); unfold exact.
  - abstract (destruct (codec_Marshal d) as [k|]; [by exists k|done]).
  - abstract (intros (k & Hk & Hu); by rewrite Hk in *).
Defined.

Definition keysOf {D} {CDesc : Codec D} (descs : list D) : list bytes := omap codec_Marshal descs.

Lemma countAll_counted {D} {CDesc : Codec D} vote (descs : list D) t keys :
  counted t keys -> counted (countAll vote descs t) (keys ++ keysOf descs).
Proof.
  unfold countAll, keysOf. revert t keys. induction descs as [|d descs IH]; intros t keys H; cbn; [by rewrite app_nil_r|].
  destruct (codec_Marshal d) as [raw|]; [|by apply IH]. apply (count_counted _ _ raw vote), IH in H.
  by rewrite <- app_assoc in H.
Qed.

(** The entries of a tally with their counts, in some order. *)
Definition entries_of (l : list (bytes * nat)) (keys : list bytes) : Prop :=
  NoDup (map fst l) /\ forall k n, (k, n) ∈ l <-> k ∈ keys /\ n = occ k keys.

Lemma entries_of_perm l1 l2 keys1 keys2 : entries_of l1 keys1 -> entries_of l2 keys2 -> keys1 ≡ₚ keys2 -> l1 ≡ₚ l2.
Proof.
  intros [Hn1 H1] [Hn2 H2] Hp. apply NoDup_Permutation; [by eapply NoDup_fmap_1|by eapply NoDup_fmap_1|].
  intros [k n]. by rewrite H1, H2, (occ_perm k _ _ Hp), Hp.
Qed.

(** Of entries that exclude each other only one is taken. *)
Lemma omap_unique {A} (f : bytes * nat -> option A) (P : bytes * nat -> Prop) l :
  NoDup (map fst l) -> (forall x, is_Some (f x) -> P x) -> (forall x y, x ∈ l -> y ∈ l -> P x -> P y -> x.1 = y.1) ->
  (length (omap f l) <= 1)%nat.
Proof.
  intros Hn Hf Hp. induction l as [|x l IH]; cbn; [lia|]. cbn [map] in Hn. apply NoDup_cons in Hn as [Hx Hn].
  assert (IH' : (length (omap f l) <= 1)%nat) by (apply IH; [done|]; intros; apply Hp; by (right || auto)).
  destruct (f x) as [u|] eqn:E; [|done]. cbn. assert (Hnil : omap f l = []).
  { clear IH IH'. induction l as [|y l IHl]; [done|]. cbn [map] in *. cbn. destruct (f y) as [w|] eqn:Ey.
    - exfalso. apply Hx. apply elem_of_cons. left. apply Hp; [by left|right; by left|apply Hf; by eexists|apply Hf; by eexists].
    - apply IHl.
      + apply not_elem_of_cons in Hx as [_ Hx]. done.
      + by apply NoDup_cons in Hn as [_ Hn].
      + intros p q Hp' Hq. apply Hp; rewrite !elem_of_cons in *; naive_solver. }
  rewrite Hnil. cbn. lia.
Qed.

Section Elections.

Context {S : SignScheme} (a : authority).

(** What an election gives, for keys that deserialize. *)
Definition electedBy {D} {CDesc : Codec D} (authorized : D -> bool) (x : bytes * nat) : option D :=
  if bool_decide (threshold a <= Z.of_nat x.2) then
    d ← codec_Unmarshal x.1; if authorized d then Some d else None
  else None.

Lemma elected_ok {D} {CDesc : Codec D} authorized l :
  Forall (fun x : bytes * list Document => is_Some (codec_Unmarshal (A := D) x.1)) l ->
  elected a authorized l = Ok (omap (electedBy authorized) (map (fun x => (x.1, length x.2)) l)).
Proof.
  induction 1 as [|[raw vs] l [d Hd] _ IH]; [done|]. cbn in Hd |- *. unfold electedBy at 1. cbn [fst snd].
  rewrite Hd. cbn. case_bool_decide; [|done]. rewrite IH. go. by destruct (authorized d).
Qed.

Definition paramsBy {CP : Codec Parameters} (x : bytes * nat) : option Parameters :=
  if bool_decide (threshold a <= Z.of_nat x.2) then codec_Unmarshal x.1 else None.

Lemma electedParams_ok {CP : Codec Parameters} l :
  electedParams a l = head (omap paramsBy (map (fun x => (x.1, length x.2)) l)).
Proof.
  induction l as [|[bs vs] l IH]; [done|]. cbn. unfold paramsBy at 1. cbn [fst snd].
  destruct (codec_Unmarshal bs); case_bool_decide; done.
Qed.

End Elections.

Section TallyProofs.

Context {S : SignScheme} {CM : Codec MixDescriptor} {CR : Codec ReplicaDescriptor} {CP : Codec Parameters}.
Context (Sum256 : bytes -> bytes) (fsum3 : Z -> Z -> Z -> Z) (nLogN : nat -> Z) (a : authority).

(** The nodes a vote lists, in the order of the tally, and their keys. *)
Definition listed (v : Document) : list MixDescriptor := GatewayNodes v ++ ServiceNodes v ++ concat (Topology v).

Definition ballots (lambdaG : Z) (vs : list Document) : list Document :=
  filter (fun v => is_Some (codec_Marshal (paramsOf lambdaG v))) vs.

Definition paramKeys (lambdaG : Z) (vs : list Document) : list bytes :=
  omap (fun v => codec_Marshal (paramsOf lambdaG v)) vs.

Lemma keysOf_app {D} {CDesc : Codec D} (l1 l2 : list D) : keysOf (l1 ++ l2) = keysOf l1 ++ keysOf l2.
Proof. apply omap_app. Qed.

Lemma tally_counted lambdaG vs t km kp kr :
  counted (mixTally t) km -> counted (mixParams t) kp -> counted (replicaTally t) kr ->
  let t' := foldl (tallyVote lambdaG) t vs in
  counted (mixTally t') (km ++ concat (map (fun v => keysOf (listed v)) (ballots lambdaG vs))) /\
  counted (mixParams t') (kp ++ paramKeys lambdaG vs) /\
  counted (replicaTally t') (kr ++ concat (map (fun v => keysOf (StorageReplicas v)) (ballots lambdaG vs))).
Proof.
  unfold ballots, paramKeys. revert t km kp kr. induction vs as [|v vs IH]; intros t km kp kr Hm Hp Hr.
  { cbn. by rewrite !app_nil_r. }
  cbn [foldl omap list_omap]. unfold tallyVote at 2 4 6. rewrite filter_cons. destruct (codec_Marshal (paramsOf lambdaG v)) as [bs|].
  - rewrite decide_True by (by eexists). cbn [map concat].
    destruct (IH (mkTallies (countAll v (concat (Topology v)) (countAll v (ServiceNodes v) (countAll v (GatewayNodes v) (mixTally t))))
        (count (mixParams t) bs v) (countAll v (StorageReplicas v) (replicaTally t)))
      (((km ++ keysOf (GatewayNodes v)) ++ keysOf (ServiceNodes v)) ++ keysOf (concat (Topology v))) (kp ++ [bs])
      (kr ++ keysOf (StorageReplicas v))) as (H1 & H2 & H3); cbn [mixTally mixParams replicaTally].
    + by do 3 apply countAll_counted.
    + by apply count_counted.
    + by apply countAll_counted.
    + unfold listed at 1. rewrite !keysOf_app. rewrite <- ?app_assoc in H1. rewrite <- ?app_assoc in H2. rewrite <- ?app_assoc in H3.
      split_and!; rewrite <- ?app_assoc; done.
  - rewrite decide_False by (by intros [? ?]). by apply IH.
Qed.

(** The entries of a tally, with their counts. *)
Lemma counted_entries (O : MapOrder) {L : MapOrderLaws O} t keys :
  counted t keys -> entries_of (map (fun x : bytes * list Document => (x.1, length x.2)) (entries t)) keys.
Proof.
  intros [Hv Hk]. split.
  - rewrite map_map. cbn. rewrite (Permutation_map _ (entries_perm t)). apply NoDup_fst_map_to_list.
  - intros k n. rewrite (Permutation_map _ (entries_perm t)). rewrite list_elem_of_In, in_map_iff. split.
    + intros ([k' vs] & [= <- <-] & Hin). apply list_elem_of_In, elem_of_map_to_list in Hin. cbn. split; [apply Hk; by eexists|].
      rewrite <- Hv. unfold votesFor. by rewrite Hin.
    + intros [Hin ->]. apply Hk in Hin as [vs Hin]. exists (k, vs). split; [|by apply list_elem_of_In, elem_of_map_to_list].
      cbn. rewrite <- Hv. unfold votesFor. by rewrite Hin.
Qed.

Lemma exact_Unmarshal {D} {CDesc : Codec D} (d : D) k : exact d -> codec_Marshal d = Some k -> codec_Unmarshal k = Some d.
Proof. intros (k' & Hk & Hu) Hk'. rewrite Hk in Hk'. by injection Hk' as <-. Qed.

(** The keys counted and the descriptors they are of. *)
Lemma keysOf_elem {D} {CDesc : Codec D} k (lists : list (list D)) :
  Forall (Forall exact) lists ->
  k ∈ concat (map keysOf lists) <-> exists d, d ∈ concat lists /\ codec_Marshal d = Some k /\ codec_Unmarshal k = Some d.
Proof.
  induction 1 as [|l lists Hl _ IH]; cbn; [set_solver|]. rewrite elem_of_app, IH. unfold keysOf. rewrite list_elem_of_omap.
  setoid_rewrite elem_of_app. rewrite Forall_forall in Hl. split; [|naive_solver].
  intros [(d & Hd & Hk)|(d & Hd & Hk)]; exists d; [|naive_solver]. split_and!; [by left|done|]. apply exact_Unmarshal; auto.
Qed.

(** The descriptors elected from a tally are those authorized whose key is
    counted often enough. *)
Lemma elected_tally (O : MapOrder) {L : MapOrderLaws O} {D} {CDesc : Codec D} (authorized : D -> bool) t (lists : list (list D)) :
  counted t (concat (map keysOf lists)) -> Forall (Forall exact) lists ->
  exists ds, elected a authorized (entries t) = Ok ds /\
    ds = omap (electedBy a authorized) (map (fun x => (x.1, length x.2)) (entries t)) /\
    forall d, d ∈ ds <-> authorized d = true /\ d ∈ concat lists /\ exists k, codec_Marshal d = Some k /\
      threshold a <= Z.of_nat (occ k (concat (map keysOf lists))).
Proof.
  intros Hc Hx. destruct (counted_entries O t _ Hc) as [_ He]. eexists. split; [|split; [reflexivity|]].
  - apply elected_ok. apply Forall_forall. intros [k vs] Hin. cbn.
    assert (Hk : k ∈ concat (map keysOf lists)).
    { apply (proj1 (He k (length vs))). apply list_elem_of_In, in_map_iff. exists (k, vs). split; [done|by apply list_elem_of_In]. }
    apply keysOf_elem in Hk as (d & _ & _ & ->); [by eexists|done].
  - intros d. rewrite list_elem_of_omap. split.
    + intros ([k n] & Hin & Hd). apply He in Hin as [Hk ->]. unfold electedBy in Hd. cbn [fst snd] in Hd.
      case_bool_decide as Ht; [|done]. destruct (codec_Unmarshal k) as [d'|] eqn:Hu; [|done]. cbn in Hd.
      destruct (authorized d') eqn:Ha; [|done]. injection Hd as ->.
      apply keysOf_elem in Hk as (d' & Hin & Hm & Hu'); [|done]. rewrite Hu in Hu'. injection Hu' as ->.
      split_and!; [done..|]. by exists k.
    + intros (Ha & Hd & k & Hm & Ht). assert (Hk : codec_Unmarshal k = Some d).
      { apply exact_Unmarshal; [|done]. apply list_elem_of_In, in_concat in Hd as (l & Hl & Hd).
        rewrite Forall_forall in Hx. apply list_elem_of_In, Hx in Hl. rewrite Forall_forall in Hl. by apply Hl, list_elem_of_In. }
      exists (k, occ k (concat (map keysOf lists))). split; [apply He; split; [apply keysOf_elem; eauto|done]|].
      unfold electedBy. cbn [fst snd]. rewrite bool_decide_eq_true_2 by done. rewrite Hk. cbn. by rewrite Ha.
Qed.

(** No two descriptors with one identity key are elected, when no ballot lists a
    key twice and two thresholds exceed the ballots. *)
Lemma elected_keyed {D} {CDesc : Codec D} (id : D -> bytes) (lists : list (list D)) d1 d2 k1 k2 :
  Forall (fun l => NoDup (map id l) /\ Forall exact l) lists -> Z.of_nat (length lists) < 2 * threshold a ->
  exact d1 -> exact d2 ->
  codec_Marshal d1 = Some k1 -> threshold a <= Z.of_nat (occ k1 (concat (map keysOf lists))) ->
  codec_Marshal d2 = Some k2 -> threshold a <= Z.of_nat (occ k2 (concat (map keysOf lists))) ->
  id d1 = id d2 -> d1 = d2.
Proof.
  intros Hn Hlt Hx1 Hx2 H1 Ht1 H2 Ht2 Hid.
  pose proof (exact_Unmarshal _ _ Hx1 H1) as Hu1. pose proof (exact_Unmarshal _ _ Hx2 H2) as Hu2.
  destruct (decide (k1 = k2)) as [->|Hne]; [congruence|]. exfalso.
  assert (Hb : Forall (fun b => (occ k1 b + occ k2 b <= 1)%nat) (map keysOf lists)).
  { apply Forall_map. eapply Forall_impl; [exact Hn|]. intros l [Hl Hx]. clear - Hl Hx H1 H2 Hu1 Hu2 Hid Hne.
    assert (Hone : forall l, NoDup (map id l) -> Forall exact l -> (occ k1 (keysOf l) + occ k2 (keysOf l) <= 1)%nat /\
      ((forall d, d ∈ l -> id d <> id d1) -> occ k1 (keysOf l) + occ k2 (keysOf l) = 0)%nat).
    2:{ by apply Hone. }
    clear l Hl Hx. induction l as [|d l IH]; intros Hl Hx; [cbn; split; [lia|done]|]. cbn [map] in Hl. apply NoDup_cons in Hl as [Hd Hl].
    apply Forall_cons in Hx as [(k & Hk & Hu) Hx]. destruct (IH Hl Hx) as [IH1 IH2].
    assert (Hsplit : forall k0, occ k0 (keysOf (d :: l)) = ((if decide (k = k0) then 1 else 0) + occ k0 (keysOf l))%nat).
    { intros k0. unfold keysOf. cbn. rewrite Hk. unfold occ. cbn. case_bool_decide; destruct (decide (k = k0)); done. }
    rewrite !Hsplit. destruct (decide (id d = id d1)) as [He|He].
    - assert (Hz : (occ k1 (keysOf l) + occ k2 (keysOf l) = 0)%nat).
      { apply IH2. intros d' Hd' He'. apply Hd. rewrite He, <- He'. by apply list_elem_of_In, in_map, list_elem_of_In. }
      split; [destruct (decide (k = k1)), (decide (k = k2)); lia || congruence|]. intros Hall. exfalso. by apply (Hall d); [left|].
    - rewrite !decide_False; [|intros ->; rewrite Hu2 in Hu; congruence|intros ->; rewrite Hu1 in Hu; congruence].
      split; [lia|]. intros Hall. apply IH2. intros d' Hd'. apply Hall. by right. }
  apply occ_ballots in Hb. rewrite length_map in Hb. lia.
Qed.

(** The tally as elections over the counted keys. *)
Lemma tallyVotes_ok (O : MapOrder) {L : MapOrderLaws O} epoch s vs lambdaG :
  votes s !! epoch = Some vs -> threshold a <= Z.of_nat (size vs) -> computeLambdaG fsum3 nLogN a = Ok lambdaG ->
  let l := map snd (entries vs) in
  Forall (fun v => Forall exact (listed v) /\ Forall exact (StorageReplicas v)) (ballots lambdaG l) ->
  exists nodes reps lm lp lr,
    tallyVotes Sum256 fsum3 nLogN a epoch s =
      match head (omap (paramsBy a) lp) with
      | None => Err "consensus failure (mixParams empty)"
      | Some params => Ok (sortNodesByPublicKey Sum256 nodes, sortReplicaNodesByPublicKey Sum256 reps, params)
      end /\
    entries_of lm (concat (map keysOf (map listed (ballots lambdaG l)))) /\
    nodes = omap (electedBy a (isDescriptorAuthorized Sum256 a)) lm /\
    entries_of lp (paramKeys lambdaG l) /\
    entries_of lr (concat (map keysOf (map StorageReplicas (ballots lambdaG l)))) /\
    reps = omap (electedBy a (isReplicaDescriptorAuthorized Sum256 a)) lr /\
    (forall d, d ∈ nodes <-> isDescriptorAuthorized Sum256 a d = true /\ d ∈ concat (map listed (ballots lambdaG l)) /\
      exists k, codec_Marshal d = Some k /\ threshold a <= Z.of_nat (occ k (concat (map keysOf (map listed (ballots lambdaG l)))))) /\
    (forall d, d ∈ reps <-> isReplicaDescriptorAuthorized Sum256 a d = true /\ d ∈ concat (map StorageReplicas (ballots lambdaG l)) /\
      exists k, codec_Marshal d = Some k /\ threshold a <= Z.of_nat (occ k (concat (map keysOf (map StorageReplicas (ballots lambdaG l)))))).
Proof.
  intros Hvs Hsize Hg l Hx. unfold tallyVotes. rewrite Hvs, bool_decide_eq_false_2, Hg by lia. go. fold l.
  destruct (tally_counted lambdaG l (mkTallies ∅ ∅ ∅) [] [] []) as (Hm & Hp & Hr); [apply tally_counted_empty..|].
  set (t := foldl (tallyVote lambdaG) (mkTallies ∅ ∅ ∅) l) in *. cbn [app] in Hm, Hp, Hr.
  rewrite <- (map_map listed keysOf) in Hm. rewrite <- (map_map StorageReplicas keysOf) in Hr.
  destruct (elected_tally O (isDescriptorAuthorized Sum256 a) _ _ Hm) as (nodes & -> & Hn & Hnodes); [apply Forall_map; by eapply Forall_impl; [exact Hx|intros v []]|]. go.
  destruct (elected_tally O (isReplicaDescriptorAuthorized Sum256 a) _ _ Hr) as (reps & -> & Hre & Hreps); [apply Forall_map; by eapply Forall_impl; [exact Hx|intros v []]|]. go.
  rewrite electedParams_ok. do 5 eexists. split; [reflexivity|].
  split_and!; [by apply counted_entries|exact Hn|by apply counted_entries|by apply counted_entries|exact Hre|done|done].
Qed.

End TallyProofs.

(** ** Agreement *)

(** Authorities with the same rules: the same nodes, parameters and threshold. *)
Definition sameRules {S : SignScheme} (a a' : authority) : Prop :=
  threshold a = threshold a' /\ authorizedMixes a = authorizedMixes a' /\
  authorizedGatewayNodes a = authorizedGatewayNodes a' /\ authorizedServiceNodes a = authorizedServiceNodes a' /\
  authorizedReplicaNodes a = authorizedReplicaNodes a' /\ cfg_Topology (cfg a) = cfg_Topology (cfg a') /\
  cfg_Parameters (cfg a) = cfg_Parameters (cfg a').

(** A vote that lists no key twice, and descriptors that serialize. *)
Definition fairVote {CM : Codec MixDescriptor} {CR : Codec ReplicaDescriptor} (Sum256 : bytes -> bytes) (v : Document) : Prop :=
  (NoDup (map (nodeId Sum256) (listed v)) /\ Forall exact (listed v)) /\
  (NoDup (map (replicaId Sum256) (StorageReplicas v)) /\ Forall exact (StorageReplicas v)).

Section Agreement.

Context {S : SignScheme} {CM : Codec MixDescriptor} {CR : Codec ReplicaDescriptor} {CP : Codec Parameters}.
Context (Sum256 : bytes -> bytes) (fsum3 : Z -> Z -> Z -> Z) (nLogN : nat -> Z).

Lemma voters_perm (O : MapOrder) {L : MapOrderLaws O} (vs : gmap bytes Document) : map snd (entries vs) ≡ₚ map snd (map_to_list vs).
Proof. apply Permutation_map, entries_perm. Qed.

Lemma omap_length {A B} (f : A -> option B) l : (length (omap f l) <= length l)%nat.
Proof. induction l as [|x l IH]; [done|]. cbn. destruct (f x); cbn; lia. Qed.

Lemma voters_length (O : MapOrder) {L : MapOrderLaws O} (vs : gmap bytes Document) lambdaG :
  (length (ballots lambdaG (map snd (entries vs))) <= size vs)%nat /\
  (length (paramKeys lambdaG (map snd (entries vs))) <= size vs)%nat.
Proof.
  assert (Hl : length (map snd (entries vs)) = size vs) by (by rewrite length_map, entries_perm, length_map_to_list).
  rewrite <- Hl. split; [apply length_filter|apply omap_length].
Qed.

Lemma fair_ballots (O : MapOrder) {L : MapOrderLaws O} (vs : gmap bytes Document) lambdaG :
  map_Forall (fun _ v => fairVote Sum256 v) vs -> Forall (fairVote Sum256) (ballots lambdaG (map snd (entries vs))).
Proof.
  intros H. apply Forall_forall. intros v [_ Hv]%list_elem_of_filter. rewrite (voters_perm O vs) in Hv.
  apply list_elem_of_In, in_map_iff in Hv as ([k w] & <- & Hin). apply list_elem_of_In, elem_of_map_to_list in Hin. by apply (H k).
Qed.

Lemma fair_exact vs : Forall (fairVote Sum256) vs -> Forall (fun v => Forall exact (listed v) /\ Forall exact (StorageReplicas v)) vs.
Proof. intros H. eapply Forall_impl; [exact H|]. by intros v [[] []]. Qed.

Lemma exact_listed {D} {CDesc : Codec D} (f : Document -> list D) vs d :
  Forall (fun v => Forall exact (f v)) vs -> d ∈ concat (map f vs) -> exact d.
Proof.
  intros H. induction H as [|v vs Hv _ IH]; cbn; [by intros ?%elem_of_nil|]. rewrite Forall_forall in Hv.
  intros [Hd|Hd]%elem_of_app; auto.
Qed.

(** The result of an election in two orders. *)
Lemma election_unique {D} {CDesc : Codec D} a (id : D -> bytes) (f : Document -> list D) bs ds1 ds2 :
  ds1 ≡ₚ ds2 -> Forall (fun v => NoDup (map id (f v)) /\ Forall exact (f v)) bs -> Z.of_nat (length bs) < 2 * threshold a ->
  (forall d, d ∈ ds1 -> d ∈ concat (map f bs) /\
    exists k, codec_Marshal d = Some k /\ threshold a <= Z.of_nat (occ k (concat (map keysOf (map f bs))))) ->
  sortBy id ds1 = sortBy id ds2.
Proof.
  intros Hp Hf Hlt Hd. assert (Hx : Forall (fun v => Forall exact (f v)) bs) by (eapply Forall_impl; [exact Hf|]; by intros v []).
  apply sortBy_unique; [done|]. intros x y (Hix & kx & Hx1 & Htx)%Hd (Hiy & ky & Hy1 & Hty)%Hd.
  apply (elected_keyed a id (map f bs) x y kx ky); try done; [by apply Forall_map|by rewrite length_map|by eapply exact_listed..].
Qed.

Lemma tally_order (O1 O2 : MapOrder) {L1 : MapOrderLaws O1} {L2 : MapOrderLaws O2} a epoch s1 s2 vs :
  votes s1 !! epoch = Some vs -> votes s2 !! epoch = Some vs -> Z.of_nat (size vs) < 2 * threshold a ->
  map_Forall (fun _ v => fairVote Sum256 v) vs ->
  @tallyVotes S CM CR CP O1 Sum256 fsum3 nLogN a epoch s1 = @tallyVotes S CM CR CP O2 Sum256 fsum3 nLogN a epoch s2.
Proof.
  intros H1 H2 Hmaj Hfair. destruct (decide (threshold a <= Z.of_nat (size vs))) as [Hs|Hs].
  2:{ unfold tallyVotes. rewrite H1, H2, bool_decide_eq_true_2 by lia. done. }
  destruct (computeLambdaG fsum3 nLogN a) as [g|e|] eqn:Hg.
  2,3: unfold tallyVotes; rewrite H1, H2, bool_decide_eq_false_2, Hg by lia; done.
  pose proof (fair_ballots O1 vs g Hfair) as Hf. pose proof (fair_ballots O2 vs g Hfair) as Hf2.
  destruct (tallyVotes_ok Sum256 fsum3 nLogN a O1 epoch s1 vs g) as (n1 & r1 & lm1 & lp1 & lr1 & -> & Hm1 & Hn1 & Hp1 & Hr1 & Hre1 & Hno1 & Hrp1); [done..|by apply fair_exact|].
  destruct (tallyVotes_ok Sum256 fsum3 nLogN a O2 epoch s2 vs g) as (n2 & r2 & lm2 & lp2 & lr2 & -> & Hm2 & Hn2 & Hp2 & Hr2 & Hre2 & _ & _); [done..|by apply fair_exact|].
  set (l1 := map snd (@entries O1 _ vs)) in *. set (l2 := map snd (@entries O2 _ vs)) in *.
  assert (Hl : l1 ≡ₚ l2) by (unfold l1, l2; by rewrite (voters_perm O1 vs), (voters_perm O2 vs)).
  assert (Hb : ballots g l1 ≡ₚ ballots g l2) by (unfold ballots; by rewrite Hl).
  destruct (voters_length O1 vs g) as [Hbl Hpl]. fold l1 in Hbl, Hpl.
  assert (Hkp : lp1 ≡ₚ lp2) by (eapply entries_of_perm; [done..|]; unfold paramKeys; by rewrite Hl).
  assert (Hkm : lm1 ≡ₚ lm2) by (eapply entries_of_perm; [done..|]; by rewrite Hb).
  assert (Hkr : lr1 ≡ₚ lr2) by (eapply entries_of_perm; [done..|]; by rewrite Hb).
  assert (Hone : (length (omap (paramsBy a) lp1) <= 1)%nat).
  { apply (omap_unique _ (fun x => threshold a <= Z.of_nat x.2)).
    - apply Hp1.
    - intros x [p Hx]. unfold paramsBy in Hx. by case_bool_decide.
    - intros [k n] [k' n'] Hx Hy Htx Hty. apply Hp1 in Hx as [_ ->], Hy as [_ ->]. cbn in *.
      destruct (decide (k = k')) as [|Hne]; [done|]. pose proof (occ_two k k' (paramKeys g l1) Hne). lia. }
  assert (Hpar : omap (paramsBy a) lp1 = omap (paramsBy a) lp2).
  { assert (Hpe : omap (paramsBy a) lp1 ≡ₚ omap (paramsBy a) lp2) by (by rewrite Hkp).
    destruct (omap (paramsBy a) lp1) as [|x [|y l]]; [by apply Permutation_nil_l in Hpe|by apply Permutation_singleton_l in Hpe|].
    cbn in Hone. lia. }
  rewrite Hpar. destruct (head _) as [p|]; [|done]. do 3 f_equal.
  - apply (election_unique a (nodeId Sum256) listed (ballots g l1)); [by rewrite Hn1, Hn2, Hkm| |lia|by intros d (_ & ? & ?)%Hno1].
    eapply Forall_impl; [exact Hf|]. by intros v [].
  - apply (election_unique a (replicaId Sum256) StorageReplicas (ballots g l1)); [by rewrite Hre1, Hre2, Hkr| |lia|by intros d (_ & ? & ?)%Hrp1].
    eapply Forall_impl; [exact Hf|]. by intros v [].
Qed.

(** The tally reads the rules of an authority, and the votes. *)
Lemma tally_rules {O : MapOrder} a a' epoch s : sameRules a a' ->
  tallyVotes Sum256 fsum3 nLogN a epoch s = tallyVotes Sum256 fsum3 nLogN a' epoch s.
Proof.
  intros Hr. destruct a as [[] ?], a' as [[] ?]. unfold sameRules in Hr. cbn in Hr.
  destruct Hr as (-> & -> & -> & -> & -> & -> & ->). reflexivity.
Qed.

End Agreement.

(** C10: authorities with the same configuration that hold the same votes tally
    the same: whatever the order in which each ranges over its maps, and whatever
    else is in its state, the nodes, their order, the replicas and the parameters
    are equal, error cases included.  Two thresholds exceed the votes, as
    [newState] has it, and no vote lists a key twice. *)
Theorem tally_agreement {S : SignScheme} {CM : Codec MixDescriptor} {CR : Codec ReplicaDescriptor} {CP : Codec Parameters}
    (Sum256 : bytes -> bytes) (fsum3 : Z -> Z -> Z -> Z) (nLogN : nat -> Z)
    (O1 O2 : MapOrder) {L1 : MapOrderLaws O1} {L2 : MapOrderLaws O2} a a' epoch s s' vs :
  sameRules a a' -> votes s !! epoch = Some vs -> votes s' !! epoch = Some vs -> Z.of_nat (size vs) < 2 * threshold a ->
  map_Forall (fun _ v => fairVote Sum256 v) vs ->
  @tallyVotes S CM CR CP O1 Sum256 fsum3 nLogN a epoch s = @tallyVotes S CM CR CP O2 Sum256 fsum3 nLogN a' epoch s'.
Proof.
  intros Hr H H' Hlt Hf. rewrite (tally_order Sum256 fsum3 nLogN O1 O2 a epoch s s' vs) by done. by apply tally_rules.
Qed.

(** ** Majorities *)

(** How often a list has a descriptor, and the ballots that list it. *)
Definition times {D} `{EqDecision D} (d : D) (l : list D) : nat := length (List.filter (fun x => bool_decide (x = d)) l).

Definition supporters {D} `{EqDecision D} (d : D) (lists : list (list D)) : nat :=
  length (List.filter (fun l => bool_decide (d ∈ l)) lists).

Section Majority.

Context {D} `{EqDecision D} {CDesc : Codec D}.

Lemma times_occ (d : D) k l : Forall exact l -> codec_Marshal d = Some k -> exact d -> times d l = occ k (keysOf l).
Proof.
  intros Hl Hk Hd. apply (exact_Unmarshal _ _ Hd) in Hk as Hu. unfold times, occ, keysOf.
  induction Hl as [|x l (kx & Hkx & Hux) _ IH]; [done|]. cbn. rewrite Hkx. cbn.
  destruct (decide (x = d)) as [->|Hne].
  - assert (kx = k) as -> by congruence. rewrite !bool_decide_eq_true_2 by done. cbn. by rewrite IH.
  - rewrite !bool_decide_eq_false_2; [done|intros ->; congruence|done].
Qed.

Lemma times_concat (d : D) k lists : Forall (Forall exact) lists -> codec_Marshal d = Some k -> exact d ->
  times d (concat lists) = occ k (concat (map keysOf lists)).
Proof.
  intros Hl Hk Hd. rewrite (times_occ d k); [|by apply Forall_concat|done..]. f_equal. clear.
  induction lists as [|l lists IH]; [done|]. cbn. unfold keysOf in *. by rewrite omap_app, IH.
Qed.

Lemma times_app (d : D) l1 l2 : times d (l1 ++ l2) = (times d l1 + times d l2)%nat.
Proof. unfold times. by rewrite List.filter_app, length_app. Qed.

Lemma times_elem (d : D) l : (0 < times d l)%nat <-> d ∈ l.
Proof.
  unfold times. induction l as [|x l IH]; cbn; [split; [lia|by intros ?%elem_of_nil]|].
  case_bool_decide as Hx; cbn; rewrite elem_of_cons; [subst; split; [by left|lia]|]. rewrite IH. naive_solver.
Qed.

(** In lists without repetition every supporter counts once. *)
Lemma times_supporters (d : D) lists : Forall NoDup lists -> times d (concat lists) = supporters d lists.
Proof.
  unfold supporters. induction 1 as [|l lists Hl _ IH]; [done|]. cbn [concat List.filter]. rewrite times_app, IH.
  assert (times d l <= 1)%nat.
  { clear IH. induction Hl as [|x l Hx _ IHl]; [cbn; lia|]. unfold times in *. cbn. case_bool_decide; [subst|done]. cbn.
    pose proof (proj1 (times_elem d l)). unfold times in *. destruct (length _); [lia|]. exfalso. apply Hx. auto with lia. }
  pose proof (times_elem d l) as He. case_bool_decide as Hd; cbn; [apply He in Hd; lia|].
  assert (~ (0 < times d l)%nat) by (by rewrite He). lia.
Qed.

Lemma counted_times (f : Document -> list D) (t : Z) cast d :
  0 < t -> Forall (fun v => Forall exact (f v)) cast ->
  (d ∈ concat (map f cast) /\ exists k, codec_Marshal d = Some k /\ t <= Z.of_nat (occ k (concat (map keysOf (map f cast))))) <->
  t <= Z.of_nat (times d (concat (map f cast))).
Proof.
  intros Ht Hf. assert (Hl : Forall (Forall exact) (map f cast)) by (by apply Forall_map). split.
  - intros (Hd & k & Hk & Ho). rewrite (times_concat d k); [done..|]. by eapply exact_listed.
  - intros Ho. assert (Hd : d ∈ concat (map f cast)) by (apply times_elem; lia). split; [done|].
    assert (Hx : exact d) by (by eapply exact_listed). destruct Hx as (k & Hk & Hu). exists k. split; [done|].
    rewrite <- (times_concat d k); [done..|]. by exists k.
Qed.

End Majority.

(** The nodes and replicas of a tally, for votes with descriptors that serialize. *)
Lemma tallyVotes_elected {S : SignScheme} {CM : Codec MixDescriptor} {CR : Codec ReplicaDescriptor} {CP : Codec Parameters}
    {O : MapOrder} {L : MapOrderLaws O} (Sum256 : bytes -> bytes) (fsum3 : Z -> Z -> Z -> Z) (nLogN : nat -> Z)
    a epoch s vs lambdaG nodes replicas params :
  votes s !! epoch = Some vs -> computeLambdaG fsum3 nLogN a = Ok lambdaG -> 0 < threshold a ->
  map_Forall (fun _ v => Forall exact (listed v) /\ Forall exact (StorageReplicas v)) vs ->
  tallyVotes Sum256 fsum3 nLogN a epoch s = Ok (nodes, replicas, params) ->
  let cast := ballots lambdaG (map snd (entries vs)) in
  (forall d, d ∈ nodes <-> isDescriptorAuthorized Sum256 a d = true /\ threshold a <= Z.of_nat (times d (concat (map listed cast)))) /\
  (forall d, d ∈ replicas <-> isReplicaDescriptorAuthorized Sum256 a d = true /\ threshold a <= Z.of_nat (times d (concat (map StorageReplicas cast)))).
Proof.
  intros Hvs Hg Hpos Hx Ht cast.
  destruct (decide (threshold a <= Z.of_nat (size vs))) as [Hs|Hs].
  2:{ unfold tallyVotes in Ht. by rewrite Hvs, bool_decide_eq_true_2 in Ht by lia. }
  assert (Hc : Forall (fun v => Forall exact (listed v) /\ Forall exact (StorageReplicas v)) cast).
  { apply Forall_forall. intros v [_ Hv]%list_elem_of_filter. rewrite (voters_perm O vs) in Hv.
    apply list_elem_of_In, in_map_iff in Hv as ([k w] & <- & Hin). apply list_elem_of_In, elem_of_map_to_list in Hin. by apply (Hx k). }
  destruct (tallyVotes_ok Sum256 fsum3 nLogN a O epoch s vs lambdaG) as (n & r & lm & lp & lr & Heq & _ & _ & _ & _ & _ & Hn & Hr); [done..|].
  rewrite Ht in Heq. destruct (head _) as [p|]; [|done]. injection Heq as -> -> ->. fold cast in Hn, Hr.
  unfold sortNodesByPublicKey, sortReplicaNodesByPublicKey. split; intros d; rewrite sortBy_perm; [rewrite Hn|rewrite Hr]; f_equiv.
  - apply counted_times; [done|]. eapply Forall_impl; [exact Hc|]. by intros v [].
  - apply counted_times; [done|]. eapply Forall_impl; [exact Hc|]. by intros v [].
Qed.

(** A majority decides.  When no vote lists a key twice, the tally has exactly
    the descriptors that are authorized and listed by a threshold of the votes
    counted. *)
Theorem tally_majority {S : SignScheme} {CM : Codec MixDescriptor} {CR : Codec ReplicaDescriptor} {CP : Codec Parameters}
    {O : MapOrder} {L : MapOrderLaws O} (Sum256 : bytes -> bytes) (fsum3 : Z -> Z -> Z -> Z) (nLogN : nat -> Z)
    a epoch s vs lambdaG nodes replicas params :
  votes s !! epoch = Some vs -> computeLambdaG fsum3 nLogN a = Ok lambdaG -> 0 < threshold a ->
  map_Forall (fun _ v => fairVote Sum256 v) vs ->
  tallyVotes Sum256 fsum3 nLogN a epoch s = Ok (nodes, replicas, params) ->
  let cast := ballots lambdaG (map snd (entries vs)) in
  (forall d, d ∈ nodes <-> isDescriptorAuthorized Sum256 a d = true /\ threshold a <= Z.of_nat (supporters d (map listed cast))) /\
  (forall d, d ∈ replicas <-> isReplicaDescriptorAuthorized Sum256 a d = true /\ threshold a <= Z.of_nat (supporters d (map StorageReplicas cast))).
Proof.
  intros Hvs Hg Hpos Hf Ht cast. pose proof (fair_ballots Sum256 O vs lambdaG Hf) as Hc. fold cast in Hc.
  destruct (tallyVotes_elected Sum256 fsum3 nLogN a epoch s vs lambdaG nodes replicas params) as [Hn Hr]; [done..| |done|].
  { intros k v Hv. by destruct (Hf k v Hv) as [[] []]. }
  fold cast in Hn, Hr. split; intros d.
  - rewrite Hn, times_supporters; [done|]. apply Forall_map. eapply Forall_impl; [exact Hc|].
    intros v [[Hv _] _]. by eapply NoDup_fmap_1.
  - rewrite Hr, times_supporters; [done|]. apply Forall_map. eapply Forall_impl; [exact Hc|].
    intros v [_ [Hv _]]. by eapply NoDup_fmap_1.
Qed.

(** The tally counts a descriptor once for each time a vote lists it.  One
    vote that lists an authorized name with any keys a threshold of times puts
    it in the tally, whatever the other votes say. *)
Theorem ballot_stuffing {S : SignScheme} {CM : Codec MixDescriptor} {CR : Codec ReplicaDescriptor} {CP : Codec Parameters}
    {O : MapOrder} {L : MapOrderLaws O} (Sum256 : bytes -> bytes) (fsum3 : Z -> Z -> Z -> Z) (nLogN : nat -> Z)
    a epoch s vs lambdaG nodes replicas params pk v d :
  votes s !! epoch = Some vs -> computeLambdaG fsum3 nLogN a = Ok lambdaG -> 0 < threshold a ->
  map_Forall (fun _ v => Forall exact (listed v) /\ Forall exact (StorageReplicas v)) vs ->
  tallyVotes Sum256 fsum3 nLogN a epoch s = Ok (nodes, replicas, params) ->
  vs !! pk = Some v -> is_Some (codec_Marshal (paramsOf lambdaG v)) ->
  isDescriptorAuthorized Sum256 a d = true -> threshold a <= Z.of_nat (times d (listed v)) -> d ∈ nodes.
Proof.
  intros Hvs Hg Hpos Hx Ht Hv Hp Ha Hd.
  destruct (tallyVotes_elected Sum256 fsum3 nLogN a epoch s vs lambdaG nodes replicas params) as [Hn _]; [done..|].
  apply Hn. split; [done|]. assert (Hin : v ∈ ballots lambdaG (map snd (entries vs))).
  { apply list_elem_of_filter. split; [done|]. rewrite (voters_perm O vs). apply list_elem_of_In, in_map_iff.
    exists (pk, v). split; [done|]. by apply list_elem_of_In, elem_of_map_to_list. }
  apply list_elem_of_split in Hin as (l1 & l2 & ->). rewrite map_app, concat_app, map_cons. cbn [concat]. rewrite !times_app. lia.
Qed.

(** ** A concrete round *)

(** The votes of the three authorities; the third lists the first mix with
    another key for its packets, as often as the threshold is. *)
Definition toyForged : MixDescriptor :=
  mkMixDescriptor "mix1" (Some [3]) {[ 6 := Some [99] ]} false false 6 (Some [99]) ∅ None [] 0 "" "v0".

Definition toyStuffed : Document :=
  mkDocument 6 [[toyForged; toyForged]; [toyDescriptor "mix2" 5 false false]] [] [] [] 0
    6 0 0 0 0 0 0 0 0 0 0 0 0 0 0 [] [] ∅ ∅ ∅ ∅ [] [] [] "v1" "toy".

Definition toyRound (third : Document) : gmap bytes Document := {[ [1] := toyVote; [2] := toyVote; [3] := third ]}.

Definition toyVoted (third : Document) : state :=
  mkState ∅ ∅ ∅ ∅ {[ 6 := toyRound third ]} ∅ ∅ [] ∅ ∅ ∅ 6 6 stateAcceptVote.

Definition toyMixCodec : Codec MixDescriptor :=
  listCodec (toyForged :: concat (Topology toyVote) ++ GatewayNodes toyVote ++ ServiceNodes toyVote).

Definition toyReplicaCodec : Codec ReplicaDescriptor := listCodec [].

#[local] Instance Parameters_eq_dec : EqDecision Parameters.
Proof. solve_decision. Defined.

Definition toyParams : Codec Parameters := listCodec [mkParameters 0 0 0 0 0 0 0 0 0 0 0 0 0 0 0].

Definition toyTally (O : MapOrder) (third : Document) : outcome (list MixDescriptor * list ReplicaDescriptor * Parameters) :=
  @tallyVotes toySign toyMixCodec toyReplicaCodec toyParams O (fun b => b) (fun _ _ _ => 0) (fun _ => 0) toyAuthority 6 (toyVoted third).

Lemma toyRound_forall (P : Document -> Prop) third : P toyVote -> P third -> map_Forall (fun _ v => P v) (toyRound third).
Proof. intros H1 H2. unfold toyRound. repeat (apply map_Forall_insert_2; [done|]). apply map_Forall_empty. Qed.

Lemma toyVote_fair : @fairVote toyMixCodec toyReplicaCodec (fun b => b) toyVote.
Proof.
  split; split; apply (bool_decide_unpack _); vm_compute; exact I.
Qed.

Lemma toyStuffed_exact : Forall (@exact _ toyMixCodec) (listed toyStuffed) /\ Forall (@exact _ toyReplicaCodec) (StorageReplicas toyStuffed).
Proof. split; apply (bool_decide_unpack _); vm_compute; exact I. Qed.

Lemma tally_agreement_witness : toyTally toyOrder toyVote = toyTally toyReverse toyVote /\ exists r, toyTally toyOrder toyVote = Ok r.
Proof.
  split.
  - apply (@tally_agreement toySign toyMixCodec toyReplicaCodec toyParams (fun b => b) (fun _ _ _ => 0) (fun _ => 0)
      toyOrder toyReverse toyOrder_laws toyReverse_laws toyAuthority toyAuthority 6 (toyVoted toyVote) (toyVoted toyVote) (toyRound toyVote)).
    + split_and!; reflexivity.
    + reflexivity.
    + reflexivity.
    + vm_compute. reflexivity.
    + apply toyRound_forall; apply toyVote_fair.
  - eexists. vm_compute. reflexivity.
Defined.

Lemma tally_majority_witness :
  exists nodes replicas params, toyTally toyOrder toyVote = Ok (nodes, replicas, params) /\
    toyDescriptor "mix1" 3 false false ∈ nodes.
Proof.
  do 3 eexists. split; [vm_compute; reflexivity|].
  refine (proj2 (proj1 (@tally_majority toySign toyMixCodec toyReplicaCodec toyParams toyOrder toyOrder_laws (fun b => b)
    (fun _ _ _ => 0) (fun _ => 0) toyAuthority 6 (toyVoted toyVote) (toyRound toyVote) 0 _ _ _ _ _ _ _ _)
    (toyDescriptor "mix1" 3 false false)) _).
  - reflexivity.
  - reflexivity.
  - reflexivity.
  - apply toyRound_forall; apply toyVote_fair.
  - vm_compute. reflexivity.
  - split; [vm_compute; reflexivity|]. vm_compute. discriminate.
Defined.

Lemma ballot_stuffing_witness :
  exists nodes replicas params, toyTally toyOrder toyStuffed = Ok (nodes, replicas, params) /\ toyForged ∈ nodes.
Proof.
  do 3 eexists. split; [vm_compute; reflexivity|].
  apply (@ballot_stuffing toySign toyMixCodec toyReplicaCodec toyParams toyOrder toyOrder_laws (fun b => b)
    (fun _ _ _ => 0) (fun _ => 0) toyAuthority 6 (toyVoted toyStuffed) (toyRound toyStuffed) 0 _ [] (mkParameters 0 0 0 0 0 0 0 0 0 0 0 0 0 0 0)
    [3] toyStuffed).
  - reflexivity.
  - reflexivity.
  - reflexivity.
  - apply toyRound_forall; [by destruct toyVote_fair as [[] []]|apply toyStuffed_exact].
  - vm_compute. reflexivity.
  - vm_compute. reflexivity.
  - eexists. vm_compute. reflexivity.
  - vm_compute. reflexivity.
  - vm_compute. discriminate.
Defined.
