(* ===== verification/VotingReveal.v ===== *)
(** Commit and reveal: the shared random value of a voting round
    ([verifyCommits], [computeSharedRandom], [doCommit] and [reveal] of
    [authority/voting/server/state.go]).

    The certificate an authority keeps of its own shares its maps of commits and
    reveals with the state: [getCertificate] assigns them, and decoding CBOR into
    a map that exists keeps the map.  What arrives after the certificate was sent
    is therefore seen in it ([heldCertificates]). *)

From S2P Require Import Prelude ByteOrder Cert PkiDocument MixTopology DocumentCert VotingState.
From Stdlib Require Import ZArith Lia.
From stdpp Require Import prelude list strings gmap sorting.

Local Open Scope Z_scope.

Definition setShared (d : Document) (commits reveals : gmap bytes bytes) : Document :=
  mkDocument (doc_Epoch d) (Topology d) (GatewayNodes d) (ServiceNodes d) (StorageReplicas d) (MuMaxDelay d)
    (GenesisEpoch d) (SendRatePerMinute d) (Mu d) (LambdaP d) (LambdaPMaxDelay d) (LambdaL d) (LambdaLMaxDelay d)
    (LambdaD d) (LambdaDMaxDelay d) (LambdaM d) (LambdaMMaxDelay d) (LambdaG d) (LambdaGMaxDelay d) (LambdaR d)
    (LambdaRMaxDelay d) (ConfiguredReplicaIDs d) (ConfiguredReplicaIdentityKeys d) (ReplicaEnvelopeKeys d) (Signatures d)
    commits reveals (SharedRandomValue d) (PriorSharedRandom d) (SphinxGeometryHash d) (doc_Version d) (PKISignatureScheme d).

(** The maps [verifyCommits] builds. *)
Record seen := mkSeen { badnodes : gset bytes; comitted : gmap bytes bytes; revealed : gmap bytes bytes }.

Definition mark (pks : gset bytes) (t : seen) : seen := mkSeen (pks ∪ badnodes t) (comitted t) (revealed t).

(** A value [pk2] was seen with before, or the first one; the log message of a
    conflict prints the first 32 bytes of both commits. *)
Definition noteCommit (pk2 signedCommit : bytes) (t : seen) : outcome seen :=
  match comitted t !! pk2 with
  | Some signedCommit2 =>
    if bool_decide (signedCommit = signedCommit2) then Ok t
    else _ ← slice_to signedCommit 32; _ ← slice_to signedCommit2 32; Ok (mark {[pk2]} t)
  | None => Ok (mkSeen (badnodes t) (<[pk2 := signedCommit]> (comitted t)) (revealed t))
  end.

Definition noteReveal (pk2 signedReveal : bytes) (t : seen) : seen :=
  match revealed t !! pk2 with
  | Some signedReveal2 => if bool_decide (signedReveal = signedReveal2) then t else mark {[pk2]} t
  | None => mkSeen (badnodes t) (comitted t) (<[pk2 := signedReveal]> (revealed t))
  end.

Section Reveal.

Context {S : SignScheme} {C : Codec Certificate} {O : MapOrder} (blake2b_Sum256 : bytes -> bytes).
Context (a : authority) (now : Z).

(** Whether a signed reveal opens a signed commit of the key for the epoch;
    [inl b] is a failure, which is the signer's too if [b]. *)
Definition opens (epoch : Z) (v : sg_PublicKey) (signedCommit : bytes) (signedReveal : option bytes) : outcome (bool + bytes) :=
  match cert_Verify now v signedCommit with
  | Panic => Panic
  | Err _ => Ok (inl false)
  | Ok commit =>
    match signedReveal with
    | None => Ok (inl false)
    | Some signedReveal =>
      match cert_Verify now v signedReveal with
      | Panic => Panic
      | Err _ => Ok (inl false)
      | Ok reveal =>
        srv ← SetCommit (mkSharedRandom 0 [] []) commit;
        if negb (Z.eqb (sr_GetEpoch srv) epoch) then Ok (inl true)
        else
          ok ← sr_Verify blake2b_Sum256 srv reveal;
          match ok with true => Ok (inr signedReveal) | false => Ok (inl true) end
      end
    end
  end.

(** One commit in the certificate of [pk]; [false] leaves the loop. *)
Definition commitStep (epoch : Z) (pk : bytes) (certificate : Document) (x : bytes * bytes) (t : seen) : outcome (bool * seen) :=
  let '(pk2, signedCommit) := x in
  if bool_decide (pk2 ∈ badnodes t) then Ok (true, t)
  else
    match reverseHash a !! pk2 with
    | None => Ok (false, mark {[pk]} t)
    | Some v =>
      r ← opens epoch v signedCommit (SharedRandomReveal certificate !! pk2);
      match r with
      | inl false => Ok (false, mark {[pk]} t)
      | inl true => Ok (false, mark {[pk; pk2]} t)
      | inr signedReveal =>
        t ← noteCommit pk2 signedCommit t;
        Ok (true, noteReveal pk2 signedReveal t)
      end
    end.

Fixpoint commitLoop (epoch : Z) (pk : bytes) (certificate : Document) (l : list (bytes * bytes)) (t : seen) : outcome seen :=
  match l with
  | [] => Ok t
  | x :: l =>
    '(go_on, t) ← commitStep epoch pk certificate x t;
    match go_on with true => commitLoop epoch pk certificate l t | false => Ok t end
  end.

Fixpoint certificateLoop (epoch : Z) (l : list (bytes * Document)) (t : seen) : outcome seen :=
  match l with
  | [] => Ok t
  | (pk, certificate) :: l =>
    if bool_decide (pk ∈ badnodes t) then certificateLoop epoch l t
    else
      t ← commitLoop epoch pk certificate (entries (SharedRandomCommit certificate)) t;
      certificateLoop epoch l t
  end.

Definition heldCertificates (epoch : Z) (s : state) : gmap bytes Document :=
  alter (fun d => setShared d (at_epoch (commits s) epoch) (at_epoch (reveals s) epoch)) (identityPubKeyHash a)
    (at_epoch (certificates s) epoch).

Definition dropBad (bad : gset bytes) (m : gmap bytes bytes) : gmap bytes bytes := filter (fun '(pk, _) => pk ∉ bad) m.

Definition verifyCommits (epoch : Z) (s : state) : outcome (gmap bytes bytes * gmap bytes bytes) :=
  t ← certificateLoop epoch (entries (heldCertificates epoch s)) (mkSeen ∅ ∅ ∅);
  Ok (dropBad (badnodes t) (comitted t), dropBad (badnodes t) (revealed t)).

(** The certified digests of the reveals. *)
Fixpoint digests (l : list (bytes * bytes)) : outcome (list (bytes * bytes)) :=
  match l with
  | [] => Ok []
  | (pk, srr) :: l => digest ← GetCertified now srr; ds ← digests l; Ok ((pk, digest) :: ds)
  end.

(** [sort.Slice(l, func(i, j) bool { return l[i].Digest > l[j].Digest })]; with
    fewer than 12 elements it keeps the order of equal digests. *)
Definition sortDigests (l : list (bytes * bytes)) : list (bytes * bytes) := reverse (sortBy snd (reverse l)).

(** What is hashed. *)
Definition sharedInput (epoch : Z) (sorted : list (bytes * bytes)) (prior : bytes) : bytes :=
  string_bytes "shared-random" ++ PutUint64 epoch ++ concat (map (fun x => x.1 ++ x.2) sorted) ++ prior.

Definition priorValue (s : state) : bytes :=
  match documents s !! wrap 64 (votingEpoch s - 1) with
  | Some d => SharedRandomValue d
  | None => zeros 32
  end.

Definition computeSharedRandom (epoch : Z) (commits reveals : gmap bytes bytes) (s : state) : outcome bytes :=
  if bool_decide (Z.of_nat (size commits) < threshold a) then Err "Insuffiient commits to make threshold vote"
  else
    ds ← digests (entries reveals);
    Ok (blake2b_Sum256 (sharedInput epoch (sortDigests ds) (priorValue s))).

(** [rn] is what the random generator gives. *)
Definition doCommit (epoch : Z) (rn : outcome bytes) (s : state) : outcome (bytes * state) :=
  srv ← Commit blake2b_Sum256 epoch rn;
  signedCommit ← cert_Sign now (identityPrivateKey a) (identityPublicKey a) (GetCommit srv) epoch;
  signedReveal ← cert_Sign now (identityPrivateKey a) (identityPublicKey a) (sr_Reveal srv) epoch;
  let me := identityPubKeyHash a in
  let s := setCommits s (put (commits s) epoch me signedCommit) in
  Ok (signedCommit, setReveals s (put (reveals s) epoch me signedReveal)).

(** Without a reveal of its own the authority stops. *)
Definition reveal (epoch : Z) (s : state) : outcome bytes :=
  match at_epoch (reveals s) epoch !! identityPubKeyHash a with
  | Some signed => Ok signed
  | None => Err errFatal
  end.

End Reveal.

(** ** What the maps hold *)

(** Nothing is taken back. *)
Definition grows (t t' : seen) : Prop :=
  badnodes t ⊆ badnodes t' /\ comitted t ⊆ comitted t' /\ revealed t ⊆ revealed t'.

#[export] Instance grows_preorder : PreOrder grows.
Proof. split; [by intros t|]. intros t1 t2 t3 (?&?&?) (?&?&?). split_and!; by etrans. Qed.

Lemma grows_mark pks t : grows t (mark pks t).
Proof. split_and!; cbn; [apply union_subseteq_r|done..]. Qed.

Lemma noteReveal_grows pk2 r t : grows t (noteReveal pk2 r t).
Proof.
  unfold noteReveal. destruct (revealed t !! pk2) eqn:E; [case_bool_decide; [done|apply grows_mark]|].
  split_and!; cbn; [done..|by apply insert_subseteq].
Qed.

Lemma noteCommit_grows pk2 c t t' : noteCommit pk2 c t = Ok t' -> grows t t'.
Proof.
  unfold noteCommit. destruct (comitted t !! pk2) eqn:E.
  - case_bool_decide as Hx; [by intros [= <-]|]. clear Hx. intros H. go_inv H. go_inv H. injection H as <-. apply grows_mark.
  - intros [= <-]. split_and!; cbn; [done|by apply insert_subseteq|done].
Qed.

Section Soundness.

Context {S : SignScheme} {C : Codec Certificate} {O : MapOrder} {L : MapOrderLaws O} (blake2b_Sum256 : bytes -> bytes).
Context (a : authority) (now epoch : Z).

(** A commit with a reveal that opens it, both signed by the key. *)
Definition opened (pk2 c r : bytes) : Prop :=
  exists v, reverseHash a !! pk2 = Some v /\ opens blake2b_Sum256 now epoch v c (Some r) = Ok (inr r).

(** Each value kept has been opened. *)
Definition checked (t : seen) : Prop :=
  (forall pk2 c, comitted t !! pk2 = Some c -> exists r, revealed t !! pk2 = Some r /\ opened pk2 c r) /\
  (forall pk2, comitted t !! pk2 = None -> revealed t !! pk2 = None).

(** What a certificate says of a key is what is kept, or one of the two is bad. *)
Definition settled (t : seen) (pk : bytes) (certificate : Document) (pk2 c : bytes) : Prop :=
  pk ∈ badnodes t \/ pk2 ∈ badnodes t \/
  (comitted t !! pk2 = Some c /\ exists r, SharedRandomReveal certificate !! pk2 = Some r /\ revealed t !! pk2 = Some r).

Lemma settled_grows t t' pk certificate pk2 c : grows t t' -> settled t pk certificate pk2 c -> settled t' pk certificate pk2 c.
Proof.
  intros (Hb & Hc & Hr) [H|[H|(H & r & H1 & H2)]]; [left; by apply Hb|right; left; by apply Hb|].
  right; right. split; [by eapply lookup_weaken|]. exists r. split; [done|by eapply lookup_weaken].
Qed.

Lemma checked_mark pks t : checked t -> checked (mark pks t).
Proof. done. Qed.

Lemma opens_reveal v c r r' : opens blake2b_Sum256 now epoch v c r = Ok (inr r') -> r = Some r'.
Proof.
  unfold opens. destruct (cert_Verify now v c) as [cd| |]; [|done..]. destruct r as [r|]; [|done].
  destruct (cert_Verify now v r) as [rd| |]; [|done..]. intros H. go_inv H. destruct (negb _); [done|].
  go_inv H. destruct v1; congruence.
Qed.

(** Both notes of one opened commit. *)
Lemma note_checked pk2 c r t t1 :
  checked t -> opened pk2 c r -> noteCommit pk2 c t = Ok t1 -> checked (noteReveal pk2 r t1).
Proof.
  intros [Hc Hn] Ho. unfold noteCommit. destruct (comitted t !! pk2) as [c2|] eqn:E.
  - destruct (Hc _ _ E) as (r2 & Hr2 & _).
    assert (Hfin : forall pks, checked (noteReveal pk2 r (mark pks t))).
    { intros pks. unfold noteReveal. cbn [revealed mark]. rewrite Hr2. case_bool_decide; by split. }
    case_bool_decide.
    + intros [= <-]. unfold noteReveal. rewrite Hr2. case_bool_decide; by split.
    + intros H'. go_inv H'. go_inv H'. injection H' as <-. apply Hfin.
  - intros [= <-]. unfold noteReveal. cbn [revealed]. rewrite (Hn _ E). split; cbn; intros k; [intros c'|]; destruct (decide (pk2 = k)) as [<-|Hk].
    + rewrite !lookup_insert_eq. intros [= <-]. by exists r.
    + rewrite !lookup_insert_ne by done. apply Hc.
    + by rewrite lookup_insert_eq.
    + rewrite !lookup_insert_ne by done. apply Hn.
Qed.

Lemma note_settled pk certificate pk2 c r t t1 :
  noteCommit pk2 c t = Ok t1 -> SharedRandomReveal certificate !! pk2 = Some r ->
  settled (noteReveal pk2 r t1) pk certificate pk2 c.
Proof.
  intros H Hr. assert (H1 : pk2 ∈ badnodes t1 \/ comitted t1 !! pk2 = Some c).
  { revert H. unfold noteCommit. destruct (comitted t !! pk2) as [c2|] eqn:E.
    - case_bool_decide as Hx; [intros [= <-]; subst; by right|]. intros H. go_inv H. go_inv H. injection H as <-. left.
      apply elem_of_union_l, elem_of_singleton. done.
    - intros [= <-]. right. cbn. by rewrite lookup_insert_eq. }
  destruct H1 as [H1|H1]; [right; left; by apply noteReveal_grows|]. unfold noteReveal.
  destruct (revealed t1 !! pk2) as [r2|] eqn:E.
  - case_bool_decide as He; [subst; right; right; eauto|]. right; left. apply elem_of_union_l, elem_of_singleton. done.
  - right; right. cbn. split; [done|]. exists r. by rewrite lookup_insert_eq.
Qed.

Lemma commitStep_ok pk certificate pk2 c t go_on t' :
  checked t -> commitStep blake2b_Sum256 a now epoch pk certificate (pk2, c) t = Ok (go_on, t') ->
  grows t t' /\ checked t' /\ settled t' pk certificate pk2 c /\ (go_on = false -> pk ∈ badnodes t').
Proof.
  intros Hc. unfold commitStep. case_bool_decide as Hb.
  { intros [= <- <-]. split_and!; [done..|by right; left|done]. }
  destruct (reverseHash a !! pk2) as [v|] eqn:Hv.
  2:{ intros [= <- <-]. split_and!; [apply grows_mark|done|left|intros _]; apply elem_of_union_l, elem_of_singleton; done. }
  intros H. go_inv H. destruct v0 as [[]|r].
  - injection H as <- <-. split_and!; [apply grows_mark|done|left|intros _]; apply elem_of_union_l, elem_of_union_l, elem_of_singleton; done.
  - injection H as <- <-. split_and!; [apply grows_mark|done|left|intros _]; apply elem_of_union_l, elem_of_singleton; done.
  - pose proof (opens_reveal _ _ _ _ E) as Hr. rewrite Hr in E. go_inv H. injection H as <- <-.
    split_and!; [|eapply note_checked; [done|by exists v|done]|by eapply note_settled|done].
    etrans; [by eapply noteCommit_grows|apply noteReveal_grows].
Qed.

Lemma commitLoop_ok pk certificate l t t' :
  checked t -> commitLoop blake2b_Sum256 a now epoch pk certificate l t = Ok t' ->
  grows t t' /\ checked t' /\ forall pk2 c, (pk2, c) ∈ l -> settled t' pk certificate pk2 c.
Proof.
  revert t. induction l as [|[pk2 c] l IH]; intros t Hc; cbn [commitLoop].
  { intros [= <-]. split_and!; [done..|by intros ?? ?%elem_of_nil]. }
  intros H. go_inv H. destruct v as [go_on t1]. apply commitStep_ok in E as (Hg & Hc1 & Hs & Hf); [|done]. destruct go_on.
  - apply IH in H as (Hg' & Hc' & Hl); [|done]. split_and!; [by etrans|done|].
    intros pk3 c3 [Heq|?]%elem_of_cons; [injection Heq as -> ->; by eapply settled_grows|auto].
  - injection H as <-. split_and!; [done..|]. intros pk3 c3 _. left. by apply Hf.
Qed.

Lemma certificateLoop_ok l t t' :
  checked t -> certificateLoop blake2b_Sum256 a now epoch l t = Ok t' ->
  grows t t' /\ checked t' /\
  forall pk certificate pk2 c, (pk, certificate) ∈ l -> SharedRandomCommit certificate !! pk2 = Some c -> settled t' pk certificate pk2 c.
Proof.
  revert t. induction l as [|[pk certificate] l IH]; intros t Hc; cbn [certificateLoop].
  { intros [= <-]. split_and!; [done..|by intros ???? ?%elem_of_nil]. }
  case_bool_decide as Hb; intros H.
  - apply IH in H as (Hg & Hc' & Hl); [|done]. split_and!; [done..|].
    intros pk1 d pk2 c [Heq|?]%elem_of_cons Hin; [|by eapply Hl]. injection Heq as -> ->. left. by apply Hg.
  - go_inv H. apply commitLoop_ok in E as (Hg1 & Hc1 & Hl1); [|done]. apply IH in H as (Hg & Hc' & Hl); [|done].
    split_and!; [by etrans|done|]. intros pk1 d pk2 c [Heq|?]%elem_of_cons Hin; [|by eapply Hl]. injection Heq as -> ->.
    eapply settled_grows; [exact Hg|]. apply Hl1. rewrite entries_perm. by apply elem_of_map_to_list.
Qed.

Lemma checked_empty : checked (mkSeen ∅ ∅ ∅).
Proof. split; cbn; intros ?; by rewrite !lookup_empty. Qed.

Lemma dropBad_lookup (bad : gset bytes) (m : gmap bytes bytes) (pk c : bytes) : dropBad bad m !! pk = Some c <-> m !! pk = Some c /\ pk ∉ bad.
Proof. unfold dropBad. by rewrite map_lookup_filter_Some. Qed.

End Soundness.


(** ** Agreement *)

Section Honest.

Context {S : SignScheme} {C : Codec Certificate} {O : MapOrder} {L : MapOrderLaws O} (blake2b_Sum256 : bytes -> bytes) (now epoch : Z).

(** The certificates of a round report the values of [com] and [rev], each of
    which opens, and every one of them is reported. *)
Record reporting (a : authority) (s : state) (com rev : gmap bytes bytes) : Prop := {
  rep_same q d pk c : heldCertificates a epoch s !! q = Some d -> SharedRandomCommit d !! pk = Some c ->
    com !! pk = Some c /\ exists r, rev !! pk = Some r /\ SharedRandomReveal d !! pk = Some r /\
      opened blake2b_Sum256 a now epoch pk c r;
  rep_all pk : is_Some (com !! pk) -> exists q d, heldCertificates a epoch s !! q = Some d /\ is_Some (SharedRandomCommit d !! pk);
  rep_dom : dom com = dom rev;
}.

(** A report that can be checked. *)
Definition reported (a : authority) (com rev : gmap bytes bytes) (d : Document) (pk c : bytes) : Prop :=
  com !! pk = Some c /\ rev !! pk = SharedRandomReveal d !! pk /\
  match reverseHash a !! pk, rev !! pk with
  | Some v, Some r => match opens blake2b_Sum256 now epoch v c (Some r) with Ok (inr r') => r = r' | _ => False end
  | _, _ => False
  end.

#[export] Instance reported_dec a com rev d pk c : Decision (reported a com rev d pk c).
Proof.
  unfold reported. apply and_dec; [apply _|]. apply and_dec; [apply _|]. destruct (reverseHash a !! pk), (rev !! pk); try apply _.
  destruct (opens _ _ _ _ _ _) as [[]| |]; apply _.
Defined.

Lemma reported_reporting a s com rev :
  map_Forall (fun _ d => map_Forall (reported a com rev d) (SharedRandomCommit d)) (heldCertificates a epoch s) ->
  map_Forall (fun pk _ => map_Exists (fun _ d => is_Some (SharedRandomCommit d !! pk)) (heldCertificates a epoch s)) com ->
  dom com = dom rev -> reporting a s com rev.
Proof.
  intros H1 H2 H3. split; [| |done].
  - intros q d pk c Hq Hc. destruct (H1 q d Hq pk c Hc) as (Hcom & Hrev & H). split; [done|].
    destruct (reverseHash a !! pk) as [v|] eqn:Hv; [|done]. destruct (rev !! pk) as [r|] eqn:Hr; [|done].
    exists r. split_and!; [done..|]. exists v. split; [done|]. destruct (opens _ _ _ _ _ _) as [[]| |]; by subst.
  - intros pk [c Hc]. destruct (H2 pk c Hc) as (q & d & Hq & Hd). by exists q, d.
Qed.

Lemma noteCommit_same pk2 c com t :
  com !! pk2 = Some c -> comitted t ⊆ com -> badnodes t = ∅ ->
  exists t', noteCommit pk2 c t = Ok t' /\ comitted t' = <[pk2 := c]> (comitted t) /\ revealed t' = revealed t /\ badnodes t' = ∅.
Proof.
  intros Hc Hs Hb. unfold noteCommit. destruct (comitted t !! pk2) as [c2|] eqn:E.
  - assert (c2 = c) as -> by (eapply lookup_weaken in E; [|done]; congruence).
    rewrite bool_decide_eq_true_2 by done. exists t. split_and!; [done|by rewrite insert_id|done..].
  - eexists. split_and!; done.
Qed.

Lemma noteReveal_same pk2 r rev t :
  rev !! pk2 = Some r -> revealed t ⊆ rev -> badnodes t = ∅ ->
  comitted (noteReveal pk2 r t) = comitted t /\ revealed (noteReveal pk2 r t) = <[pk2 := r]> (revealed t) /\ badnodes (noteReveal pk2 r t) = ∅.
Proof.
  intros Hc Hs Hb. unfold noteReveal. destruct (revealed t !! pk2) as [r2|] eqn:E; [|done].
  assert (r2 = r) as -> by (eapply lookup_weaken in E; [|done]; congruence).
  rewrite bool_decide_eq_true_2 by done. split_and!; [done|by rewrite insert_id|done].
Qed.

(** Part of the reported values, and nobody is bad. *)
Definition partial (com rev : gmap bytes bytes) (t : seen) : Prop :=
  badnodes t = ∅ /\ comitted t ⊆ com /\ revealed t ⊆ rev.

Lemma commitStep_reporting a com rev pk d pk2 c t :
  (com !! pk2 = Some c /\ exists r, rev !! pk2 = Some r /\ SharedRandomReveal d !! pk2 = Some r /\ opened blake2b_Sum256 a now epoch pk2 c r) ->
  partial com rev t ->
  exists t', commitStep blake2b_Sum256 a now epoch pk d (pk2, c) t = Ok (true, t') /\ partial com rev t' /\ grows t t' /\ is_Some (comitted t' !! pk2).
Proof.
  intros (Hc & r & Hr & Hd & v & Hv & Ho) (Hb & Hcs & Hrs). unfold commitStep. rewrite Hb, bool_decide_eq_false_2 by (apply not_elem_of_empty).
  rewrite Hv, Hd, Ho. go. destruct (noteCommit_same pk2 c com t) as (t1 & H1 & Hc1 & Hr1 & Hb1); [done..|]. rewrite H1. go.
  destruct (noteReveal_same pk2 r rev t1) as (Hc2 & Hr2 & Hb2); [done|by rewrite Hr1|done|].
  eexists. split; [reflexivity|]. split_and!.
  - split_and!; [done|rewrite Hc2, Hc1|rewrite Hr2, Hr1]; by apply insert_subseteq_l.
  - etrans; [by eapply noteCommit_grows|apply noteReveal_grows].
  - rewrite Hc2, Hc1, lookup_insert_eq. by eexists.
Qed.

Lemma commitLoop_reporting a com rev pk d l t :
  (forall pk2 c, (pk2, c) ∈ l -> com !! pk2 = Some c /\ exists r, rev !! pk2 = Some r /\ SharedRandomReveal d !! pk2 = Some r /\
    opened blake2b_Sum256 a now epoch pk2 c r) ->
  partial com rev t ->
  exists t', commitLoop blake2b_Sum256 a now epoch pk d l t = Ok t' /\ partial com rev t' /\ grows t t' /\
    forall pk2, pk2 ∈ map fst l -> is_Some (comitted t' !! pk2).
Proof.
  revert t. induction l as [|[pk2 c] l IH]; intros t Hl Ht; cbn [commitLoop map].
  { exists t. split_and!; [done..|by intros ? ?%elem_of_nil]. }
  destruct (commitStep_reporting a com rev pk d pk2 c t) as (t1 & -> & H1 & Hg1 & Hs1); [apply Hl; by left|done|]. go.
  destruct (IH t1) as (t2 & -> & H2 & Hg2 & Hs2); [intros; apply Hl; by right|done|].
  exists t2. split_and!; [done..|by etrans|]. intros pk3 [->|?]%elem_of_cons; [|auto].
  destruct Hs1 as [x Hx]. exists x. eapply lookup_weaken; [exact Hx|apply Hg2].
Qed.

Lemma certificateLoop_reporting a com rev l t :
  (forall q d pk2 c, (q, d) ∈ l -> SharedRandomCommit d !! pk2 = Some c -> com !! pk2 = Some c /\ exists r, rev !! pk2 = Some r /\
    SharedRandomReveal d !! pk2 = Some r /\ opened blake2b_Sum256 a now epoch pk2 c r) ->
  partial com rev t ->
  exists t', certificateLoop blake2b_Sum256 a now epoch l t = Ok t' /\ partial com rev t' /\ grows t t' /\
    forall q d pk2, (q, d) ∈ l -> is_Some (SharedRandomCommit d !! pk2) -> is_Some (comitted t' !! pk2).
Proof.
  revert t. induction l as [|[q d] l IH]; intros t Hl Ht; cbn [certificateLoop].
  { exists t. split_and!; [done..|by intros ??? ?%elem_of_nil]. }
  rewrite bool_decide_eq_false_2 by (destruct Ht as [-> _]; apply not_elem_of_empty).
  destruct (commitLoop_reporting a com rev q d (entries (SharedRandomCommit d)) t) as (t1 & -> & H1 & Hg1 & Hs1); [|done|].
  { intros pk2 c Hin. rewrite entries_perm in Hin. apply elem_of_map_to_list in Hin. apply (Hl q); [by left|done]. }
  go. destruct (IH t1) as (t2 & -> & H2 & Hg2 & Hs2); [intros; eapply Hl; [by right|done]|done|].
  exists t2. split_and!; [done..|by etrans|]. intros q' d' pk2 [Heq|?]%elem_of_cons Hin; [|by eapply Hs2]. injection Heq as -> ->.
  destruct (Hs1 pk2) as [x Hx]; [|exists x; eapply lookup_weaken; [exact Hx|apply Hg2]].
  rewrite (Permutation_map _ (entries_perm _)). destruct Hin as [c Hc]. apply list_elem_of_In, in_map_iff. exists (pk2, c).
  split; [done|]. by apply list_elem_of_In, elem_of_map_to_list.
Qed.

Lemma verifyCommits_reporting a s com rev :
  reporting a s com rev -> verifyCommits blake2b_Sum256 a now epoch s = Ok (com, rev).
Proof.
  intros [Hsame Hall Hdom]. unfold verifyCommits.
  assert (Hin : forall q d, (q, d) ∈ entries (heldCertificates a epoch s) <-> heldCertificates a epoch s !! q = Some d).
  { intros q d. rewrite entries_perm. apply elem_of_map_to_list. }
  destruct (certificateLoop_reporting a com rev (entries (heldCertificates a epoch s)) (mkSeen ∅ ∅ ∅)) as (t & Ht & (Hb & Hc & Hr) & _ & Hs).
  { intros q d pk2 c Hq. apply Hsame with q. by apply Hin. }
  { split_and!; [done|apply map_empty_subseteq..]. }
  assert (Hk : checked blake2b_Sum256 a now epoch t).
  { apply (certificateLoop_ok _ _ _ _ _ _ _ (checked_empty _ _ _ _) Ht). }
  rewrite Ht. go. rewrite Hb. unfold dropBad. rewrite !map_filter_id by (intros ???; apply not_elem_of_empty).
  assert (Hcom : forall pk, is_Some (com !! pk) -> is_Some (comitted t !! pk)).
  { intros pk Hpk. destruct (Hall pk Hpk) as (q & d & Hq & Hd). eapply Hs; [by apply Hin|done]. }
  do 2 f_equal; apply map_eq; intros pk.
  - destruct (com !! pk) as [c|] eqn:E.
    + destruct (Hcom pk) as [x Hx]; [by eexists|]. pose proof (lookup_weaken _ _ _ _ Hx Hc). congruence.
    + destruct (comitted t !! pk) as [x|] eqn:Ex; [|done]. pose proof (lookup_weaken _ _ _ _ Ex Hc). congruence.
  - destruct (rev !! pk) as [r|] eqn:E.
    + assert (is_Some (com !! pk)) as [x Hx]%Hcom by (rewrite <- elem_of_dom, Hdom, elem_of_dom; by eexists).
      destruct (proj1 Hk _ _ Hx) as (r' & Hr' & _). pose proof (lookup_weaken _ _ _ _ Hr' Hr). congruence.
    + destruct (revealed t !! pk) as [x|] eqn:Ex; [|done]. pose proof (lookup_weaken _ _ _ _ Ex Hr). congruence.
Qed.

End Honest.

Section Digests.

Context {S : SignScheme} {C : Codec Certificate} (now : Z).

Definition digestOf (r : bytes) : bytes := match GetCertified now r with Ok d => d | _ => [] end.

Lemma digests_ok l :
  Forall (fun x : bytes * bytes => GetCertified now x.2 = Ok (digestOf x.2)) l ->
  digests now l = Ok (map (fun x => (x.1, digestOf x.2)) l).
Proof. induction 1 as [|[pk r] l Hr _ IH]; [done|]. cbn in Hr |- *. rewrite Hr. go. rewrite IH. by go. Qed.

Lemma opens_certified {O : MapOrder} blake2b_Sum256 epoch v c r :
  opens blake2b_Sum256 now epoch v c (Some r) = Ok (inr r) -> GetCertified now r = Ok (digestOf r).
Proof.
  unfold opens. destruct (cert_Verify now v c) as [cd| |]; [|done..]. destruct (cert_Verify now v r) as [rd| |] eqn:E; [|done..].
  intros _. unfold digestOf, GetCertified, cert_Verify in *. go_inv E.
  apply decodeCert_ok in E0. rewrite (proj2 (decodeCert_ok now ErrImpossibleDecode r v0)) by done. by go.
Qed.

Lemma sortDigests_unique l1 l2 : l1 ≡ₚ l2 -> keyed snd l1 -> sortDigests l1 = sortDigests l2.
Proof.
  intros Hp Hk. unfold sortDigests. f_equal. apply sortBy_unique; [by rewrite !reverse_Permutation|].
  intros x y Hx Hy. rewrite elem_of_reverse in Hx, Hy. by apply Hk.
Qed.

(** Equal digests stay in the order they come in. *)
Lemma sortDigests_pair x y : x.2 = y.2 -> sortDigests [x; y] = [x; y].
Proof.
  intros He. unfold sortDigests, sortBy, merge_sort. cbn. destruct (decide (key_le snd y x)) as [|Hn]; [done|].
  exfalso. apply Hn. unfold key_le. rewrite He. destruct (bytes_le_total y.2 y.2); done.
Qed.

End Digests.

Lemma reporting_certified {S : SignScheme} {C : Codec Certificate} {O : MapOrder} blake2b_Sum256 now epoch a s com rev pk r :
  reporting blake2b_Sum256 now epoch a s com rev -> rev !! pk = Some r -> GetCertified now r = Ok (digestOf now r).
Proof.
  intros [Hsame Hall Hdom] Hr.
  destruct (Hall pk) as (q & d & Hq & c & Hc); [rewrite <- elem_of_dom, Hdom, elem_of_dom; by eexists|].
  destruct (Hsame q d pk c Hq Hc) as (_ & r' & Hr' & _ & v & _ & Ho). rewrite Hr in Hr'. injection Hr' as <-. by eapply opens_certified.
Qed.

Section SharedRandom.

Context {S : SignScheme} {C : Codec Certificate} (O1 O2 : MapOrder) {L1 : MapOrderLaws O1} {L2 : MapOrderLaws O2}.
Context (blake2b_Sum256 : bytes -> bytes) (a a' : authority) (now epoch : Z) (s s' : state) (com rev : gmap bytes bytes).
Context (Hcert : forall pk r, rev !! pk = Some r -> GetCertified now r = Ok (digestOf now r)).

Lemma digests_rev l : l ≡ₚ map_to_list rev -> digests now l = Ok (map (fun x => (x.1, digestOf now x.2)) l).
Proof.
  intros Hl. apply digests_ok, Forall_forall. intros [pk r] Hin. rewrite Hl in Hin. apply elem_of_map_to_list in Hin. by eapply Hcert.
Qed.

Lemma computeSharedRandom_ok : threshold a <= Z.of_nat (size com) ->
  exists srv, @computeSharedRandom S C O1 blake2b_Sum256 a now epoch com rev s = Ok srv.
Proof.
  intros Ht. unfold computeSharedRandom. rewrite bool_decide_eq_false_2, digests_rev by (lia || apply entries_perm). go. by eexists.
Qed.

Lemma computeSharedRandom_same :
  threshold a = threshold a' -> priorValue s = priorValue s' ->
  (forall pk pk' r r', rev !! pk = Some r -> rev !! pk' = Some r' -> GetCertified now r = GetCertified now r' -> pk = pk') ->
  @computeSharedRandom S C O1 blake2b_Sum256 a now epoch com rev s = @computeSharedRandom S C O2 blake2b_Sum256 a' now epoch com rev s'.
Proof.
  intros Ht Hp Hd. unfold computeSharedRandom. rewrite <- Ht, <- Hp. case_bool_decide; [done|].
  rewrite !digests_rev by apply entries_perm. go. do 3 f_equal. apply sortDigests_unique; [by rewrite !entries_perm|].
  intros x y Hx Hy He. rewrite entries_perm in Hx, Hy.
  apply list_elem_of_In, in_map_iff in Hx as ([pk r] & <- & Hx), Hy as ([pk' r'] & <- & Hy). cbn in He |- *.
  apply list_elem_of_In, elem_of_map_to_list in Hx, Hy. rewrite He. f_equal. apply (Hd _ _ r r'); [done..|].
  by rewrite (Hcert _ _ Hx), (Hcert _ _ Hy), He.
Qed.

End SharedRandom.

(** Authorities agree on the shared random value.  If the certificates two
    authorities hold report the same openings, which need not be the same
    certificates, and no two reveals are equal, both count the same commits and
    reveals and compute the same value, in whatever order they range over their
    maps. *)
Theorem shared_random_agreement {S : SignScheme} {C : Codec Certificate} (O1 O2 : MapOrder) {L1 : MapOrderLaws O1}
    {L2 : MapOrderLaws O2} (blake2b_Sum256 : bytes -> bytes) (a a' : authority) (now epoch : Z) s s' com rev :
  @reporting S C O1 blake2b_Sum256 now epoch a s com rev -> @reporting S C O2 blake2b_Sum256 now epoch a' s' com rev ->
  threshold a = threshold a' -> threshold a <= Z.of_nat (size com) -> priorValue s = priorValue s' ->
  (forall pk pk' r r', rev !! pk = Some r -> rev !! pk' = Some r' -> GetCertified now r = GetCertified now r' -> pk = pk') ->
  exists srv, @verifyCommits S C O1 blake2b_Sum256 a now epoch s = Ok (com, rev) /\
    @verifyCommits S C O2 blake2b_Sum256 a' now epoch s' = Ok (com, rev) /\
    @computeSharedRandom S C O1 blake2b_Sum256 a now epoch com rev s = Ok srv /\
    @computeSharedRandom S C O2 blake2b_Sum256 a' now epoch com rev s' = Ok srv.
Proof.
  intros H1 H2 Ht Hs Hp Hd. assert (Hcert : forall pk r, rev !! pk = Some r -> GetCertified now r = Ok (digestOf now r))
    by (intros pk r; by eapply reporting_certified).
  destruct (computeSharedRandom_ok O1 blake2b_Sum256 a now epoch s com rev Hcert Hs) as [srv Hsrv].
  exists srv. split_and!; [by apply verifyCommits_reporting..|done|].
  by rewrite <- (computeSharedRandom_same O1 O2 _ a a' now epoch s s' com rev).
Qed.

(** An authority that copies the commit of another before the reveals, and
    its reveal afterwards, splits the rest.  Reveals with the same digest are
    hashed in the order in which the map is visited, so two authorities that
    hold the same reveals hash different inputs. *)
Theorem copied_reveal_splits {S : SignScheme} {C : Codec Certificate} (blake2b_Sum256 : bytes -> bytes) (a : authority)
    (now epoch : Z) s commits pk1 pk2 r1 r2 d :
  pk1 <> pk2 -> length pk1 = length pk2 -> GetCertified now r1 = Ok d -> GetCertified now r2 = Ok d ->
  threshold a <= Z.of_nat (size commits) ->
  exists x1 x2, x1 <> x2 /\
    (exists O1, MapOrderLaws O1 /\
      @computeSharedRandom S C O1 blake2b_Sum256 a now epoch commits {[ pk1 := r1; pk2 := r2 ]} s = Ok (blake2b_Sum256 x1)) /\
    (exists O2, MapOrderLaws O2 /\
      @computeSharedRandom S C O2 blake2b_Sum256 a now epoch commits {[ pk1 := r1; pk2 := r2 ]} s = Ok (blake2b_Sum256 x2)).
Proof.
  intros Hne Hlen H1 H2 Ht. set (m := {[ pk1 := r1; pk2 := r2 ]} : gmap bytes bytes).
  assert (Hm : map_to_list m ≡ₚ [(pk1, r1); (pk2, r2)]).
  { unfold m. rewrite map_to_list_insert by (by apply lookup_singleton_ne). by rewrite map_to_list_singleton. }
  assert (Hgen : forall x y, map_to_list m = [x; y] -> x.1 <> y.1 /\ length x.1 = length y.1 /\
    GetCertified now x.2 = Ok d /\ GetCertified now y.2 = Ok d).
  { intros x y Hxy. rewrite Hxy in Hm. apply Permutation_length_2_inv in Hm as [E|E]; injection E as <- <-; cbn; split_and!; auto. }
  destruct (map_to_list m) as [|x [|y [|z l]]] eqn:E; try (apply Permutation_length in Hm; cbn in Hm; lia).
  destruct (Hgen x y eq_refl) as (Hxy & Hl & Hx & Hy).
  exists (sharedInput epoch [(x.1, d); (y.1, d)] (priorValue s)), (sharedInput epoch [(y.1, d); (x.1, d)] (priorValue s)). split_and!.
  - unfold sharedInput. intros Heq. apply app_inj_1 in Heq as [_ Heq]; [|done]. apply app_inj_1 in Heq as [_ Heq]; [|done].
    cbn in Heq. rewrite <- !app_assoc in Heq. apply app_inj_1 in Heq as [Heq _]; done.
  - exists {| entries := fun V m => map_to_list m |}. split; [by split|]. unfold computeSharedRandom.
    rewrite bool_decide_eq_false_2 by lia. cbn [entries]. fold m. rewrite E. destruct x as [kx rx], y as [ky ry]. cbn in *.
    rewrite Hx, Hy. go. by rewrite sortDigests_pair.
  - exists {| entries := fun V m => reverse (map_to_list m) |}. split; [split; intros; apply reverse_Permutation|]. unfold computeSharedRandom.
    rewrite bool_decide_eq_false_2 by lia. cbn [entries]. fold m. rewrite E. destruct x as [kx rx], y as [ky ry]. cbn in *.
    rewrite Hx, Hy. go. by rewrite sortDigests_pair.
Qed.

(** ** Late votes *)

Section Blame.

Context {S : SignScheme} {C : Codec Certificate} {O : MapOrder} {L : MapOrderLaws O} (blake2b_Sum256 : bytes -> bytes).
Context (a : authority) (now epoch : Z).

Lemma opens_some v c r x : opens blake2b_Sum256 now epoch v c r = Ok x -> x <> inl false -> is_Some r.
Proof.
  unfold opens. destruct (cert_Verify now v c); [|naive_solver..]. destruct r; [by eexists|naive_solver].
Qed.

Lemma note_blame pk2 c r t t1 x :
  noteCommit pk2 c t = Ok t1 -> x ∈ badnodes (noteReveal pk2 r t1) -> x ∈ badnodes t \/ x = pk2.
Proof.
  intros H Hx. assert (H1 : x ∈ badnodes t1 \/ x = pk2).
  { unfold noteReveal in Hx. destruct (revealed t1 !! pk2); [case_bool_decide|]; cbn in Hx; set_solver. }
  destruct H1 as [H1|]; [|by right]. revert H. unfold noteCommit. destruct (comitted t !! pk2).
  - case_bool_decide as Hd; [intros [= <-]; by left|]. intros H. go_inv H. go_inv H. injection H as <-. cbn in H1. clear - H1. set_solver.
  - intros [= <-]. by left.
Qed.

(** Blame falls on the holder of a certificate, or on a key it has a reveal of. *)
Lemma commitStep_blame pk d pk2 c t go_on t' x :
  commitStep blake2b_Sum256 a now epoch pk d (pk2, c) t = Ok (go_on, t') -> x ∈ badnodes t' ->
  x ∈ badnodes t \/ x = pk \/ is_Some (SharedRandomReveal d !! x).
Proof.
  unfold commitStep. case_bool_decide as Hb; [intros [= <- <-]; by left|]. destruct (reverseHash a !! pk2) as [v|].
  2:{ intros [= <- <-]. cbn. clear. set_solver. }
  intros H. go_inv H. destruct v0 as [[]|r].
  - injection H as <- <-. apply opens_some in E; [|done]. cbn. rewrite !elem_of_union, !elem_of_singleton. intros [[->| ->]|?]; auto.
  - injection H as <- <-. cbn. clear. set_solver.
  - apply opens_some in E; [|done]. go_inv H. injection H as <- <-. intros [| ->]%(note_blame _ _ _ _ _ _ E0); auto.
Qed.

Lemma commitLoop_blame pk d l t t' x :
  commitLoop blake2b_Sum256 a now epoch pk d l t = Ok t' -> x ∈ badnodes t' ->
  x ∈ badnodes t \/ x = pk \/ is_Some (SharedRandomReveal d !! x).
Proof.
  revert t. induction l as [|[pk2 c] l IH]; intros t; cbn [commitLoop]; [intros [= <-]; by left|].
  intros H. go_inv H. destruct v as [go_on t1]. destruct go_on.
  - intros Hx. destruct (IH _ H Hx) as [Hx1|]; [|by right]. by eapply commitStep_blame.
  - injection H as <-. by eapply commitStep_blame.
Qed.

Lemma certificateLoop_blame l t t' x :
  certificateLoop blake2b_Sum256 a now epoch l t = Ok t' -> x ∈ badnodes t' ->
  x ∈ badnodes t \/ exists q d, (q, d) ∈ l /\ (x = q \/ is_Some (SharedRandomReveal d !! x)).
Proof.
  revert t. induction l as [|[q d] l IH]; intros t; cbn [certificateLoop]; [intros [= <-]; by left|].
  case_bool_decide; intros H' Hx.
  - destruct (IH _ H' Hx) as [|(q' & d' & ? & ?)]; [by left|]. right. exists q', d'. split; [by right|done].
  - go_inv H'. destruct (IH _ H' Hx) as [Hx1|(q' & d' & ? & ?)]; [|right; exists q', d'; split; [by right|done]].
    destruct (commitLoop_blame _ _ _ _ _ _ E Hx1) as [|?]; [by left|]. right. exists q, d. split; [by left|done].
Qed.

End Blame.

Lemma held_own {S : SignScheme} (a : authority) epoch s :
  heldCertificates a epoch s !! identityPubKeyHash a =
    (fun d => setShared d (at_epoch (commits s) epoch) (at_epoch (reveals s) epoch)) <$> at_epoch (certificates s) epoch !! identityPubKeyHash a.
Proof. apply lookup_alter_eq. Qed.

Lemma held_other {S : SignScheme} (a : authority) epoch s q :
  q <> identityPubKeyHash a -> heldCertificates a epoch s !! q = at_epoch (certificates s) epoch !! q.
Proof. intros Hq. by apply lookup_alter_ne. Qed.

(** An upload of a vote keeps reveals and certificates. *)
Lemma onVoteUpload_keeps {S : SignScheme} {C : Codec Certificate} {CD : Codec Document} {O : MapOrder} a now u s s' :
  onVoteUpload a now u s = (StOk, s') ->
  (exists c, s' = setCommits (setVotes s (votes s')) (commits s') /\
    at_epoch (commits s') (votingEpoch s) = <[Sum256From (up_PublicKey u) := c]> (at_epoch (commits s) (votingEpoch s))).
Proof.
  unfold onVoteUpload. destruct (negb _); [done|]. do 2 (case_bool_decide; [done|]). destruct (_ !! _); [done|].
  destruct (verified now u); [|done]. destruct (ParseDocument _ _) as [doc| |]; [|done..]. destruct (negb _); [done|].
  destruct (SharedRandomCommit doc !! _) as [c|]; [|done]. intros [= <-]. exists c. split; [done|].
  cbn. by rewrite at_epoch_put, decide_True, at_epoch_touch.
Qed.

(** Votes are accepted at any time, and the certificate an authority keeps of
    its own shares the map of commits with its state: an authority that is sent
    a vote after it has made its certificate, and no reveal, finds its own
    certificate invalid and drops its own commit and reveal from the shared
    random value, which the others still count. *)
Theorem late_vote_excludes {S : SignScheme} {C : Codec Certificate} {CD : Codec Document} {O : MapOrder} {L : MapOrderLaws O}
    (blake2b_Sum256 : bytes -> bytes) (a : authority) (now : Z) u s s' com rev :
  let epoch := votingEpoch s in let late := Sum256From (up_PublicKey u) in let me := identityPubKeyHash a in
  is_Some (heldCertificates a epoch s !! me) -> heldCertificates a epoch s !! late = None ->
  (forall q d, heldCertificates a epoch s !! q = Some d -> SharedRandomReveal d !! late = None) ->
  onVoteUpload a now u s = (StOk, s') -> verifyCommits blake2b_Sum256 a now epoch s' = Ok (com, rev) ->
  com !! me = None /\ rev !! me = None.
Proof.
  intros epoch late me [d0 Hme] Hlate Hno Hup. apply onVoteUpload_keeps in Hup as (c & Hs' & Hc). fold epoch late in Hc.
  unfold verifyCommits. intros H. go_inv H. rename v into t. injection H as <- <-.
  assert (Hcerts : certificates s' = certificates s /\ reveals s' = reveals s) by (by rewrite Hs'). destruct Hcerts as [Hcerts Hrevs].
  unfold me in Hme. rewrite held_own in Hme. destruct (at_epoch (certificates s) epoch !! _) as [d1|] eqn:Hd1; [|done].
  assert (Hrev : at_epoch (reveals s) epoch !! late = None) by (apply (Hno me (setShared d1 (at_epoch (commits s) epoch) (at_epoch (reveals s) epoch))); unfold me; by rewrite held_own, Hd1).
  assert (Hb : late ∉ badnodes t).
  { intros Hb. destruct (certificateLoop_blame _ _ _ _ _ _ _ _ E Hb) as [[]%not_elem_of_empty|(q & d & Hq & Hx)].
    rewrite entries_perm in Hq. apply elem_of_map_to_list in Hq. destruct (decide (q = me)) as [->|Hne].
    - unfold me in Hq. rewrite held_own, Hcerts, Hd1, Hrevs in Hq. injection Hq as <-. cbn in Hx. rewrite Hrev in Hx.
      destruct Hx as [Hx|[? ?]]; [|done]. unfold me in Hx. rewrite Hx, held_own, Hd1 in Hlate. done.
    - rewrite held_other, Hcerts, <- (held_other a epoch s) in Hq by done.
      destruct Hx as [Hx|[r Hr]]; [congruence|]. by rewrite (Hno q d) in Hr. }
  apply certificateLoop_ok in E as (_ & _ & Hs); [|apply checked_empty].
  assert (Hbad : me ∈ badnodes t).
  { destruct (Hs me (setShared d1 (at_epoch (commits s') epoch) (at_epoch (reveals s') epoch)) late c) as [|[|(_ & r & Hr & _)]]; [| |done..|].
    - rewrite entries_perm. apply elem_of_map_to_list. unfold me. by rewrite held_own, Hcerts, Hd1.
    - cbn. by rewrite Hc, lookup_insert_eq.
    - cbn in Hr. rewrite Hrevs, Hrev in Hr. done. }
  split; apply eq_None_not_Some; intros [x [_ Hx]%dropBad_lookup]; done.
Qed.

(** ** A concrete round *)

Definition toySecret (rn : Z) : SharedRandom :=
  match Commit toySum 6 (Ok [rn]) with Ok r => r | _ => mkSharedRandom 0 [] [] end.

Definition toySigned (k : Z) (data : bytes) : bytes :=
  match @cert_Sign toySign (toyCodec Certificate) 5 k k data 6 with Ok b => b | _ => [] end.

(** The commits and reveals of the first two authorities. *)
Definition toyCommits : gmap bytes bytes :=
  Eval vm_compute in {[ [1] := toySigned 1 (sr_commit (toySecret 7)); [2] := toySigned 2 (sr_commit (toySecret 8)) ]}.
Definition toyReveals : gmap bytes bytes :=
  Eval vm_compute in {[ [1] := toySigned 1 (sr_reveal (toySecret 7)); [2] := toySigned 2 (sr_reveal (toySecret 8)) ]}.

Definition toyCertificate : Document := setShared toyVote toyCommits toyReveals.

Definition toyCertified : state :=
  mkState ∅ ∅ ∅ ∅ ∅ {[ 6 := {[ [1] := toyCertificate; [2] := toyCertificate ]} ]} ∅ [] {[ 6 := toyReveals ]} {[ 6 := toyCommits ]} ∅ 6 6 stateAcceptCert.

Abbreviation toyVerify := (@verifyCommits toySign (toyCodec Certificate) toyOrder toySum toyAuthority 5 6).


Lemma toyCertified_reporting O : {O = toyOrder} + {O = toyReverse} ->
  @reporting toySign (toyCodec Certificate) O toySum 5 6 toyAuthority toyCertified toyCommits toyReveals.
Proof.
  intros [->| ->]; apply reported_reporting; apply (bool_decide_unpack _); vm_compute; exact I.
Qed.

Lemma toyReveals_distinct :
  map_Forall (fun pk r => map_Forall (fun pk' r' =>
    @digestOf (toyCodec Certificate) 5 r = @digestOf (toyCodec Certificate) 5 r' -> pk = pk') toyReveals) toyReveals.
Proof. apply (bool_decide_unpack _). vm_compute. exact I. Qed.

Lemma shared_random_agreement_witness :
  exists srv, @computeSharedRandom toySign (toyCodec Certificate) toyOrder toySum toyAuthority 5 6 toyCommits toyReveals toyCertified = Ok srv /\
    @computeSharedRandom toySign (toyCodec Certificate) toyReverse toySum toyAuthority 5 6 toyCommits toyReveals toyCertified = Ok srv.
Proof.
  destruct (@shared_random_agreement toySign (toyCodec Certificate) toyOrder toyReverse toyOrder_laws toyReverse_laws toySum
    toyAuthority toyAuthority 5 6 toyCertified toyCertified toyCommits toyReveals) as (srv & _ & _ & H1 & H2).
  - apply toyCertified_reporting. by left.
  - apply toyCertified_reporting. by right.
  - reflexivity.
  - vm_compute. discriminate.
  - reflexivity.
  - intros pk pk' r r' H H' He. apply (toyReveals_distinct pk r H pk' r' H'). unfold digestOf. by rewrite He.
  - exists srv. split; [exact H1|exact H2].
Defined.

(** The second authority reveals the value of the first. *)
Lemma copied_reveal_splits_witness :
  exists x1 x2, x1 <> x2 /\
    (exists O1, MapOrderLaws O1 /\ @computeSharedRandom toySign (toyCodec Certificate) O1 toySum toyAuthority 5 6 toyCommits
      {[ [1] := toySigned 1 (sr_reveal (toySecret 7)); [2] := toySigned 2 (sr_reveal (toySecret 7)) ]} toyCertified = Ok (toySum x1)) /\
    (exists O2, MapOrderLaws O2 /\ @computeSharedRandom toySign (toyCodec Certificate) O2 toySum toyAuthority 5 6 toyCommits
      {[ [1] := toySigned 1 (sr_reveal (toySecret 7)); [2] := toySigned 2 (sr_reveal (toySecret 7)) ]} toyCertified = Ok (toySum x2)).
Proof.
  apply (@copied_reveal_splits toySign (toyCodec Certificate) toySum toyAuthority 5 6 toyCertified toyCommits [1] [2]
    (toySigned 1 (sr_reveal (toySecret 7))) (toySigned 2 (sr_reveal (toySecret 7))) (sr_reveal (toySecret 7))).
  - discriminate.
  - reflexivity.
  - vm_compute. reflexivity.
  - vm_compute. reflexivity.
  - vm_compute. discriminate.
Defined.

(** The third authority votes when the first has made its certificate. *)
Definition toyLate : Document := setShared toyVote {[ [3] := toySigned 3 (sr_commit (toySecret 9)) ]} ∅.

Definition toyLateUpload : @upload toySign := @mkUpload toySign 3 6 (toySigned 3 [0]).

Lemma late_vote_excludes_witness :
  exists s' com rev, @onVoteUpload toySign (toyCodec Certificate) (listCodec [toyLate]) toyOrder toyAuthority 5 toyLateUpload toyCertified = (StOk, s') /\
    toyVerify s' = Ok (com, rev) /\ com !! [1] = None /\ is_Some (toyCommits !! [1]).
Proof.
  do 3 eexists. split; [vm_compute; reflexivity|]. split; [vm_compute; reflexivity|]. split; [|by eexists].
  refine (proj1 (@late_vote_excludes toySign (toyCodec Certificate) (listCodec [toyLate]) toyOrder toyOrder_laws toySum toyAuthority 5
    toyLateUpload toyCertified _ _ _ _ _ _ _ _)).
  - eexists. reflexivity.
  - reflexivity.
  - assert (H : map_Forall (fun _ d => SharedRandomReveal d !! [3] = None) (heldCertificates toyAuthority 6 toyCertified)).
    { apply (bool_decide_unpack _). vm_compute. exact I. }
    exact H.
  - vm_compute. reflexivity.
  - vm_compute. reflexivity.
Defined.
