(* ===== verification/VotingRound.v ===== *)
(** A voting round: votes, certificates, the consensus document and the state
    machine that drives an authority ([authority/voting/server/state.go]).

    The operations run under the lock of the state and read and write it: they
    are actions of a monad over [state] with Go's error values.  An outer [Err]
    is an error the authority stops with (sent to [fatalErrCh]), [Panic] a panic.
    The readings of the clock, the bytes the random generator gives and the answer
    of the database are arguments.  Messages to the other authorities are what
    the state machine returns. *)

From S2P Require Import Prelude EpochTime ByteOrder Cert PkiDocument MixTopology DocumentCert VotingState VotingTally VotingReveal.
From Stdlib Require Import ZArith Lia.
From stdpp Require Import prelude list strings gmap.

Local Open Scope Z_scope.

(** ** Actions *)

Definition act (A : Type) : Type := state -> outcome ((string + A) * state).

#[export] Instance act_ret : MRet act := fun A a s => Ok (inr a, s).
#[export] Instance act_bind : MBind act := fun A B k m s =>
  match m s with
  | Ok (inr a, s) => k a s
  | Ok (inl e, s) => Ok (inl e, s)
  | Err e => Err e
  | Panic => Panic
  end.

Definition gets {A} (f : state -> A) : act A := fun s => Ok (inr (f s), s).
Definition modify (f : state -> state) : act () := fun s => Ok (inr (), f s).
Definition fail {A} (e : string) : act A := fun s => Ok (inl e, s).

(** [if err != nil { return nil, err }], and calls that stop the authority. *)
Definition try {A} (m : outcome A) : act A := fun s =>
  match m with
  | Ok a => Ok (inr a, s)
  | Err e => Ok (inl e, s)
  | Panic => Panic
  end.
Definition halting {A} (m : outcome A) : act A := fun s => a ← m; Ok (inr a, s).

(** ** More of the state *)

Definition setMyconsensus (s : state) v : state :=
  mkState (documents s) v (descriptors s) (replicaDescriptors s) (votes s) (certificates s) (signatures s)
    (priorSRV s) (reveals s) (commits s) (cachedReplicaEnvelopeKeys s) (votingEpoch s) (genesisEpoch s) (st_phase s).
Definition setDocuments (s : state) v : state :=
  mkState v (myconsensus s) (descriptors s) (replicaDescriptors s) (votes s) (certificates s) (signatures s)
    (priorSRV s) (reveals s) (commits s) (cachedReplicaEnvelopeKeys s) (votingEpoch s) (genesisEpoch s) (st_phase s).
Definition setPrior (s : state) v : state :=
  mkState (documents s) (myconsensus s) (descriptors s) (replicaDescriptors s) (votes s) (certificates s) (signatures s)
    v (reveals s) (commits s) (cachedReplicaEnvelopeKeys s) (votingEpoch s) (genesisEpoch s) (st_phase s).
Definition setEnvelopeCache (s : state) v : state :=
  mkState (documents s) (myconsensus s) (descriptors s) (replicaDescriptors s) (votes s) (certificates s) (signatures s)
    (priorSRV s) (reveals s) (commits s) v (votingEpoch s) (genesisEpoch s) (st_phase s).
Definition setGenesis (s : state) v : state :=
  mkState (documents s) (myconsensus s) (descriptors s) (replicaDescriptors s) (votes s) (certificates s) (signatures s)
    (priorSRV s) (reveals s) (commits s) (cachedReplicaEnvelopeKeys s) (votingEpoch s) v (st_phase s).
Definition setVoting (s : state) (e : Z) (p : phase) : state :=
  mkState (documents s) (myconsensus s) (descriptors s) (replicaDescriptors s) (votes s) (certificates s) (signatures s)
    (priorSRV s) (reveals s) (commits s) (cachedReplicaEnvelopeKeys s) e (genesisEpoch s) p.

(** [setState]. *)
Definition setState (p : phase) (s : state) : state := setVoting s (votingEpoch s) p.

Definition setScheme (d : Document) (v : string) : Document :=
  mkDocument (doc_Epoch d) (Topology d) (GatewayNodes d) (ServiceNodes d) (StorageReplicas d) (MuMaxDelay d)
    (GenesisEpoch d) (SendRatePerMinute d) (Mu d) (LambdaP d) (LambdaPMaxDelay d) (LambdaL d) (LambdaLMaxDelay d)
    (LambdaD d) (LambdaDMaxDelay d) (LambdaM d) (LambdaMMaxDelay d) (LambdaG d) (LambdaGMaxDelay d) (LambdaR d)
    (LambdaRMaxDelay d) (ConfiguredReplicaIDs d) (ConfiguredReplicaIdentityKeys d) (ReplicaEnvelopeKeys d) (Signatures d)
    (SharedRandomCommit d) (SharedRandomReveal d) (SharedRandomValue d) (PriorSharedRandom d) (SphinxGeometryHash d)
    (doc_Version d) v.

(** ** Envelope keys of replicas *)

Abbreviation envelopeKeys := (gmap Z (gmap Z bytes)).

Definition cacheEnvelopeKeys (desc : ReplicaDescriptor) (cache : envelopeKeys) : envelopeKeys :=
  <[ReplicaID desc := EnvelopeKeys desc ∪ default ∅ (cache !! ReplicaID desc)]> cache.

Definition addKey (minEpoch maxEpoch : Z) (replicaID replicaEpoch : Z) (key : bytes) (result : envelopeKeys) : envelopeKeys :=
  if bool_decide (replicaEpoch < minEpoch) || bool_decide (maxEpoch < replicaEpoch) then result
  else
    let m := default ∅ (result !! replicaID) in
    match m !! replicaEpoch with
    | Some _ => <[replicaID := m]> result
    | None => <[replicaID := <[replicaEpoch := key]> m]> result
    end.

(** All keys of one replica; they are of different epochs, so that their order
    does not matter. *)
Definition addKeysOf (minEpoch maxEpoch : Z) (result : envelopeKeys) (replicaID : Z) (keys : gmap Z bytes) : envelopeKeys :=
  foldl (fun r '(e, k) => addKey minEpoch maxEpoch replicaID e k r) result (map_to_list keys).

(** The keys for the document, and the cache. *)
Definition buildReplicaEnvelopeKeys (tallied : list ReplicaDescriptor) (current : Z) (cache : envelopeKeys)
    : envelopeKeys * envelopeKeys :=
  let minEpoch := if bool_decide (0 < current) then current - 1 else 0 in
  let maxEpoch := wrap 64 (current + 1) in
  let cache := foldl (fun c d => cacheEnvelopeKeys d c) cache tallied in
  let result := foldl (fun r d => addKeysOf minEpoch maxEpoch r (ReplicaID d) (EnvelopeKeys d)) ∅ tallied in
  (foldl (fun r '(id, keys) => addKeysOf minEpoch maxEpoch r id keys) result (map_to_list cache),
   (fun keys => filter (fun '(e, _) => ~ e < minEpoch) keys) <$> cache).

Section Round.

Context {S : SignScheme} {C : Codec Certificate} {CD : Codec Document} {CM : Codec MixDescriptor} {CR : Codec ReplicaDescriptor}.
Context {CP : Codec Parameters} {CS : Codec Signature} {O : MapOrder} {R : Rng} {W : WebAddresses}.
Context (Sum256 blake2b_Sum256 : bytes -> bytes) (fsum3 : Z -> Z -> Z -> Z) (nLogN : nat -> Z).
Context (keyBytes : sg_PublicKey -> option bytes) (Period : Z) (a : authority).

Definition getVerifiers : list sg_PublicKey := map snd (entries (verifiers a)).

(** The identifiers and keys of the configured replicas, sorted by key. *)
Definition configuredReplicas : list (Z * bytes) :=
  sortBy snd (omap (fun '(keyHash, (_, id)) => k ← reverseHash a !! keyHash; b ← keyBytes k; Some (id, b))
    (entries (authorizedReplicaNodes a))).

(** Gateways, service nodes and mixes. *)
Definition carve (descs : list MixDescriptor) : list MixDescriptor * list MixDescriptor * list MixDescriptor :=
  (List.filter IsGatewayNode descs,
   List.filter (fun v => negb (IsGatewayNode v) && IsServiceNode v) descs,
   List.filter (fun v => negb (IsGatewayNode v) && negb (IsServiceNode v)) descs).

(** [replicaEpoch] is the current epoch of the replicas. *)
Definition getDocument (replicaEpoch : Z) (descs : list MixDescriptor) (replicaDescs : list ReplicaDescriptor)
    (params : Parameters) (srv : bytes) : act Document := fun s =>
  let '(gateways, serviceNodes, nodes) := carve descs in
  topology ←
    match cfg_Topology (cfg a) with
    | Some layers => Ok (generateFixedTopology Sum256 layers nodes)
    | None =>
      match documents s !! wrap 64 (votingEpoch s - 1) with
      | Some d => generateTopology Sum256 (cfg_Layers (cfg a)) nodes d srv
      | None => generateRandomTopology (cfg_Layers (cfg a)) nodes srv
      end
    end;
  lambdaG ← computeLambdaG fsum3 nLogN a;
  let '(keys, cache) := buildReplicaEnvelopeKeys replicaDescs replicaEpoch (cachedReplicaEnvelopeKeys s) in
  let doc := mkDocument (votingEpoch s) topology gateways serviceNodes replicaDescs (p_MuMaxDelay params)
    (genesisEpoch s) (p_SendRatePerMinute params) (p_Mu params) (p_LambdaP params) (p_LambdaPMaxDelay params)
    (p_LambdaL params) (p_LambdaLMaxDelay params) (p_LambdaD params) (p_LambdaDMaxDelay params) (p_LambdaM params)
    (p_LambdaMMaxDelay params) lambdaG (p_LambdaGMaxDelay params) (p_LambdaR params) (p_LambdaRMaxDelay params)
    (map fst configuredReplicas) (map snd configuredReplicas) keys ∅ ∅ ∅ srv (priorSRV s)
    (cfg_SphinxGeometryHash (cfg a)) DocumentVersion (cfg_PKISignatureScheme (cfg a)) in
  Ok (inr doc, setEnvelopeCache s cache).

(** The document with the signature of this authority. *)
Definition signDoc (now : Z) (d : Document) : act Document :=
  try (snd <$> SignDocument now (identityPrivateKey a) (identityPublicKey a) d).

(** [if _, ok := m[e][me]; !ok { m[e][me] = v } else { return error }]. *)
Definition saveOwn (get : state -> perEpoch Document) (set : state -> perEpoch Document -> state) (epoch : Z) (d : Document)
    : act () := fun s =>
  let me := identityPubKeyHash a in
  let m := touch (get s) epoch in
  match at_epoch m epoch !! me with
  | Some _ => Ok (inl "failure: vote already present, this should never happen"%string, set s m)
  | None => Ok (inr (), set s (put m epoch me d))
  end.

(** The genesis and the prior random values come from the previous document. *)
Definition restorePrior (s : state) : state :=
  let prev := wrap 64 (votingEpoch s - 1) in
  match documents s !! prev with
  | Some d =>
    setDocuments (setPrior (setGenesis s (GenesisEpoch d)) (PriorSharedRandom d))
      (<[prev := setScheme d (cfg_PKISignatureScheme (cfg a))]> (documents s))
  | None => setGenesis s (votingEpoch s)
  end.

Definition getVote (now replicaEpoch : Z) (rn : outcome bytes) (epoch : Z) : act Document :=
  _ ← modify restorePrior;
  descs ← gets (fun s => map snd (entries (at_epoch (descriptors s) epoch)));
  replicaDescs ← gets (fun s => map snd (entries (at_epoch (replicaDescriptors s) epoch)));
  vote ← getDocument replicaEpoch descs replicaDescs (cfg_Parameters (cfg a)) (zeros 32);
  signedCommit ← (fun s =>
    match doCommit blake2b_Sum256 a now epoch rn s with
    | Ok (c, s) => Ok (inr c, s)
    | Err e => Ok (inl e, s)
    | Panic => Panic
    end);
  vote ← signDoc now (setShared vote {[ identityPubKeyHash a := signedCommit ]} ∅);
  _ ← saveOwn votes setVotes epoch vote;
  mret vote.

(** [certificate], with the rotation of the prior values. *)
Definition rotate (epoch : Z) (srv : bytes) (prior : list bytes) : outcome (list bytes) :=
  if Z.eqb (Z.rem epoch (WeekOfEpochs Period)) 0 then p ← index prior 0; Ok [srv; p]
  else Ok prior.

Definition rotatePrior (first : state -> bool) (epoch : Z) (srv : bytes) : act () := fun s =>
  if first s then Ok (inr (), setPrior s [srv; srv])
  else p ← rotate epoch srv (priorSRV s); Ok (inr (), setPrior s p).

Definition wellFormed (now : Z) (d : Document) : outcome () := IsDocumentWellFormed Sum256 blake2b_Sum256 now d getVerifiers.

Definition getCertificate (now replicaEpoch : Z) (epoch : Z) : act Document :=
  t ← gets (tallyVotes Sum256 fsum3 nLogN a epoch);
  '(mixes, replicas, params) ← try t;
  let srv := zeros 32 in
  certificate ← getDocument replicaEpoch mixes replicas params srv;
  certificate ← gets (fun s => setShared certificate (at_epoch (commits s) epoch) (at_epoch (reveals s) epoch));
  _ ← rotatePrior (fun s => bool_decide (priorSRV s = [])) epoch srv;
  certificate ← signDoc now certificate;
  _ ← try (wellFormed now certificate);
  _ ← saveOwn certificates setCertificates epoch certificate;
  mret certificate.

(** The consensus document before it is signed. *)
Definition consensusOfOne (now replicaEpoch : Z) (epoch : Z) : act Document :=
  certs ← gets (fun s => certificates s !! epoch);
  match certs with
  | None => fail "No certificates"
  | Some certs =>
    if bool_decide (Z.of_nat (size certs) < threshold a) then fail "No way to make consensus with too few votes!"
    else
      r ← gets (verifyCommits blake2b_Sum256 a now epoch);
      '(commits, reveals) ← halting r;
      if bool_decide (Z.of_nat (size commits) < threshold a) then fail "No way to make consensus with too few SharedRandom commits!"
      else if negb (bool_decide (size commits = size reveals)) then fun _ => Panic
      else
        srv ← gets (computeSharedRandom blake2b_Sum256 a now epoch commits reveals);
        srv ← try srv;
        _ ← rotatePrior (fun s => Z.eqb epoch (genesisEpoch s)) epoch srv;
        t ← gets (tallyVotes Sum256 fsum3 nLogN a epoch);
        '(mixes, replicas, params) ← try t;
        doc ← getDocument replicaEpoch mixes replicas params srv;
        _ ← try (wellFormed now doc);
        mret doc
  end.

Definition getMyConsensus (now replicaEpoch : Z) (epoch : Z) : act Document :=
  doc ← consensusOfOne now replicaEpoch epoch;
  doc ← signDoc now doc;
  _ ← modify (fun s => setMyconsensus s (<[epoch := doc]> (myconsensus s)));
  mret doc.

(** Signatures that do not verify are left out.  Those that arrived are of
    authorities, which are in the table of keys. *)
Fixpoint addSignatures (now : Z) (l : list (bytes * Signature)) (d : Document) : outcome Document :=
  match l with
  | [] => Ok d
  | (pk, sig) :: l =>
    match reverseHash a !! pk with
    | None => Panic
    | Some v =>
      match doc_AddSignature now v sig d with
      | Ok d => addSignatures now l d
      | Err _ => addSignatures now l d
      | Panic => Panic
      end
    end
  end.

(** [persisted] says whether the database took the document. *)
Definition getThresholdConsensus (now : Z) (persisted : bool) (epoch : Z) : act Document :=
  my ← gets (fun s => myconsensus s !! epoch);
  match my with
  | None => fail "We have no view of consensus!"
  | Some ourConsensus =>
    d ← gets (fun s => addSignatures now (entries (at_epoch (signatures s) epoch)) ourConsensus);
    ourConsensus ← halting d;
    _ ← modify (fun s => setMyconsensus s (<[epoch := ourConsensus]> (myconsensus s)));
    signedConsensus ← try (MarshalCertificate ourConsensus);
    '(_, _, _, err) ← halting (VerifyThreshold now getVerifiers (threshold a) signedConsensus);
    match err with
    | Some _ => fail "No consensus found"
    | None =>
      if persisted then
        _ ← modify (fun s => setDocuments s (<[epoch := ourConsensus]> (documents s)));
        mret ourConsensus
      else halting (Err errFatal)
    end
  end.


(** ** The state machine *)

Definition MixPublishDeadline : Z := Z.quot Period 8.
Definition AuthorityVoteDeadline : Z := MixPublishDeadline + Z.quot Period 8.
Definition AuthorityRevealDeadline : Z := AuthorityVoteDeadline + Z.quot Period 8.
Definition AuthorityCertDeadline : Z := AuthorityRevealDeadline + Z.quot Period 8.
Definition PublishConsensusDeadline : Z := AuthorityCertDeadline + Z.quot Period 8.

(** A reading of [epochtime.Now]. *)
Record clock := mkClock { ck_epoch : Z; ck_elapsed : Z; ck_next : Z }.

(** What the state machine starts: a fetch of a missing document, and the
    messages to all other authorities. *)
Inductive action :=
  | FetchConsensus (epoch : Z)
  | SendVote (payload : bytes) (epoch : Z)
  | SendReveal (payload : bytes) (epoch : Z)
  | SendCert (payload : bytes) (epoch : Z)
  | SendSig (payload : bytes) (epoch : Z).

Definition backgroundFetchConsensus (epoch : Z) (s : state) : list action :=
  match documents s !! epoch with
  | Some _ => []
  | None => [FetchConsensus epoch]
  end.

(** What the fetch does with the document it gets. *)
Definition onFetched (epoch : Z) (doc : Document) (s : state) : state :=
  match documents s !! epoch with
  | Some _ => s
  | None => setDocuments s (<[epoch := doc]> (documents s))
  end.

Definition bootstrap (t : clock) (s : state) : Z * list action * state :=
  let s := setGenesis s 0 in
  let fetches := backgroundFetchConsensus (wrap 64 (ck_epoch t - 1)) s ++ backgroundFetchConsensus (ck_epoch t) s in
  if bool_decide (MixPublishDeadline < ck_elapsed t)
  then (ck_next t, fetches, setVoting s (wrap 64 (ck_epoch t + 2)) stateBootstrap)
  else (Z.max 0 (MixPublishDeadline - ck_elapsed t), fetches, setVoting s (wrap 64 (ck_epoch t + 1)) stateAcceptDescriptor).

(** Send a document if it was made and serializes. *)
Definition sendDoc (mk : bytes -> Z -> action) (epoch : Z) (r : string + Document) : outcome (list action) :=
  match r with
  | inl _ => Ok []
  | inr signed =>
    match MarshalCertificate signed with
    | Ok raw => Ok [mk raw epoch]
    | Err _ => Ok []
    | Panic => Panic
    end
  end.

(** The detached signature of the consensus, signed. *)
Definition sendSig (now epoch : Z) (r : string + Document) : outcome (list action) :=
  match r with
  | inl _ => Ok []
  | inr doc =>
    match Signatures doc !! identityPubKeyHash a with
    | None => Err errFatal
    | Some sig =>
      match codec_Marshal sig with
      | None => Err errFatal
      | Some serialized =>
        match cert_Sign now (identityPrivateKey a) (identityPublicKey a) serialized epoch with
        | Ok signed => Ok [SendSig signed epoch]
        | Err _ => Err errFatal
        | Panic => Panic
        end
      end
    end
  end.

(** One turn: the time to sleep, the actions and the state.  [t] is the first
    reading of the clock, [t'] the one after the work, [t3] the epoch when old
    documents are pruned. *)
Definition fsm (t t' : clock) (t3 replicaEpoch : Z) (rn : outcome bytes) (persisted : bool) (s : state)
    : outcome (Z * list action * state) :=
  let now := ck_epoch t in
  let e := votingEpoch s in
  '(sleep, acts, s) ←
    match st_phase s with
    | stateBootstrap => Ok (bootstrap t s)
    | stateAcceptDescriptor =>
      '(r, s) ← getVote now replicaEpoch rn e s;
      acts ← sendDoc SendVote e r;
      Ok (AuthorityVoteDeadline - ck_elapsed t', acts, setState stateAcceptVote s)
    | stateAcceptVote =>
      signed ← reveal a e s;
      Ok (AuthorityRevealDeadline - ck_elapsed t', [SendReveal signed e], setState stateAcceptReveal s)
    | stateAcceptReveal =>
      '(r, s) ← getCertificate now replicaEpoch e s;
      acts ← sendDoc SendCert e r;
      Ok (AuthorityCertDeadline - ck_elapsed t', acts, setState stateAcceptCert s)
    | stateAcceptCert =>
      '(r, s) ← getMyConsensus now replicaEpoch e s;
      acts ← sendSig now e r;
      Ok (PublishConsensusDeadline - ck_elapsed t', acts, setState stateAcceptSignature s)
    | stateAcceptSignature =>
      '(r, s) ← getThresholdConsensus now persisted e s;
      match r with
      | inr _ => Ok (MixPublishDeadline + ck_next t', [], setVoting s (wrap 64 (e + 1)) stateAcceptDescriptor)
      | inl _ => Ok (ck_next t', [], setVoting s (wrap 64 (ck_epoch t + 2)) stateBootstrap)
      end
    end;
  Ok (sleep, acts, pruneDocuments t3 s).

End Round.

(** ** Actions that succeed *)

Lemma act_bind_inv {A B} (m : act A) (k : A -> act B) s b s' :
  (a ← m; k a) s = Ok (inr b, s') -> exists a s1, m s = Ok (inr a, s1) /\ k a s1 = Ok (inr b, s').
Proof.
  unfold mbind, act_bind. destruct (m s) as [[[e|a] s1]| |]; [done| |done..]. intros H. by exists a, s1.
Qed.

Lemma try_inv {A} (m : outcome A) s a s' : try m s = Ok (inr a, s') -> m = Ok a /\ s' = s.
Proof. unfold try. destruct m; naive_solver. Qed.

Lemma halting_inv {A} (m : outcome A) s a s' : halting m s = Ok (inr a, s') -> m = Ok a /\ s' = s.
Proof. unfold halting. destruct m; naive_solver. Qed.

Ltac act_inv H :=
  let a := fresh "x" in let s := fresh "s" in let E := fresh "E" in
  apply act_bind_inv in H; destruct H as (a & s & E & H).

(** ** The consensus is signed by a majority *)

Section Published.

Context {S : SignScheme} {C : Codec Certificate} {CD : Codec Document} {O : MapOrder} {L : MapOrderLaws O} (a : authority).

Lemma getVerifiers_elem v : v ∈ getVerifiers a <-> exists h, verifiers a !! h = Some v.
Proof.
  unfold getVerifiers. rewrite list_elem_of_In, in_map_iff. split.
  - intros ([h w] & <- & Hin). apply list_elem_of_In in Hin. rewrite entries_perm in Hin. apply elem_of_map_to_list in Hin. by exists h.
  - intros [h Hh]. exists (h, v). split; [done|]. apply list_elem_of_In. rewrite entries_perm. by apply elem_of_map_to_list.
Qed.

Lemma getThresholdConsensus_ok now persisted epoch s doc s' :
  getThresholdConsensus a now persisted epoch s = Ok (inr doc, s') ->
  documents s' = <[epoch := doc]> (documents s) /\
  exists raw data good, MarshalCertificate doc = Ok raw /\ threshold a <= Z.of_nat (length good) /\
    NoDup (map Sum256From good) /\ Forall (fun v => v ∈ getVerifiers a /\ signedBy now v raw data) good.
Proof.
  unfold getThresholdConsensus. intros H. act_inv H. injection E as <- <-. destruct (myconsensus s !! epoch) as [our|]; [|done].
  act_inv H. injection E as <- <-. act_inv H. apply halting_inv in E as [_ ->]. rename x into our'.
  act_inv H. injection E as _ <-. act_inv H. apply try_inv in E as [Hraw ->]. act_inv H. apply halting_inv in E as [Hv ->].
  destruct x1 as [[[data good] bad] err]. destruct err; [done|]. destruct persisted; [|done].
  act_inv H. injection E as _ <-. injection H as <- <-. split; [done|].
  destruct (VerifyThreshold_ok now (getVerifiers a) (threshold a) x0) as (data' & good' & bad' & err' & Hv' & He & Hg).
  rewrite Hv in Hv'. injection Hv' as <- <- <- <-. destruct (Hg eq_refl) as (Hl & Hn & Hf). exists x0, data, good.
  split_and!; [done| |done|done]. rewrite Hl. by apply He.
Qed.

End Published.

Section Tables.

Context {S : SignScheme}.

(** Keys are stored under their hash. *)
Definition hashed (m : gmap bytes sg_PublicKey) : Prop := forall h v, m !! h = Some v -> h = Sum256From v.

Lemma hashed_insert m k : hashed m -> hashed (<[Sum256From k := k]> m).
Proof. intros H h v [[<- <-]|[_ Hv]]%lookup_insert_Some; auto. Qed.

Lemma hashed_addKeys m l : hashed m -> hashed (addKeys m l).
Proof. unfold addKeys. revert m. induction l as [|k l IH]; intros m H; cbn; [done|]. by apply IH, hashed_insert. Qed.

Lemma hashed_empty : hashed ∅.
Proof. intros h v H. by rewrite lookup_empty in H. Qed.

Lemma newState_verifiers c k p : hashed (verifiers (newState c k p)).
Proof. apply hashed_insert, hashed_addKeys, hashed_empty. Qed.

Lemma newState_reverse c k p : hashed (reverseHash (newState c k p)).
Proof. apply hashed_insert, hashed_addKeys, hashed_empty. Qed.

Lemma newState_threshold c k p : Z.of_nat (size (verifiers (newState c k p))) < 2 * threshold (newState c k p).
Proof.
  cbn. set (n := size _). pose proof (Z.quot_rem' (Z.of_nat n) 2). pose proof (Z.rem_bound_pos (Z.of_nat n) 2). lia.
Qed.

(** Two majorities share a member. *)
Lemma majorities_meet (m : gmap bytes sg_PublicKey) (t : Z) (l1 l2 : list sg_PublicKey) :
  hashed m -> Z.of_nat (size m) < 2 * t -> t <= Z.of_nat (length l1) -> t <= Z.of_nat (length l2) ->
  NoDup (map Sum256From l1) -> NoDup (map Sum256From l2) ->
  Forall (fun v => exists h, m !! h = Some v) l1 -> Forall (fun v => exists h, m !! h = Some v) l2 ->
  exists v, v ∈ l1 /\ v ∈ l2.
Proof.
  intros Hm Hlt H1 H2 Hn1 Hn2 Hf1 Hf2.
  set (X := list_to_set (C := gset bytes) (map Sum256From l1)). set (Y := list_to_set (C := gset bytes) (map Sum256From l2)).
  assert (Hsub : forall l, Forall (fun v => exists h, m !! h = Some v) l -> list_to_set (C := gset bytes) (map Sum256From l) ⊆ dom m).
  { intros l Hf h Hh. apply elem_of_list_to_set, list_elem_of_In, in_map_iff in Hh as (v & <- & Hv). rewrite Forall_forall in Hf.
    destruct (Hf v) as [h' Hh']; [by apply list_elem_of_In|]. apply elem_of_dom. exists v. by rewrite <- (Hm _ _ Hh'). }
  destruct (decide (X ∩ Y = ∅)) as [Hd|Hd].
  - exfalso. assert (Hsz : (size (X ∪ Y) <= size (dom m))%nat) by (apply subseteq_size, union_least; by apply Hsub).
    rewrite size_union in Hsz by (by apply disjoint_intersection_L). unfold X, Y in Hsz.
    rewrite !size_list_to_set, !length_map, size_dom in Hsz by done. lia.
  - apply set_choose_L in Hd as [h [Hx Hy]%elem_of_intersection]. unfold X, Y in Hx, Hy.
    apply elem_of_list_to_set, list_elem_of_In, in_map_iff in Hx as (v & Hv & Hin1), Hy as (w & Hw & Hin2).
    apply list_elem_of_In in Hin1, Hin2. rewrite Forall_forall in Hf1, Hf2.
    destruct (Hf1 v Hin1) as [h1 Hh1]. destruct (Hf2 w Hin2) as [h2 Hh2].
    assert (v = w) as ->; [|by exists w]. pose proof (Hm _ _ Hh1). pose proof (Hm _ _ Hh2). congruence.
Qed.

End Tables.

(** C24: two consensus documents cannot be made by two majorities that have nobody
    in common.  When authorities with the same verifiers publish documents, at
    any times and from whatever has reached them, each document is stored and
    some verifier has signed both: unless it signs two documents for one epoch,
    they are the same. *)
Theorem consensus_quorums_meet {S : SignScheme} {C : Codec Certificate} {CD : Codec Document}
    (O1 O2 : MapOrder) {L1 : MapOrderLaws O1} {L2 : MapOrderLaws O2} c1 k1 p1 c2 k2 p2 now1 now2 persisted1 persisted2 epoch1 epoch2 s1 s2 d1 d2 s1' s2' :
  let a1 := newState c1 k1 p1 in let a2 := newState c2 k2 p2 in
  verifiers a1 = verifiers a2 ->
  @getThresholdConsensus S C CD O1 a1 now1 persisted1 epoch1 s1 = Ok (inr d1, s1') ->
  @getThresholdConsensus S C CD O2 a2 now2 persisted2 epoch2 s2 = Ok (inr d2, s2') ->
  documents s1' !! epoch1 = Some d1 /\ documents s2' !! epoch2 = Some d2 /\
  exists v raw1 raw2 data1 data2, (exists h, verifiers a1 !! h = Some v) /\
    MarshalCertificate d1 = Ok raw1 /\ signedBy now1 v raw1 data1 /\
    MarshalCertificate d2 = Ok raw2 /\ signedBy now2 v raw2 data2.
Proof.
  intros a1 a2 Hv H1 H2.
  apply getThresholdConsensus_ok in H1 as (Hd1 & raw1 & data1 & good1 & Hr1 & Hl1 & Hn1 & Hf1).
  apply getThresholdConsensus_ok in H2 as (Hd2 & raw2 & data2 & good2 & Hr2 & Hl2 & Hn2 & Hf2).
  split_and!; [by rewrite Hd1, lookup_insert_eq|by rewrite Hd2, lookup_insert_eq|].
  assert (Ht : threshold a2 = threshold a1) by (unfold a1, a2 in *; cbn in Hv |- *; by rewrite Hv).
  destruct (majorities_meet (verifiers a1) (threshold a1) good1 good2) as (v & Hv1 & Hv2); try done.
  - apply newState_verifiers.
  - apply newState_threshold.
  - by rewrite <- Ht.
  - eapply Forall_impl; [exact Hf1|]. intros v [Hin _]. by apply getVerifiers_elem in Hin.
  - eapply Forall_impl; [exact Hf2|]. intros v [Hin _]. apply getVerifiers_elem in Hin. by rewrite Hv.
  - rewrite Forall_forall in Hf1, Hf2. destruct (Hf1 v Hv1) as [Hin Hs1]. destruct (Hf2 v Hv2) as [_ Hs2].
    exists v, raw1, raw2, data1, data2. split_and!; try done. by apply getVerifiers_elem in Hin.
Qed.

(** ** Agreement on the consensus *)

(** The same tables but for the keys of the authority itself. *)
Record sameTables {S : SignScheme} (a a' : authority) : Prop := {
  same_cfg : cfg a = cfg a';
  same_reverse : reverseHash a = reverseHash a';
  same_mixes : authorizedMixes a = authorizedMixes a';
  same_gateways : authorizedGatewayNodes a = authorizedGatewayNodes a';
  same_services : authorizedServiceNodes a = authorizedServiceNodes a';
  same_replicas : authorizedReplicaNodes a = authorizedReplicaNodes a';
  same_threshold : threshold a = threshold a';
}.

(** The same history: what a consensus takes from earlier rounds. *)
Record sameHistory (s s' : state) : Prop := {
  same_voting : votingEpoch s = votingEpoch s';
  same_genesis : genesisEpoch s = genesisEpoch s';
  same_prior : priorSRV s = priorSRV s';
  same_cache : cachedReplicaEnvelopeKeys s = cachedReplicaEnvelopeKeys s';
  same_document : documents s !! wrap 64 (votingEpoch s - 1) = documents s' !! wrap 64 (votingEpoch s' - 1);
}.

Section ConsensusAgreement.

Context {S : SignScheme} {C : Codec Certificate} {CM : Codec MixDescriptor} {CR : Codec ReplicaDescriptor}.
Context {CP : Codec Parameters} {R : Rng} {W : WebAddresses}.
Context (O1 O2 : MapOrder) {L1 : MapOrderLaws O1} {L2 : MapOrderLaws O2}.
Context (Sum256 blake2b_Sum256 : bytes -> bytes) (fsum3 : Z -> Z -> Z -> Z) (nLogN : nat -> Z).
Context (keyBytes : sg_PublicKey -> option bytes) (Period : Z) (a a' : authority).

Lemma sameTables_rules : sameTables a a' -> sameRules a a'.
Proof. intros [H1 H2 H3 H4 H5 H6 H7]. unfold sameRules. rewrite H1. done. Qed.

(** Keys of replicas with the same bytes are the same key, hence one entry. *)
Lemma configuredReplicas_same :
  sameTables a a' -> hashed (reverseHash a) ->
  (forall k k' b, keyBytes k = Some b -> keyBytes k' = Some b -> k = k') ->
  @configuredReplicas S O1 keyBytes a = @configuredReplicas S O2 keyBytes a'.
Proof.
  intros Hs Hh Hinj. unfold configuredReplicas. rewrite <- (same_replicas _ _ Hs), <- (same_reverse _ _ Hs).
  apply sortBy_unique; [by rewrite !entries_perm|]. intros [i b] [j b'] Hx Hy He. cbn in He. subst b'.
  apply list_elem_of_omap in Hx as ([h [n i']] & Hx & Ex), Hy as ([h' [n' j']] & Hy & Ey).
  rewrite entries_perm in Hx, Hy. apply elem_of_map_to_list in Hx, Hy.
  destruct (reverseHash a !! h) as [k|] eqn:Hk; [|done]. destruct (reverseHash a !! h') as [k'|] eqn:Hk'; [|done]. cbn in Ex, Ey.
  destruct (keyBytes k) as [b1|] eqn:Hb; [|done]. destruct (keyBytes k') as [b2|] eqn:Hb'; [|done]. cbn in Ex, Ey.
  injection Ex as -> ->. injection Ey as -> ->. assert (k = k') as -> by (by eapply Hinj).
  apply Hh in Hk, Hk'. congruence.
Qed.

(** A document without commits is checked the same by all. *)
Lemma wellFormed_same now d : SharedRandomCommit d = ∅ ->
  @wellFormed S C O1 W Sum256 blake2b_Sum256 a now d = @wellFormed S C O2 W Sum256 blake2b_Sum256 a' now d.
Proof.
  intros Hd. unfold wellFormed, IsDocumentWellFormed. rewrite Hd.
  assert (He : forall (O : MapOrder) {L : MapOrderLaws O}, @entries O bytes ∅ = []).
  { intros O L. apply Permutation_nil_r. by rewrite entries_perm, map_to_list_empty. }
  by rewrite !He.
Qed.

(** The documents two authorities make of the same tally and random value. *)
Lemma getDocument_same replicaEpoch mixes replicas params srv s s' :
  sameTables a a' -> hashed (reverseHash a) -> (forall k k' b, keyBytes k = Some b -> keyBytes k' = Some b -> k = k') ->
  sameHistory s s' -> is_Some (cfg_Topology (cfg a)) ->
  fst <$> @getDocument S O1 R Sum256 fsum3 nLogN keyBytes a replicaEpoch mixes replicas params srv s =
  fst <$> @getDocument S O2 R Sum256 fsum3 nLogN keyBytes a' replicaEpoch mixes replicas params srv s'.
Proof.
  intros Hs Hh Hinj [Hv Hg Hp Hc _] [layers Hl]. unfold getDocument. rewrite (configuredReplicas_same Hs Hh Hinj).
  unfold computeLambdaG. rewrite <- (same_cfg _ _ Hs), Hl, Hv, Hg, Hp, Hc. destruct (carve mixes) as [[gw sv] nodes]. go.
  destruct (buildReplicaEnvelopeKeys _ _ _) as [keys cache]. destruct layers as [|layer layers]; [done|]. by case_bool_decide.
Qed.

Lemma getDocument_commits O replicaEpoch mixes replicas params srv s d s' :
  @getDocument S O R Sum256 fsum3 nLogN keyBytes a replicaEpoch mixes replicas params srv s = Ok (inr d, s') -> SharedRandomCommit d = ∅.
Proof.
  unfold getDocument. destruct (carve mixes) as [[gw sv] nodes]. destruct (buildReplicaEnvelopeKeys _ _ _). intros H.
  go_inv H. go_inv H. by injection H as <- _.
Qed.

Lemma tallyVotes_topology O epoch s r :
  @tallyVotes S CM CR CP O Sum256 fsum3 nLogN a epoch s = Ok r -> is_Some (cfg_Topology (cfg a)).
Proof.
  unfold tallyVotes. destruct (votes s !! epoch); [|done]. case_bool_decide; [done|]. intros H'. go_inv H'.
  unfold computeLambdaG in E. by destruct (cfg_Topology (cfg a)).
Qed.

(** From the tally to the checked document, after the prior values were rotated. *)
Lemma tallyDocument_same now replicaEpoch epoch srv p s s' :
  sameTables a a' -> hashed (reverseHash a) -> (forall k k' b, keyBytes k = Some b -> keyBytes k' = Some b -> k = k') ->
  sameHistory s s' ->
  @tallyVotes S CM CR CP O1 Sum256 fsum3 nLogN a epoch s = @tallyVotes S CM CR CP O2 Sum256 fsum3 nLogN a' epoch s' ->
  fst <$> (t ← gets (@tallyVotes S CM CR CP O1 Sum256 fsum3 nLogN a epoch); '(mixes, replicas, params) ← try t;
    doc ← @getDocument S O1 R Sum256 fsum3 nLogN keyBytes a replicaEpoch mixes replicas params srv;
    _ ← try (@wellFormed S C O1 W Sum256 blake2b_Sum256 a now doc); mret doc) (setPrior s p) =
  fst <$> (t ← gets (@tallyVotes S CM CR CP O2 Sum256 fsum3 nLogN a' epoch); '(mixes, replicas, params) ← try t;
    doc ← @getDocument S O2 R Sum256 fsum3 nLogN keyBytes a' replicaEpoch mixes replicas params srv;
    _ ← try (@wellFormed S C O2 W Sum256 blake2b_Sum256 a' now doc); mret doc) (setPrior s' p).
Proof.
  intros Hs Hh Hinj Hhist Ht. unfold mbind, act_bind, gets, try.
  change (tallyVotes Sum256 fsum3 nLogN a epoch (setPrior s p)) with (@tallyVotes S CM CR CP O1 Sum256 fsum3 nLogN a epoch s).
  change (tallyVotes Sum256 fsum3 nLogN a' epoch (setPrior s' p)) with (@tallyVotes S CM CR CP O2 Sum256 fsum3 nLogN a' epoch s').
  rewrite <- Ht. destruct (tallyVotes _ _ _ a epoch s) as [[[mixes replicas] params]| |] eqn:Et; [|done..].
  apply tallyVotes_topology in Et.
  assert (Hh' : sameHistory (setPrior s p) (setPrior s' p)) by (by destruct Hhist).
  assert (Hd := getDocument_same replicaEpoch mixes replicas params srv (setPrior s p) (setPrior s' p) Hs Hh Hinj Hh' Et).
  destruct (@getDocument S O1 R Sum256 fsum3 nLogN keyBytes a replicaEpoch mixes replicas params srv (setPrior s p)) as [[r1 t1]|e1|] eqn:E1;
  destruct (@getDocument S O2 R Sum256 fsum3 nLogN keyBytes a' replicaEpoch mixes replicas params srv (setPrior s' p)) as [[r2 t2]|e2|] eqn:E2;
    cbn in Hd; try congruence.
  injection Hd as <-. destruct r1 as [e|d]; [done|].
  apply getDocument_commits in E1. rewrite (wellFormed_same now d E1).
  by destruct (wellFormed Sum256 blake2b_Sum256 a' now d).
Qed.

End ConsensusAgreement.


(** ** A concrete round *)

Definition toyAgreed : state := setVotes toyCertified {[ 6 := toyRound toyVote ]}.

Definition toyConsensusOf (O : MapOrder) : outcome (string + Document) :=
  fst <$> @consensusOfOne toySign (toyCodec Certificate) toyMixCodec toyReplicaCodec toyParams O toyRng toyWeb (fun b => b) toySum
    (fun _ _ _ => 0) (fun _ => 0) (fun k => Some [k]) defaultPeriod toyAuthority 5 1 6 toyAgreed.


(** Documents without their signatures, by their place in a list. *)
Definition unsignedCodec (l : list Document) : Codec Document := {|
  codec_Marshal := fun d => (fun x => [Z.of_nat x.1]) <$> list_find (eq (setSignatures d ∅)) l;
  codec_Unmarshal := fun b => match b with [z] => l !! Z.to_nat z | _ => None end |}.

Definition toyAgreedDoc : Document := Eval vm_compute in match toyConsensusOf toyOrder with Ok (inr d) => d | _ => toyVote end.

Definition toySignedDoc (k : Z) : Document :=
  match @SignDocument toySign (toyCodec Certificate) (unsignedCodec [toyAgreedDoc]) toyOrder 5 k k toyAgreedDoc with Ok (_, d) => d | _ => toyVote end.

(** The authority with the key [me], and its state when the signature of [other]
    has arrived. *)
Definition toyPeers (other : Z) : @config toySign :=
  @mkConfig toySign [other; 3] [] [] [] [] (cfg_Parameters toyConfig) None 2 1 "toy" [].

Definition toyPeer (me other : Z) : @authority toySign := @newState toySign (toyPeers other) me me.

Definition toyPublishing (me other : Z) : state :=
  mkState ∅ {[ 6 := toySignedDoc me ]} ∅ ∅ ∅ ∅ {[ 6 := Signatures (toySignedDoc other) ]} [] ∅ ∅ ∅ 6 6 stateAcceptSignature.

Definition toyPublish (me other : Z) : outcome ((string + Document) * state) :=
  @getThresholdConsensus toySign (toyCodec Certificate) (unsignedCodec [toyAgreedDoc]) toyOrder (toyPeer me other) 5 true 6 (toyPublishing me other).

Lemma consensus_quorums_meet_witness :
  exists d1 d2 s1' s2', toyPublish 1 2 = Ok (inr d1, s1') /\ toyPublish 2 1 = Ok (inr d2, s2') /\
    documents s1' !! 6 = Some d1 /\ documents s2' !! 6 = Some d2.
Proof.
  assert (H1 : exists d1 s1', toyPublish 1 2 = Ok (inr d1, s1')) by (eexists _, _; vm_compute; reflexivity).
  assert (H2 : exists d2 s2', toyPublish 2 1 = Ok (inr d2, s2')) by (eexists _, _; vm_compute; reflexivity).
  destruct H1 as (d1 & s1' & H1). destruct H2 as (d2 & s2' & H2). exists d1, d2, s1', s2'.
  destruct (@consensus_quorums_meet toySign (toyCodec Certificate) (unsignedCodec [toyAgreedDoc]) toyOrder toyOrder toyOrder_laws toyOrder_laws
    (toyPeers 2) 1 1 (toyPeers 1) 2 2 5 5 true true 6 6 (toyPublishing 1 2) (toyPublishing 2 1) d1 d2 s1' s2'
    ltac:(vm_compute; reflexivity) H1 H2) as (G1 & G2 & _).
  split_and!; assumption.
Defined.
