(* ===== verification/VotingSchedule.v ===== *)
(** The schedule of voting: what the state machine of
    [authority/voting/server/state.go] does over time. *)

From S2P Require Import Prelude EpochTime ByteOrder Cert PkiDocument MixTopology DocumentCert VotingState VotingTally VotingReveal VotingRound.
From Stdlib Require Import ZArith Lia.
From stdpp Require Import prelude list strings gmap.

Local Open Scope Z_scope.

(** ** Actions keep the phase *)

Definition keeps {A} (m : act A) : Prop :=
  forall s r s', m s = Ok (r, s') -> votingEpoch s' = votingEpoch s /\ st_phase s' = st_phase s.

Create HintDb keeps.

Lemma keeps_bind {A B} (m : act A) (k : A -> act B) : keeps m -> (forall a, keeps (k a)) -> keeps (a ← m; k a).
Proof.
  intros Hm Hk s r s'. unfold mbind, act_bind. destruct (m s) as [[[e|a] s1]| |] eqn:E; [| |done..]; apply Hm in E as [H1 H2].
  - by intros [= <- <-].
  - intros [H3 H4]%Hk. split; congruence.
Qed.

Lemma keeps_ret {A} (a : A) : keeps (mret a).
Proof. by intros s r s' [= <- <-]. Qed.

Lemma keeps_gets {A} (f : state -> A) : keeps (gets f).
Proof. by intros s r s' [= <- <-]. Qed.

Lemma keeps_fail {A} e : keeps (@fail A e).
Proof. by intros s r s' [= <- <-]. Qed.

Lemma keeps_try {A} (m : outcome A) : keeps (try m).
Proof. intros s r s'. unfold try. destruct m; by intros [= <- <-]. Qed.

Lemma keeps_halting {A} (m : outcome A) : keeps (halting m).
Proof. intros s r s' H. unfold halting in H. go_inv H. by injection H as <- <-. Qed.

Lemma keeps_modify f : (forall s, votingEpoch (f s) = votingEpoch s /\ st_phase (f s) = st_phase s) -> keeps (modify f).
Proof. intros Hf s r s' [= <- <-]. apply Hf. Qed.

Lemma keeps_panic {A} : keeps (fun _ => @Panic ((string + A) * state)).
Proof. done. Qed.

#[export] Hint Resolve keeps_bind keeps_ret keeps_gets keeps_fail keeps_try keeps_halting keeps_modify keeps_panic : keeps.

Section Keeps.

Context {S : SignScheme} {C : Codec Certificate} {CD : Codec Document} {CM : Codec MixDescriptor} {CR : Codec ReplicaDescriptor}.
Context {CP : Codec Parameters} {CS : Codec Signature} {O : MapOrder} {R : Rng} {W : WebAddresses}.
Context (Sum256 blake2b_Sum256 : bytes -> bytes) (fsum3 : Z -> Z -> Z -> Z) (nLogN : nat -> Z).
Context (keyBytes : sg_PublicKey -> option bytes) (Period : Z) (a : authority).

Lemma keeps_getDocument replicaEpoch descs replicaDescs params srv :
  keeps (getDocument Sum256 fsum3 nLogN keyBytes a replicaEpoch descs replicaDescs params srv).
Proof.
  intros s r s'. unfold getDocument. destruct (carve descs) as [[gw sv] nodes]. destruct (buildReplicaEnvelopeKeys _ _ _).
  intros H. go_inv H. go_inv H. by injection H as <- <-.
Qed.

Lemma keeps_saveOwn get set epoch d :
  (forall s v, votingEpoch (set s v) = votingEpoch s /\ st_phase (set s v) = st_phase s) -> keeps (saveOwn a get set epoch d).
Proof. intros Hs s r s'. unfold saveOwn. destruct (_ !! _); intros [= <- <-]; apply Hs. Qed.

Lemma keeps_rotatePrior first epoch srv : keeps (rotatePrior Period first epoch srv).
Proof.
  intros s r s'. unfold rotatePrior. destruct (first s); [by intros [= <- <-]|]. intros H. go_inv H. by injection H as <- <-.
Qed.

Lemma keeps_restorePrior : keeps (modify (restorePrior a)).
Proof. apply keeps_modify. intros s. unfold restorePrior. by destruct (documents s !! _). Qed.

Hint Resolve keeps_getDocument keeps_saveOwn keeps_rotatePrior keeps_restorePrior : keeps.

Lemma keeps_doCommit now epoch rn :
  keeps (fun s => match doCommit blake2b_Sum256 a now epoch rn s with Ok (c, s) => Ok (inr c, s) | Err e => Ok (inl e, s) | Panic => Panic end).
Proof.
  intros s r s'. destruct (doCommit _ a now epoch rn s) as [[c s1]| |] eqn:E; [|by intros [= <- <-]|done].
  intros [= <- <-]. unfold doCommit in E. go_inv E. go_inv E. go_inv E. by injection E as <- <-.
Qed.

Hint Resolve keeps_doCommit : keeps.

Lemma keeps_getVote now replicaEpoch rn epoch :
  keeps (getVote Sum256 blake2b_Sum256 fsum3 nLogN keyBytes a now replicaEpoch rn epoch).
Proof. unfold getVote, signDoc. repeat (apply keeps_bind; [auto with keeps|intros ?]). auto with keeps. Qed.

Lemma keeps_getCertificate now replicaEpoch epoch :
  keeps (getCertificate Sum256 blake2b_Sum256 fsum3 nLogN keyBytes Period a now replicaEpoch epoch).
Proof.
  unfold getCertificate, signDoc. repeat (apply keeps_bind; [auto with keeps|]; intros [[]] || intros ?); auto with keeps.
Qed.

Lemma keeps_getMyConsensus now replicaEpoch epoch :
  keeps (getMyConsensus Sum256 blake2b_Sum256 fsum3 nLogN keyBytes Period a now replicaEpoch epoch).
Proof.
  unfold getMyConsensus, consensusOfOne, signDoc. apply keeps_bind; [|auto 10 with keeps].
  apply keeps_bind; [auto with keeps|]. intros [certs|]; [|auto with keeps]. case_bool_decide; [auto with keeps|].
  apply keeps_bind; [auto with keeps|]. intros r. apply keeps_bind; [auto with keeps|]. intros [com rev].
  case_bool_decide; [auto with keeps|]. destruct (negb _); [auto with keeps|].
  repeat (apply keeps_bind; [auto with keeps|]; intros [[]] || intros ?); auto with keeps.
Qed.

Lemma keeps_getThresholdConsensus now persisted epoch : keeps (getThresholdConsensus a now persisted epoch).
Proof.
  unfold getThresholdConsensus. apply keeps_bind; [auto with keeps|]. intros [d|]; [|auto with keeps].
  repeat (apply keeps_bind; [auto with keeps|]; intros [[[] ?] [?|]] || intros ?); auto with keeps.
  destruct persisted; auto with keeps.
Qed.

End Keeps.

Lemma pruneDocuments_keeps now s : votingEpoch (pruneDocuments now s) = votingEpoch s /\ st_phase (pruneDocuments now s) = st_phase s.
Proof. done. Qed.

(** ** The schedule *)

(** The eighth of the epoch in which an authority acts on what it collected in a
    phase. *)
Definition eighth (p : phase) : option Z :=
  match p with
  | stateBootstrap => None
  | stateAcceptDescriptor => Some 1
  | stateAcceptVote => Some 2
  | stateAcceptReveal => Some 3
  | stateAcceptCert => Some 4
  | stateAcceptSignature => Some 5
  end.

Section Schedule.

Context {S : SignScheme} {C : Codec Certificate} {CD : Codec Document} {CM : Codec MixDescriptor} {CR : Codec ReplicaDescriptor}.
Context {CP : Codec Parameters} {CS : Codec Signature} {O : MapOrder} {R : Rng} {W : WebAddresses}.
Context (Sum256 blake2b_Sum256 : bytes -> bytes) (fsum3 : Z -> Z -> Z -> Z) (nLogN : nat -> Z).
Context (keyBytes : sg_PublicKey -> option bytes) (Period : Z) (a : authority).

(** [epochtime.Now] at the time [T]. *)
Definition reads (T : Z) (t : clock) : Prop := getEpoch Period T = Ok (ck_epoch t, ck_elapsed t, ck_next t).

(** The turns of the state machine, each at the time the authority wakes up.
    Between two turns uploads change the state, but neither the phase nor the
    epoch of the vote.  The work of a turn, and the delay with which the timer
    fires, take less than an eighth of an epoch together. *)
Inductive scheduled : Z -> state -> Prop :=
  | sch_start T s : representable Period T -> st_phase s = stateBootstrap -> scheduled T s
  | sch_upload T s s' : scheduled T s -> votingEpoch s' = votingEpoch s -> st_phase s' = st_phase s -> scheduled T s'
  | sch_turn T T' T'' t t' t3 replicaEpoch rn persisted s sleep acts s' :
      scheduled T s -> reads T t -> reads T' t' ->
      fsm Sum256 blake2b_Sum256 fsum3 nLogN keyBytes Period a t t' t3 replicaEpoch rn persisted s = Ok (sleep, acts, s') ->
      T <= T' <= T'' -> T' + sleep <= T'' -> (T' - T) + (T'' - (T' + sleep)) < Z.quot Period 8 ->
      representable Period T'' -> scheduled T'' s'.

(** In time for the phase, and voting for the next epoch. *)
Definition on_time (T : Z) (s : state) : Prop :=
  representable Period T /\
  forall k, eighth (st_phase s) = Some k ->
    exists t, reads T t /\ votingEpoch s = ck_epoch t + 1 /\
      k * Z.quot Period 8 <= ck_elapsed t < (k + 1) * Z.quot Period 8.

(** What a turn does to the phase, the epoch and the time to sleep. *)
Definition turns (t t' : clock) (s : state) (sleep : Z) (e : Z) (p : phase) : Prop :=
  let q := Z.quot Period 8 in
  match st_phase s with
  | stateBootstrap =>
    if bool_decide (q < ck_elapsed t) then sleep = ck_next t /\ p = stateBootstrap
    else sleep = q - ck_elapsed t /\ e = wrap 64 (ck_epoch t + 1) /\ p = stateAcceptDescriptor
  | stateAcceptDescriptor => sleep = 2 * q - ck_elapsed t' /\ e = votingEpoch s /\ p = stateAcceptVote
  | stateAcceptVote => sleep = 3 * q - ck_elapsed t' /\ e = votingEpoch s /\ p = stateAcceptReveal
  | stateAcceptReveal => sleep = 4 * q - ck_elapsed t' /\ e = votingEpoch s /\ p = stateAcceptCert
  | stateAcceptCert => sleep = 5 * q - ck_elapsed t' /\ e = votingEpoch s /\ p = stateAcceptSignature
  | stateAcceptSignature =>
    (sleep = q + ck_next t' /\ e = wrap 64 (votingEpoch s + 1) /\ p = stateAcceptDescriptor) \/ p = stateBootstrap
  end.

Lemma fsm_turns t t' t3 replicaEpoch rn persisted s sleep acts s' :
  fsm Sum256 blake2b_Sum256 fsum3 nLogN keyBytes Period a t t' t3 replicaEpoch rn persisted s = Ok (sleep, acts, s') ->
  turns t t' s sleep (votingEpoch s') (st_phase s').
Proof.
  unfold fsm, turns. destruct (st_phase s) eqn:Hp; intros H.
  - cbn in H. unfold bootstrap in H. change (MixPublishDeadline Period) with (Z.quot Period 8) in H.
    case_bool_decide; injection H as <- _ <-; cbn; [done|]. split_and!; [lia|done..].
  - go_inv H. destruct v as [[sl ac] s1]. injection H as <- <- <-. go_inv E. destruct v as [r s2]. go_inv E. injection E as <- <- <-.
    apply keeps_getVote in E0 as [He _]. cbn. split_and!; [unfold AuthorityVoteDeadline, MixPublishDeadline; lia|done..].
  - go_inv H. destruct v as [[sl ac] s1]. injection H as <- <- <-. go_inv E. injection E as <- <- <-. cbn.
    split_and!; [unfold AuthorityRevealDeadline, AuthorityVoteDeadline, MixPublishDeadline; lia|done..].
  - go_inv H. destruct v as [[sl ac] s1]. injection H as <- <- <-. go_inv E. destruct v as [r s2]. go_inv E. injection E as <- <- <-.
    apply keeps_getCertificate in E0 as [He _]. cbn.
    split_and!; [unfold AuthorityCertDeadline, AuthorityRevealDeadline, AuthorityVoteDeadline, MixPublishDeadline; lia|done..].
  - go_inv H. destruct v as [[sl ac] s1]. injection H as <- <- <-. go_inv E. destruct v as [r s2]. go_inv E. injection E as <- <- <-.
    apply keeps_getMyConsensus in E0 as [He _]. cbn.
    split_and!; [unfold PublishConsensusDeadline, AuthorityCertDeadline, AuthorityRevealDeadline, AuthorityVoteDeadline, MixPublishDeadline; lia|done..].
  - go_inv H. destruct v as [[sl ac] s1]. injection H as <- <- <-. go_inv E. destruct v as [r s2].
    destruct r; injection E as <- <- <-; [by right|by left].
Qed.

Lemma reads_inv T t : 0 < Period -> representable Period T -> reads T t ->
  0 <= ck_epoch t /\ ck_epoch t * Period < 2 ^ 63 - Period /\ T = Epoch + ck_epoch t * Period + ck_elapsed t /\
  0 <= ck_elapsed t < Period /\ ck_elapsed t + ck_next t = Period.
Proof.
  intros HP Hr Ht. destruct (getEpoch_ok Period T HP Hr) as (e & el & ti & H & Hrest).
  unfold reads in Ht. rewrite H in Ht. injection Ht as -> -> ->. naive_solver.
Qed.

(** The reading at a time given by its epoch. *)
Lemma reads_at T e el : 0 < Period -> representable Period T -> T = Epoch + e * Period + el -> 0 <= el < Period ->
  exists t, reads T t /\ ck_epoch t = e /\ ck_elapsed t = el.
Proof.
  intros HP Hr HT Hel. destruct (getEpoch_ok Period T HP Hr) as (e' & el' & ti & H & ? & ? & HT' & ? & ?).
  exists (mkClock e' el' ti). split; [done|]. cbn. assert (e' = e) as -> by nia. split; nia.
Qed.

(** The next turn is in time when this one was. *)
Lemma turns_on_time T T' T'' t t' s sleep s' :
  8 <= Period -> on_time T s -> reads T t -> reads T' t' -> turns t t' s sleep (votingEpoch s') (st_phase s') ->
  T <= T' <= T'' -> T' + sleep <= T'' -> (T' - T) + (T'' - (T' + sleep)) < Z.quot Period 8 ->
  representable Period T'' -> on_time T'' s'.
Proof.
  intros HP [HrT Hon] Ht Ht' Hturn HT Hs Hlag HrT''. split; [done|]. intros k Hk.
  assert (HrT' : representable Period T') by (destruct HrT, HrT''; split; lia).
  assert (Hq : 8 * Z.quot Period 8 <= Period) by (pose proof (Z.quot_rem' Period 8); pose proof (Z.rem_bound_pos Period 8); lia).
  set (q := Z.quot Period 8) in *.
  destruct (reads_inv T t) as (He1 & He2 & HT1 & Hel & Hsum); [lia|done..|].
  destruct (reads_inv T' t') as (He1' & He2' & HT1' & Hel' & Hsum'); [lia|done..|].
  assert (Hsame : forall k', eighth (st_phase s) = Some k' -> k' <= 5 ->
    k' * q <= ck_elapsed t < (k' + 1) * q /\ ck_epoch t' = ck_epoch t /\ votingEpoch s = ck_epoch t + 1).
  { intros k' Hk' Hle. destruct (Hon k' Hk') as (t0 & Ht0 & Hv & Hw). unfold reads in Ht, Ht0. rewrite Ht in Ht0.
    injection Ht0 as H1 H2 _. rewrite <- H1 in Hv. rewrite <- H2 in Hw. split_and!; [lia..| |done]. nia. }
  assert (Hnext : forall n, k = n -> 0 <= n <= 7 -> sleep = n * q - ck_elapsed t' -> ck_epoch t' = ck_epoch t ->
    votingEpoch s' = ck_epoch t + 1 -> exists t'', reads T'' t'' /\ votingEpoch s' = ck_epoch t'' + 1 /\ k * q <= ck_elapsed t'' < (k + 1) * q).
  { intros n -> Hn Hsl He Hv. destruct (reads_at T'' (ck_epoch t) (T'' - Epoch - ck_epoch t * Period)) as (t'' & Hr & H1 & H2); [lia|done|lia|nia|].
    exists t''. rewrite H1, H2. split_and!; [done|done|nia..]. }
  unfold turns in Hturn. destruct (st_phase s) eqn:Hp.
  { fold q in Hturn. case_bool_decide as Hlate.
    + destruct Hturn as [_ Hb]. by rewrite Hb in Hk.
    + destruct Hturn as (Hsl & Hv & Hph). rewrite Hph in Hk. injection Hk as <-. unfold wrap in Hv; rewrite Z.mod_small in Hv by nia.
      destruct (reads_at T'' (ck_epoch t) (T'' - Epoch - ck_epoch t * Period)) as (t'' & Hr & H1 & H2); [lia|done|lia|nia|].
      exists t''. rewrite H1, H2. split_and!; [done|done|nia..]. }
  5: { destruct Hturn as [(Hsl & Hv & Hph)|Hb]; [|by rewrite Hb in Hk]. rewrite Hph in Hk. injection Hk as <-.
    destruct (Hsame 5) as (? & He & Hv0); [done|lia|]. unfold wrap in Hv; rewrite Hv0, Z.mod_small in Hv by nia.
    destruct (reads_at T'' (ck_epoch t + 1) (T'' - Epoch - (ck_epoch t + 1) * Period)) as (t'' & Hr & H1 & H2); [lia|done|lia|nia|].
    exists t''. rewrite H1, H2. split_and!; [done|lia|nia..]. }
  all: destruct Hturn as (Hsl & Hv & Hph); rewrite Hph in Hk; injection Hk as <-; destruct (Hsame _ eq_refl) as (? & ? & ?); [lia|].
  all: eapply (Hnext _ eq_refl); [lia|exact Hsl|done|congruence].
Qed.

(** C18: voting keeps to its schedule.  As long as each turn and the delay of its
    timer take less than an eighth of an epoch, whatever is uploaded in between
    and however the steps of voting end, an authority acts on descriptors in the
    second eighth of the epoch, on votes in the third, and so on to signatures in
    the sixth, and the vote is for the epoch after the current one. *)
Theorem voting_schedule T s : 8 <= Period -> scheduled T s -> on_time T s.
Proof.
  intros HP H. induction H as [T s Hr Hp|T s s' _ [Hr IH] He Hp|T T' T'' t t' t3 re rn pe s sleep acts s' _ IH Ht Ht' Hf HT Hs Hlag Hr].
  - split; [done|]. by rewrite Hp.
  - split; [done|]. by rewrite He, Hp.
  - apply fsm_turns in Hf. by eapply turns_on_time.
Qed.

End Schedule.

(** ** A concrete run *)

Definition toyBoot : state := mkState ∅ ∅ ∅ ∅ ∅ ∅ ∅ [] ∅ ∅ ∅ 0 0 stateBootstrap.

Definition toyClock (T : Z) : clock :=
  match getEpoch defaultPeriod T with Ok (e, elapsed, till) => mkClock e elapsed till | _ => mkClock 0 0 0 end.

(** The vote of an authority that has no descriptors yet. *)
Definition toyBallot : Document :=
  mkDocument 11 [[]; []] [] [] [] 0 11 0 0 0 0 0 0 0 0 0 0 0 0 0 0 [0] [[17]] ∅ ∅
    {[ [1] := match @cert_Sign toySign (toyCodec Certificate) 10 1 1 (match Commit toySum 11 (Ok [7]) with Ok r => GetCommit r | _ => [] end) 11 with Ok b => b | _ => [] end ]}
    ∅ (zeros 32) [] [] DocumentVersion "toy".

(** A turn at the time [T], and what follows it. *)
Definition toyTurn (T : Z) (s : state) : outcome (Z * list action * state) :=
  @fsm toySign (toyCodec Certificate) (unsignedCodec [toyBallot]) toyMixCodec toyReplicaCodec toyParams (toyCodec Signature) toyOrder
    toyRng toyWeb (fun b => b) toySum (fun _ _ _ => 0) (fun _ => 0) (fun k => Some [k]) defaultPeriod toyAuthority
    (toyClock T) (toyClock T) 10 1 (Ok [7]) true s.

Definition toyStart : Z := Epoch + 10 * defaultPeriod + minute.

(** Some turns without delay. *)
Fixpoint toyRun (n : nat) (T : Z) (s : state) : option (Z * state) :=
  match n with
  | O => Some (T, s)
  | Datatypes.S n =>
    match toyTurn T s with
    | Ok (sleep, _, s') =>
      if bool_decide (0 <= sleep) && bool_decide (T + sleep - Epoch + defaultPeriod < 2 ^ 63) then toyRun n (T + sleep) s' else None
    | _ => None
    end
  end.

Abbreviation toyScheduled :=
  (@scheduled toySign (toyCodec Certificate) (unsignedCodec [toyBallot]) toyMixCodec toyReplicaCodec toyParams (toyCodec Signature) toyOrder
    toyRng toyWeb (fun b => b) toySum (fun _ _ _ => 0) (fun _ => 0) (fun k => Some [k]) defaultPeriod toyAuthority).

Lemma toyRun_scheduled n T s T' s' :
  toyScheduled T s -> representable defaultPeriod T -> toyRun n T s = Some (T', s') -> toyScheduled T' s'.
Proof.
  revert T s. induction n as [|n IH]; intros T s H Hr Hn; cbn [toyRun] in Hn; [by injection Hn as <- <-|].
  destruct (toyTurn T s) as [[[sleep acts] s1]| |] eqn:Ht; [|done..]. destruct (bool_decide _ && bool_decide _) eqn:Hb; [|done].
  apply andb_true_iff in Hb as [Hs%bool_decide_eq_true Hb%bool_decide_eq_true].
  assert (Hr' : representable defaultPeriod (T + sleep)) by (destruct Hr; split; lia).
  apply (IH (T + sleep) s1); [|done|done]. assert (Hc : reads defaultPeriod T (toyClock T)).
  { destruct (getEpoch_ok defaultPeriod T) as (e & el & ti & Hg & _); [done..|]. unfold reads, toyClock. by rewrite Hg. }
  eapply sch_turn; [exact H|exact Hc|exact Hc|exact Ht|lia|lia| |done].
  replace (T - T + (T + sleep - (T + sleep))) with 0 by lia. done.
Qed.

Lemma voting_schedule_witness :
  exists T s, toyRun 3 toyStart toyBoot = Some (T, s) /\ st_phase s = stateAcceptReveal /\ votingEpoch s = 11 /\ on_time defaultPeriod T s.
Proof.
  assert (H : exists T s, toyRun 3 toyStart toyBoot = Some (T, s) /\ st_phase s = stateAcceptReveal /\ votingEpoch s = 11).
  { eexists _, _. split; [vm_compute; reflexivity|]. split; reflexivity. }
  destruct H as (T & s & Hrun & Hp & He). exists T, s. split_and!; [exact Hrun|exact Hp|exact He|].
  assert (Hr : representable defaultPeriod toyStart) by (split; vm_compute; [discriminate|reflexivity]).
  refine (@voting_schedule toySign (toyCodec Certificate) (unsignedCodec [toyBallot]) toyMixCodec toyReplicaCodec toyParams (toyCodec Signature)
    toyOrder toyRng toyWeb (fun b => b) toySum (fun _ _ _ => 0) (fun _ => 0) (fun k => Some [k]) defaultPeriod toyAuthority T s _ _).
  - vm_compute. discriminate.
  - apply (toyRun_scheduled 3 toyStart toyBoot); [|exact Hr|exact Hrun]. apply sch_start; [exact Hr|reflexivity].
Defined.
