(* ===== verification/VotingKeys.v ===== *)
(** The envelope keys of replicas in documents: what [buildReplicaEnvelopeKeys]
    of [authority/voting/server/state.go] publishes, and what a vote leaves
    behind for the consensus. *)

From S2P Require Import Prelude EpochTime ByteOrder Cert PkiDocument MixTopology DocumentCert VotingState VotingTally VotingReveal VotingRound VotingSchedule.
From Stdlib Require Import ZArith Lia.
From stdpp Require Import prelude list strings gmap.

Local Open Scope Z_scope.

(** The key of a replica for an epoch. *)
Definition keyAt (m : envelopeKeys) (id e : Z) : option bytes := m !! id ≫= (fun keys => keys !! e).

(** The first of the descriptors that has the key. *)
Fixpoint talliedKey (tallied : list ReplicaDescriptor) (id e : Z) : option bytes :=
  match tallied with
  | [] => None
  | d :: l =>
    match (if bool_decide (ReplicaID d = id) then EnvelopeKeys d !! e else None) with
    | Some k => Some k
    | None => talliedKey l id e
    end
  end.

(** The epochs a document has keys for: the one before, the current and the next. *)
Definition inWindow (current e : Z) : Prop := current - 1 <= e <= current + 1 /\ 0 <= e.

#[export] Instance inWindow_dec current e : Decision (inWindow current e).
Proof. unfold inWindow. apply _. Defined.

Lemma addKey_at lo hi id e k r id' e' :
  keyAt (addKey lo hi id e k r) id' e' =
    match keyAt r id' e' with
    | Some k' => Some k'
    | None => if bool_decide (id = id' /\ e = e' /\ lo <= e <= hi) then Some k else None
    end.
Proof.
  unfold addKey, keyAt. destruct (bool_decide (e < lo) || bool_decide (hi < e)) eqn:Hb.
  - rewrite (bool_decide_eq_false_2 (_ /\ _)); [by destruct (r !! id' ≫= _)|].
    intros (_ & _ & ?). apply orb_true_iff in Hb as [Hb%bool_decide_eq_true|Hb%bool_decide_eq_true]; lia.
  - apply orb_false_iff in Hb as [Hlo%bool_decide_eq_false Hhi%bool_decide_eq_false].
    destruct (decide (id = id')) as [<-|Hne].
    + destruct (r !! id) as [m|] eqn:Hr; cbn.
      * destruct (m !! e) eqn:He; rewrite lookup_insert_eq; cbn.
        -- destruct (m !! e') eqn:He'; [done|]. rewrite bool_decide_eq_false_2; [done|]. intros (_ & -> & _). congruence.
        -- destruct (decide (e = e')) as [<-|Hee].
           ++ rewrite lookup_insert_eq, He, bool_decide_eq_true_2; [done|]. split; [done|]. split; [done|lia].
           ++ rewrite lookup_insert_ne by done. rewrite bool_decide_eq_false_2 by naive_solver. by destruct (m !! e').
      * rewrite lookup_empty, lookup_insert_eq. cbn. destruct (decide (e = e')) as [<-|Hee].
        -- rewrite lookup_insert_eq, bool_decide_eq_true_2; [done|]. split; [done|]. split; [done|lia].
        -- rewrite lookup_insert_ne by done. rewrite bool_decide_eq_false_2 by naive_solver. done.
    + rewrite (bool_decide_eq_false_2 (_ /\ _)) by naive_solver.
      destruct (default ∅ (r !! id) !! e); rewrite lookup_insert_ne by done; by destruct (r !! id' ≫= _).
Qed.

Lemma addKeysOf_at lo hi r id keys id' e' :
  keyAt (addKeysOf lo hi r id keys) id' e' =
    match keyAt r id' e' with
    | Some k => Some k
    | None => if bool_decide (id = id' /\ lo <= e' <= hi) then keys !! e' else None
    end.
Proof.
  unfold addKeysOf. replace (keys !! e') with ((list_to_map (map_to_list keys) : gmap Z bytes) !! e') by (by rewrite list_to_map_to_list).
  generalize (map_to_list keys) as l. intros l. revert r. induction l as [|[e k] l IH]; intros r; cbn.
  - rewrite lookup_empty. destruct (keyAt r id' e'); [done|]. by case_bool_decide.
  - rewrite IH, addKey_at. destruct (keyAt r id' e'); [done|]. destruct (decide (e = e')) as [<-|Hne].
    + rewrite lookup_insert_eq. repeat case_bool_decide; naive_solver.
    + rewrite lookup_insert_ne by done. rewrite bool_decide_eq_false_2 by naive_solver. done.
Qed.

Lemma addTallied_at lo hi l r id e :
  keyAt (foldl (fun r d => addKeysOf lo hi r (ReplicaID d) (EnvelopeKeys d)) r l) id e =
    match keyAt r id e with
    | Some k => Some k
    | None => if bool_decide (lo <= e <= hi) then talliedKey l id e else None
    end.
Proof.
  revert r. induction l as [|d l IH]; intros r; cbn.
  - destruct (keyAt r id e); [done|]. by case_bool_decide.
  - rewrite IH, addKeysOf_at. destruct (keyAt r id e); [done|].
    destruct (decide (ReplicaID d = id)) as [Hi|Hi], (decide (lo <= e <= hi)) as [Hw|Hw].
    + rewrite !bool_decide_eq_true_2 by done. done.
    + rewrite (bool_decide_eq_false_2 (_ /\ _)), (bool_decide_eq_false_2 (lo <= e <= hi)) by naive_solver. done.
    + rewrite (bool_decide_eq_false_2 (_ /\ _)), (bool_decide_eq_false_2 (ReplicaID d = id)) by naive_solver. done.
    + rewrite (bool_decide_eq_false_2 (_ /\ _)), (bool_decide_eq_false_2 (lo <= e <= hi)) by naive_solver. done.
Qed.

Lemma addCached_at lo hi l r id e : NoDup l.*1 ->
  keyAt (foldl (fun r '(id, keys) => addKeysOf lo hi r id keys) r l) id e =
    match keyAt r id e with
    | Some k => Some k
    | None => if bool_decide (lo <= e <= hi) then keyAt (list_to_map l) id e else None
    end.
Proof.
  revert r. induction l as [|[i keys] l IH]; intros r Hnd; cbn.
  - unfold keyAt at 3. rewrite lookup_empty. destruct (keyAt r id e); [done|]. by case_bool_decide.
  - cbn in Hnd. apply NoDup_cons in Hnd as [Hi Hnd]. rewrite IH by done. rewrite addKeysOf_at. destruct (keyAt r id e); [done|].
    unfold keyAt. destruct (decide (i = id)) as [<-|Hne].
    + rewrite lookup_insert_eq. cbn. rewrite not_elem_of_list_to_map_1 by done. cbn.
      case_bool_decide as H1; case_bool_decide as H2; [by destruct (keys !! e)|naive_solver..|done].
    + rewrite lookup_insert_ne by done. rewrite bool_decide_eq_false_2 by naive_solver. done.
Qed.

Lemma cacheEnvelopeKeys_at d c id e :
  keyAt (cacheEnvelopeKeys d c) id e =
    match (if bool_decide (ReplicaID d = id) then EnvelopeKeys d !! e else None) with Some k => Some k | None => keyAt c id e end.
Proof.
  unfold cacheEnvelopeKeys, keyAt. case_bool_decide as H.
  - subst id. rewrite lookup_insert_eq. cbn. rewrite lookup_union.
    destruct (EnvelopeKeys d !! e), (c !! ReplicaID d) as [m|]; cbn; rewrite ?lookup_empty; try done; by destruct (m !! e).
  - by rewrite lookup_insert_ne.
Qed.

Lemma cacheAll_at l c id e :
  (talliedKey l id e = None -> keyAt (foldl (fun c d => cacheEnvelopeKeys d c) c l) id e = keyAt c id e) /\
  (is_Some (talliedKey l id e) -> is_Some (keyAt (foldl (fun c d => cacheEnvelopeKeys d c) c l) id e)).
Proof.
  revert c. induction l as [|d l IH]; intros c; cbn; [split; [done|by intros []]|].
  destruct (IH (cacheEnvelopeKeys d c)) as [IH1 IH2]. pose proof (cacheEnvelopeKeys_at d c id e) as Hd.
  destruct (if bool_decide _ then _ else _) as [k|].
  - split; [done|]. intros _. destruct (talliedKey l id e) eqn:Hl; [by apply IH2|]. rewrite IH1, Hd by done. by eexists.
  - split; [|done]. intros Hl. by rewrite IH1.
Qed.

Lemma build_window current : 0 <= current -> current + 1 < 2 ^ 64 ->
  forall e, (0 <= e -> ((if bool_decide (0 < current) then current - 1 else 0) <= e <= wrap 64 (current + 1) <-> inWindow current e)).
Proof. intros H0 H1 e He. unfold wrap, inWindow. rewrite Z.mod_small by lia. case_bool_decide; lia. Qed.

(** The published keys, and the cache: a key of the tallied descriptors first,
    else the cached one, for the epochs of the window. *)
Lemma build_at tallied current cache id e : 0 <= current -> current + 1 < 2 ^ 64 -> 0 <= e ->
  keyAt (buildReplicaEnvelopeKeys tallied current cache).1 id e =
    if bool_decide (inWindow current e) then
      match talliedKey tallied id e with Some k => Some k | None => keyAt cache id e end
    else None.
Proof.
  intros H0 H1 He. pose proof (build_window current H0 H1 e He) as Hw. unfold buildReplicaEnvelopeKeys. cbn [fst].
  rewrite addCached_at by apply NoDup_fst_map_to_list. rewrite list_to_map_to_list, addTallied_at.
  assert (keyAt ∅ id e = None) as -> by (unfold keyAt; by rewrite lookup_empty).
  destruct (cacheAll_at tallied cache id e) as [Hc _].
  set (lo := if bool_decide (0 < current) then current - 1 else 0) in *.
  destruct (decide (inWindow current e)) as [Hin|Hin].
  - rewrite !bool_decide_eq_true_2 by tauto. destruct (talliedKey tallied id e); [done|]. by apply Hc.
  - by rewrite !bool_decide_eq_false_2 by tauto.
Qed.

Lemma build_cache_at tallied current cache id e : 0 <= current -> current + 1 < 2 ^ 64 -> inWindow current e ->
  is_Some (talliedKey tallied id e) -> is_Some (keyAt (buildReplicaEnvelopeKeys tallied current cache).2 id e).
Proof.
  intros H0 H1 Hw Ht. destruct (cacheAll_at tallied cache id e) as [_ Hc]. destruct (Hc Ht) as [k Hk]. exists k.
  unfold buildReplicaEnvelopeKeys, keyAt in *. cbn [snd]. rewrite lookup_fmap.
  destruct (foldl _ cache tallied !! id) as [m|]; [|done]. cbn in Hk |- *. apply map_lookup_filter_Some. split; [done|].
  destruct (build_window current H0 H1 e (proj2 Hw)) as [_ Hb]. specialize (Hb Hw). set (lo := if bool_decide _ then _ else _) in *.
  intros Hlt. change (e < lo) in Hlt. lia.
Qed.

Section Keys.

Context {S : SignScheme} {C : Codec Certificate} {CD : Codec Document} {CM : Codec MixDescriptor} {CR : Codec ReplicaDescriptor}.
Context {CP : Codec Parameters} {CS : Codec Signature} {O : MapOrder} {R : Rng} {W : WebAddresses}.
Context (Sum256 blake2b_Sum256 : bytes -> bytes) (fsum3 : Z -> Z -> Z -> Z) (nLogN : nat -> Z).
Context (keyBytes : sg_PublicKey -> option bytes) (Period : Z) (a : authority).

Lemma getDocument_keys b replicaEpoch mixes replicas params srv s d s' :
  getDocument Sum256 fsum3 nLogN keyBytes b replicaEpoch mixes replicas params srv s = Ok (inr d, s') ->
  (ReplicaEnvelopeKeys d, cachedReplicaEnvelopeKeys s') = buildReplicaEnvelopeKeys replicas replicaEpoch (cachedReplicaEnvelopeKeys s).
Proof.
  unfold getDocument. destruct (carve mixes) as [[gw sv] nodes]. destruct (buildReplicaEnvelopeKeys _ _ _) as [keys cache].
  intros H. go_inv H. go_inv H. by injection H as <- <-.
Qed.

(** A vote leaves in the cache the keys of all descriptors that reached this
    authority. *)
Lemma getVote_caches now replicaEpoch rn epoch s vote s1 :
  getVote Sum256 blake2b_Sum256 fsum3 nLogN keyBytes a now replicaEpoch rn epoch s = Ok (inr vote, s1) ->
  exists cache, cachedReplicaEnvelopeKeys s1 =
    (buildReplicaEnvelopeKeys (map snd (entries (at_epoch (replicaDescriptors s) epoch))) replicaEpoch cache).2.
Proof.
  unfold getVote. intros H. act_inv H. injection E as _ <-. act_inv H. injection E as _ <-. act_inv H. injection E as E <-.
  act_inv H. apply getDocument_keys in E0. act_inv H. act_inv H. apply try_inv in E2 as [_ ->]. act_inv H. injection H as _ <-.
  exists (cachedReplicaEnvelopeKeys (restorePrior a s)).
  assert (Hr : replicaDescriptors (restorePrior a s) = replicaDescriptors s) by (unfold restorePrior; by destruct (documents s !! _)).
  rewrite <- Hr, E, <- E0. cbn. unfold saveOwn in E2. destruct (_ !! _); [done|]. injection E2 as _ <-. cbn.
  destruct (doCommit _ a now epoch rn s0) as [[c s4]| |] eqn:Ec; [|done..]. injection E1 as _ <-. unfold doCommit in Ec.
  go_inv Ec. go_inv Ec. go_inv Ec. by injection Ec as _ <-.
Qed.

Lemma talliedKey_some l r e : r ∈ l -> is_Some (EnvelopeKeys r !! e) -> is_Some (talliedKey l (ReplicaID r) e).
Proof.
  intros Hin [k Hk]. induction Hin as [r l|r d l _ IH]; cbn.
  - rewrite bool_decide_eq_true_2, Hk by done. by eexists.
  - destruct (if bool_decide _ then _ else _); [by eexists|by apply IH].
Qed.

(** Documents list keys that were never voted in.  When an authority makes its
    vote it caches the keys of every replica whose descriptor reached it.  The
    consensus document it makes next lists such a key though the tally has no
    descriptor with it, while the document of an authority without the cached
    key does not: with the same votes, certificates and random value the two
    documents differ. *)
Theorem untallied_keys_published now replicaEpoch rn epoch s vote s1 r e s2 s2' mixes tallied params srv d s3 a' d' s3' :
  getVote Sum256 blake2b_Sum256 fsum3 nLogN keyBytes a now replicaEpoch rn epoch s = Ok (inr vote, s1) ->
  (exists pk, at_epoch (replicaDescriptors s) epoch !! pk = Some r) -> MapOrderLaws O ->
  is_Some (EnvelopeKeys r !! e) -> inWindow replicaEpoch e -> 0 <= replicaEpoch -> replicaEpoch + 1 < 2 ^ 64 ->
  talliedKey tallied (ReplicaID r) e = None ->
  cachedReplicaEnvelopeKeys s2 = cachedReplicaEnvelopeKeys s1 -> keyAt (cachedReplicaEnvelopeKeys s2') (ReplicaID r) e = None ->
  getDocument Sum256 fsum3 nLogN keyBytes a replicaEpoch mixes tallied params srv s2 = Ok (inr d, s3) ->
  getDocument Sum256 fsum3 nLogN keyBytes a' replicaEpoch mixes tallied params srv s2' = Ok (inr d', s3') ->
  is_Some (keyAt (ReplicaEnvelopeKeys d) (ReplicaID r) e) /\ keyAt (ReplicaEnvelopeKeys d') (ReplicaID r) e = None /\ d <> d'.
Proof.
  intros Hvote [pk Hr] L Hk Hw H0 H1 Ht Hc Hc' Hd Hd'.
  apply getVote_caches in Hvote as [cache Hvote].
  assert (Hd'' : forall a s d s', getDocument Sum256 fsum3 nLogN keyBytes a replicaEpoch mixes tallied params srv s = Ok (inr d, s') ->
    keyAt (ReplicaEnvelopeKeys d) (ReplicaID r) e = keyAt (cachedReplicaEnvelopeKeys s) (ReplicaID r) e).
  { intros b u f u' H%getDocument_keys. pose proof (build_at tallied replicaEpoch (cachedReplicaEnvelopeKeys u) (ReplicaID r) e H0 H1 (proj2 Hw)) as Hb.
    rewrite <- H in Hb. cbn in Hb. by rewrite Hb, bool_decide_eq_true_2, Ht. }
  apply Hd'' in Hd, Hd'. rewrite Hc, Hvote in Hd. rewrite Hc' in Hd'.
  assert (Hs : is_Some (keyAt (ReplicaEnvelopeKeys d) (ReplicaID r) e)).
  { rewrite Hd. apply build_cache_at; [done..|]. apply talliedKey_some; [|done]. apply list_elem_of_In, in_map_iff.
    exists (pk, r). split; [done|]. apply list_elem_of_In. rewrite entries_perm. by apply elem_of_map_to_list. }
  split_and!; [done|done|]. intros ->. rewrite Hd' in Hs. by destruct Hs.
Qed.

End Keys.

(** ** A concrete replica *)

(** The replica 0, with a key for its epoch 1, uploaded to one authority. *)
Definition toyReplica : ReplicaDescriptor :=
  mkReplicaDescriptor "replica" 0 (Some [17]) {[ 1 := [77] ]} 6 (Some [17]) ∅.

Definition toyOffered : state :=
  mkState ∅ ∅ ∅ {[ 6 := {[ [17] := toyReplica ]} ]} ∅ ∅ ∅ [] ∅ ∅ ∅ 6 6 stateAcceptDescriptor.

Abbreviation toyMake replicas s :=
  (@getDocument toySign toyOrder toyRng (fun b => b) (fun _ _ _ => 0) (fun _ => 0) (fun k => Some [k]) toyAuthority
    1 [] replicas (cfg_Parameters toyConfig) (zeros 32) s).

(** The vote the authority makes of it. *)
Definition toyOffer : Document :=
  Eval vm_compute in match toyMake [toyReplica] (restorePrior toyAuthority toyOffered) with
  | Ok (inr d, _) => setShared d {[ [1] := toySigned 1 (sr_commit (toySecret 7)) ]} ∅
  | _ => toyVote
  end.

Abbreviation toyOfferVote :=
  (@getVote toySign (toyCodec Certificate) (unsignedCodec [toyOffer]) toyOrder toyRng (fun b => b) toySum (fun _ _ _ => 0) (fun _ => 0)
    (fun k => Some [k]) toyAuthority 5 1 (Ok [7]) 6 toyOffered).

Definition made (m : outcome ((string + Document) * state)) (k : state -> bool) : bool :=
  match m with Ok (inr _, s) => k s | _ => false end.

Lemma made_inv m k : made m k = true -> exists d s, m = Ok (inr d, s) /\ k s = true.
Proof. destruct m as [[[e|d] s]| |]; try done. intros H. by exists d, s. Qed.

Lemma untallied_keys_published_witness :
  exists vote s1 d s3 d' s3', toyOfferVote = Ok (inr vote, s1) /\ toyMake [] s1 = Ok (inr d, s3) /\ toyMake [] toyState = Ok (inr d', s3') /\ d <> d'.
Proof.
  assert (H : made toyOfferVote (fun s1 => made (toyMake [] s1) (fun _ => true)) = true) by (vm_compute; reflexivity).
  assert (H' : made (toyMake [] toyState) (fun _ => true) = true) by (vm_compute; reflexivity).
  apply made_inv in H as (vote & s1 & H1 & (d & s3 & H2 & _)%made_inv), H' as (d' & s3' & H3 & _).
  exists vote, s1, d, s3, d', s3'. split_and!; [exact H1|exact H2|exact H3|].
  refine (proj2 (proj2 (@untallied_keys_published toySign (toyCodec Certificate) (unsignedCodec [toyOffer]) toyOrder toyRng (fun b => b) toySum
    (fun _ _ _ => 0) (fun _ => 0) (fun k => Some [k]) toyAuthority 5 1 (Ok [7]) 6 toyOffered vote s1 toyReplica 1 s1 toyState
    [] [] (cfg_Parameters toyConfig) (zeros 32) d s3 toyAuthority d' s3' H1 _ toyOrder_laws _ _ _ _ eq_refl eq_refl _ H2 H3))).
  - exists [17]. vm_compute. reflexivity.
  - exists [77]. vm_compute. reflexivity.
  - split; vm_compute; [split; discriminate|discriminate].
  - vm_compute. discriminate.
  - vm_compute. reflexivity.
  - vm_compute. reflexivity.
Defined.
