(* ===== verification/Sharding.v ===== *)
(** Sharding of boxes over storage replicas: [replica/common] (shard.go,
    pki_doc_ops.go, replica_map.go, time.go).

    A box is kept by the [K] configured replicas whose key hashes lowest together
    with the identifier of the box.  [Shard] is the direct definition by sorting,
    [Shard2] the one-pass version that is used. *)

From S2P Require Import Prelude EpochTime ByteOrder PkiDocument.
From Stdlib Require Import ZArith Lia.
From stdpp Require Import prelude list sorting strings gmap.

Local Open Scope Z_scope.

Definition K : nat := 2.

(** [slices.Compare] on bytes. *)
Definition Compare (a b : bytes) : Z := if bool_decide (a = b) then 0 else if bytes_le a b then -1 else 1.

Definition maxHash : bytes := replicate 32 255.

(** [keys[i] = v] for an array. *)
Definition set_at {A} (i : Z) (v : A) (l : list A) : list A := <[Z.to_nat i := v]> l.

Section Shard.

(** [hash.Sum256] of hpqc and [blake2b.Sum256]. *)
Context (Sum256 blake2b_Sum256 : bytes -> bytes).

(** A nil slice is as one without keys: both are errors. *)
Definition GetConfiguredReplicaKeys (doc : Document) : outcome (list bytes) :=
  if bool_decide (length (ConfiguredReplicaIdentityKeys doc) < K)%nat then Err "GetConfiguredReplicaKeys: insufficient configured replicas"
  else Ok (ConfiguredReplicaIdentityKeys doc).

Definition boxHash (boxID key : bytes) : bytes := blake2b_Sum256 (key ++ boxID).

(** The loop of [Shard2], over the two lowest hashes and their keys. *)
Definition shardStep (boxID : bytes) (st : list bytes * list (option bytes)) (key : bytes) : list bytes * list (option bytes) :=
  let '(hashes, keys) := st in
  let hash := boxHash boxID key in
  if Z.eqb (Compare (nth 1 hashes []) hash) (-1) then st
  else
    let cmpidx := Z.shiftr (Z.land (Compare (nth 0 hashes []) hash) 2) 1 in
    let hashes := set_at (1 - cmpidx) (nth 0 hashes []) hashes in
    let keys := set_at (1 - cmpidx) (nth 0 keys None) keys in
    (set_at cmpidx hash hashes, set_at cmpidx (Some key) keys).

Definition Shard2 (boxID : bytes) (serverIdKeys : list bytes) : list (option bytes) :=
  snd (foldl (shardStep boxID) ([maxHash; maxHash], [None; None]) serverIdKeys).

Definition Shard (boxID : bytes) (serverIdKeys : list bytes) : outcome (list bytes) :=
  let servers := sortBy (boxHash boxID) serverIdKeys in
  k0 ← index servers 0; k1 ← index servers 1; Ok [k0; k1].

(** The descriptors of the shards that are online. *)
Definition GetShards (boxid : bytes) (doc : Document) : outcome (list ReplicaDescriptor) :=
  replicaKeys ← GetConfiguredReplicaKeys doc;
  let shards := omap (fun key => match GetReplicaNodeByKeyHash Sum256 doc (blake2b_Sum256 (default [] key)) with
    | Ok desc => Some desc
    | _ => None
    end) (Shard2 boxid replicaKeys) in
  match shards with
  | [] => Err "GetShards: no shard replicas are currently online"
  | _ => Ok shards
  end.

(** Without the replica that has the key [idpubkey]. *)
Definition GetRemoteShards (idpubkey : bytes) (boxid : bytes) (doc : Document) : outcome (list ReplicaDescriptor) :=
  shards ← GetShards boxid doc;
  Ok (List.filter (fun desc => negb (bool_decide (default [] (rd_IdentityKey desc) = idpubkey))) shards).

Definition ReplicaNum (replicaID : Z) (doc : Document) : outcome ReplicaDescriptor := GetReplicaNodeByReplicaID doc replicaID.

(** [ReplicaMap.UpdateFromPKIDoc]: the map it stores. *)
Definition UpdateFromPKIDoc (doc : Document) : gmap bytes ReplicaDescriptor :=
  foldl (fun m replica => <[blake2b_Sum256 (default [] (rd_IdentityKey replica)) := replica]> m) ∅ (StorageReplicas doc).

End Shard.

(** ** Replica epochs *)

Definition ReplicaEpochPeriod : Z := 7 * (24 * hour).

(** The three readings of the clock. *)
Definition ReplicaNow (t t' t'' : Z) : outcome (Z * Z * Z) :=
  let fromEpoch := Sub t Epoch in
  if bool_decide (fromEpoch < 0) then Panic
  else
    let current := Z.quot fromEpoch ReplicaEpochPeriod mod 2 ^ 64 in
    let base := EpochTime.Add Epoch (mulDuration current ReplicaEpochPeriod) in
    Ok (current, Sub t' base, Sub (EpochTime.Add base ReplicaEpochPeriod) t'').

Definition ConvertNormalToReplicaEpoch (Period normalEpoch : Z) : Z :=
  wrap 64 (normalEpoch * Period) / ReplicaEpochPeriod.

(** ** The two definitions agree *)

(** Hashes are 32 bytes. *)
Class HashLaws (f : bytes -> bytes) : Prop := {
  hash_length : forall b, length (f b) = 32%nat;
  hash_bytes : forall b, Forall is_byte (f b);
}.

Lemma bytes_le_max n a : (length a <= n)%nat -> Forall is_byte a -> bytes_le a (replicate n 255) = true.
Proof.
  revert a. induction n as [|n IH]; intros [|x a] Hl Ha; cbn in *; try done; [lia|].
  apply Forall_cons in Ha as [Hx Ha]. unfold is_byte in Hx. destruct (Z.eqb_spec x 255); [apply IH; [lia|done]|]. apply Z.ltb_lt. lia.
Qed.

Lemma Compare_lt a b : Compare a b = -1 <-> bytes_le a b = true /\ a <> b.
Proof. unfold Compare. case_bool_decide; [naive_solver|]. destruct (bytes_le a b); naive_solver. Qed.

Section Agree.

Context {A : Type} (key : A -> bytes).

(** Insertion into a sorted list. *)
Fixpoint ins (x : A) (l : list A) : list A :=
  match l with
  | [] => [x]
  | y :: l => if bytes_le (key x) (key y) then x :: y :: l else y :: ins x l
  end.

Lemma ins_perm x l : ins x l ≡ₚ x :: l.
Proof. induction l as [|y l IH]; cbn; [done|]. destruct (bytes_le _ _); [done|]. rewrite IH. apply Permutation_swap. Qed.

Lemma ins_sorted x l : StronglySorted (key_le key) l -> StronglySorted (key_le key) (ins x l).
Proof.
  induction 1 as [|y l Hs IH Hy]; cbn; [repeat constructor|]. destruct (bytes_le (key x) (key y)) eqn:E.
  - constructor; [by constructor|]. constructor; [done|]. eapply Forall_impl; [exact Hy|]. intros z Hz. by eapply bytes_le_trans.
  - constructor; [done|]. rewrite ins_perm. constructor; [|done]. destruct (bytes_le_total (key x) (key y)); [congruence|done].
Qed.

Lemma ins_sortBy x l : keyed key (x :: l) -> ins x (sortBy key l) = sortBy key (x :: l).
Proof.
  intros Hk. apply (StronglySorted_unique_strong (key_le key)).
  - intros u v Hu Hv Huv Hvu. rewrite ins_perm, sortBy_perm in Hu. rewrite sortBy_perm in Hv.
    apply Hk; [done..|]. by apply bytes_le_antisymm.
  - apply ins_sorted, sortBy_sorted.
  - apply sortBy_sorted.
  - by rewrite ins_perm, !sortBy_perm.
Qed.

(** Two elements of an insertion come from two elements. *)
Lemma take_ins x l : take 2 (ins x l) = take 2 (ins x (take 2 l)).
Proof.
  destruct l as [|a [|b l]]; [done..|]. cbn. destruct (bytes_le (key x) (key a)); [done|]. by destruct (bytes_le (key x) (key b)).
Qed.

End Agree.

Section Shards.

Context (Sum256 blake2b_Sum256 : bytes -> bytes) {H : HashLaws blake2b_Sum256}.

Abbreviation hashOf boxID := (boxHash blake2b_Sum256 boxID).

(** What the loop holds after the keys in sorted order. *)
Definition kept (boxID : bytes) (l : list bytes) : list bytes * list (option bytes) :=
  match l with
  | [] => ([maxHash; maxHash], [None; None])
  | [a] => ([hashOf boxID a; maxHash], [Some a; None])
  | a :: b :: _ => ([hashOf boxID a; hashOf boxID b], [Some a; Some b])
  end.

Lemma hash_max boxID k : bytes_le (hashOf boxID k) maxHash = true.
Proof. unfold boxHash. apply bytes_le_max; [rewrite hash_length; lia|apply hash_bytes]. Qed.

Lemma Compare_max boxID k : Compare maxHash (hashOf boxID k) <> -1.
Proof. intros [Hle Hne]%Compare_lt. apply Hne, bytes_le_antisymm; [done|apply hash_max]. Qed.

Lemma Compare_index a b : a <> b -> Z.shiftr (Z.land (Compare a b) 2) 1 = if bytes_le b a then 0 else 1.
Proof.
  intros Hne. unfold Compare. rewrite bool_decide_eq_false_2 by done. destruct (bytes_le a b) eqn:E1, (bytes_le b a) eqn:E2; try done.
  - exfalso. by apply Hne, bytes_le_antisymm.
  - destruct (bytes_le_total a b); congruence.
Qed.

Lemma Compare_index_max boxID k : Z.shiftr (Z.land (Compare maxHash (hashOf boxID k)) 2) 1 = 0.
Proof.
  pose proof (Compare_max boxID k) as Hm. unfold Compare in *. case_bool_decide; [done|]. by destruct (bytes_le _ _).
Qed.

Lemma shardStep_kept boxID k l :
  StronglySorted (key_le (hashOf boxID)) l -> (forall y, y ∈ l -> hashOf boxID y <> hashOf boxID k) ->
  shardStep blake2b_Sum256 boxID (kept boxID l) k = kept boxID (ins (hashOf boxID) k l).
Proof.
  intros Hs Hd. destruct l as [|a [|b l]]; cbn [kept ins].
  - unfold shardStep. cbn [nth]. rewrite (proj2 (Z.eqb_neq _ _)) by apply Compare_max. by rewrite Compare_index_max.
  - unfold shardStep. cbn [nth]. rewrite (proj2 (Z.eqb_neq _ _)) by apply Compare_max.
    rewrite Compare_index by (apply Hd; by left). by destruct (bytes_le (hashOf boxID k) (hashOf boxID a)).
  - assert (Ha : hashOf boxID a <> hashOf boxID k) by (apply Hd; by left).
    assert (Hb : hashOf boxID b <> hashOf boxID k) by (apply Hd; right; by left).
    assert (Hab : bytes_le (hashOf boxID a) (hashOf boxID b) = true)
      by (apply StronglySorted_inv in Hs as [_ Hs]; by apply Forall_cons in Hs as [Hs _]).
    unfold shardStep. cbn [nth]. destruct (Z.eqb_spec (Compare (hashOf boxID b) (hashOf boxID k)) (-1)) as [[Hlt _]%Compare_lt|Hn].
    + destruct (bytes_le (hashOf boxID k) (hashOf boxID a)) eqn:E1.
      { exfalso. apply Ha, bytes_le_antisymm; [|done]. by eapply bytes_le_trans. }
      cbn. destruct (bytes_le (hashOf boxID k) (hashOf boxID b)) eqn:E2; [|done].
      exfalso. by apply Hb, bytes_le_antisymm.
    + rewrite Compare_index by done. destruct (bytes_le (hashOf boxID k) (hashOf boxID a)) eqn:E1; [done|].
      cbn. destruct (bytes_le (hashOf boxID k) (hashOf boxID b)) eqn:E2; [done|]. exfalso. apply Hn, Compare_lt. split; [|done].
      destruct (bytes_le_total (hashOf boxID k) (hashOf boxID b)); congruence.
Qed.

(** The keys in the order of their hashes. *)
Lemma foldl_ins boxID l s : StronglySorted (key_le (hashOf boxID)) s -> NoDup (map (hashOf boxID) (l ++ s)) ->
  foldl (shardStep blake2b_Sum256 boxID) (kept boxID s) l = kept boxID (foldl (fun s k => ins (hashOf boxID) k s) s l) /\
  StronglySorted (key_le (hashOf boxID)) (foldl (fun s k => ins (hashOf boxID) k s) s l) /\
  foldl (fun s k => ins (hashOf boxID) k s) s l ≡ₚ l ++ s.
Proof.
  revert s. induction l as [|k l IH]; intros s Hs Hn; cbn [foldl]; [done|].
  cbn in Hn. apply NoDup_cons in Hn as [Hk Hn].
  rewrite shardStep_kept; [|done|].
  - destruct (IH (ins (hashOf boxID) k s)) as (E1 & E2 & E3); [by apply ins_sorted| |].
    { rewrite ins_perm. rewrite <- Permutation_middle. cbn. by constructor. }
    split_and!; [done..|]. rewrite E3, ins_perm. symmetry. apply Permutation_middle.
  - intros y Hy He. apply Hk. rewrite <- He. rewrite map_app, elem_of_app. right. apply list_elem_of_In, in_map, list_elem_of_In. done.
Qed.

Lemma Shard2_sorted boxID keys : NoDup (map (hashOf boxID) keys) ->
  Shard2 blake2b_Sum256 boxID keys = snd (kept boxID (sortBy (hashOf boxID) keys)).
Proof.
  intros Hn. unfold Shard2. destruct (foldl_ins boxID keys []) as (E1 & E2 & E3); [constructor|by rewrite app_nil_r|].
  change ([maxHash; maxHash], [None; None]) with (kept boxID []). rewrite E1. do 2 f_equal.
  apply (StronglySorted_unique_strong (key_le (hashOf boxID))); [|done|apply sortBy_sorted|by rewrite E3, app_nil_r, sortBy_perm].
  intros x y Hx Hy Hxy Hyx. rewrite E3, app_nil_r in Hx. rewrite sortBy_perm in Hy.
  apply (nodup_keyed (hashOf boxID) keys Hn); [done..|]. by apply bytes_le_antisymm.
Qed.

End Shards.

(** C30: the one-pass selection of shards is the selection by sorting: for at least
    two keys with different hashes, in whatever order, [Shard2] gives the two keys
    that [Shard] gives. *)
Theorem shard2_is_shard (blake2b_Sum256 : bytes -> bytes) {H : HashLaws blake2b_Sum256} boxID keys keys' :
  NoDup (map (boxHash blake2b_Sum256 boxID) keys) -> (K <= length keys)%nat -> keys' ≡ₚ keys ->
  exists shards, Shard blake2b_Sum256 boxID keys = Ok shards /\ Shard2 blake2b_Sum256 boxID keys' = map Some shards /\
    length shards = K /\ shards ⊆ keys /\ NoDup shards /\
    (forall k other, k ∈ shards -> other ∈ keys -> other ∉ shards -> bytes_le (boxHash blake2b_Sum256 boxID k) (boxHash blake2b_Sum256 boxID other) = true).
Proof.
  intros Hn Hl Hp. rewrite Shard2_sorted by (done || by rewrite Hp).
  rewrite (sortBy_unique (boxHash blake2b_Sum256 boxID) keys' keys) by (done || apply nodup_keyed; by rewrite Hp).
  unfold Shard. pose proof (sortBy_perm (boxHash blake2b_Sum256 boxID) keys) as Hs.
  pose proof (sortBy_sorted (boxHash blake2b_Sum256 boxID) keys) as Hst.
  destruct (sortBy (boxHash blake2b_Sum256 boxID) keys) as [|a [|b l]];
    [apply Permutation_length in Hs; cbn in Hs; unfold K in Hl; lia..|].
  exists [a; b]. split_and!; [done..| | |].
  - intros x Hx. rewrite <- Hs. set_solver.
  - apply NoDup_fmap_1 with (boxHash blake2b_Sum256 boxID). rewrite <- Hs in Hn. cbn in Hn.
    apply NoDup_cons in Hn as [Ha Hn]. apply NoDup_cons in Hn as [Hb _]. cbn. repeat constructor; set_solver.
  - intros k o Hk Ho Hno. rewrite <- Hs in Ho. apply StronglySorted_inv in Hst as [Hst Ha]. apply StronglySorted_inv in Hst as [_ Hb].
    rewrite Forall_forall in Ha, Hb. assert (o ∈ l) by set_solver. apply elem_of_cons in Hk as [->|Hk]; [apply Ha; by right|].
    apply list_elem_of_singleton in Hk as ->. by apply Hb.
Qed.

(** When a replica joins, or leaves, at most one shard of a box changes: the new
    replica can take the place of one of the two, and if it does not, the shards
    are the same in the same order. *)
Theorem shards_stable (blake2b_Sum256 : bytes -> bytes) {H : HashLaws blake2b_Sum256} boxID k keys keys' :
  NoDup (map (boxHash blake2b_Sum256 boxID) (k :: keys)) -> (K <= length keys)%nat -> keys' ≡ₚ k :: keys ->
  (forall x, x ∈ Shard2 blake2b_Sum256 boxID keys' -> x = Some k \/ x ∈ Shard2 blake2b_Sum256 boxID keys) /\
  (Some k ∉ Shard2 blake2b_Sum256 boxID keys' -> Shard2 blake2b_Sum256 boxID keys' = Shard2 blake2b_Sum256 boxID keys).
Proof.
  intros Hn Hl Hp. assert (Hn' := Hn). cbn in Hn'. apply NoDup_cons in Hn' as [_ Hn'].
  rewrite !Shard2_sorted by (done || by rewrite Hp).
  rewrite (sortBy_unique (boxHash blake2b_Sum256 boxID) keys' (k :: keys)) by (done || apply nodup_keyed; by rewrite Hp).
  rewrite <- ins_sortBy by (by apply nodup_keyed).
  pose proof (sortBy_perm (boxHash blake2b_Sum256 boxID) keys) as Hs.
  destruct (sortBy (boxHash blake2b_Sum256 boxID) keys) as [|a [|b l]];
    [apply Permutation_length in Hs; cbn in Hs; unfold K in Hl; lia..|]. cbn.
  destruct (bytes_le _ (boxHash blake2b_Sum256 boxID a)); [cbn; set_solver|].
  destruct (bytes_le _ (boxHash blake2b_Sum256 boxID b)); cbn; set_solver.
Qed.

(** ** Replica epochs *)

(** When the period of the mixnet divides a week, the replica epoch of a moment is
    that of the epoch it lies in. *)
Theorem replica_epoch_agrees Period t e elapsed till :
  0 < Period -> (Period | ReplicaEpochPeriod) -> representable ReplicaEpochPeriod t -> getEpoch Period t = Ok (e, elapsed, till) ->
  exists elapsed' till', ReplicaNow t t t = Ok (ConvertNormalToReplicaEpoch Period e, elapsed', till') /\
    elapsed' + till' = ReplicaEpochPeriod /\ 0 <= elapsed' < ReplicaEpochPeriod.
Proof.
  intros HP [n Hn] Hr He. assert (HR : 0 < ReplicaEpochPeriod) by (unfold ReplicaEpochPeriod, hour, minute, second; lia).
  assert (Hle : Period <= ReplicaEpochPeriod) by (rewrite Hn in *; assert (1 <= n) by nia; nia).
  assert (Hr' : representable Period t) by (destruct Hr; split; [done|lia]).
  destruct (getEpoch_ok Period t HP Hr') as (e1 & el1 & ti1 & H1 & H2 & H3 & H4 & H5 & _). rewrite He in H1. injection H1 as <- <- <-.
  destruct (getEpoch_ok ReplicaEpochPeriod t HR Hr) as (e2 & el2 & ti2 & G1 & G2 & G3 & G4 & G5 & G6).
  unfold getEpoch in G1. unfold ReplicaNow. destruct (bool_decide (Sub t Epoch < 0)); [done|].
  rewrite bool_decide_eq_false_2 in G1 by lia. injection G1 as E1 E2 E3. rewrite E1 in *. rewrite E2, E3.
  exists el2, ti2. split_and!; [|lia..]. do 3 f_equal.
  unfold ConvertNormalToReplicaEpoch, wrap. rewrite Z.mod_small by nia. symmetry.
  assert (Hd : exists d, e * Period = e2 * ReplicaEpochPeriod + d /\ 0 <= d < ReplicaEpochPeriod).
  { exists (e * Period - e2 * ReplicaEpochPeriod). split; [lia|]. rewrite Hn in *. split; [|nia].
    assert (e2 * n < e + 1) by nia. nia. }
  destruct Hd as (d & -> & Hd). rewrite Z.add_comm, Z.div_add, Z.div_small by lia. lia.
Qed.

(** ** Concrete replicas *)

(** A sum of 32 bytes, which tells the keys below apart. *)
Definition toyBlake (b : bytes) : bytes := map (fun x => x `mod` 256) (take 32 (b ++ zeros 32)).

Lemma toyBlake_laws : HashLaws toyBlake.
Proof.
  split; intros b; unfold toyBlake.
  - rewrite length_map, length_take, length_app, length_zeros. lia.
  - apply Forall_map, Forall_true. intros x. unfold is_byte. apply Z.mod_pos_bound. lia.
Qed.

Lemma shard2_is_shard_witness :
  exists shards, Shard toyBlake [7] [[3]; [1]; [2]] = Ok shards /\ Shard2 toyBlake [7] [[2]; [3]; [1]] = map Some shards /\ shards = [[1]; [2]].
Proof.
  destruct (@shard2_is_shard toyBlake toyBlake_laws [7] [[3]; [1]; [2]] [[2]; [3]; [1]]) as (shards & H1 & H2 & _).
  - apply (bool_decide_unpack _). vm_compute. exact I.
  - vm_compute. lia.
  - apply (bool_decide_unpack _). vm_compute. exact I.
  - exists shards. split_and!; [exact H1|exact H2|]. vm_compute in H1. by injection H1 as <-.
Defined.

Lemma shards_stable_witness : Shard2 toyBlake [7] [[2]; [9]; [1]] = Shard2 toyBlake [7] [[1]; [2]].
Proof.
  apply (proj2 (@shards_stable toyBlake toyBlake_laws [7] [9] [[1]; [2]] [[2]; [9]; [1]]
    ltac:(apply (bool_decide_unpack _); vm_compute; exact I) ltac:(vm_compute; lia) ltac:(apply (bool_decide_unpack _); vm_compute; exact I))).
  apply (bool_decide_unpack _). vm_compute. exact I.
Defined.
