(* ===== verification/PigeonPki.v ===== *)
(** The choice of intermediate replicas: [pigeonhole/pki.go].

    The random source is the list of the 64-bit numbers it gives; it fails when
    the list ends. *)

From S2P Require Import Prelude Schemes ToySchemes PkiDocument Sharding.
From Stdlib Require Import ZArith Lia.
From stdpp Require Import prelude list strings gmap.

Local Open Scope Z_scope.

(** Rejection sampling: the number, and what is left of the source. *)
Fixpoint randLoop (un r : Z) (draws : list Z) : outcome (Z * list Z) :=
  match draws with
  | [] => Err "unexpected EOF"
  | v :: draws =>
    if Z.eqb r 0 || bool_decide (v < wrap 64 (0 - r)) then Ok (v mod un, draws) else randLoop un r draws
  end.

Definition CryptoRandIndex (n : Z) (draws : list Z) : outcome (Z * list Z) :=
  if bool_decide (n <= 0) then Err "CryptoRandIndex: n must be > 0"
  else
    let r := wrap 64 (0 - n) mod n in
    randLoop n r draws.

Section Intermediate.

Context {N : Nike} (Sum256 blake2b_Sum256 : bytes -> bytes).

(** [pickRandomReplicaID]; each round takes a number from the source. *)
Fixpoint pickRandomReplicaID (fuel : nat) (ids : list Z) (exclude : list Z) (draws : list Z) : outcome (Z * list Z) :=
  match fuel with
  | O => Err "unexpected EOF"
  | S fuel =>
    '(idx, draws) ← CryptoRandIndex (Z.of_nat (length ids)) draws;
    candidate ← index ids (Z.to_nat idx);
    if bool_decide (candidate ∈ exclude) then pickRandomReplicaID fuel ids exclude draws else Ok (candidate, draws)
  end.

Definition pick (ids exclude draws : list Z) : outcome (Z * list Z) := pickRandomReplicaID (S (length draws)) ids exclude draws.

Definition replicaPubKey (doc : Document) (replicaEpoch replicaNum : Z) : outcome nike_PublicKey :=
  desc ← ReplicaNum replicaNum doc;
  match EnvelopeKeys desc !! replicaEpoch with
  | None => Err "no envelope key found"
  | Some [] => Err "empty envelope key"
  | Some keyBytes => nike_UnmarshalBinaryPublicKey keyBytes
  end.

Definition getReplicaPubKeys (doc : Document) (replicaEpoch replica1 replica2 : Z) : outcome (list nike_PublicKey) :=
  k1 ← replicaPubKey doc replicaEpoch replica1;
  k2 ← replicaPubKey doc replicaEpoch replica2;
  Ok [k1; k2].

(** The identifiers of the shards that are in the document. *)
Definition shardReplicaIDs (doc : Document) (shards : list ReplicaDescriptor) : list Z :=
  omap (fun shard => ReplicaID <$> List.find (fun replica =>
    bool_decide (default [] (rd_IdentityKey shard) = default [] (rd_IdentityKey replica))) (StorageReplicas doc)) shards.

Definition GetRandomIntermediateReplicas (replicaEpoch : Z) (doc : option Document) (boxid : bytes) (draws : list Z)
    : outcome (Z * Z * list nike_PublicKey) :=
  match doc with
  | None => Err "PKI document is nil"
  | Some doc =>
    let numReplicas := wrap 8 (Z.of_nat (length (StorageReplicas doc))) in
    shards ← GetShards Sum256 blake2b_Sum256 boxid doc;
    let shardIDs := shardReplicaIDs doc shards in
    let allReplicaIDs := map ReplicaID (StorageReplicas doc) in
    if bool_decide (numReplicas < 2) then Err "insufficient storage replicas: need at least 2 replicas"
    else if Z.eqb numReplicas 2 then
      r1 ← index allReplicaIDs 0; r2 ← index allReplicaIDs 1;
      ks ← getReplicaPubKeys doc replicaEpoch r1 r2; Ok (r1, r2, ks)
    else if Z.eqb numReplicas 3 then
      '(r1, draws) ← match shardIDs with
        | r1 :: _ => Ok (r1, draws)
        | [] => pick allReplicaIDs [] draws
        end;
      '(r2, _) ← pick allReplicaIDs [r1] draws;
      ks ← getReplicaPubKeys doc replicaEpoch r1 r2; Ok (r1, r2, ks)
    else
      '(r1, draws) ← pick allReplicaIDs shardIDs draws;
      '(r2, _) ← pick allReplicaIDs (r1 :: shardIDs) draws;
      ks ← getReplicaPubKeys doc replicaEpoch r1 r2; Ok (r1, r2, ks)
  end.

End Intermediate.

(** ** Sampling *)

Lemma reject_bound n : 0 < n < 2 ^ 64 ->
  wrap 64 (0 - n) mod n = 2 ^ 64 mod n /\ wrap 64 (0 - 2 ^ 64 mod n) = (if Z.eqb (2 ^ 64 mod n) 0 then 0 else n * (2 ^ 64 / n)).
Proof.
  intros Hn. unfold wrap. split.
  - replace (0 - n) with (2 ^ 64 - n + (-1) * 2 ^ 64) by lia. rewrite Z.mod_add, (Z.mod_small (2 ^ 64 - n)) by lia.
    replace (2 ^ 64 - n) with (2 ^ 64 + (-1) * n) by lia. by rewrite Z.mod_add by lia.
  - pose proof (Z.mod_pos_bound (2 ^ 64) n) as Hb. pose proof (Z.div_mod (2 ^ 64) n) as Hd. destruct (Z.eqb_spec (2 ^ 64 mod n) 0) as [->|Hne]; [done|].
    replace (0 - 2 ^ 64 mod n) with (n * (2 ^ 64 / n) + (-1) * 2 ^ 64) by lia. rewrite Z.mod_add by lia. apply Z.mod_small. nia.
Qed.

(** A number is accepted exactly when it lies in the multiples of [n] that fit. *)
Definition accepted (n v : Z) : Prop := 0 <= v < n * (2 ^ 64 / n).

#[export] Instance accepted_dec n v : Decision (accepted n v).
Proof. unfold accepted. apply _. Defined.

(** A random index is unbiased: [CryptoRandIndex] skips the numbers outside a
    multiple of [n] and returns the first other one modulo [n], so that each index
    is the result of equally many numbers. *)
Theorem rand_index_unbiased n draws : 0 < n < 2 ^ 64 -> Forall (fun v => 0 <= v < 2 ^ 64) draws ->
  CryptoRandIndex n draws =
    match list_find (accepted n) draws with
    | Some (i, v) => Ok (v mod n, drop (S i) draws)
    | None => Err "unexpected EOF"
    end /\
  forall i, 0 <= i < n -> forall v, accepted n v /\ v mod n = i <-> exists k, 0 <= k < 2 ^ 64 / n /\ v = k * n + i.
Proof.
  intros Hn Hd. split.
  - unfold CryptoRandIndex. rewrite bool_decide_eq_false_2 by lia. destruct (reject_bound n Hn) as [-> Hw].
    induction Hd as [|v draws Hv Hd IH]; [done|]. cbn [randLoop]. rewrite Hw, IH. cbn [list_find].
    assert (Ha : Z.eqb (2 ^ 64 mod n) 0 || bool_decide (v < (if Z.eqb (2 ^ 64 mod n) 0 then 0 else n * (2 ^ 64 / n))) = bool_decide (accepted n v)).
    { destruct (Z.eqb_spec (2 ^ 64 mod n) 0) as [H0|H0]; cbn.
      - symmetry. apply bool_decide_eq_true. pose proof (Z.div_mod (2 ^ 64) n). unfold accepted. lia.
      - apply bool_decide_ext. unfold accepted. lia. }
    rewrite Ha. destruct (decide (accepted n v)) as [Hc|Hc];
      [by rewrite bool_decide_eq_true_2|rewrite bool_decide_eq_false_2 by done].
    destruct (list_find (accepted n) draws) as [[i w]|]; done.
  - intros i Hi v. unfold accepted. split.
    + intros [Hv Hm]. exists (v / n). pose proof (Z.div_mod v n). split; [|lia]. split; [apply Z.div_pos; lia|]. apply Z.div_lt_upper_bound; lia.
    + intros (k & Hk & ->). split; [nia|]. rewrite Z.add_comm, Z.mod_add by lia. apply Z.mod_small. lia.
Qed.

(** ** Intermediate replicas *)

Lemma randLoop_bound un r draws i rest : 0 < un -> randLoop un r draws = Ok (i, rest) -> 0 <= i < un /\ (length rest < length draws)%nat.
Proof.
  intros Hn. induction draws as [|v draws IH]; [done|]. cbn. destruct (_ || _).
  - intros [= <- <-]. split; [by apply Z.mod_pos_bound|lia].
  - intros H. destruct (IH H). split; [done|lia].
Qed.

Lemma pick_sound fuel ids exclude draws id rest :
  pickRandomReplicaID fuel ids exclude draws = Ok (id, rest) -> id ∈ ids /\ id ∉ exclude.
Proof.
  revert draws. induction fuel as [|fuel IH]; intros draws H; [done|]. cbn in H. go_inv H. destruct v as [i ds]. go_inv H.
  case_bool_decide as Hx; [by apply IH in H|]. injection H as <- <-. split; [|done].
  unfold index in E0. destruct (ids !! Z.to_nat i) as [x|] eqn:Hi; [|done]. injection E0 as <-. by eapply list_elem_of_lookup_2.
Qed.

(** Some draw ends the loop when some replica is left. *)
Lemma pick_ends ids exclude id : id ∈ ids -> id ∉ exclude -> (Z.of_nat (length ids) < 2 ^ 64) ->
  exists v, 0 <= v < 2 ^ 64 /\ forall draws, pick ids exclude (v :: draws) = Ok (id, draws).
Proof.
  intros [i Hi]%list_elem_of_lookup Hx Hlen. assert (Hl := lookup_lt_Some _ _ _ Hi). set (n := Z.of_nat (length ids)) in *.
  exists (Z.of_nat i). split; [lia|]. intros draws. unfold pick. cbn [pickRandomReplicaID].
  assert (Hr : CryptoRandIndex n (Z.of_nat i :: draws) = Ok (Z.of_nat i, draws)).
  { unfold CryptoRandIndex. rewrite bool_decide_eq_false_2 by lia. destruct (reject_bound n) as [-> Hw]; [lia|].
    cbn [randLoop]. rewrite Hw. destruct (Z.eqb_spec (2 ^ 64 mod n) 0) as [H0|H0]; cbn [orb]; [by rewrite Z.mod_small by lia|].
    rewrite bool_decide_eq_true_2; [by rewrite Z.mod_small by lia|].
    assert (1 <= 2 ^ 64 / n) by (apply Z.div_le_lower_bound; lia). nia. }
  fold n. rewrite Hr. go. unfold index. rewrite Nat2Z.id, Hi. cbn. by case_bool_decide.
Qed.

Lemma set_at_length {A} i (v : A) l : length (set_at i v l) = length l.
Proof. apply length_insert. Qed.

Lemma Shard2_length f boxID keys : length (Shard2 f boxID keys) = 2%nat.
Proof.
  unfold Shard2. assert (Hg : forall st, length (snd st) = 2%nat -> length (snd (foldl (shardStep f boxID) st keys)) = 2%nat).
  { induction keys as [|k keys IH]; intros [hs ks] Hst; cbn; [done|]. apply IH. destruct (Z.eqb _ _); [done|]. cbn. by rewrite !set_at_length. }
  by apply Hg.
Qed.

Lemma length_omap {A B} (f : A -> option B) l : (length (omap f l) <= length l)%nat.
Proof. induction l as [|x l IH]; cbn; [lia|]. destruct (f x); cbn; lia. Qed.

Section Choice.

Context {N : Nike} (Sum256 blake2b_Sum256 : bytes -> bytes).

Lemma GetShards_length boxid doc shards : GetShards Sum256 blake2b_Sum256 boxid doc = Ok shards -> (length shards <= 2)%nat.
Proof.
  unfold GetShards. intros H. go_inv H. set (l := omap _ _) in H.
  assert (length l <= 2)%nat by (rewrite <- (Shard2_length blake2b_Sum256 boxid v); apply length_omap).
  destruct l; [done|]. by injection H as <-.
Qed.

Lemma shardReplicaIDs_length boxid doc shards :
  GetShards Sum256 blake2b_Sum256 boxid doc = Ok shards -> (length (shardReplicaIDs doc shards) <= 2)%nat.
Proof. intros H%GetShards_length. etrans; [apply length_omap|done]. Qed.

(** Among enough replicas one is left. *)
Lemma replica_left (ids exclude : list Z) : NoDup ids -> (length exclude < length ids)%nat -> exists id, id ∈ ids /\ id ∉ exclude.
Proof.
  intros Hn Hl. destruct (decide (Forall (fun id => id ∈ exclude) ids)) as [Hf|Hf].
  - exfalso. rewrite Forall_forall in Hf. assert (ids ⊆+ exclude) by (by apply NoDup_submseteq). apply submseteq_length in H. lia.
  - apply not_Forall_Exists in Hf; [|apply _]. apply Exists_exists in Hf as (id & Hi & Hx). by exists id.
Qed.

End Choice.


(** ** A network of five replicas *)

Definition toyReplicaNode (i : Z) : ReplicaDescriptor :=
  mkReplicaDescriptor "replica" i (Some [i]) {[ 3 := @nike_Bytes toyNike (@nike_Public toyNike (@nike_GeneratePrivateKey toyNike [i])) ]} 6 (Some [i]) ∅.

Definition toyReplicas : Document :=
  mkDocument 6 [] [] [] (map toyReplicaNode [0; 1; 2; 3; 4]) 0
    6 0 0 0 0 0 0 0 0 0 0 0 0 0 0 [0; 1; 2; 3; 4] [[0]; [1]; [2]; [3]; [4]] ∅ ∅ ∅ ∅ [] [] [] "v1" "toy".

Lemma rand_index_unbiased_witness : CryptoRandIndex 3 [2 ^ 64 - 1; 7] = Ok (1, []).
Proof.
  rewrite (proj1 (rand_index_unbiased 3 [2 ^ 64 - 1; 7] ltac:(lia) ltac:(repeat constructor; lia))). vm_compute. reflexivity.
Defined.

