(* ===== verification/ReplicaState.v ===== *)
(** The box store of a storage replica: [replica/state.go], [state_gc.go] and
    [state_rebalance_marker.go].

    RocksDB is a map from keys to values that iterates in the order of keys; which
    of its requests fail during a call is an argument ([disk]), as are the replica
    epoch and the measurements of the disk.  A box is stored under the epoch it
    was written in and its identifier.  Commands the replica sends are what the
    functions return. *)

From S2P Require Import Prelude ByteOrder PigeonGeo PigeonMessages PkiDocument Sharding.
From Stdlib Require Import ZArith Lia.
From stdpp Require Import prelude list sorting strings gmap.

Local Open Scope Z_scope.

Definition errDatabaseClosed : string := "database is closed".
Definition ErrBoxIDNotFound : string := "Box ID not found".
Definition ErrBoxAlreadyExists : string := "BoxID already exists, writes are immutable".
Definition ErrFailedDBRead : string := "Failed to read from database".
Definition ErrFailedToDeserialize : string := "Failed to deserialize data from DB".
Definition ErrDBClosed : string := "DB is closed".
Definition ErrStorageFull : string := "replica storage full".

Definition keyEpochSize : nat := 8.
Definition boxIDOffset : nat := keyEpochSize.

Definition epochPrefix (epoch : Z) : bytes := PutUint64 epoch.
Definition boxKey (epoch : Z) (boxID : bytes) : bytes := PutUint64 epoch ++ boxID.

(** The epochs whose boxes are retained, the newest first. *)
Definition keptEpochs (current : Z) : list Z := if Z.eqb current 0 then [0] else [current; current - 1].

(** [db] is nil after [Close]. *)
Record boxStore := mkBoxStore {
  db : option (gmap bytes bytes);
  meta : gmap bytes bytes;
  storageFull : bool;
}.

Definition setDb (s : boxStore) (m : gmap bytes bytes) : boxStore := mkBoxStore (Some m) (meta s) (storageFull s).
Definition Close (s : boxStore) : boxStore := mkBoxStore None (meta s) (storageFull s).

Record disk := mkDisk { get_fails : bytes -> bool; put_fails : bytes -> bool }.

(** A missing key reads as an empty value. *)
Definition dbGet (d : disk) (m : gmap bytes bytes) (key : bytes) : outcome bytes :=
  if get_fails d key then Err "rocksdb" else Ok (default [] (m !! key)).

Definition dbPut (d : disk) (m : gmap bytes bytes) (key value : bytes) : outcome (gmap bytes bytes) :=
  if put_fails d key then Err "rocksdb" else Ok (<[key := value]> m).

(** ** Reads and writes *)

Fixpoint readLoop (d : disk) (m : gmap bytes bytes) (boxID : bytes) (eps : list Z) : outcome Box :=
  match eps with
  | [] => Err ErrBoxIDNotFound
  | ep :: eps =>
    match dbGet d m (boxKey ep boxID) with
    | Ok [] => readLoop d m boxID eps
    | Ok data =>
      match ParseMessage data with
      | Ok box => Ok box
      | Err _ => Err ErrFailedToDeserialize
      | Panic => Panic
      end
    | _ => Err ErrFailedDBRead
    end
  end.

Definition stateHandleReplicaRead (d : disk) (cur : Z) (boxID : bytes) (s : boxStore) : outcome Box :=
  match db s with
  | None => Err ErrDBClosed
  | Some m => readLoop d m boxID (keptEpochs cur)
  end.

(** [true] when the box is there with the same content, [false] when it is not. *)
Fixpoint existsLoop (d : disk) (m : gmap bytes bytes) (boxID signature payload : bytes) (eps : list Z) : outcome bool :=
  match eps with
  | [] => Ok false
  | ep :: eps =>
    match dbGet d m (boxKey ep boxID) with
    | Ok [] => existsLoop d m boxID signature payload eps
    | Ok data =>
      match ParseMessage data with
      | Ok storedBox =>
        if bool_decide (box_Payload storedBox = payload) && bool_decide (box_Signature storedBox = signature) then Ok true
        else Err ErrBoxAlreadyExists
      | Err _ => Err ErrBoxAlreadyExists
      | Panic => Panic
      end
    | _ => Err "failed to check existing entry"
    end
  end.

Definition newBox (boxID signature payload : bytes) : Box :=
  mkBox boxID (wrap 32 (Z.of_nat (length payload))) payload signature.

Definition putBox (d : disk) (cur : Z) (m : gmap bytes bytes) (box : Box) (s : boxStore) : outcome boxStore :=
  raw ← Bytes box;
  m ← dbPut d m (boxKey cur (box_BoxID box)) raw;
  Ok (setDb s m).

(** The state after an error is the state before. *)
Definition state_handleReplicaWrite (d : disk) (cur : Z) (boxID signature payload : bytes) (s : boxStore) : outcome boxStore :=
  match db s with
  | None => Err errDatabaseClosed
  | Some m =>
    if storageFull s then Err ErrStorageFull
    else
      same ← existsLoop d m boxID signature payload (keptEpochs cur);
      if (same : bool) then Ok s else putBox d cur m (newBox boxID signature payload) s
  end.

Definition handleReplicaTombstone (d : disk) (cur : Z) (boxID signature : bytes) (s : boxStore) : outcome boxStore :=
  match db s with
  | None => Err errDatabaseClosed
  | Some m => putBox d cur m (newBox boxID signature []) s
  end.

(** ** Limits and garbage collection *)

(** [used] and [avail] are the sizes measured, if they could be. *)
Definition refreshStorageFull (MaxStorageBytes MinFreeStorageBytes : Z) (used avail : option Z) (s : boxStore) : boxStore :=
  let full :=
    if bool_decide (0 < MaxStorageBytes) then
      match used with Some used => bool_decide (wrap 64 MaxStorageBytes <= used) | None => false end
    else false in
  let full :=
    if negb full && bool_decide (0 < MinFreeStorageBytes) then
      match avail with Some avail => bool_decide (avail < wrap 64 MinFreeStorageBytes) | None => full end
    else full in
  mkBoxStore (db s) (meta s) full.

(** [DeleteRange] deletes the keys from [start] on that are below [end]. *)
Definition DeleteRange (start stop : bytes) (m : gmap bytes bytes) : gmap bytes bytes :=
  filter (fun '(k, _) => ~ (bytes_le start k = true /\ bytes_le stop k = false)) m.

Definition WipeStaleBoxes (fails : bool) (cur : Z) (s : boxStore) : outcome boxStore :=
  match db s with
  | None => Err errDatabaseClosed
  | Some m =>
    if bool_decide (cur < 2) then Ok s
    else if fails then Err "rocksdb"
    else Ok (setDb s (DeleteRange (epochPrefix 0) (epochPrefix (cur - 1)) m))
  end.

(** ** Rebalancing *)

(** A write for another replica: the hash of its key, and the box. *)
Record dispatch := mkDispatch { dp_idHash : bytes; dp_BoxID : bytes; dp_Signature : bytes; dp_Payload : bytes }.

Definition lastRebalanceReplicasKey : bytes := string_bytes "last_rebalance_replicas".

Section Rebalance.

Context (Sum256 blake2b_Sum256 : bytes -> bytes).

(** The hashes are sorted as byte strings. *)
Definition replicaSetFingerprint (doc : option Document) : bytes :=
  match doc with
  | None => blake2b_Sum256 []
  | Some doc =>
    match StorageReplicas doc with
    | [] => blake2b_Sum256 []
    | l => blake2b_Sum256 (concat (sortBy (fun h => h) (map (fun r => blake2b_Sum256 (default [] (rd_IdentityKey r))) l)))
    end
  end.

Definition loadLastRebalanceFingerprint (fails : bool) (s : boxStore) : outcome (bytes * bool) :=
  match db s with
  | None => Err errDatabaseClosed
  | Some _ =>
    if fails then Err "rocksdb"
    else
      let value := default [] (meta s !! lastRebalanceReplicasKey) in
      if bool_decide (length value = 32%nat) then Ok (value, true) else Ok (zeros 32, false)
  end.

Definition storeLastRebalanceFingerprint (fails : bool) (fp : bytes) (s : boxStore) : outcome boxStore :=
  match db s with
  | None => Err errDatabaseClosed
  | Some _ =>
    if fails then Err "rocksdb"
    else Ok (mkBoxStore (db s) (<[lastRebalanceReplicasKey := fp]> (meta s)) (storageFull s))
  end.

Definition getRemoteShards (idpubkey boxID : bytes) (doc : option Document) : outcome (list ReplicaDescriptor) :=
  match doc with
  | None => Ok []
  | Some doc =>
    match StorageReplicas doc with
    | [] => Ok []
    | _ => GetRemoteShards Sum256 blake2b_Sum256 idpubkey boxID doc
    end
  end.

(** The iterator: all pairs in the order of keys, from the first key that is not
    below the prefix. *)
Definition iterator (m : gmap bytes bytes) : list (bytes * bytes) := sortBy fst (map_to_list m).

Fixpoint Seek (prefix : bytes) (l : list (bytes * bytes)) : list (bytes * bytes) :=
  match l with
  | [] => []
  | (k, v) :: l => if bytes_le prefix k then (k, v) :: l else Seek prefix l
  end.

Definition HasPrefix (b prefix : bytes) : bool := bool_decide (take (length prefix) b = prefix).

(** The writes for one box. *)
Definition rebalanceBox (idpubkey : bytes) (doc : option Document) (k v : bytes) : outcome (list dispatch) :=
  let boxID := take 32 (drop boxIDOffset k) in
  box ← ParseMessage v;
  remoteShards ← getRemoteShards idpubkey boxID doc;
  Ok (map (fun shard => mkDispatch (blake2b_Sum256 (default [] (rd_IdentityKey shard)))
    (box_BoxID box) (box_Signature box) (box_Payload box)) remoteShards).

(** What was sent before an error stays sent: the writes, and the error. *)
Fixpoint scan (idpubkey : bytes) (doc : option Document) (prefix : bytes) (l : list (bytes * bytes)) : list dispatch * outcome () :=
  match l with
  | [] => ([], Ok ())
  | (k, v) :: l =>
    if negb (HasPrefix k prefix) then ([], Ok ())
    else if bool_decide (length k < boxIDOffset + 32)%nat then scan idpubkey doc prefix l
    else
      match rebalanceBox idpubkey doc k v with
      | Ok ds => let '(ds', r) := scan idpubkey doc prefix l in (ds ++ ds', r)
      | Err e => ([], Err e)
      | Panic => ([], Panic)
      end
  end.

Fixpoint scanEpochs (idpubkey : bytes) (doc : option Document) (m : gmap bytes bytes) (eps : list Z) : list dispatch * outcome () :=
  match eps with
  | [] => ([], Ok ())
  | ep :: eps =>
    match scan idpubkey doc (epochPrefix ep) (Seek (epochPrefix ep) (iterator m)) with
    | (ds, Ok _) => let '(ds', r) := scanEpochs idpubkey doc m eps in (ds ++ ds', r)
    | (ds, r) => (ds, r)
    end
  end.

(** [doc] is the document during the scan, [doc'] the one when it is over. *)
Definition Rebalance (idpubkey : bytes) (doc doc' : option Document) (metaFails : bool) (cur : Z) (s : boxStore)
    : list dispatch * outcome () * boxStore :=
  match db s with
  | None => ([], Err errDatabaseClosed, s)
  | Some m =>
    match scanEpochs idpubkey doc m (keptEpochs cur) with
    | (ds, Ok _) =>
      match doc' with
      | None => (ds, Ok (), s)
      | Some _ =>
        match storeLastRebalanceFingerprint metaFails (replicaSetFingerprint doc') s with
        | Ok s' => (ds, Ok (), s')
        | _ => (ds, Ok (), s)
        end
      end
    | (ds, r) => (ds, r, s)
    end
  end.

End Rebalance.

(** ** Keys in order *)

(** Big-endian numbers are ordered as byte strings. *)
Lemma bytes_le_number p q x y : length p = length q -> Forall is_byte p -> Forall is_byte q ->
  bytes_le (p ++ x) (q ++ y) = if Z.eqb (be_combine p) (be_combine q) then bytes_le x y else Z.ltb (be_combine p) (be_combine q).
Proof.
  revert q. induction p as [|a p IH]; intros [|b q] Hl Hp Hq; try done.
  apply Forall_cons in Hp as [Ha Hp], Hq as [Hb Hq]. injection Hl as Hl. cbn. rewrite IH, !be_combine_cons, Hl by done.
  pose proof (be_combine_bound p Hp) as Bp. pose proof (be_combine_bound q Hq) as Bq. rewrite Hl in Bp. unfold is_byte in *.
  set (n := 256 ^ Z.of_nat (length q)) in *. destruct (Z.eqb_spec a b) as [->|Hne].
  - destruct (Z.eqb_spec (be_combine p) (be_combine q)) as [->|Hpq]; [by rewrite Z.eqb_refl|].
    destruct (Z.eqb_spec (b * n + be_combine p) (b * n + be_combine q)); [lia|].
    destruct (Z.ltb_spec (be_combine p) (be_combine q)), (Z.ltb_spec (b * n + be_combine p) (b * n + be_combine q)); lia.
  - destruct (Z.eqb_spec (a * n + be_combine p) (b * n + be_combine q)) as [He|_]; [exfalso; nia|].
    destruct (Z.ltb_spec a b), (Z.ltb_spec (a * n + be_combine p) (b * n + be_combine q)); try done; exfalso; nia.
Qed.

Definition epoch64 (e : Z) : Prop := 0 <= e < 2 ^ 64.

Lemma combine_epoch e : epoch64 e -> be_combine (PutUint64 e) = e.
Proof. intros He. by apply (be_combine_split_small 8). Qed.

Lemma epochPrefix_le e e' id : epoch64 e -> epoch64 e' -> bytes_le (epochPrefix e) (boxKey e' id) = bool_decide (e <= e').
Proof.
  intros He He'. unfold epochPrefix, boxKey. rewrite <- (app_nil_r (PutUint64 e)).
  rewrite bytes_le_number by (apply be_split_bytes || done). rewrite !combine_epoch by done.
  destruct (Z.eqb_spec e e') as [->|]; [by rewrite bool_decide_eq_true_2 by lia|].
  destruct (Z.ltb_spec e e'); [by rewrite bool_decide_eq_true_2 by lia|by rewrite bool_decide_eq_false_2 by lia].
Qed.

Lemma boxKey_inj e e' id id' : epoch64 e -> epoch64 e' -> boxKey e id = boxKey e' id' -> e = e' /\ id = id'.
Proof.
  intros He He' H. apply app_inj_1 in H as [H1 H2]; [|done]. split; [|done].
  rewrite <- (combine_epoch e), <- (combine_epoch e') by done. by rewrite H1.
Qed.

Lemma keptEpochs_in cur e : e ∈ keptEpochs cur -> 0 <= cur -> 0 <= e /\ cur - 1 <= e <= cur.
Proof. unfold keptEpochs. destruct (Z.eqb_spec cur 0); set_solver by lia. Qed.

Lemma keptEpochs_64 cur : epoch64 cur -> Forall epoch64 (keptEpochs cur).
Proof.
  intros Hc. apply Forall_forall. intros e He. apply keptEpochs_in in He; [|apply Hc]. unfold epoch64 in *. lia.
Qed.

(** ** What is stored *)

Section Stored.

(** What holds of every stored box. *)
Context (good : Box -> Prop).

Definition wellStored (m : gmap bytes bytes) : Prop :=
  map_Forall (fun k v => exists e box, epoch64 e /\ k = boxKey e (box_BoxID box) /\ v = wire box /\ wf box /\ good box) m.

(** The box of an epoch. *)
Definition boxAt (m : gmap bytes bytes) (e : Z) (id : bytes) : option Box :=
  match m !! boxKey e id with
  | Some v => match ParseMessage v with Ok box => Some box | _ => None end
  | None => None
  end.

(** The first of the epochs that has the box. *)
Fixpoint lookupBox (m : gmap bytes bytes) (id : bytes) (eps : list Z) : option Box :=
  match eps with
  | [] => None
  | e :: eps => match boxAt m e id with Some box => Some box | None => lookupBox m id eps end
  end.

Lemma ParseMessage_wire (box : Box) : wf box -> ParseMessage (wire box) = Ok box.
Proof. intros Hw. unfold ParseMessage. rewrite <- (app_nil_r (wire box)). by rewrite (rd_print _ _ _ fmt_reads). Qed.

Lemma wire_not_nil (box : Box) : wf box -> wire box <> [].
Proof. intros Hw H. apply ParseMessage_wire in Hw. rewrite H in Hw. by vm_compute in Hw. Qed.

Lemma stored_some m e id v : wellStored m -> epoch64 e -> m !! boxKey e id = Some v ->
  exists box, v = wire box /\ wf box /\ good box /\ box_BoxID box = id /\ boxAt m e id = Some box.
Proof.
  intros Hm He Hv. destruct (Hm _ _ Hv) as (e' & box & He' & Hk & Hw & Hwf & Hg). apply boxKey_inj in Hk as [-> Hid]; [|done..].
  exists box. unfold boxAt. rewrite Hv. subst v. by rewrite ParseMessage_wire.
Qed.

Lemma boxAt_some m e id box : wellStored m -> epoch64 e -> boxAt m e id = Some box ->
  m !! boxKey e id = Some (wire box) /\ wf box /\ good box /\ box_BoxID box = id.
Proof.
  intros Hm He Hb. assert (Hb' := Hb). unfold boxAt in Hb'. destruct (m !! boxKey e id) as [v|] eqn:Hv; [|done].
  destruct (stored_some m e id v) as (box' & -> & Hwf & Hg & Hid & Hbox); [done..|]. rewrite Hb in Hbox. by injection Hbox as ->.
Qed.

Lemma dbGet_stored d m e id : wellStored m -> epoch64 e -> get_fails d (boxKey e id) = false ->
  dbGet d m (boxKey e id) = Ok (match boxAt m e id with Some box => wire box | None => [] end).
Proof.
  intros Hm He Hd. unfold dbGet. rewrite Hd. destruct (m !! boxKey e id) as [v|] eqn:Hv.
  - destruct (stored_some m e id v) as (box & -> & _ & _ & _ & Hb); [done..|]. by rewrite Hb.
  - unfold boxAt. by rewrite Hv.
Qed.

(** The requests of a call succeed. *)
Definition readable (d : disk) (id : bytes) : Prop := forall e, get_fails d (boxKey e id) = false.

Lemma readLoop_stored d m id eps : wellStored m -> Forall epoch64 eps -> readable d id ->
  readLoop d m id eps = match lookupBox m id eps with Some box => Ok box | None => Err ErrBoxIDNotFound end.
Proof.
  intros Hm Heps Hd. induction Heps as [|e eps He _ IH]; [done|]. cbn [readLoop lookupBox]. rewrite dbGet_stored by done.
  destruct (boxAt m e id) as [box|] eqn:Hb; [|exact IH]. apply boxAt_some in Hb as (_ & Hwf & _); [|done..].
  pose proof (wire_not_nil box Hwf). pose proof (ParseMessage_wire box Hwf) as Hp. destruct (wire box) as [|x l]; [done|]. by rewrite Hp.
Qed.

Lemma existsLoop_stored d m id signature payload eps : wellStored m -> Forall epoch64 eps -> readable d id ->
  existsLoop d m id signature payload eps =
    match lookupBox m id eps with
    | None => Ok false
    | Some box => if bool_decide (box_Payload box = payload) && bool_decide (box_Signature box = signature) then Ok true else Err ErrBoxAlreadyExists
    end.
Proof.
  intros Hm Heps Hd. induction Heps as [|e eps He _ IH]; [done|]. cbn [existsLoop lookupBox]. rewrite dbGet_stored by done.
  destruct (boxAt m e id) as [box|] eqn:Hb; [|exact IH]. apply boxAt_some in Hb as (_ & Hwf & _); [|done..].
  pose proof (wire_not_nil box Hwf). pose proof (ParseMessage_wire box Hwf) as Hp. destruct (wire box) as [|x l]; [done|]. by rewrite Hp.
Qed.

(** ** How the store changes *)

Lemma putBox_inv d cur m box s s' : wf box -> putBox d cur m box s = Ok s' -> s' = setDb s (<[boxKey cur (box_BoxID box) := wire box]> m).
Proof.
  intros Hw H. unfold putBox in H. rewrite Bytes_ok in H by done. cbn in H. unfold dbPut in H.
  destruct (put_fails d _); [done|]. by injection H as <-.
Qed.

Lemma putBox_ok d cur m box s : wf box -> (forall k, put_fails d k = false) ->
  putBox d cur m box s = Ok (setDb s (<[boxKey cur (box_BoxID box) := wire box]> m)).
Proof. intros Hw Hd. unfold putBox. rewrite Bytes_ok by done. cbn. unfold dbPut. by rewrite Hd. Qed.

Lemma boxAt_insert m cur box e id : wf box -> epoch64 cur -> epoch64 e ->
  boxAt (<[boxKey cur (box_BoxID box) := wire box]> m) e id =
    if bool_decide (e = cur /\ id = box_BoxID box) then Some box else boxAt m e id.
Proof.
  intros Hw Hc He. unfold boxAt. case_bool_decide as Hd.
  - destruct Hd as [-> ->]. by rewrite lookup_insert_eq, ParseMessage_wire.
  - rewrite lookup_insert_ne; [done|]. intros Hk. apply boxKey_inj in Hk as [<- <-]; [|done..]. by apply Hd.
Qed.

Lemma wellStored_insert m cur box : wellStored m -> wf box -> good box -> epoch64 cur ->
  wellStored (<[boxKey cur (box_BoxID box) := wire box]> m).
Proof. intros Hm Hw Hg Hc. apply map_Forall_insert_2; [|done]. by exists cur, box. Qed.

Lemma wellStored_filter P `{forall x, Decision (P x)} m : wellStored m -> wellStored (filter P m).
Proof. intros Hm k v [Hk _]%map_lookup_filter_Some. by apply Hm. Qed.

Lemma boxAt_wiped m c e id : epoch64 c -> epoch64 e ->
  boxAt (DeleteRange (epochPrefix 0) (epochPrefix c) m) e id = if bool_decide (e < c) then None else boxAt m e id.
Proof.
  intros Hc He. unfold boxAt, DeleteRange. rewrite map_lookup_filter. destruct (m !! boxKey e id) as [v|]; cbn; [|by case_bool_decide].
  rewrite !epochPrefix_le by (done || (unfold epoch64 in *; lia)). rewrite bool_decide_eq_true_2 by apply He.
  destruct (decide (e < c)) as [Hd|Hd].
  - rewrite (bool_decide_eq_false_2 (c <= e)), (bool_decide_eq_true_2 (e < c)) by lia. case_guard as Hg; [|done]. exfalso. by apply Hg.
  - rewrite (bool_decide_eq_true_2 (c <= e)), (bool_decide_eq_false_2 (e < c)) by lia. case_guard as Hg; [done|]. by destruct Hg.
Qed.

Lemma lookupBox_some m id eps box : lookupBox m id eps = Some box -> exists e, e ∈ eps /\ boxAt m e id = Some box.
Proof.
  induction eps as [|e eps IH]; [done|]. cbn. destruct (boxAt m e id) as [b|] eqn:Hb.
  - intros [= ->]. exists e. split; [by left|done].
  - intros (e' & He' & Hb')%IH. exists e'. split; [by right|done].
Qed.

Lemma lookupBox_ext m m' id eps : Forall epoch64 eps -> (forall e, e ∈ eps -> boxAt m e id = boxAt m' e id) ->
  lookupBox m id eps = lookupBox m' id eps.
Proof.
  intros Heps H. induction Heps as [|e eps He _ IH]; [done|]. cbn. rewrite <- H by (by left). rewrite IH; [done|].
  intros e' He'. apply H. by right.
Qed.

End Stored.
