(* ===== verification/ReplicaHandlers.v ===== *)
(** The handlers of a storage replica: [replica/handlers.go],
    [envelope_epoch.go] and [keys.go].

    The multi-recipient KEM of hpqc and Ed25519 are classes.  What a call draws
    from the random generator, the readings of the clock and which requests to the
    database fail are arguments; the reply of the replica a request is passed on
    to, or the timeout, is the argument [send]. *)

From S2P Require Import Prelude Schemes ToySchemes SphinxGeo TimerQueue ByteOrder PigeonGeo PigeonMessages PkiDocument Sharding PigeonPki ReplicaState.
From Stdlib Require Import ZArith Lia.
From stdpp Require Import prelude list strings gmap.

Local Open Scope Z_scope.

(** ** hpqc: [mkem] and [ed25519] *)

Record mkemCiphertext {N : Nike} := mkMkemCiphertext {
  EphemeralPublicKey : nike_PublicKey;
  DEKCiphertexts : list bytes;
  mk_Envelope : bytes;
}.
Arguments mkemCiphertext N : clear implicits.

Class Mkem (N : Nike) := {
  mk_Encapsulate : bytes -> list nike_PublicKey -> bytes -> nike_PrivateKey * mkemCiphertext N;
  mk_Decapsulate : nike_PrivateKey -> mkemCiphertext N -> outcome bytes;
  mk_EnvelopeReply : bytes -> nike_PrivateKey -> nike_PublicKey -> bytes -> bytes;
  mk_DecryptEnvelope : nike_PrivateKey -> nike_PublicKey -> bytes -> outcome bytes;
}.

(** Each recipient opens the message with its own key ciphertext, and the sender
    opens replies with the key it made for the message; both are authenticated, so
    that other keys do not open them. *)
Class MkemLaws {N : Nike} (M : Mkem N) : Prop := {
  mk_ephemeral rnd pks m : EphemeralPublicKey (mk_Encapsulate rnd pks m).2 = nike_Public (mk_Encapsulate rnd pks m).1;
  mk_deks rnd pks m : length (DEKCiphertexts (mk_Encapsulate rnd pks m).2) = length pks;
  mk_dek_size rnd pks m : Forall (fun dek => length dek = 60%nat) (DEKCiphertexts (mk_Encapsulate rnd pks m).2);
  mk_opens rnd pks m i sk dek : pks !! i = Some (nike_Public sk) -> DEKCiphertexts (mk_Encapsulate rnd pks m).2 !! i = Some dek ->
    mk_Decapsulate sk (mkMkemCiphertext _ (EphemeralPublicKey (mk_Encapsulate rnd pks m).2) [dek] (mk_Envelope (mk_Encapsulate rnd pks m).2)) = Ok m;
  mk_rejects rnd pks m i sk dek : pks !! i <> Some (nike_Public sk) -> DEKCiphertexts (mk_Encapsulate rnd pks m).2 !! i = Some dek ->
    exists e, mk_Decapsulate sk (mkMkemCiphertext _ (EphemeralPublicKey (mk_Encapsulate rnd pks m).2) [dek] (mk_Envelope (mk_Encapsulate rnd pks m).2)) = Err e;
  mk_replies rnd sk eph m : mk_DecryptEnvelope eph (nike_Public sk) (mk_EnvelopeReply rnd sk (nike_Public eph) m) = Ok m;
  mk_reply_rejects rnd sk eph m pk : pk <> nike_Public sk -> exists e, mk_DecryptEnvelope eph pk (mk_EnvelopeReply rnd sk (nike_Public eph) m) = Err e;
  mk_reply_not_nil rnd sk pk m : mk_EnvelopeReply rnd sk pk m <> [];
}.

(** Box identifiers are Ed25519 keys. *)
Class BoxSign := {
  ed_Unmarshal : bytes -> bool;
  ed_Verify : bytes -> bytes -> bytes -> bool;
}.

(** ** Codes and commands *)

Definition ReplicaSuccess : Z := 0.
Definition ReplicaErrorBoxIDNotFound : Z := 1.
Definition ReplicaErrorInvalidBoxID : Z := 2.
Definition ReplicaErrorInvalidSignature : Z := 3.
Definition ReplicaErrorDatabaseFailure : Z := 4.
Definition ReplicaErrorInvalidPayload : Z := 5.
Definition ReplicaErrorStorageFull : Z := 6.
Definition ReplicaErrorInternalError : Z := 7.
Definition ReplicaErrorInvalidEpoch : Z := 8.
Definition ReplicaErrorReplicationFailed : Z := 9.
Definition ReplicaErrorBoxAlreadyExists : Z := 10.
Definition ReplicaErrorTombstone : Z := 11.

(** The fields of the commands between couriers and replicas that handlers read. *)
Record replicaMessage := mkReplicaMessage { SenderEPubKey : bytes; rm_DEK : bytes; rm_Ciphertext : bytes }.
Record messageReply := mkMessageReply { mr_ErrorCode : Z; mr_EnvelopeHash : bytes; mr_EnvelopeReply : bytes; mr_ReplicaID : Z }.

Definition TrunnelReplicaWriteToWireCommand (w : ReplicaWrite) : bytes * bytes * bytes := (rw_BoxID w, rw_Signature w, rw_Payload w).
Definition WireCommandToTrunnelReplicaWrite (boxID signature payload : bytes) : ReplicaWrite :=
  mkReplicaWrite boxID signature (wrap 32 (Z.of_nat (length payload))) payload.

Definition EnvelopeHash (blake2b_Sum256 : bytes -> bytes) (m : replicaMessage) : bytes := blake2b_Sum256 (SenderEPubKey m ++ rm_Ciphertext m).

Section Handlers.

Context {P : PigeonSizes} {N : Nike} {M : Mkem N} {B : BoxSign} (nikeByName : string -> option Nike).
Context (Sum256 blake2b_Sum256 : bytes -> bytes) (sphinxGeo : Geometry).

Definition pigeonholeGeo : outcome PigeonholeGeometry := NewGeometryFromSphinx nikeByName sphinxGeo N.

(** ** Writes and reads of the store *)

Definition handleTombstone (d : disk) (cur : Z) (w : ReplicaWrite) (s : boxStore) : outcome (Z * boxStore) :=
  if negb (ed_Unmarshal (rw_BoxID w)) then Ok (ReplicaErrorInvalidBoxID, s)
  else if negb (ed_Verify (rw_BoxID w) [] (rw_Signature w)) then Ok (ReplicaErrorInvalidSignature, s)
  else
    match handleReplicaTombstone d cur (rw_BoxID w) (rw_Signature w) s with
    | Ok s => Ok (ReplicaSuccess, s)
    | Err _ => Ok (ReplicaErrorDatabaseFailure, s)
    | Panic => Panic
    end.

Definition writeError (e : string) : Z :=
  if bool_decide (e = ErrBoxAlreadyExists) then ReplicaErrorBoxAlreadyExists
  else if bool_decide (e = ErrStorageFull) then ReplicaErrorStorageFull
  else ReplicaErrorDatabaseFailure.

Definition handleReplicaWrite (d : disk) (cur : Z) (w : ReplicaWrite) (s : boxStore) : outcome (Z * boxStore) :=
  if Z.eqb (rw_PayloadLen w) 0 || bool_decide (rw_Payload w = []) then handleTombstone d cur w s
  else
    match pigeonholeGeo with
    | Ok g =>
      if negb (bool_decide (length (rw_Payload w) = CalculateBoxCiphertextLength g)) then Ok (ReplicaErrorInvalidPayload, s)
      else if negb (ed_Unmarshal (rw_BoxID w)) then Ok (ReplicaErrorInvalidBoxID, s)
      else if negb (ed_Verify (rw_BoxID w) (rw_Payload w) (rw_Signature w)) then Ok (ReplicaErrorInvalidSignature, s)
      else
        let '(boxID, signature, payload) := TrunnelReplicaWriteToWireCommand w in
        match state_handleReplicaWrite d cur boxID signature payload s with
        | Ok s => Ok (ReplicaSuccess, s)
        | Err e => Ok (writeError e, s)
        | Panic => Panic
        end
    | Err _ => Ok (ReplicaErrorInternalError, s)
    | Panic => Panic
    end.

(** A reply without a box has zero bytes for its identifier and signature. *)
Definition emptyReadReply (boxID : bytes) (code : Z) : ReplicaReadReply := mkReplicaReadReply code boxID (zeros 64) 0 [].

Definition handleReplicaRead (d : disk) (cur : Z) (r : ReplicaRead) (s : boxStore) : outcome ReplicaReadReply :=
  match stateHandleReplicaRead d cur (rr_BoxID r) s with
  | Ok resp =>
    if bool_decide (box_Payload resp = []) then
      Ok (mkReplicaReadReply ReplicaErrorTombstone (box_BoxID resp) (box_Signature resp) 0 [])
    else
      Ok (mkReplicaReadReply ReplicaSuccess (box_BoxID resp) (box_Signature resp)
        (wrap 32 (Z.of_nat (length (box_Payload resp)))) (box_Payload resp))
  | Err e =>
    if bool_decide (e = ErrBoxIDNotFound) then Ok (emptyReadReply (rr_BoxID r) ReplicaErrorBoxIDNotFound)
    else Ok (emptyReadReply (zeros 32) ReplicaErrorDatabaseFailure)
  | Panic => Panic
  end.

(** ** Envelope keys *)

Abbreviation keyring := (gmap Z nike_PrivateKey).

Definition GetKeypair (keys : keyring) (replicaEpoch : Z) : outcome nike_PrivateKey :=
  match keys !! replicaEpoch with Some k => Ok k | None => Err "key for given replica epoch doesn't exist" end.

(** [files] are the key files on disk; a new key is written there, one that is
    there is loaded.  [fails] says that writing does. *)
Definition Generate (fresh : nike_PrivateKey) (fails : bool) (files keys : keyring) (replicaEpoch : Z) : outcome (keyring * keyring) :=
  match files !! replicaEpoch with
  | Some k => Ok (files, <[replicaEpoch := k]> keys)
  | None => if fails then Err "cannot write key files" else Ok (<[replicaEpoch := fresh]> files, <[replicaEpoch := fresh]> keys)
  end.

(** The comparison is of unsigned numbers. *)
Definition Prune (epoch : Z) (files keys : keyring) : keyring * keyring :=
  let gone := filter (fun '(e, _) => e < wrap 64 (epoch - 1)) keys in
  (files ∖ gone, keys ∖ gone).

Definition EnsureKey (currentEpoch : Z) (fresh : nike_PrivateKey) (fails : bool) (files keys : keyring) (replicaEpoch : Z)
    : outcome (nike_PrivateKey * (keyring * keyring)) :=
  if bool_decide (replicaEpoch < currentEpoch) then k ← GetKeypair keys replicaEpoch; Ok (k, (files, keys))
  else
    match GetKeypair keys replicaEpoch with
    | Ok k => Ok (k, (files, keys))
    | _ =>
      '(files, keys) ← Generate fresh fails files keys replicaEpoch;
      k ← GetKeypair keys replicaEpoch;
      Ok (k, (files, keys))
    end.

Definition NewEnvelopeKeys (fresh : nike_PrivateKey) (fails : bool) (files : keyring) (epoch : Z) : outcome (keyring * keyring) :=
  '(files, keys) ← match files !! epoch with
    | Some k => Ok (files, {[ epoch := k ]})
    | None => Generate fresh fails files ∅ epoch
    end;
  match (if bool_decide (0 < epoch) then files !! (epoch - 1) else None) with
  | Some k => Ok (files, <[epoch - 1 := k]> keys)
  | None => Ok (files, keys)
  end.

Definition ValidEnvelopeEpochWindow : Z := 1.

(** The loop over the window, with the last error. *)
Fixpoint decapsulateLoop (keys : keyring) (ct : mkemCiphertext N) (currentEpoch : Z) (deltas : list Z) (lastErr : option string)
    : outcome (bytes * nike_PrivateKey * Z) :=
  match deltas with
  | [] => Err (match lastErr with Some e => e | None => "no envelope keys available in tolerance window" end)
  | delta :: deltas =>
    if bool_decide (delta < 0 /\ currentEpoch < - delta) then decapsulateLoop keys ct currentEpoch deltas lastErr
    else
      let epoch := wrap 64 (int64 currentEpoch + delta) in
      match GetKeypair keys epoch with
      | Ok keypair =>
        match mk_Decapsulate keypair ct with
        | Ok plaintext => Ok (plaintext, keypair, epoch)
        | Err e => decapsulateLoop keys ct currentEpoch deltas (Some e)
        | Panic => Panic
        end
      | _ => decapsulateLoop keys ct currentEpoch deltas lastErr
      end
  end.

Definition tryDecapsulateAcrossEpochWindow (keys : keyring) (ct : mkemCiphertext N) (currentEpoch : Z) : outcome (bytes * nike_PrivateKey * Z) :=
  decapsulateLoop keys ct currentEpoch [- ValidEnvelopeEpochWindow; 0; ValidEnvelopeEpochWindow] None.

(** ** Messages *)

(** What a handler reads of the server. *)
Record replicaServer := mkReplicaServer {
  sv_store : boxStore;
  sv_keys : keyring;
  sv_identity : bytes;
  sv_doc : option Document;
}.

Definition setStore (sv : replicaServer) (s : boxStore) : replicaServer := mkReplicaServer s (sv_keys sv) (sv_identity sv) (sv_doc sv).

(** Without a geometry it panics. *)
Definition createReplicaMessageReply (errorCode : Z) (envelopeHash envelopeReply : bytes) (replicaID : Z) : outcome messageReply :=
  _ ← panic_on_err pigeonholeGeo; Ok (mkMessageReply errorCode envelopeHash envelopeReply replicaID).

Definition isShard (idpubkey : bytes) (shards : list ReplicaDescriptor) : bool :=
  existsb (fun shard => bool_decide (default [] (rd_IdentityKey shard) = idpubkey)) shards.

(** The reply to the client: padded and sealed. *)
Definition sealReply (nonce : bytes) (keypair : nike_PrivateKey) (sender : nike_PublicKey) (envelopeHash : bytes) (replicaID : Z)
    (code : Z) (msg : ReplicaMessageReplyInnerMessage) : outcome messageReply :=
  match (g ← pigeonholeGeo; PadReplyInnerMessageForEncryption msg (Some g)) with
  | Ok blob => createReplicaMessageReply code envelopeHash (mk_EnvelopeReply nonce keypair sender blob) replicaID
  | Err _ => createReplicaMessageReply ReplicaErrorInternalError envelopeHash [] replicaID
  | Panic => Panic
  end.

(** What a request draws: the shard it is passed on to, and the randomness of the
    new envelope and of the seal of the reply. *)
Record randomness := mkRandomness { rn_shard : list Z; rn_envelope : bytes; rn_nonce : bytes }.

(** The reply of the shard, for the client.  [reply] takes the part of the message
    that has the kind of the request. *)
Definition relayReply {R : Type} (reply : ReplicaMessageReplyInnerMessage -> option R) (again : R -> ReplicaMessageReplyInnerMessage)
    (codeOf : R -> Z) (rn : randomness) (keypair mkemPrivateKey : nike_PrivateKey) (targetEnvelopeKey originalSender : nike_PublicKey)
    (originalHash : bytes) (replicaID : Z) (r : messageReply) : outcome messageReply :=
  let internal := createReplicaMessageReply ReplicaErrorInternalError originalHash [] replicaID in
  match mr_EnvelopeReply r with
  | [] => createReplicaMessageReply (mr_ErrorCode r) originalHash [] replicaID
  | sealed =>
    match mk_DecryptEnvelope mkemPrivateKey targetEnvelopeKey sealed with
    | Ok decryptedReply =>
      match ParseMessage decryptedReply with
      | Ok inner =>
        match reply inner with
        | Some x => sealReply (rn_nonce rn) keypair originalSender originalHash replicaID (codeOf x) (again x)
        | None => internal
        end
      | Err _ => internal
      | Panic => Panic
      end
    | Err _ => internal
    | Panic => Panic
    end
  end.

(** [proxyReadRequest] and [proxyWriteRequest], which differ in the message they
    pass on and in the part of the reply they take. *)
Definition proxyRequest {R : Type} (reply : ReplicaMessageReplyInnerMessage -> option R) (again : R -> ReplicaMessageReplyInnerMessage)
    (codeOf : R -> Z) (boxID : bytes) (innerMessage : ReplicaInnerMessage) (originalSender : nike_PublicKey) (originalHash : bytes)
    (replicaEpoch : Z) (rn : randomness) (send : bytes -> replicaMessage -> outcome messageReply) (sv : replicaServer) : outcome messageReply :=
  let internal := createReplicaMessageReply ReplicaErrorInternalError originalHash [] 0 in
  match sv_doc sv with
  | None => internal
  | Some doc =>
    match
      (replicaID ← GetReplicaIDByIdentityKey doc (Ok (sv_identity sv));
       shards ← GetShards Sum256 blake2b_Sum256 boxID doc;
       '(idx, _) ← CryptoRandIndex (Z.of_nat (length shards)) (rn_shard rn);
       targetShard ← index shards (Z.to_nat idx);
       keypair ← GetKeypair (sv_keys sv) replicaEpoch;
       innerMessageBlob ← Bytes innerMessage;
       targetEnvelopeKeyBytes ← match EnvelopeKeys targetShard !! replicaEpoch with Some b => Ok b | None => Err "no envelope key" end;
       targetEnvelopeKey ← nike_UnmarshalBinaryPublicKey targetEnvelopeKeyBytes;
       Ok (replicaID, targetShard, keypair, innerMessageBlob, targetEnvelopeKey))
    with
    | Ok (replicaID, targetShard, keypair, innerMessageBlob, targetEnvelopeKey) =>
      let '(mkemPrivateKey, envelope) := mk_Encapsulate (rn_envelope rn) [targetEnvelopeKey] innerMessageBlob in
      dek ← index (DEKCiphertexts envelope) 0;
      let msg := mkReplicaMessage (nike_Bytes (EphemeralPublicKey envelope)) dek (mk_Envelope envelope) in
      match send (blake2b_Sum256 (default [] (rd_IdentityKey targetShard))) msg with
      | Ok r => relayReply reply again codeOf rn keypair mkemPrivateKey targetEnvelopeKey originalSender originalHash replicaID r
      | Err _ => createReplicaMessageReply ReplicaErrorReplicationFailed originalHash [] replicaID
      | Panic => Panic
      end
    | Err _ => internal
    | Panic => Panic
    end
  end.

Definition proxyReadRequest (r : ReplicaRead) :=
  proxyRequest ReadReply (fun x => mkReplicaMessageReplyInnerMessage 0 (Some x) None) rrr_ErrorCode
    (rr_BoxID r) (mkReplicaInnerMessage 0 (Some r) None).

Definition proxyWriteRequest (w : ReplicaWrite) :=
  proxyRequest WriteReply (fun x => mkReplicaMessageReplyInnerMessage 1 None (Some x)) rwr_ErrorCode
    (rw_BoxID w) (mkReplicaInnerMessage 1 None (Some w)).

(** [Connector.doReplication]: the writes for the other shards. *)
Definition doReplication (idpubkey boxID signature payload : bytes) (doc : option Document) : list dispatch :=
  match doc with
  | None => []
  | Some doc =>
    match GetShards Sum256 blake2b_Sum256 boxID doc with
    | Ok allShards =>
      omap (fun desc =>
        let idHash := blake2b_Sum256 (default [] (rd_IdentityKey desc)) in
        if bool_decide (idHash = blake2b_Sum256 idpubkey) then None else Some (mkDispatch idHash boxID signature payload)) allShards
    | _ => []
    end
  end.

(** The reply, the writes for other replicas, and the store. *)
Definition result : Type := messageReply * list dispatch * boxStore.

Definition answer (m : outcome messageReply) (ds : list dispatch) (s : boxStore) : outcome result := r ← m; Ok (r, ds, s).

(** [epoch] and [cur] are the replica epochs the handler and the store read,
    [epoch'] is what a request that is passed on reads. *)
Definition handleReplicaMessage (epoch cur epoch' : Z) (d : disk) (rn : randomness) (send : bytes -> replicaMessage -> outcome messageReply)
    (m : replicaMessage) (sv : replicaServer) : outcome result :=
  let envelopeHash := EnvelopeHash blake2b_Sum256 m in
  let s := sv_store sv in
  let failed code := answer (createReplicaMessageReply code envelopeHash [] 0) [] s in
  match nike_UnmarshalBinaryPublicKey (SenderEPubKey m) with
  | Panic => Panic
  | Err _ => failed ReplicaErrorInternalError
  | Ok ephemeralPublicKey =>
    match tryDecapsulateAcrossEpochWindow (sv_keys sv) (mkMkemCiphertext _ ephemeralPublicKey [rm_DEK m] (rm_Ciphertext m)) epoch with
    | Panic => Panic
    | Err _ => failed ReplicaErrorInvalidEpoch
    | Ok (requestRaw, keypair, successEpoch) =>
      match ParseMessage requestRaw with
      | Panic => Panic
      | Err _ => failed ReplicaErrorInvalidPayload
      | Ok msg =>
        match sv_doc sv with
        | None => failed ReplicaErrorInvalidEpoch
        | Some doc =>
          match GetReplicaIDByIdentityKey doc (Ok (sv_identity sv)) with
          | Panic => Panic
          | Err _ => failed ReplicaErrorInternalError
          | Ok replicaID =>
            match ReadMsg msg, WriteMsg msg with
            | Some myCmd, _ =>
              match GetShards Sum256 blake2b_Sum256 (rr_BoxID myCmd) doc with
              | Panic => Panic
              | Err _ => failed ReplicaErrorInternalError
              | Ok shards =>
                if isShard (sv_identity sv) shards then
                  readReply ← handleReplicaRead d cur myCmd s;
                  answer (sealReply (rn_nonce rn) keypair ephemeralPublicKey envelopeHash replicaID (rrr_ErrorCode readReply)
                    (mkReplicaMessageReplyInnerMessage 0 (Some readReply) None)) [] s
                else answer (proxyReadRequest myCmd ephemeralPublicKey envelopeHash epoch' rn send sv) [] s
              end
            | None, Some myCmd =>
              match GetShards Sum256 blake2b_Sum256 (rw_BoxID myCmd) doc with
              | Panic => Panic
              | Err _ => failed ReplicaErrorInternalError
              | Ok shards =>
                if isShard (sv_identity sv) shards then
                  '(code, s) ← handleReplicaWrite d cur myCmd s;
                  let '(boxID, signature, payload) := TrunnelReplicaWriteToWireCommand myCmd in
                  let ds := if Z.eqb code ReplicaSuccess then doReplication (sv_identity sv) boxID signature payload (sv_doc sv) else [] in
                  answer (sealReply (rn_nonce rn) keypair ephemeralPublicKey envelopeHash replicaID code
                    (mkReplicaMessageReplyInnerMessage 1 None (Some (mkReplicaWriteReply code)))) ds s
                else answer (proxyWriteRequest myCmd ephemeralPublicKey envelopeHash epoch' rn send sv) [] s
              end
            | None, None => failed ReplicaErrorInternalError
            end
          end
        end
      end
    end
  end.

(** A write from another replica, in [onReplicaCommand]. *)
Definition onReplicaWrite (d : disk) (cur : Z) (boxID signature payload : bytes) (s : boxStore) : outcome (Z * boxStore) :=
  handleReplicaWrite d cur (WireCommandToTrunnelReplicaWrite boxID signature payload) s.

End Handlers.
