(* ===== verification/ReplicaToy.v ===== *)
(** Small executable schemes for storage replicas, with their laws, and a small
    network of replicas; they are used only by the witnesses. *)

From S2P Require Import Prelude Schemes ToySchemes SphinxGeo ByteOrder PigeonGeo PigeonMessages PkiDocument Sharding PigeonPki ReplicaState ReplicaHandlers.
From Stdlib Require Import ZArith Lia.
From stdpp Require Import prelude list strings gmap.

Local Open Scope Z_scope.

(** The ciphertext for a recipient is its public key, padded; a reply carries the public
    key of the replica. *)
Definition toyDek (pk : @nike_PublicKey toyNike) : bytes := @nike_Bytes toyNike pk ++ zeros 59.

#[export] Instance toyMkem : Mkem toyNike := {|
  mk_Encapsulate rnd pks m :=
    let eph := @nike_GeneratePrivateKey toyNike rnd in
    (eph, mkMkemCiphertext toyNike (@nike_Public toyNike eph) (map toyDek pks) m);
  mk_Decapsulate sk ct :=
    if bool_decide (DEKCiphertexts ct = [toyDek (@nike_Public toyNike sk)]) then Ok (mk_Envelope ct) else Err "mkem: decapsulation failed";
  mk_EnvelopeReply rnd sk pk m := @nike_Bytes toyNike (@nike_Public toyNike sk) ++ m;
  mk_DecryptEnvelope eph pk b :=
    match b with
    | x :: m => if bool_decide (@nike_Bytes toyNike pk = [x]) then Ok m else Err "mkem: decryption failed"
    | [] => Err "mkem: decryption failed"
    end;
|}.

#[export] Instance toyMkemLaws : MkemLaws toyMkem.
Proof.
  split.
  - done.
  - intros rnd pks m. apply length_map.
  - intros rnd pks m. apply Forall_map, Forall_true. done.
  - intros rnd pks m i sk dek Hpk Hdek. cbn -[nike_Public toyDek] in *. rewrite list_lookup_fmap, Hpk in Hdek. injection Hdek as <-.
    by rewrite bool_decide_eq_true_2.
  - intros rnd pks m i sk dek Hpk Hdek. cbn -[nike_Public toyDek] in *. rewrite list_lookup_fmap in Hdek.
    destruct (pks !! i) as [pk|] eqn:E; [|done]. injection Hdek as <-. rewrite bool_decide_eq_false_2; [by eexists|].
    intros [= H]. apply Hpk. f_equal. by apply dsig_eq.
  - intros rnd sk eph m. cbn -[nike_Public]. by rewrite bool_decide_eq_true_2.
  - intros rnd sk eph m pk Hpk. cbn -[nike_Public]. rewrite bool_decide_eq_false_2; [by eexists|].
    intros [= H]. apply Hpk. by apply dsig_eq.
  - done.
Qed.

#[export] Instance toyBoxSign : BoxSign := {|
  ed_Unmarshal key := bool_decide (length key = 32%nat);
  ed_Verify key m s := bool_decide (s = spread (checksum (key ++ m)) 64);
|}.

Definition toySphinx : Geometry := mkGeometry 0 5 0 0 0 0 0 0 0 320 0 0 "toy" "".

Definition toySmall : PigeonholeGeometry := mkPigeonholeGeometry 32 200 320 177 50 "toy" signatureSchemeName.

Lemma toySmall_geo : @pigeonholeGeo toySizes toyNike toyRegistry toySphinx = Ok toySmall.
Proof. vm_compute. reflexivity. Qed.

Lemma toySizes_format : formatSizes toySizes.
Proof. by split. Qed.

Definition toyBoxID : bytes := replicate 32 7.

Definition toyContent (x : Z) : bytes := replicate 52 x.

Definition toyWrite (x : Z) : ReplicaWrite := mkReplicaWrite toyBoxID (spread (checksum (toyBoxID ++ toyContent x)) 64) 52 (toyContent x).

Definition toyStore : boxStore := mkBoxStore (Some ∅) ∅ false.

(** A replica that has the keys of the epochs 3 and, after that, 4. *)
Definition toyServer (i : Z) : replicaServer :=
  mkReplicaServer toyStore {[ 3 := @nike_GeneratePrivateKey toyNike [i]; 4 := @nike_GeneratePrivateKey toyNike [i + 10] ]} [i] (Some toyReplicas).

Definition goodDisk : disk := mkDisk (fun _ => false) (fun _ => false).

Lemma toyWrite_wf x : is_byte x -> wf (toyWrite x).
Proof.
  intros Hx. assert (Hb : forall n y, is_byte y -> Forall is_byte (replicate n y)) by (intros n y Hy; by apply Forall_replicate).
  split_and!; cbn -[spread checksum]; try done.
  - split; [done|]. apply (Hb 32%nat). unfold is_byte. lia.
  - split; [by rewrite length_spread|]. unfold spread. apply Forall_fmap, Forall_forall. intros z _. apply mod256_byte.
  - split; [done|]. by apply (Hb 52%nat).
Qed.
