(* ===== verification/ReplicaBoxes.v ===== *)
(** What a storage replica guarantees about boxes: only genuine boxes are stored,
    a stored box is immutable while it is retained, and only its owner can replace
    it, with a tombstone. *)

From S2P Require Import Prelude Schemes ToySchemes SphinxGeo ByteOrder PigeonGeo PigeonMessages PkiDocument Sharding PigeonPki ReplicaState ReplicaHandlers ReplicaToy.
From Stdlib Require Import ZArith Lia.
From stdpp Require Import prelude list strings gmap.

Local Open Scope Z_scope.

Section Boxes.

Context {P : PigeonSizes} {N : Nike} {B : BoxSign} (nikeByName : string -> option Nike) (sphinxGeo : Geometry).

(** The geometry of the network. *)
Context (g : PigeonholeGeometry).

(** What a replica does with its store: writes from couriers and other replicas,
    garbage collection and the watch over the disk. *)
Inductive event :=
  | EvWrite (d : disk) (cur : Z) (w : ReplicaWrite)
  | EvWipe (fails : bool) (cur : Z)
  | EvSample (MaxStorageBytes MinFreeStorageBytes : Z) (used avail : option Z).

Definition serve (ev : event) (s : boxStore) : outcome boxStore :=
  match ev with
  | EvWrite d cur w => '(_, s) ← handleReplicaWrite nikeByName sphinxGeo d cur w s; Ok s
  | EvWipe fails cur => match WipeStaleBoxes fails cur s with Ok s => Ok s | Err _ => Ok s | Panic => Panic end
  | EvSample max min used avail => Ok (refreshStorageFull max min used avail s)
  end.

Fixpoint serveAll (evs : list event) (s : boxStore) : outcome boxStore :=
  match evs with
  | [] => Ok s
  | ev :: evs => s ← serve ev s; serveAll evs s
  end.

(** Events with parsed writes, at epochs of which [ok] holds. *)
Definition proper (ok : Z -> Prop) (ev : event) : Prop :=
  match ev with
  | EvWrite _ cur w => epoch64 cur /\ ok cur /\ wf w
  | EvWipe _ cur => epoch64 cur /\ ok cur
  | EvSample _ _ _ _ => True
  end.

Definition tombstone (box : Box) : Prop := box_Payload box = [] /\ ed_Verify (box_BoxID box) [] (box_Signature box) = true.

(** The owner of the key a box is named after has signed its content, and the
    content has the size of a box or none. *)
Definition genuine (box : Box) : Prop :=
  ed_Unmarshal (box_BoxID box) = true /\
  (tombstone box \/ length (box_Payload box) = CalculateBoxCiphertextLength g /\
    ed_Verify (box_BoxID box) (box_Payload box) (box_Signature box) = true).

(** ** One write *)

Lemma newBox_wf w : wf w -> wf (newBox (rw_BoxID w) (rw_Signature w) (rw_Payload w)).
Proof.
  destruct w as [i s n p]. cbn. intros (Hi & Hs & Hn & [Hp Hb]). assert (E : wrap 32 (Z.of_nat (length p)) = n).
  { rewrite Hp. apply Z.mod_small. exact Hn. }
  unfold newBox. rewrite E. split_and!; done.
Qed.

Lemma tombstone_wf w : wf w -> wf (newBox (rw_BoxID w) (rw_Signature w) []).
Proof. destruct w as [i s n p]. cbn. intros (Hi & Hs & _ & _). split_and!; first [exact Hi|exact Hs|done|by split]. Qed.

Lemma putBox_cases d cur m box s : wf box ->
  (exists e, putBox d cur m box s = Err e) \/ putBox d cur m box s = Ok (setDb s (<[boxKey cur (box_BoxID box) := wire box]> m)).
Proof.
  intros Hw. unfold putBox. rewrite Bytes_ok by done. cbn. unfold dbPut. destruct (put_fails _ _); [left; by eexists|by right].
Qed.

Lemma existsLoop_any d m id signature payload eps : wellStored genuine m -> Forall epoch64 eps ->
  match existsLoop d m id signature payload eps with
  | Ok true => exists box, lookupBox m id eps = Some box /\ box_Payload box = payload /\ box_Signature box = signature
  | Ok false => lookupBox m id eps = None
  | Err _ => True
  | Panic => False
  end.
Proof.
  intros Hm Heps. induction Heps as [|e eps He _ IH]; [done|]. cbn [existsLoop lookupBox].
  destruct (get_fails d (boxKey e id)) eqn:Hd; [unfold dbGet; by rewrite Hd|]. rewrite (dbGet_stored genuine) by done.
  destruct (boxAt m e id) as [box|] eqn:Hb; [|exact IH]. apply (boxAt_some genuine) in Hb as (_ & Hwf & _); [|done..].
  pose proof (wire_not_nil box Hwf). pose proof (ParseMessage_wire box Hwf) as Hp. destruct (wire box) as [|x l]; [done|]. rewrite Hp.
  destruct (bool_decide (_ = payload)) eqn:E1; [|done]. destruct (bool_decide (_ = signature)) eqn:E2; [|done]. cbn.
  apply bool_decide_eq_true in E1, E2. by exists box.
Qed.

(** A write changes nothing, or stores a genuine box; if the box has content, there
    was none with its identifier. *)
Definition stores (cur : Z) (w : ReplicaWrite) (s : boxStore) (m : gmap bytes bytes) (s' : boxStore) : Prop :=
  s' = s \/ exists box, wf box /\ genuine box /\ box_BoxID box = rw_BoxID w /\
    s' = setDb s (<[boxKey cur (box_BoxID box) := wire box]> m) /\
    (tombstone box \/ lookupBox m (box_BoxID box) (keptEpochs cur) = None).

Lemma tombstone_cases d cur w s m : db s = Some m -> wf w ->
  exists code s', handleTombstone d cur w s = Ok (code, s') /\ stores cur w s m s'.
Proof.
  intros Hs Hw. unfold handleTombstone. destruct (ed_Unmarshal (rw_BoxID w)) eqn:Hk; [|by eexists _, _; split; [reflexivity|left]]. cbn [negb].
  destruct (ed_Verify _ _ _) eqn:Hv; [|by eexists _, _; split; [reflexivity|left]]. cbn [negb]. unfold handleReplicaTombstone. rewrite Hs.
  pose proof (tombstone_wf w Hw) as Hwf.
  destruct (putBox_cases d cur m (newBox (rw_BoxID w) (rw_Signature w) []) s Hwf) as [[e ->]| ->]; [by eexists _, _; split; [reflexivity|left]|].
  eexists _, _. split; [reflexivity|]. right. exists (newBox (rw_BoxID w) (rw_Signature w) []). split; [exact Hwf|]. split; [split; [done|by left]|]. split; [done|]. split; [done|by left].
Qed.

Lemma write_cases d cur w s m : pigeonholeGeo nikeByName sphinxGeo = Ok g -> db s = Some m -> wellStored genuine m -> wf w -> epoch64 cur ->
  exists code s', handleReplicaWrite nikeByName sphinxGeo d cur w s = Ok (code, s') /\ stores cur w s m s'.
Proof.
  intros Hg Hs Hm Hw Hc. unfold handleReplicaWrite. destruct (_ || _) eqn:Ht; [by apply tombstone_cases|].
  apply orb_false_iff in Ht as [_ Ht%bool_decide_eq_false]. rewrite Hg.
  case_bool_decide as Hl; [|by eexists _, _; split; [reflexivity|left]]. cbn [negb].
  destruct (ed_Unmarshal (rw_BoxID w)) eqn:Hk; [|by eexists _, _; split; [reflexivity|left]]. cbn [negb].
  destruct (ed_Verify _ _ _) eqn:Hv; [|by eexists _, _; split; [reflexivity|left]]. cbn [negb TrunnelReplicaWriteToWireCommand].
  unfold state_handleReplicaWrite. rewrite Hs. destruct (storageFull s); [by eexists _, _; split; [reflexivity|left]|].
  pose proof (existsLoop_any d m (rw_BoxID w) (rw_Signature w) (rw_Payload w) (keptEpochs cur) Hm (keptEpochs_64 cur Hc)) as Hex.
  destruct (existsLoop _ _ _ _ _ _) as [[]| |]; [by eexists _, _; split; [reflexivity|left]| |by eexists _, _; split; [reflexivity|left]|done].
  cbn. pose proof (newBox_wf w Hw) as Hwf.
  destruct (putBox_cases d cur m (newBox (rw_BoxID w) (rw_Signature w) (rw_Payload w)) s Hwf) as [[e ->]| ->]; [by eexists _, _; split; [reflexivity|left]|].
  eexists _, _. split; [reflexivity|]. right. exists (newBox (rw_BoxID w) (rw_Signature w) (rw_Payload w)).
  split; [exact Hwf|]. split; [split; [done|by right]|]. split; [done|]. split; [done|by right].
Qed.

(** No request to the database fails. *)
Definition faultless (d : disk) : Prop := (forall k, get_fails d k = false) /\ (forall k, put_fails d k = false).

(** A write with content that the owner of the box has signed. *)
Record signedWrite (w : ReplicaWrite) : Prop := {
  sw_wf : wf w;
  sw_payload : rw_Payload w <> [];
  sw_size : length (rw_Payload w) = CalculateBoxCiphertextLength g;
  sw_key : ed_Unmarshal (rw_BoxID w) = true;
  sw_signed : ed_Verify (rw_BoxID w) (rw_Payload w) (rw_Signature w) = true;
}.

Definition boxOf (w : ReplicaWrite) : Box := newBox (rw_BoxID w) (rw_Signature w) (rw_Payload w).

(** Such a write is stored if there is no box with its name, accepted without a
    change if it is that box, and refused otherwise. *)
Lemma signedWrite_result d cur w s m : pigeonholeGeo nikeByName sphinxGeo = Ok g -> db s = Some m -> storageFull s = false ->
  wellStored genuine m -> epoch64 cur -> faultless d -> signedWrite w ->
  handleReplicaWrite nikeByName sphinxGeo d cur w s =
    match lookupBox m (rw_BoxID w) (keptEpochs cur) with
    | None => Ok (ReplicaSuccess, setDb s (<[boxKey cur (rw_BoxID w) := wire (boxOf w)]> m))
    | Some box =>
      if bool_decide (box_Payload box = rw_Payload w) && bool_decide (box_Signature box = rw_Signature w) then Ok (ReplicaSuccess, s)
      else Ok (ReplicaErrorBoxAlreadyExists, s)
    end.
Proof.
  intros Hg Hs Hf Hm Hc [Hget Hput] [Hw Hp Hl Hk Hv]. unfold handleReplicaWrite.
  assert (Hn : Z.eqb (rw_PayloadLen w) 0 = false).
  { apply Z.eqb_neq. destruct w as [i sg n p]. cbn in *. destruct Hw as (_ & _ & _ & [Hlen _]). destruct p; [done|]. cbn in Hlen. lia. }
  rewrite Hn, bool_decide_eq_false_2, Hg, bool_decide_eq_true_2, Hk, Hv by done. cbn [negb orb TrunnelReplicaWriteToWireCommand].
  unfold state_handleReplicaWrite. rewrite Hs, Hf, (existsLoop_stored genuine) by (done || (by apply keptEpochs_64) || by intros e).
  destruct (lookupBox m (rw_BoxID w) (keptEpochs cur)) as [box|]; [by destruct (_ && _)|]. go.
  rewrite putBox_ok by (done || by apply newBox_wf). done.
Qed.

Lemma signedWrite_genuine w : signedWrite w -> genuine (boxOf w).
Proof. intros [Hw Hp Hl Hk Hv]. split; [done|]. by right. Qed.

(** A read that finds a box with content. *)
Lemma handleReplicaRead_found d cur r s m box : db s = Some m -> wellStored genuine m -> epoch64 cur -> readable d (rr_BoxID r) ->
  lookupBox m (rr_BoxID r) (keptEpochs cur) = Some box -> wf box -> box_Payload box <> [] ->
  handleReplicaRead d cur r s = Ok (mkReplicaReadReply ReplicaSuccess (box_BoxID box) (box_Signature box) (box_PayloadLen box) (box_Payload box)).
Proof.
  intros Hs Hm Hc Hd Hl Hw Hp. unfold handleReplicaRead, stateHandleReplicaRead.
  rewrite Hs, (readLoop_stored genuine), Hl by (done || by apply keptEpochs_64). rewrite bool_decide_eq_false_2 by done.
  destruct box as [i n p sg]. cbn in *. destruct Hw as (_ & Hn & [Hlen _] & _). do 2 f_equal. rewrite Hlen. apply Z.mod_small. exact Hn.
Qed.

Lemma lookup_written m cur w : wf w -> epoch64 cur ->
  lookupBox (<[boxKey cur (rw_BoxID w) := wire (boxOf w)]> m) (rw_BoxID w) (keptEpochs cur) = Some (boxOf w).
Proof.
  intros Hw Hc. assert (Hb : boxAt (<[boxKey cur (rw_BoxID w) := wire (boxOf w)]> m) cur (rw_BoxID w) = Some (boxOf w)).
  { change (rw_BoxID w) with (box_BoxID (boxOf w)) at 1. rewrite boxAt_insert by (done || by apply newBox_wf). by rewrite bool_decide_eq_true_2. }
  unfold keptEpochs. destruct (Z.eqb_spec cur 0) as [->|]; cbn [lookupBox]; by rewrite Hb.
Qed.

(** ** Runs *)

(** Events keep a property of the database that writes of genuine boxes and
    garbage collection keep. *)
Lemma serveAll_keeps (ok : Z -> Prop) (I : gmap bytes bytes -> Prop) :
  pigeonholeGeo nikeByName sphinxGeo = Ok g ->
  (forall m cur box, wellStored genuine m -> I m -> epoch64 cur -> ok cur -> wf box -> genuine box ->
    tombstone box \/ lookupBox m (box_BoxID box) (keptEpochs cur) = None -> I (<[boxKey cur (box_BoxID box) := wire box]> m)) ->
  (forall m cur, wellStored genuine m -> I m -> 2 <= cur -> epoch64 cur -> ok cur -> I (DeleteRange (epochPrefix 0) (epochPrefix (cur - 1)) m)) ->
  forall evs s m, Forall (proper ok) evs -> db s = Some m -> wellStored genuine m -> I m ->
    exists s' m', serveAll evs s = Ok s' /\ db s' = Some m' /\ wellStored genuine m' /\ I m'.
Proof.
  intros Hg Hwrite Hwipe evs. induction evs as [|ev evs IH]; intros s m Hp Hs Hm HI; [by exists s, m|].
  apply Forall_cons in Hp as [Hev Hp]. cbn [serveAll]. destruct ev as [d cur w|fails cur|max min used avail]; cbn [serve proper] in *.
  - destruct Hev as (Hc & Hok & Hw). destruct (write_cases d cur w s m) as (code & s1 & E & Hst); [done..|]. rewrite E. cbn.
    destruct Hst as [->|(box & Hwf & Hgen & _ & -> & Hcase)]; [by apply (IH s m)|].
    apply (IH _ (<[boxKey cur (box_BoxID box) := wire box]> m)); [done|done|by apply wellStored_insert|by apply Hwrite].
  - destruct Hev as [Hc Hok]. unfold WipeStaleBoxes. rewrite Hs. case_bool_decide as Hlt; [by apply (IH s m)|].
    destruct fails; [by apply (IH s m)|]. cbn. eapply IH; [done|done|by apply wellStored_filter|]. apply Hwipe; [done..|lia|done|done].
  - by apply (IH _ m).
Qed.

Lemma tombstone_genuine box : genuine box -> box_Payload box = [] -> ed_Verify (box_BoxID box) [] (box_Signature box) = true.
Proof. intros [_ [[_ H]|[_ H]]] He; [done|]. by rewrite He in H. Qed.

(** The box of the epoch [e] is there, or a tombstone in its place, and in the next
    epoch there is nothing else with its name. *)
Definition settled (e : Z) (id : bytes) (box : Box) (m : gmap bytes bytes) : Prop :=
  (exists b, boxAt m e id = Some b /\ (b = box \/ tombstone b)) /\ (forall b, boxAt m (e + 1) id = Some b -> tombstone b).

Lemma settled_found e id box m cur : settled e id box m -> epoch64 (e + 1) -> 0 <= e -> cur = e \/ cur = e + 1 ->
  exists b, lookupBox m id (keptEpochs cur) = Some b /\ (b = box \/ tombstone b).
Proof.
  intros [(b & Hb & Hc) Hn] He H0 [->| ->]; unfold keptEpochs.
  - destruct (Z.eqb_spec e 0) as [->|]; cbn; rewrite Hb; by exists b.
  - rewrite (proj2 (Z.eqb_neq _ _)) by lia. replace (e + 1 - 1) with e by lia. cbn. destruct (boxAt m (e + 1) id) as [b'|] eqn:Hb'; [|rewrite Hb; by exists b].
    exists b'. split; [done|]. right. by apply Hn.
Qed.

Lemma settled_write e id box m cur b : settled e id box m -> 0 <= e -> epoch64 (e + 1) -> epoch64 cur -> cur = e \/ cur = e + 1 ->
  wf b -> tombstone b \/ lookupBox m (box_BoxID b) (keptEpochs cur) = None -> settled e id box (<[boxKey cur (box_BoxID b) := wire b]> m).
Proof.
  intros Hs H0 He Hc Hcur Hw Hcase. assert (He' : epoch64 e) by (unfold epoch64 in *; lia).
  destruct (decide (box_BoxID b = id)) as [Hid|Hid].
  - assert (Ht : tombstone b).
    { destruct Hcase as [|Hnone]; [done|]. exfalso. destruct (settled_found e id box m cur) as (b' & Hb' & _); [done..|].
      rewrite Hid in Hnone. congruence. }
    destruct Hs as [(b0 & Hb0 & Hc0) Hn]. split.
    + rewrite boxAt_insert by done. case_bool_decide; [exists b; by split; [|right]|by exists b0].
    + intros b1. rewrite boxAt_insert by done. case_bool_decide; [by intros [= <-]|apply Hn].
  - destruct Hs as [(b0 & Hb0 & Hc0) Hn]. split.
    + exists b0. rewrite boxAt_insert by done. rewrite bool_decide_eq_false_2 by naive_solver. done.
    + intros b1. rewrite boxAt_insert by done. rewrite bool_decide_eq_false_2 by naive_solver. apply Hn.
Qed.

Lemma settled_wipe e id box m cur : settled e id box m -> 0 <= e -> epoch64 (e + 1) -> 2 <= cur -> epoch64 cur -> cur = e \/ cur = e + 1 ->
  settled e id box (DeleteRange (epochPrefix 0) (epochPrefix (cur - 1)) m).
Proof.
  intros [Hb Hn] H0 He H2 Hc Hcur. unfold settled. unfold epoch64 in *.
  rewrite !boxAt_wiped by (unfold epoch64; lia). rewrite !bool_decide_eq_false_2 by lia. done.
Qed.

End Boxes.

(** C28: boxes are immutable.  A box that is stored in an epoch stays: whatever is
    written, by anybody, and however garbage is collected and the disk fails in
    that epoch and the next, the replica does not fail, and reads of the box give
    the same box or a tombstone that carries a signature under the key the box is
    named after; what is read is genuine, and a tombstone stays one. *)
Theorem box_immutable {P : PigeonSizes} {N : Nike} {B : BoxSign} nikeByName sphinxGeo g evs s m e id box :
  pigeonholeGeo nikeByName sphinxGeo = Ok g -> db s = Some m -> wellStored (genuine g) m -> 0 <= e -> epoch64 (e + 1) -> boxAt m e id = Some box ->
  (forall b, boxAt m (e + 1) id = Some b -> tombstone b) -> Forall (proper (fun cur => cur = e \/ cur = e + 1)) evs ->
  exists s', serveAll nikeByName sphinxGeo evs s = Ok s' /\
    forall d cur, cur = e \/ cur = e + 1 -> readable d id ->
      exists b, stateHandleReplicaRead d cur id s' = Ok b /\ genuine g b /\ box_BoxID b = id /\ (b = box \/ tombstone b).
Proof.
  intros Hg Hs Hm H0 He Hbox Hnext Hevs.
  destruct (serveAll_keeps nikeByName sphinxGeo g (fun cur => cur = e \/ cur = e + 1) (settled e id box)) with evs s m
    as (s' & m' & Hserve & Hs' & Hm' & Hset).
  - done.
  - intros m0 cur b _ Hset Hc Hok Hw _ Hcase. by apply settled_write.
  - intros m0 cur _ Hset H2 Hc Hok. by apply settled_wipe.
  - done.
  - done.
  - done.
  - split; [|done]. exists box. by split; [|left].
  - exists s'. split; [done|]. intros d cur Hcur Hd. destruct (settled_found e id box m' cur) as (b & Hb & Hcase); [done..|].
    exists b. assert (Hc : epoch64 cur) by (unfold epoch64 in *; lia).
    unfold stateHandleReplicaRead. rewrite Hs', (readLoop_stored (genuine g)) by (done || by apply keptEpochs_64). rewrite Hb.
    destruct (lookupBox_some m' id (keptEpochs cur) b) as (e' & Hin & Hat); [done|].
    apply (boxAt_some (genuine g)) in Hat as (_ & _ & Hgen & Hid); [|done|]. { done. }
    pose proof (keptEpochs_64 cur Hc) as Hk. rewrite Forall_forall in Hk. by apply Hk.
Qed.

(** A second write to a box is refused, and the first content is read in the next
    epoch too, after garbage collection. *)
Lemma box_immutable_witness :
  exists s', serveAll toyRegistry toySphinx [EvWrite goodDisk 4 (toyWrite 9); EvSample 0 0 None None; EvWipe false 4]
      (setDb toyStore {[ boxKey 3 toyBoxID := wire (boxOf (toyWrite 5)) ]}) = Ok s' /\
    exists b, stateHandleReplicaRead goodDisk 4 toyBoxID s' = Ok b /\ genuine toySmall b /\ box_BoxID b = toyBoxID /\ (b = boxOf (toyWrite 5) \/ tombstone b).
Proof.
  assert (Hb : forall x, 0 <= x < 256 -> is_byte x) by done. pose proof (toyWrite_wf 5 (Hb 5 ltac:(lia))) as Hw5.
  assert (Hm : wellStored (genuine toySmall) {[ boxKey 3 toyBoxID := wire (boxOf (toyWrite 5)) ]}).
  { apply map_Forall_singleton. exists 3, (boxOf (toyWrite 5)). split_and!; try done; [by apply newBox_wf|].
    apply (signedWrite_genuine toySmall (toyWrite 5)). by split. }
  destruct (box_immutable toyRegistry toySphinx toySmall
    [EvWrite goodDisk 4 (toyWrite 9); EvSample 0 0 None None; EvWipe false 4]
    (setDb toyStore {[ boxKey 3 toyBoxID := wire (boxOf (toyWrite 5)) ]}) {[ boxKey 3 toyBoxID := wire (boxOf (toyWrite 5)) ]}
    3 toyBoxID (boxOf (toyWrite 5))) as (s' & Hs & Hr).
  - exact toySmall_geo.
  - reflexivity.
  - exact Hm.
  - lia.
  - by split.
  - unfold boxAt. rewrite lookup_singleton_eq. by rewrite ParseMessage_wire by by apply newBox_wf.
  - intros b Hb4. unfold boxAt in Hb4. rewrite lookup_singleton_ne in Hb4 by by vm_compute. done.
  - repeat apply Forall_cons_2; [|done|by split; [|right]|by apply Forall_nil]. split; [by split|]. split; [by right|]. by apply toyWrite_wf, Hb.
  - exists s'. split; [exact Hs|]. apply Hr; [by right|by intros e].
Defined.
