(* ===== verification/ReplicaMessages.v ===== *)
(** Requests to storage replicas end to end: what a client reads from the replies
    of [replica/handlers.go], and how the replies look. *)

From S2P Require Import Prelude Schemes ToySchemes SphinxGeo TimerQueue ByteOrder PigeonGeo PigeonMessages PkiDocument Sharding PigeonPki ReplicaState ReplicaHandlers ReplicaToy ReplicaBoxes.
From Stdlib Require Import ZArith Lia.
From stdpp Require Import prelude list strings gmap.

Local Open Scope Z_scope.

Section Messages.

Context {P : PigeonSizes} {N : Nike} {NL : NikeLaws N} {M : Mkem N} {ML : MkemLaws M} {B : BoxSign} (nikeByName : string -> option Nike).
Context (Sum256 blake2b_Sum256 : bytes -> bytes) (sphinxGeo : Geometry) (g : PigeonholeGeometry).

(** The message a client seals for the replicas with the keys [pks], as it reaches
    the one at the place [i], and the key it keeps. *)
Definition requestOf (rnd : bytes) (pks : list nike_PublicKey) (i : nat) (payload : bytes) : replicaMessage * nike_PrivateKey :=
  let '(eph, ct) := mk_Encapsulate rnd pks payload in
  (mkReplicaMessage (nike_Bytes (EphemeralPublicKey ct)) (default [] (DEKCiphertexts ct !! i)) (mk_Envelope ct), eph).

(** What the client reads of the reply of a replica with the key [pk]. *)
Definition openReply (eph : nike_PrivateKey) (pk : nike_PublicKey) (r : messageReply) : outcome ReplicaMessageReplyInnerMessage :=
  blob ← mk_DecryptEnvelope eph pk (mr_EnvelopeReply r); ParseMessage blob.

(** The replica holds the private key of [pk] for an epoch of its window. *)
Definition inKeyWindow (keys : gmap Z nike_PrivateKey) (epoch : Z) (pk : nike_PublicKey) : Prop :=
  exists e sk, keys !! e = Some sk /\ nike_Public sk = pk /\ epoch - 1 <= e <= epoch + 1 /\ 0 <= e.

Lemma nike_Bytes_inj pk pk' : nike_Bytes pk = nike_Bytes pk' -> pk = pk'.
Proof. intros H. pose proof (nike_unmarshal_bytes pk) as H1. rewrite H, nike_unmarshal_bytes in H1. by injection H1. Qed.

Lemma deltas_epoch epoch delta : 0 <= epoch -> epoch + 1 < 2 ^ 63 -> -1 <= delta <= 1 -> ~ (delta < 0 /\ epoch < - delta) ->
  wrap 64 (int64 epoch + delta) = epoch + delta.
Proof. intros H0 H1 Hd Hn. rewrite int64_small by lia. apply Z.mod_small. lia. Qed.

(** Decapsulation over the window finds a key of the recipient. *)
Lemma decapsulateLoop_finds keys epoch rnd pks i payload dek deltas lastErr pk :
  0 <= epoch -> epoch + 1 < 2 ^ 63 -> Forall (fun d => -1 <= d <= 1) deltas ->
  pks !! i = Some pk -> DEKCiphertexts (mk_Encapsulate rnd pks payload).2 !! i = Some dek ->
  (exists delta sk, delta ∈ deltas /\ 0 <= epoch + delta /\ keys !! (epoch + delta) = Some sk /\ nike_Public sk = pk) ->
  exists sk e, decapsulateLoop keys (mkMkemCiphertext _ (EphemeralPublicKey (mk_Encapsulate rnd pks payload).2) [dek] (mk_Envelope (mk_Encapsulate rnd pks payload).2))
      epoch deltas lastErr = Ok (payload, sk, e) /\ nike_Public sk = pk.
Proof.
  intros H0 H1 Hds Hpk Hdek. revert lastErr. induction Hds as [|delta deltas Hd _ IH]; intros lastErr (dl & sk & Hin & Hnn & Hk & Hpub).
  { by apply not_elem_of_nil in Hin. }
  cbn [decapsulateLoop]. case_bool_decide as Hneg.
  - apply IH. exists dl, sk. split_and!; try done. apply elem_of_cons in Hin as [->|]; [lia|done].
  - rewrite deltas_epoch by (done || lia). unfold GetKeypair. destruct (keys !! (epoch + delta)) as [sk'|] eqn:Hk'.
    + destruct (decide (nike_Bytes (nike_Public sk') = nike_Bytes pk)) as [Heq%nike_Bytes_inj|Hno].
      { rewrite (mk_opens rnd pks payload i sk' dek) by (done || by rewrite Hpk, Heq). by eexists _, _. }
      destruct (mk_rejects rnd pks payload i sk' dek) as [e ->]; [rewrite Hpk; congruence|done|].
      apply IH. exists dl, sk. split_and!; try done. apply elem_of_cons in Hin as [->|]; [|done]. exfalso. apply Hno. congruence.
    + apply IH. exists dl, sk. split_and!; try done. apply elem_of_cons in Hin as [->|]; [congruence|done].
Qed.

Lemma window_opens keys epoch rnd pks i payload dek pk :
  0 <= epoch -> epoch + 1 < 2 ^ 63 -> pks !! i = Some pk -> DEKCiphertexts (mk_Encapsulate rnd pks payload).2 !! i = Some dek ->
  inKeyWindow keys epoch pk ->
  exists sk e, tryDecapsulateAcrossEpochWindow keys
      (mkMkemCiphertext _ (EphemeralPublicKey (mk_Encapsulate rnd pks payload).2) [dek] (mk_Envelope (mk_Encapsulate rnd pks payload).2)) epoch
    = Ok (payload, sk, e) /\ nike_Public sk = pk.
Proof.
  intros H0 H1 Hpk Hdek (e & sk & Hk & Hpub & Hw & He). apply (decapsulateLoop_finds keys epoch rnd pks i); try done.
  - unfold ValidEnvelopeEpochWindow. repeat constructor; lia.
  - exists (e - epoch), sk. replace (epoch + (e - epoch)) with e by lia. split_and!; try done. unfold ValidEnvelopeEpochWindow.
    assert (e - epoch = -1 \/ e - epoch = 0 \/ e - epoch = 1) as [->|[->| ->]] by lia; [by left|right; by left|right; right; by left].
Qed.

(** ** Padding *)

Lemma PadToSize_parse {A} {I : Message A} {F : Format A} (m : A) n padded : wf m -> (b ← Bytes m; PadToSize b n) = Ok padded ->
  ParseMessage padded = Ok m /\ length padded = n.
Proof.
  intros Hw H. rewrite Bytes_ok in H by done. cbn in H. assert (Hl : (length (wire m) <= n)%nat).
  { unfold PadToSize in H. case_bool_decide; [done|lia]. }
  rewrite PadToSize_ok in H by done. injection H as <-. split; [|golen]. unfold ParseMessage. by rewrite (rd_print _ _ _ fmt_reads).
Qed.

Lemma read_reply_size r : formatSizes P -> wf r -> (length (rrr_Payload r) <= CalculateBoxCiphertextLength g)%nat ->
  wf (mkReplicaMessageReplyInnerMessage 0 (Some r) None) /\
  (length (wire (mkReplicaMessageReplyInnerMessage 0 (Some r) None)) <= ReplicaReplyInnerMessageReadSize g)%nat.
Proof.
  intros [Hb Hs _] Hw Hl. split; [left; eauto|]. unfold ReplicaReplyInnerMessageReadSize. rewrite Hb, Hs.
  change (wire _) with (be_split 1 0 ++ wire r). destruct r as [e i sg n p]. cbn -[be_split Nat.add] in *.
  destruct Hw as (_ & [Hi _] & [Hsg _] & _). unfold messageTypeSize, errorCodeFieldSize, payloadLenFieldSize. golen.
Qed.

Lemma write_reply_size code : uint 1 code ->
  wf (mkReplicaMessageReplyInnerMessage 1 None (Some (mkReplicaWriteReply code))) /\
  (length (wire (mkReplicaMessageReplyInnerMessage 1 None (Some (mkReplicaWriteReply code)))) <= ReplicaReplyInnerMessageReadSize g)%nat.
Proof.
  intros Hc. split; [right; eauto|]. change (wire _) with (be_split 1 1 ++ be_split 1 code). rewrite length_app, !length_be_split.
  unfold ReplicaReplyInnerMessageReadSize, messageTypeSize, errorCodeFieldSize. lia.
Qed.

(** A sealed reply: the client reads the message, and the plaintext has the one
    size of replies. *)
Lemma sealReply_opens nonce sk eph h id code msg :
  pigeonholeGeo nikeByName sphinxGeo = Ok g -> wf msg -> (length (wire msg) <= ReplicaReplyInnerMessageReadSize g)%nat ->
  exists blob, sealReply nikeByName sphinxGeo nonce sk (nike_Public eph) h id code msg =
      Ok (mkMessageReply code h (mk_EnvelopeReply nonce sk (nike_Public eph) blob) id) /\
    length blob = ReplicaReplyInnerMessageReadSize g /\
    openReply eph (nike_Public sk) (mkMessageReply code h (mk_EnvelopeReply nonce sk (nike_Public eph) blob) id) = Ok msg.
Proof.
  intros Hg Hw Hl. set (blob := wire msg ++ zeros (ReplicaReplyInnerMessageReadSize g - length (wire msg))).
  assert (Hpad : PadReplyInnerMessageForEncryption msg (Some g) = Ok blob).
  { unfold PadReplyInnerMessageForEncryption. rewrite Bytes_ok by done. cbn. by rewrite PadToSize_ok. }
  exists blob. unfold sealReply, createReplicaMessageReply. rewrite Hg. go. rewrite Hpad. split; [done|].
  destruct (PadToSize_parse msg (ReplicaReplyInnerMessageReadSize g) blob) as [Hp Hlen]; [done|exact Hpad|]. split; [done|].
  unfold openReply. cbn [mr_EnvelopeReply]. rewrite mk_replies. exact Hp.
Qed.

(** ** Requests to a shard *)

(** A replica that can read a request for the key [pk] and is in the document. *)
Record attends (sv : replicaServer) (epoch : Z) (pk : nike_PublicKey) (doc : Document) (boxID : bytes) : Prop := {
  at_doc : sv_doc sv = Some doc;
  at_id : exists replicaID, GetReplicaIDByIdentityKey doc (Ok (sv_identity sv)) = Ok replicaID;
  at_key : inKeyWindow (sv_keys sv) epoch pk;
  at_epoch : 0 <= epoch /\ epoch + 1 < 2 ^ 63;
  at_shard : exists shards, GetShards Sum256 blake2b_Sum256 boxID doc = Ok shards /\ isShard (sv_identity sv) shards = true;
}.

(** A request that was received: the handler continues with the message and a
    private key of [pk]. *)
Lemma requestOf_received rnd pks i pk payload keys epoch :
  0 <= epoch -> epoch + 1 < 2 ^ 63 -> pks !! i = Some pk -> inKeyWindow keys epoch pk ->
  exists ephPub sk e, nike_UnmarshalBinaryPublicKey (SenderEPubKey (requestOf rnd pks i payload).1) = Ok ephPub /\
    ephPub = nike_Public (requestOf rnd pks i payload).2 /\ nike_Public sk = pk /\
    tryDecapsulateAcrossEpochWindow keys (mkMkemCiphertext _ ephPub [rm_DEK (requestOf rnd pks i payload).1] (rm_Ciphertext (requestOf rnd pks i payload).1)) epoch
      = Ok (payload, sk, e).
Proof.
  intros H0 H1 Hpk Hw. pose proof (mk_ephemeral rnd pks payload) as He. pose proof (mk_deks rnd pks payload) as Hdl.
  destruct (lookup_lt_is_Some_2 (DEKCiphertexts (mk_Encapsulate rnd pks payload).2) i) as [dek Hdek].
  { rewrite Hdl. by eapply lookup_lt_Some. }
  destruct (window_opens keys epoch rnd pks i payload dek pk) as (sk & e & Ht & Hpub); [done..|].
  unfold requestOf. destruct (mk_Encapsulate rnd pks payload) as [eph ct]. cbn in *. exists (EphemeralPublicKey ct), sk, e.
  rewrite nike_unmarshal_bytes, Hdek. split_and!; done.
Qed.

Lemma shard_reads epoch cur epoch' d rn send rnd pks i pk payload r rr sv doc :
  formatSizes P -> pigeonholeGeo nikeByName sphinxGeo = Ok g -> attends sv epoch pk doc (rr_BoxID r) -> pks !! i = Some pk ->
  ParseMessage payload = Ok (mkReplicaInnerMessage 0 (Some r) None) ->
  handleReplicaRead d cur r (sv_store sv) = Ok rr -> wf rr -> (length (rrr_Payload rr) <= CalculateBoxCiphertextLength g)%nat ->
  exists reply, handleReplicaMessage nikeByName Sum256 blake2b_Sum256 sphinxGeo epoch cur epoch' d rn send (requestOf rnd pks i payload).1 sv
      = Ok (reply, [], sv_store sv) /\ mr_ErrorCode reply = rrr_ErrorCode rr /\ mr_EnvelopeReply reply <> [] /\
    openReply (requestOf rnd pks i payload).2 pk reply = Ok (mkReplicaMessageReplyInnerMessage 0 (Some rr) None).
Proof.
  intros Hsz Hg [Hdoc [rid Hrid] Hkey [H0 H1] (shards & Hsh & His)] Hpk Hparse Hread Hw Hl.
  destruct (requestOf_received rnd pks i pk payload (sv_keys sv) epoch) as (ep & sk & e & Hu & -> & Hpub & Ht); [done..|].
  destruct (read_reply_size rr Hsz Hw Hl) as [Hwm Hlm].
  destruct (sealReply_opens (rn_nonce rn) sk (requestOf rnd pks i payload).2
    (EnvelopeHash blake2b_Sum256 (requestOf rnd pks i payload).1) rid (rrr_ErrorCode rr) _ Hg Hwm Hlm) as (blob & Hseal & _ & Hopen).
  eexists. unfold handleReplicaMessage. rewrite Hu, Ht, Hparse, Hdoc, Hrid. cbn [ReadMsg WriteMsg]. rewrite Hsh, His, Hread. go. rewrite Hseal. cbn.
  split_and!; [reflexivity|done|apply mk_reply_not_nil|]. by rewrite <- Hpub.
Qed.

Lemma shard_writes epoch cur epoch' d rn send rnd pks i pk payload w code s' sv doc :
  pigeonholeGeo nikeByName sphinxGeo = Ok g -> attends sv epoch pk doc (rw_BoxID w) -> pks !! i = Some pk ->
  ParseMessage payload = Ok (mkReplicaInnerMessage 1 None (Some w)) ->
  handleReplicaWrite nikeByName sphinxGeo d cur w (sv_store sv) = Ok (code, s') -> uint 1 code ->
  exists reply, handleReplicaMessage nikeByName Sum256 blake2b_Sum256 sphinxGeo epoch cur epoch' d rn send (requestOf rnd pks i payload).1 sv
      = Ok (reply, if Z.eqb code ReplicaSuccess then doReplication Sum256 blake2b_Sum256 (sv_identity sv) (rw_BoxID w) (rw_Signature w) (rw_Payload w) (Some doc) else [], s') /\
    mr_ErrorCode reply = code /\
    openReply (requestOf rnd pks i payload).2 pk reply = Ok (mkReplicaMessageReplyInnerMessage 1 None (Some (mkReplicaWriteReply code))).
Proof.
  intros Hg [Hdoc [rid Hrid] Hkey [H0 H1] (shards & Hsh & His)] Hpk Hparse Hwrite Hc.
  destruct (requestOf_received rnd pks i pk payload (sv_keys sv) epoch) as (ep & sk & e & Hu & -> & Hpub & Ht); [done..|].
  destruct (write_reply_size code Hc) as [Hwm Hlm].
  destruct (sealReply_opens (rn_nonce rn) sk (requestOf rnd pks i payload).2
    (EnvelopeHash blake2b_Sum256 (requestOf rnd pks i payload).1) rid code _ Hg Hwm Hlm) as (blob & Hseal & _ & Hopen).
  eexists. unfold handleReplicaMessage. rewrite Hu, Ht, Hparse, Hdoc, Hrid. cbn [ReadMsg WriteMsg]. rewrite Hsh, His, Hwrite. go. rewrite Hseal. cbn.
  split_and!; [reflexivity|done|]. by rewrite <- Hpub.
Qed.

End Messages.

Lemma newBox_len w : wf w -> box_PayloadLen (boxOf w) = rw_PayloadLen w.
Proof. destruct w as [i sg n p]. cbn. intros (_ & _ & Hn & [Hp _]). rewrite Hp. apply Z.mod_small. exact Hn. Qed.

(** A write survives the conversion to the wire command and back. *)
Lemma write_wire_roundtrip w : wf w -> WireCommandToTrunnelReplicaWrite (rw_BoxID w) (rw_Signature w) (rw_Payload w) = w.
Proof.
  destruct w as [i sg n p]. cbn. intros (_ & _ & Hn & [Hp _]). unfold WireCommandToTrunnelReplicaWrite. f_equal. cbn. rewrite Hp. apply Z.mod_small. exact Hn.
Qed.

(** An open store with room and genuine boxes that has no box of the name. *)
Definition vacant {P : PigeonSizes} {B : BoxSign} (g : PigeonholeGeometry) (s : boxStore) (cur : Z) (id : bytes) : Prop :=
  exists m, db s = Some m /\ storageFull s = false /\ wellStored (genuine g) m /\ lookupBox m id (keptEpochs cur) = None.


(** ** Requests that are passed on *)

Section Proxy.

Context {P : PigeonSizes} {N : Nike} {NL : NikeLaws N} {M : Mkem N} {ML : MkemLaws M} {B : BoxSign} (nikeByName : string -> option Nike).
Context (Sum256 blake2b_Sum256 : bytes -> bytes) (sphinxGeo : Geometry).

(** A reply without an envelope, or one that is sealed with the key [sk]. *)
Definition sealedWith (sk : option nike_PrivateKey) (sender : nike_PublicKey) (r : messageReply) : Prop :=
  mr_EnvelopeReply r = [] \/ exists k nonce blob, sk = Some k /\ mr_EnvelopeReply r = mk_EnvelopeReply nonce k sender blob.

Lemma createReply_bare code h id r sk sender : createReplicaMessageReply nikeByName sphinxGeo code h [] id = Ok r -> sealedWith sk sender r.
Proof. unfold createReplicaMessageReply. intros H. go_inv H. injection H as <-. by left. Qed.

Lemma sealReply_sealed nonce k sender h id code msg r :
  sealReply nikeByName sphinxGeo nonce k sender h id code msg = Ok r -> sealedWith (Some k) sender r.
Proof.
  unfold sealReply. destruct (_ ≫= _) as [blob| |]; [|apply createReply_bare|done]. unfold createReplicaMessageReply.
  intros H. go_inv H. injection H as <-. right. by exists k, nonce, blob.
Qed.

Lemma relayReply_sealed {R} (reply : ReplicaMessageReplyInnerMessage -> option R) again codeOf rn k eph target sender h id r0 r :
  relayReply nikeByName sphinxGeo reply again codeOf rn k eph target sender h id r0 = Ok r -> sealedWith (Some k) sender r.
Proof.
  unfold relayReply. destruct (mr_EnvelopeReply r0) as [|x l]; [apply createReply_bare|].
  destruct (mk_DecryptEnvelope _ _ _) as [b| |]; [|apply createReply_bare|done]. destruct (ParseMessage b) as [inner| |]; [|apply createReply_bare|done].
  destruct (reply inner); [apply sealReply_sealed|apply createReply_bare].
Qed.

(** The reply to a request that was passed on is sealed with the key of the
    current epoch. *)
Lemma proxyRequest_sealed {R} (reply : ReplicaMessageReplyInnerMessage -> option R) again codeOf boxID inner sender h epoch' rn send sv r :
  proxyRequest nikeByName Sum256 blake2b_Sum256 sphinxGeo reply again codeOf boxID inner sender h epoch' rn send sv = Ok r ->
  sealedWith (sv_keys sv !! epoch') sender r.
Proof.
  unfold proxyRequest. destruct (sv_doc sv) as [doc|]; [|apply createReply_bare].
  set (prep := _ ≫= _). destruct prep as [[[[[rid target] k] blob] key]| |] eqn:Hprep; [|apply createReply_bare|done].
  destruct (mk_Encapsulate _ _ _) as [eph env]. intros Hr. go_inv Hr. unfold prep in Hprep.
  go_inv Hprep. go_inv Hprep. go_inv Hprep. destruct v2 as [idx rest]. go_inv Hprep. go_inv Hprep. go_inv Hprep. go_inv Hprep. go_inv Hprep.
  injection Hprep as <- <- <- <- <-. unfold GetKeypair in E4. destruct (sv_keys sv !! epoch') as [k'|] eqn:Hk; [|done]. injection E4 as <-.
  destruct (send _ _) as [r0| |]; [by apply relayReply_sealed in Hr|by eapply createReply_bare|done].
Qed.

End Proxy.

(** C33: the tolerance for neighbouring epochs does not hold for requests that are
    passed on.  A replica that does not keep the box accepts a request that is
    sealed for its key of the previous or next epoch, but seals the reply it gets
    from the shard with its key of the current epoch: if the two differ, the client
    cannot open the reply with the key it used, whatever the shard answers. *)
Theorem proxied_reply_unreadable {P : PigeonSizes} {N : Nike} {NL : NikeLaws N} {M : Mkem N} {ML : MkemLaws M} {B : BoxSign} nikeByName
    (Sum256 blake2b_Sum256 : bytes -> bytes) sphinxGeo epoch cur epoch' d rn send rnd pks i pk payload msg boxID sv doc shards skc reply ds s :
  0 <= epoch -> epoch + 1 < 2 ^ 63 -> pks !! i = Some pk -> inKeyWindow (sv_keys sv) epoch pk ->
  ParseMessage payload = Ok msg -> (ReadMsg msg = Some (mkReplicaRead boxID) \/ ReadMsg msg = None /\ exists w, WriteMsg msg = Some w /\ rw_BoxID w = boxID) ->
  sv_doc sv = Some doc -> GetShards Sum256 blake2b_Sum256 boxID doc = Ok shards -> isShard (sv_identity sv) shards = false ->
  sv_keys sv !! epoch' = Some skc -> nike_Public skc <> pk ->
  handleReplicaMessage nikeByName Sum256 blake2b_Sum256 sphinxGeo epoch cur epoch' d rn send (requestOf rnd pks i payload).1 sv = Ok (reply, ds, s) ->
  s = sv_store sv /\ (mr_EnvelopeReply reply = [] \/ exists e, openReply (requestOf rnd pks i payload).2 pk reply = Err e).
Proof.
  intros H0 H1 Hpk Hkey Hparse Hmsg Hdoc Hsh His Hcur Hne Hh.
  destruct (requestOf_received rnd pks i pk payload (sv_keys sv) epoch) as (ep & sk & e & Hu & -> & Hpub & Ht); [done..|].
  assert (Hs : s = sv_store sv /\ sealedWith (Some skc) (nike_Public (requestOf rnd pks i payload).2) reply).
  { rewrite <- Hcur. unfold handleReplicaMessage in Hh. rewrite Hu, Ht, Hparse, Hdoc in Hh.
    destruct (GetReplicaIDByIdentityKey _ _) as [rid| |]; [| |done].
    - destruct Hmsg as [Hr|(Hr & w & Hw & Hb)].
      + rewrite Hr in Hh. cbn [rr_BoxID] in Hh. rewrite Hsh, His in Hh. unfold answer in Hh. go_inv Hh. injection Hh as <- <- <-.
        split; [done|]. by apply proxyRequest_sealed in E.
      + rewrite Hr, Hw, Hb, Hsh, His in Hh. unfold answer in Hh. go_inv Hh. injection Hh as <- <- <-. split; [done|]. by apply proxyRequest_sealed in E.
    - unfold answer in Hh. go_inv Hh. injection Hh as <- <- <-. split; [done|]. by eapply createReply_bare. }
  destruct Hs as [-> [He|(k & nonce & blob & [= <-] & He)]]; (split; [done|]); [by left|right].
  unfold openReply. rewrite He. destruct (mk_reply_rejects nonce skc (requestOf rnd pks i payload).2 blob pk) as [er Her]; [congruence|].
  exists er. by rewrite Her.
Qed.

(** ** A concrete network *)

Abbreviation toyPublic i := (@nike_Public toyNike (@nike_GeneratePrivateKey toyNike [i])).
Abbreviation paddedWrite := (PadInnerMessageForEncryption (mkReplicaInnerMessage 1 None (Some (toyWrite 5))) (Some toySmall)).
Abbreviation paddedRead := (PadInnerMessageForEncryption (mkReplicaInnerMessage 0 (Some (mkReplicaRead toyBoxID)) None) (Some toySmall)).

Lemma toyServer_attends i : i = 0 \/ i = 1 -> attends toyBlake toyBlake (toyServer i) 4 (toyPublic i) toyReplicas toyBoxID.
Proof.
  intros Hi. split.
  - done.
  - exists i. by destruct Hi as [->| ->].
  - exists 3, (@nike_GeneratePrivateKey toyNike [i]). split_and!; try done; lia.
  - lia.
  - exists [toyReplicaNode 0; toyReplicaNode 1]. split; [vm_compute; reflexivity|]. by destruct Hi as [->| ->].
Qed.

Lemma toyStore_vacant cur id : vacant toySmall toyStore cur id.
Proof.
  exists ∅. split_and!; [done|done|apply map_Forall_empty|]. unfold keptEpochs. by destruct (Z.eqb _ _).
Qed.


(** The replica 2 does not keep the box; the request is sealed for its key of the
    next epoch, and the shard 0 answers. *)
Abbreviation toyShardAnswers m :=
  match handleReplicaMessage toyRegistry toyBlake toyBlake toySphinx 3 3 3 goodDisk (mkRandomness [0] [] []) (fun _ _ => Err "none") m (toyServer 0) with
  | Ok (r, _, _) => Ok r
  | _ => Err "none"
  end.
Abbreviation toyProxied padded' := (handleReplicaMessage toyRegistry toyBlake toyBlake toySphinx 3 3 3 goodDisk (mkRandomness [0] [] [])
  (fun _ m => toyShardAnswers m) (requestOf [2] [toyPublic 12] 0 padded').1 (toyServer 2)).

Lemma proxied_reply_unreadable_witness : exists padded' reply ds s e, paddedRead = Ok padded' /\ toyProxied padded' = Ok (reply, ds, s) /\
  mr_ErrorCode reply = ReplicaErrorBoxIDNotFound /\ openReply (requestOf [2] [toyPublic 12] 0 padded').2 (toyPublic 12) reply = Err e.
Proof.
  destruct paddedRead as [padded'| |] eqn:E2; [|vm_compute in E2; discriminate E2..].
  assert (Hparse : ParseMessage padded' = Ok (mkReplicaInnerMessage 0 (Some (mkReplicaRead toyBoxID)) None)).
  { revert E2. vm_compute. intros [= <-]. reflexivity. }
  assert (Hrun : match toyProxied padded' with Ok (r, _, _) => bool_decide (mr_EnvelopeReply r <> []) && Z.eqb (mr_ErrorCode r) ReplicaErrorBoxIDNotFound | _ => false end = true).
  { assert (padded' = match paddedRead with Ok p => p | _ => [] end) as -> by by rewrite E2. vm_compute. reflexivity. }
  destruct (toyProxied padded') as [[[reply ds] s]| |] eqn:Hh; [|done..].
  apply andb_true_iff in Hrun as [Hne%bool_decide_eq_true Hcode%Z.eqb_eq].
  destruct (proxied_reply_unreadable toyRegistry toyBlake toyBlake toySphinx 3 3 3 goodDisk (mkRandomness [0] [] []) (fun _ m => toyShardAnswers m) [2]
    [toyPublic 12] 0 (toyPublic 12) padded' (mkReplicaInnerMessage 0 (Some (mkReplicaRead toyBoxID)) None) toyBoxID (toyServer 2) toyReplicas
    [toyReplicaNode 0; toyReplicaNode 1] (@nike_GeneratePrivateKey toyNike [2]) reply ds s) as [_ [He|[e He]]].
  - lia.
  - lia.
  - reflexivity.
  - exists 4, (@nike_GeneratePrivateKey toyNike [12]). split_and!; try done; lia.
  - exact Hparse.
  - by left.
  - reflexivity.
  - vm_compute. reflexivity.
  - reflexivity.
  - reflexivity.
  - intros H. apply (f_equal (@nike_Bytes toyNike)) in H. vm_compute in H. discriminate H.
  - exact Hh.
  - done.
  - by exists padded', reply, ds, s, e.
Defined.
