(* ===== verification/ReplicaConnector.v ===== *)
(** How storage replicas send to each other: [replica/connector.go], the egress of
    [outgoing_conn.go], [replication_reply.go] and [proxy_request_manager.go].

    The mutexes make the operations steps; the readings of the clock are their
    arguments.  A connection is the commands that wait in its channel, which has no
    limit here: the code waits for room.  The wire session is an argument: whether
    the command is sent, and what is received. *)

From S2P Require Import Prelude Schemes ToySchemes SphinxGeo TimerQueue EpochTime ByteOrder PigeonGeo PigeonMessages PkiDocument Sharding PigeonPki ReplicaState ReplicaHandlers.
From Stdlib Require Import ZArith Lia.
From stdpp Require Import prelude list strings gmap.

Local Open Scope Z_scope.

Inductive command :=
  | CmdWrite (boxID signature payload : bytes)
  | CmdMessage (m : replicaMessage)
  | CmdDecoy
  | CmdOther.

Record retryCommand := mkRetryCommand {
  rc_cmd : command;
  rc_idHash : bytes;
  rc_ident : bytes;
  rc_hasIdent : bool;
  attempts : Z;
  firstSeen : Z;
  lastTry : Z;
}.

Record connector := mkConnector {
  conns : gmap bytes (list command);
  retryQueue : list retryCommand;
}.

Definition setQueue (co : connector) (q : list retryCommand) : connector := mkConnector (conns co) q.

Definition maxRetryQueuePerPeer : nat := 2000.

Section Connector.

Context (blake2b_Sum256 : bytes -> bytes) (Period : Z).

Definition retryTTL : Z := mulDuration 3 Period.

Definition cmdIdentity (cmd : command) : bytes * bool :=
  match cmd with
  | CmdWrite boxID _ _ => (boxID, true)
  | CmdMessage m => (EnvelopeHash blake2b_Sum256 m, true)
  | _ => (zeros 32, false)
  end.

Definition expired (now : Z) (rc : retryCommand) : bool := bool_decide (retryTTL < Sub now (firstSeen rc)).

(** The entries that stay are moved to the front, in place. *)
Definition pruneRetryQueueLocked (now : Z) (q : list retryCommand) : list retryCommand :=
  filter (fun rc => expired now rc = false) q.

(** The first loop: the entry that was updated, or the number of entries of the
    peer. *)
Fixpoint updateLoop (now : Z) (cmd : command) (idHash ident : bytes) (hasIdent : bool) (q : list retryCommand) (peerCount : nat)
    : list retryCommand + nat :=
  match q with
  | [] => inr peerCount
  | rc :: q =>
    let next n := match updateLoop now cmd idHash ident hasIdent q n with inl q => inl (rc :: q) | inr n => inr n end in
    if negb (bool_decide (rc_idHash rc = idHash)) then next peerCount
    else if hasIdent && rc_hasIdent rc && bool_decide (rc_ident rc = ident) then
      inl (mkRetryCommand cmd (rc_idHash rc) (rc_ident rc) (rc_hasIdent rc) (attempts rc + 1) (firstSeen rc) now :: q)
    else next (S peerCount)
  end.

Fixpoint evictOldest (idHash : bytes) (q : list retryCommand) : list retryCommand :=
  match q with
  | [] => []
  | rc :: q => if bool_decide (rc_idHash rc = idHash) then q else rc :: evictOldest idHash q
  end.

(** [now] is read by the pruning, [now'] after it. *)
Definition QueueForRetry (now now' : Z) (cmd : command) (idHash : bytes) (co : connector) : connector :=
  let q := pruneRetryQueueLocked now (retryQueue co) in
  let '(ident, hasIdent) := cmdIdentity cmd in
  match updateLoop now' cmd idHash ident hasIdent q 0 with
  | inl q => setQueue co q
  | inr peerCount =>
    let q := if bool_decide (maxRetryQueuePerPeer <= peerCount)%nat then evictOldest idHash q else q in
    setQueue co (q ++ [mkRetryCommand cmd idHash ident hasIdent 1 now' now'])
  end.

(** [dispatchCommand] of the connection. *)
Definition dispatchTo (idHash : bytes) (cmd : command) (co : connector) : connector :=
  mkConnector (alter (fun ch => ch ++ [cmd]) idHash (conns co)) (retryQueue co).

Definition DispatchCommand (now now' : Z) (cmd : option command) (idHash : bytes) (co : connector) : connector :=
  match cmd with
  | None => co
  | Some cmd =>
    match conns co !! idHash with
    | Some _ => dispatchTo idHash cmd co
    | None => QueueForRetry now now' cmd idHash co
    end
  end.

(** The loop down to the first entry. *)
Fixpoint processLoop (n : nat) (co : connector) : connector :=
  match n with
  | O => co
  | S i =>
    match retryQueue co !! i with
    | Some rc =>
      match conns co !! rc_idHash rc with
      | Some _ => processLoop i (setQueue (dispatchTo (rc_idHash rc) (rc_cmd rc) co) (take i (retryQueue co) ++ drop (S i) (retryQueue co)))
      | None => processLoop i co
      end
    | None => processLoop i co
    end
  end.

Definition processRetryQueue (now : Z) (co : connector) : connector :=
  let co := setQueue co (pruneRetryQueueLocked now (retryQueue co)) in
  processLoop (length (retryQueue co)) co.

Definition onNewConn (idHash : bytes) (co : connector) : connector := mkConnector (<[idHash := []]> (conns co)) (retryQueue co).

(** The end of a connection's worker: what waits in the channel is queued, then the
    connection is removed.  [nows] are the readings of the clock. *)
Fixpoint drain (nows : list (Z * Z)) (idHash : bytes) (ch : list command) (co : connector) : connector :=
  match ch with
  | [] => co
  | cmd :: ch =>
    let '(now, now') := default (0, 0) (head nows) in
    drain (tail nows) idHash ch (QueueForRetry now now' cmd idHash co)
  end.

Definition OnClosedConn (nows : list (Z * Z)) (idHash : bytes) (co : connector) : connector :=
  let co := drain nows idHash (default [] (conns co !! idHash)) co in
  mkConnector (delete idHash (conns co)) (retryQueue co).

(** ** Replies of peers *)

Inductive replicationReplyAction := replicationReplyOK | replicationReplyRetry | replicationReplyDrop.

Definition classifyReplicationReply (code : Z) : replicationReplyAction :=
  if bool_decide (code = ReplicaSuccess) || bool_decide (code = ReplicaErrorBoxAlreadyExists) then replicationReplyOK
  else if bool_decide (code = ReplicaErrorDatabaseFailure) || bool_decide (code = ReplicaErrorInternalError) then replicationReplyRetry
  else replicationReplyDrop.

Inductive response := RespNoOp | RespDisconnect | RespDecoy | RespWriteReply (code : Z) | RespMessageReply (r : messageReply) | RespOther.

(** The result says whether the connection stays, and gives the reply for a request
    that was passed on. *)
Definition sendAndRecv (now now' : Z) (idHash : bytes) (sent : bool) (received : option response) (cmd : command) (co : connector)
    : bool * option messageReply * connector :=
  let requeue := match cmd with CmdDecoy => co | _ => QueueForRetry now now' cmd idHash co end in
  if negb sent then (false, None, requeue)
  else
    match received with
    | None => (false, None, requeue)
    | Some RespNoOp => (true, None, co)
    | Some RespDisconnect => (false, None, co)
    | Some RespDecoy => (true, None, co)
    | Some (RespWriteReply code) =>
      match classifyReplicationReply code, cmd with
      | replicationReplyRetry, CmdWrite _ _ _ => (true, None, QueueForRetry now now' cmd idHash co)
      | _, _ => (true, None, co)
      end
    | Some (RespMessageReply r) => (true, Some r, co)
    | Some RespOther => (false, None, co)
    end.

(** The next command of a channel leaves it. *)
Definition takeNext (idHash : bytes) (co : connector) : option (command * connector) :=
  match conns co !! idHash with
  | Some (cmd :: ch) => Some (cmd, mkConnector (<[idHash := ch]> (conns co)) (retryQueue co))
  | _ => None
  end.

End Connector.

(** ** The retry queue *)

Definition peerEntries (p : bytes) (q : list retryCommand) : list retryCommand := filter (fun rc => rc_idHash rc = p) q.

(** What an entry is found by. *)
Definition keyOf (rc : retryCommand) : option (bytes * bytes) := if rc_hasIdent rc then Some (rc_idHash rc, rc_ident rc) else None.

(** The bound holds for every peer, no two entries have the same key, and entries
    are found by the identity of their command. *)
Record wellQueued (blake2b_Sum256 : bytes -> bytes) (q : list retryCommand) : Prop := {
  wq_bound p : (length (peerEntries p q) <= maxRetryQueuePerPeer)%nat;
  wq_nodup : NoDup (omap keyOf q);
  wq_ident : Forall (fun rc => cmdIdentity blake2b_Sum256 (rc_cmd rc) = (rc_ident rc, rc_hasIdent rc)) q;
}.

Lemma sublist_omap {A B} (f : A -> option B) l l' : sublist l l' -> sublist (omap f l) (omap f l').
Proof.
  induction 1 as [|x l l' _ IH|x l l' _ IH]; [done| |]; cbn; destruct (f x); [by apply sublist_skip|done|by apply sublist_cons|done].
Qed.

Lemma sublist_Forall_impl {A} (Q : A -> Prop) l l' : sublist l l' -> Forall Q l' -> Forall Q l.
Proof.
  induction 1 as [|x l l' _ IH|x l l' _ IH]; [done| |]; intros [Hx Hl]%Forall_cons; [constructor; [done|by apply IH]|by apply IH].
Qed.

Lemma sublist_filter_mono {A} (Q : A -> Prop) `{forall x, Decision (Q x)} l l' : sublist l l' -> sublist (filter Q l) (filter Q l').
Proof.
  induction 1 as [|x l l' _ IH|x l l' _ IH]; [done| |]; rewrite ?filter_cons; destruct (decide (Q x)); [by apply sublist_skip|done|by apply sublist_cons|done].
Qed.

Lemma length_peerEntries_cons p rc q : length (peerEntries p (rc :: q)) = ((if decide (rc_idHash rc = p) then 1 else 0) + length (peerEntries p q))%nat.
Proof. unfold peerEntries. rewrite filter_cons. by destruct (decide _). Qed.

Lemma length_peerEntries_app p q q' : length (peerEntries p (q ++ q')) = (length (peerEntries p q) + length (peerEntries p q'))%nat.
Proof. unfold peerEntries. by rewrite filter_app, length_app. Qed.

Section Queue.

Context (blake2b_Sum256 : bytes -> bytes) (Period : Z).

Lemma wellQueued_sublist q q' : sublist q' q -> wellQueued blake2b_Sum256 q -> wellQueued blake2b_Sum256 q'.
Proof.
  intros Hs [Hb Hn Hi]. split.
  - intros p. specialize (Hb p). pose proof (sublist_length _ _ (sublist_filter_mono (fun rc => rc_idHash rc = p) _ _ Hs)) as Hl.
    unfold peerEntries in *. lia.
  - eapply sublist_NoDup; [exact Hn|]. by apply sublist_omap.
  - by eapply sublist_Forall_impl.
Qed.

Lemma prune_sublist now q : sublist (pruneRetryQueueLocked Period now q) q.
Proof. apply sublist_filter. Qed.

Lemma evict_sublist p q : sublist (evictOldest p q) q.
Proof. induction q as [|rc q IH]; [done|]. cbn. case_bool_decide; [by apply sublist_cons|by apply sublist_skip]. Qed.

Lemma evict_length p q : length (peerEntries p (evictOldest p q)) = (length (peerEntries p q) - 1)%nat.
Proof.
  induction q as [|rc q IH]; [done|]. cbn [evictOldest]. rewrite length_peerEntries_cons. case_bool_decide as Hp.
  - rewrite decide_True by done. lia.
  - rewrite length_peerEntries_cons, decide_False by done. lia.
Qed.

(** The entry a command belongs to. *)
Definition matches (p ident : bytes) (hasIdent : bool) (rc : retryCommand) : Prop :=
  rc_idHash rc = p /\ hasIdent = true /\ rc_hasIdent rc = true /\ rc_ident rc = ident.

(** The entry with its new command. *)
Definition renewed (now : Z) (cmd : command) (rc : retryCommand) : retryCommand :=
  mkRetryCommand cmd (rc_idHash rc) (rc_ident rc) (rc_hasIdent rc) (attempts rc + 1) (firstSeen rc) now.

Lemma updateLoop_spec now cmd p ident hasIdent q n :
  match updateLoop now cmd p ident hasIdent q n with
  | inl q' => exists q1 rc q2, q = q1 ++ rc :: q2 /\ matches p ident hasIdent rc /\ q' = q1 ++ renewed now cmd rc :: q2
  | inr n' => Forall (fun rc => ~ matches p ident hasIdent rc) q /\ n' = (n + length (peerEntries p q))%nat
  end.
Proof.
  revert n. induction q as [|rc q IH]; intros n; cbn [updateLoop]; [split; [done|cbn; lia]|].
  rewrite length_peerEntries_cons. destruct (bool_decide (rc_idHash rc = p)) eqn:Hp; cbn [negb].
  - apply bool_decide_eq_true in Hp. rewrite decide_True by done. destruct (_ && _) eqn:Hm.
    + apply andb_true_iff in Hm as [[Hh Hr]%andb_true_iff Hi%bool_decide_eq_true]. exists [], rc, q. by split_and!.
    + specialize (IH (S n)). destruct (updateLoop _ _ _ _ _ _ _) as [q'|n'].
      * destruct IH as (q1 & rc' & q2 & -> & Hma & ->). by exists (rc :: q1), rc', q2.
      * destruct IH as [Hf ->]. split; [|lia]. constructor; [|done]. intros (_ & H1 & H2 & H3). subst. by rewrite H2, bool_decide_eq_true_2 in Hm.
  - apply bool_decide_eq_false in Hp. rewrite decide_False by done. specialize (IH n). destruct (updateLoop _ _ _ _ _ _ _) as [q'|n'].
    + destruct IH as (q1 & rc' & q2 & -> & Hma & ->). by exists (rc :: q1), rc', q2.
    + destruct IH as [Hf ->]. split; [|lia]. constructor; [|done]. by intros (? & _).
Qed.

Lemma QueueForRetry_wellQueued now now' cmd p co :
  wellQueued blake2b_Sum256 (retryQueue co) -> wellQueued blake2b_Sum256 (retryQueue (QueueForRetry blake2b_Sum256 Period now now' cmd p co)).
Proof.
  intros Hw. apply (wellQueued_sublist _ _ (prune_sublist now (retryQueue co))) in Hw. unfold QueueForRetry.
  set (q := pruneRetryQueueLocked _ _ _) in *. destruct (cmdIdentity blake2b_Sum256 cmd) as [ident hasIdent] eqn:Hid.
  pose proof (updateLoop_spec now' cmd p ident hasIdent q 0) as Hu. destruct (updateLoop _ _ _ _ _ _ _) as [q'|n].
  - destruct Hu as (q1 & rc & q2 & Hq & (Hp & Ht & Hh & Hi) & ->). rewrite Hq in Hw. destruct Hw as [Hb Hn Hf]. cbn [retryQueue setQueue]. split.
    + intros p'. specialize (Hb p'). rewrite length_peerEntries_app, length_peerEntries_cons in *. exact Hb.
    + rewrite omap_app in *. exact Hn.
    + apply Forall_app in Hf as [Hf1 Hf2]. apply Forall_cons in Hf2 as [_ Hf2]. apply Forall_app. split; [done|]. constructor; [|done].
      cbn. by rewrite Hid, Ht, Hh, Hi.
  - destruct Hu as [Hnone Hn]. cbn in Hn. cbn [retryQueue setQueue]. set (q' := if bool_decide _ then _ else _).
    assert (Hs : sublist q' q) by (unfold q'; case_bool_decide; [apply evict_sublist|done]).
    pose proof (wellQueued_sublist _ _ Hs Hw) as [Hb Hnd Hf]. apply (sublist_Forall_impl _ _ _ Hs) in Hnone. split.
    + intros p'. rewrite length_peerEntries_app, length_peerEntries_cons. specialize (Hb p'). cbn [rc_idHash].
      destruct (decide (p = p')) as [<-|]; [|cbn; lia]. unfold q'. case_bool_decide; cbn [length peerEntries]; [|cbn; lia].
      rewrite evict_length. pose proof (wq_bound _ _ Hw p) as Hbq. change (length (peerEntries p [])) with 0%nat. unfold maxRetryQueuePerPeer in *. lia.
    + rewrite omap_app. apply NoDup_app. split; [done|]. cbn. unfold keyOf at 2 3. cbn [rc_hasIdent rc_idHash rc_ident].
      destruct hasIdent; cbn; [|split; [intros x _; apply not_elem_of_nil|apply NoDup_nil_2]]. split; [|apply NoDup_singleton].
      intros x Hx ->%list_elem_of_singleton. apply list_elem_of_omap in Hx as (rc & Hrc & Hk). rewrite Forall_forall in Hnone. apply (Hnone rc Hrc).
      unfold keyOf in Hk. destruct (rc_hasIdent rc) eqn:Hrh; [|done]. injection Hk as H1 H2. by split_and!.
    + apply Forall_app. split; [done|]. by constructor.
Qed.

(** ** Which command an entry holds *)

Definition holds (q : list retryCommand) (p ident : bytes) (cmd : command) : Prop :=
  exists rc, rc ∈ q /\ keyOf rc = Some (p, ident) /\ rc_cmd rc = cmd.

Lemma keyOf_some rc p ident : keyOf rc = Some (p, ident) <-> matches p ident true rc.
Proof. unfold keyOf, matches. destruct (rc_hasIdent rc); split; [intros [= <- <-]; by split_and!|by intros (-> & _ & _ & ->)|done|by intros (_ & _ & ? & _)]. Qed.

Lemma NoDup_omap_inj {A B} (f : A -> option B) l x y b : NoDup (omap f l) -> x ∈ l -> y ∈ l -> f x = Some b -> f y = Some b -> x = y.
Proof.
  induction l as [|a l IH]; intros Hn Hx Hy Hfx Hfy; [by apply not_elem_of_nil in Hx|]. cbn in Hn.
  assert (Hin : forall z, z ∈ l -> f z = Some b -> b ∈ omap f l) by (intros z Hz Hf; apply list_elem_of_omap; by exists z).
  apply elem_of_cons in Hx, Hy. destruct Hx as [->|Hx], Hy as [->|Hy]; [done| | |].
  - rewrite Hfx in Hn. apply NoDup_cons in Hn as [Hn _]. exfalso. by apply Hn, (Hin y).
  - rewrite Hfy in Hn. apply NoDup_cons in Hn as [Hn _]. exfalso. by apply Hn, (Hin x).
  - destruct (f a); [apply NoDup_cons in Hn as [_ Hn]|]; by apply IH.
Qed.

Lemma holds_unique q p ident c c' : wellQueued blake2b_Sum256 q -> holds q p ident c -> holds q p ident c' -> c = c'.
Proof.
  intros [_ Hn _] (rc & Hin & Hk & <-) (rc' & Hin' & Hk' & <-). by rewrite (NoDup_omap_inj keyOf q rc rc' (p, ident)).
Qed.

Lemma queued_holds now now' cmd p ident co : cmdIdentity blake2b_Sum256 cmd = (ident, true) ->
  holds (retryQueue (QueueForRetry blake2b_Sum256 Period now now' cmd p co)) p ident cmd.
Proof.
  intros Hid. unfold QueueForRetry. rewrite Hid. set (q := pruneRetryQueueLocked _ _ _).
  pose proof (updateLoop_spec now' cmd p ident true q 0) as Hu. destruct (updateLoop _ _ _ _ _ _ _) as [q'|n]; cbn [retryQueue setQueue].
  - destruct Hu as (q1 & rc & q2 & _ & Hm & ->). exists (renewed now' cmd rc). split_and!; [|by apply keyOf_some|done].
    apply elem_of_app. right. by left.
  - eexists. split; [apply elem_of_app; right; by left|]. done.
Qed.

(** Nothing in the queue is too old. *)
Definition inTime (now : Z) (q : list retryCommand) : Prop := Forall (fun rc => expired Period now rc = false) q.

Lemma prune_inTime now q : inTime now q -> pruneRetryQueueLocked Period now q = q.
Proof.
  unfold pruneRetryQueueLocked. induction 1 as [|rc q Hrc _ IH]; [done|]. rewrite filter_cons, decide_True by done. by f_equal.
Qed.

Lemma evict_other p p' rc q : rc ∈ q -> rc_idHash rc = p -> p' <> p -> rc ∈ evictOldest p' q.
Proof.
  intros Hin Hp Hne. induction q as [|rc' q IH]; [done|]. cbn. apply elem_of_cons in Hin as [<-|Hin].
  - rewrite bool_decide_eq_false_2 by congruence. by left.
  - case_bool_decide; [done|]. right. by apply IH.
Qed.

Lemma queue_keeps now now' cmd p p' ident c co : inTime now (retryQueue co) -> (length (peerEntries p (retryQueue co)) < maxRetryQueuePerPeer)%nat ->
  (p, (ident, true)) <> (p', cmdIdentity blake2b_Sum256 cmd) -> holds (retryQueue co) p ident c ->
  holds (retryQueue (QueueForRetry blake2b_Sum256 Period now now' cmd p' co)) p ident c.
Proof.
  intros Ht Hl Hne (rc & Hin & Hk & Hc). unfold QueueForRetry. rewrite prune_inTime by done.
  destruct (cmdIdentity blake2b_Sum256 cmd) as [ident' has] eqn:Hid.
  pose proof (updateLoop_spec now' cmd p' ident' has (retryQueue co) 0) as Hu. destruct (updateLoop _ _ _ _ _ _ _) as [q'|n]; cbn [retryQueue setQueue].
  - destruct Hu as (q1 & rc' & q2 & Hq & (Hp & Hh & Hh' & Hi) & ->). exists rc. split; [|done]. rewrite Hq in Hin.
    apply elem_of_app in Hin as [Hin|Hin]; [apply elem_of_app; by left|]. apply elem_of_cons in Hin as [->|Hin]; [|apply elem_of_app; right; by right].
    exfalso. apply keyOf_some in Hk as (H1 & _ & _ & H2). apply Hne. congruence.
  - destruct Hu as [_ ->]. exists rc. split; [|done]. apply elem_of_app. left. case_bool_decide as Hmax; [|done]. apply keyOf_some in Hk as (Hp & _).
    apply (evict_other p); [done..|]. intros ->. cbn in Hmax. lia.
Qed.

Lemma queue_length now now' cmd p p' co :
  (length (peerEntries p (retryQueue (QueueForRetry blake2b_Sum256 Period now now' cmd p' co))) <= length (peerEntries p (retryQueue co)) + 1)%nat.
Proof.
  unfold QueueForRetry. pose proof (sublist_length _ _ (sublist_filter_mono (fun rc => rc_idHash rc = p) _ _ (prune_sublist now (retryQueue co)))) as Hp.
  set (q := pruneRetryQueueLocked _ _ _) in *. fold (peerEntries p q) (peerEntries p (retryQueue co)) in Hp.
  destruct (cmdIdentity blake2b_Sum256 cmd) as [ident' has].
  pose proof (updateLoop_spec now' cmd p' ident' has q 0) as Hu. destruct (updateLoop _ _ _ _ _ _ _) as [q'|n]; cbn [retryQueue setQueue].
  - destruct Hu as (q1 & rc' & q2 & Hq & _ & ->). rewrite Hq, !length_peerEntries_app, !length_peerEntries_cons in *. cbn [renewed rc_idHash] in *. lia.
  - rewrite length_peerEntries_app, length_peerEntries_cons. change (length (peerEntries p [])) with 0%nat.
    assert (Hs : sublist (if bool_decide (maxRetryQueuePerPeer <= n)%nat then evictOldest p' q else q) q) by (case_bool_decide; [apply evict_sublist|done]).
    apply (sublist_filter_mono (fun rc => rc_idHash rc = p)), sublist_length in Hs. unfold peerEntries in *. destruct (decide _); lia.
Qed.

Lemma int64_bounds z : - 2 ^ 63 <= int64 z < 2 ^ 63.
Proof.
  unfold int64. pose proof (Z.mod_pos_bound z (2 ^ 64)) as H. destruct (Z.ltb_spec (z mod 2 ^ 64) (2 ^ 63)); lia.
Qed.

(** The entries were first seen in an interval. *)
Definition seenIn (t0 t1 : Z) (q : list retryCommand) : Prop := Forall (fun rc => t0 <= firstSeen rc <= t1) q.

Lemma seenIn_inTime t0 now q : 0 <= retryTTL Period -> t0 <= now <= t0 + retryTTL Period -> seenIn t0 (t0 + retryTTL Period) q -> inTime now q.
Proof.
  intros H0 Hn Hq. eapply Forall_impl; [exact Hq|]. intros rc Hr. cbn in Hr. unfold expired. apply bool_decide_eq_false.
  assert (retryTTL Period < 2 ^ 63) by apply (int64_bounds (int64 3 * Period)).
  rewrite Sub_small by (unfold minDuration, maxDuration; lia). lia.
Qed.

Lemma queue_seenIn t0 t1 now now' cmd p co : t0 <= now' <= t1 -> seenIn t0 t1 (retryQueue co) ->
  seenIn t0 t1 (retryQueue (QueueForRetry blake2b_Sum256 Period now now' cmd p co)).
Proof.
  intros Hn Hq. apply (sublist_Forall_impl _ _ _ (prune_sublist now (retryQueue co))) in Hq. unfold QueueForRetry.
  set (q := pruneRetryQueueLocked _ _ _) in *. destruct (cmdIdentity blake2b_Sum256 cmd) as [ident has].
  pose proof (updateLoop_spec now' cmd p ident has q 0) as Hu. destruct (updateLoop _ _ _ _ _ _ _) as [q'|n]; cbn [retryQueue setQueue].
  - destruct Hu as (q1 & rc & q2 & Hqq & _ & ->). rewrite Hqq in Hq. apply Forall_app in Hq as [H1 H2]. apply Forall_cons in H2 as [Hrc H2].
    apply Forall_app. split; [done|]. by constructor.
  - apply Forall_app. split; [|by constructor]. case_bool_decide; [|done]. by apply (sublist_Forall_impl _ _ _ (evict_sublist p q)).
Qed.

(** ** Sending what was queued *)

Lemma processLoop_queue n co : sublist (retryQueue (processLoop n co)) (retryQueue co).
Proof.
  revert co. induction n as [|i IH]; intros co; [done|]. cbn [processLoop]. destruct (retryQueue co !! i) as [rc|] eqn:Hi; [|apply IH].
  destruct (conns co !! rc_idHash rc); [|apply IH]. etransitivity; [apply IH|]. cbn.
  rewrite <- (take_drop_middle _ _ _ Hi) at 3. apply sublist_app; [done|]. by apply sublist_cons.
Qed.

(** The channel of a connected peer gets its entries, the newest first. *)
Lemma processLoop_sends n co p ch : (n <= length (retryQueue co))%nat -> conns co !! p = Some ch ->
  conns (processLoop n co) !! p = Some (ch ++ map rc_cmd (reverse (peerEntries p (take n (retryQueue co))))).
Proof.
  revert co ch. induction n as [|i IH]; intros co ch Hn Hc; [cbn; by rewrite app_nil_r|].
  destruct (lookup_lt_is_Some_2 (retryQueue co) i) as [rc Hi]; [lia|]. cbn [processLoop]. rewrite Hi, (take_S_r _ _ _ Hi).
  unfold peerEntries. rewrite filter_app, filter_cons, filter_nil, reverse_app, map_app. fold (peerEntries p (take i (retryQueue co))).
  assert (Hti : take i (take i (retryQueue co) ++ drop (S i) (retryQueue co)) = take i (retryQueue co)).
  { rewrite take_app_le by (rewrite length_take; lia). by rewrite take_take, Nat.min_id. }
  destruct (decide (rc_idHash rc = p)) as [Hp|Hp].
  - rewrite Hp, Hc. rewrite (IH _ (ch ++ [rc_cmd rc])); cbn [retryQueue setQueue conns dispatchTo].
    + rewrite Hti. cbn. by rewrite <- app_assoc.
    + rewrite length_app, length_take. lia.
    + rewrite lookup_alter_eq, Hc. done.
  - destruct (conns co !! rc_idHash rc) as [ch'|] eqn:Hc'; [|by apply IH; [lia|]]. rewrite (IH _ ch); cbn [retryQueue setQueue conns dispatchTo].
    + by rewrite Hti.
    + rewrite length_app, length_take. lia.
    + by rewrite lookup_alter_ne.
Qed.

Lemma processRetryQueue_sends now co p ch : inTime now (retryQueue co) -> conns co !! p = Some ch ->
  conns (processRetryQueue Period now co) !! p = Some (ch ++ map rc_cmd (reverse (peerEntries p (retryQueue co)))).
Proof.
  intros Ht Hc. unfold processRetryQueue. rewrite prune_inTime by done. rewrite (processLoop_sends _ _ p ch); [|done..]. by rewrite firstn_all.
Qed.

(** ** Runs *)

Inductive coEvent :=
  | CoDispatch (now now' : Z) (cmd : option command) (p : bytes)
  | CoProcess (now : Z)
  | CoConnect (p : bytes)
  | CoClose (nows : list (Z * Z)) (p : bytes)
  | CoSend (now now' : Z) (p : bytes) (sent : bool) (received : option response).

Definition coStep (ev : coEvent) (co : connector) : connector :=
  match ev with
  | CoDispatch now now' cmd p => DispatchCommand blake2b_Sum256 Period now now' cmd p co
  | CoProcess now => processRetryQueue Period now co
  | CoConnect p => onNewConn p co
  | CoClose nows p => OnClosedConn blake2b_Sum256 Period nows p co
  | CoSend now now' p sent received =>
    match takeNext p co with
    | Some (cmd, co) => (sendAndRecv blake2b_Sum256 Period now now' p sent received cmd co).2
    | None => co
    end
  end.

Definition coRun (evs : list coEvent) (co : connector) : connector := foldl (fun co ev => coStep ev co) co evs.

Lemma drain_wellQueued nows p ch co : wellQueued blake2b_Sum256 (retryQueue co) -> wellQueued blake2b_Sum256 (retryQueue (drain blake2b_Sum256 Period nows p ch co)).
Proof.
  revert nows co. induction ch as [|cmd ch IH]; intros nows co Hw; [done|]. cbn. destruct (default _ _) as [now now'].
  by apply IH, QueueForRetry_wellQueued.
Qed.

Lemma coStep_wellQueued ev co : wellQueued blake2b_Sum256 (retryQueue co) -> wellQueued blake2b_Sum256 (retryQueue (coStep ev co)).
Proof.
  intros Hw. destruct ev as [now now' [cmd|] p|now|p|nows p|now now' p sent received]; cbn [coStep].
  - unfold DispatchCommand. destruct (conns co !! p); [done|by apply QueueForRetry_wellQueued].
  - done.
  - unfold processRetryQueue. eapply wellQueued_sublist; [apply processLoop_queue|]. by eapply wellQueued_sublist; [apply prune_sublist|].
  - done.
  - by apply drain_wellQueued.
  - unfold takeNext. destruct (conns co !! p) as [[|cmd ch]|]; [done| |done]. unfold sendAndRecv.
    destruct sent; cbn [negb]; [|destruct cmd; try done; by apply QueueForRetry_wellQueued].
    destruct received as [[| | |code|r|]|]; try done; [|destruct cmd; try done; by apply QueueForRetry_wellQueued].
    destruct (classifyReplicationReply code), cmd; try done; by apply QueueForRetry_wellQueued.
Qed.

End Queue.

(** C32: the retry queue of a replica stays within its bounds.  Whatever is dispatched
    and whatever peers connect, fail, answer and go away in whatever order, at
    most 2000 commands wait for any one peer, no two of them have the same
    identity, and each is filed under the identity of its command. *)
Theorem retry_queue_bounded (blake2b_Sum256 : bytes -> bytes) Period evs :
  wellQueued blake2b_Sum256 (retryQueue (coRun blake2b_Sum256 Period evs (mkConnector ∅ []))).
Proof.
  assert (H : forall evs co, wellQueued blake2b_Sum256 (retryQueue co) -> wellQueued blake2b_Sum256 (retryQueue (coRun blake2b_Sum256 Period evs co))).
  { intros l. induction l as [|ev l IH]; intros co Hw; [done|]. by apply IH, coStep_wellQueued. }
  apply H. cbn. split; [intros p; cbn; lia|by apply NoDup_nil_2|done].
Qed.
