(* ===== verification/ReplicaRebalance.v ===== *)
(** [Rebalance] of [replica/state.go]: what it sends when the set of replicas has
    changed, and what becomes of it in the retry queue of [replica/connector.go]. *)

From S2P Require Import Prelude Schemes ToySchemes SphinxGeo TimerQueue EpochTime ByteOrder PigeonGeo PigeonMessages PkiDocument Sharding PigeonPki ReplicaState ReplicaHandlers ReplicaToy ReplicaBoxes ReplicaMessages ReplicaConnector.
From Stdlib Require Import ZArith Lia.
From stdpp Require Import prelude list sorting strings gmap.

Local Open Scope Z_scope.

Section Scan.

Context (Sum256 blake2b_Sum256 : bytes -> bytes) (idpubkey : bytes) (doc : option Document) (good : Box -> Prop).

(** The write of a box for a shard. *)
Definition writeFor (shard : ReplicaDescriptor) (box : Box) : dispatch :=
  mkDispatch (blake2b_Sum256 (default [] (rd_IdentityKey shard))) (box_BoxID box) (box_Signature box) (box_Payload box).

(** A pair of the database for the box in the epoch. *)
Definition stored (e : Z) (box : Box) (kv : bytes * bytes) : Prop :=
  epoch64 e /\ wf box /\ kv = (boxKey e (box_BoxID box), wire box).

(** The write is one of the epoch. *)
Definition sent (e : Z) (l : list (bytes * bytes)) (d : dispatch) : Prop :=
  exists box kv shards shard, kv ∈ l /\ stored e box kv /\
    getRemoteShards Sum256 blake2b_Sum256 idpubkey (box_BoxID box) doc = Ok shards /\ shard ∈ shards /\ d = writeFor shard box.

(** All shards of a box of the epoch are offline. *)
Definition stranded (e : Z) (l : list (bytes * bytes)) : Prop :=
  exists box kv err, kv ∈ l /\ stored e box kv /\ getRemoteShards Sum256 blake2b_Sum256 idpubkey (box_BoxID box) doc = Err err.

Lemma getRemoteShards_runs id : getRemoteShards Sum256 blake2b_Sum256 idpubkey id doc <> Panic.
Proof.
  unfold getRemoteShards, GetRemoteShards, GetShards, GetConfiguredReplicaKeys. destruct doc as [dc|]; [|done]. destruct (StorageReplicas dc); [done|].
  case_bool_decide; [done|]. cbn. by destruct (omap _ _).
Qed.

Lemma HasPrefix_epoch e e' id : epoch64 e -> epoch64 e' -> HasPrefix (boxKey e' id) (epochPrefix e) = bool_decide (e' = e).
Proof.
  intros He He'. unfold HasPrefix, boxKey, epochPrefix. unfold PutUint64. rewrite !length_be_split, take_app_length' by by rewrite length_be_split.
  apply bool_decide_ext. split; [|by intros ->]. intros H. apply (f_equal be_combine) in H. pose proof (combine_epoch e He). pose proof (combine_epoch e' He'). unfold PutUint64 in *. congruence.
Qed.

Lemma box_id_length (box : Box) : wf box -> length (box_BoxID box) = 32%nat.
Proof. destruct box as [i n p sg]. cbn. intros ([H _] & _). lia. Qed.

Lemma rebalanceBox_stored e box kv : stored e box kv ->
  rebalanceBox Sum256 blake2b_Sum256 idpubkey doc kv.1 kv.2 =
    (shards ← getRemoteShards Sum256 blake2b_Sum256 idpubkey (box_BoxID box) doc; Ok (map (fun shard => writeFor shard box) shards)).
Proof.
  intros (_ & Hw & ->). unfold rebalanceBox. cbn [fst snd].
  assert (E : take 32 (drop boxIDOffset (boxKey e (box_BoxID box))) = box_BoxID box).
  { unfold boxKey. change boxIDOffset with 8%nat. unfold PutUint64. rewrite drop_app_length' by by rewrite length_be_split. apply take_ge. by rewrite box_id_length. }
  rewrite E, ParseMessage_wire by done. reflexivity.
Qed.

(** Keys in order have epochs in order. *)
Lemma stored_order e e' box box' kv kv' : stored e box kv -> stored e' box' kv' -> bytes_le kv.1 kv'.1 = true -> e <= e'.
Proof.
  intros (He & _ & ->) (He' & _ & ->) H. cbn in H. unfold boxKey in H. rewrite bytes_le_number in H by (apply be_split_bytes || done).
  rewrite !combine_epoch in H by done. destruct (Z.eqb_spec e e'); [lia|]. apply Z.ltb_lt in H. lia.
Qed.

(** What the result of a scan says: it fails if a box is stranded. *)
Definition scanned (fails : Prop) (sends : dispatch -> Prop) (r : list dispatch * outcome ()) : Prop :=
  match r with
  | (ds, Ok _) => ~ fails /\ (forall d, d ∈ ds <-> sends d)
  | (_, Err _) => fails
  | (_, Panic) => False
  end.

Lemma scanned_ext fails fails' sends sends' r : (fails <-> fails') -> (forall d, sends d <-> sends' d) -> scanned fails sends r -> scanned fails' sends' r.
Proof. intros Hf Hs. destruct r as [ds [u|e|]]; cbn; [intros [Hn Hd]; split; [tauto|]; intros d; by rewrite Hd|tauto|done]. Qed.

(** The scan of an epoch from a key of that epoch or a later one on. *)
Lemma scan_from e l : epoch64 e -> StronglySorted (key_le fst) l -> Forall (fun kv => exists e' box, e <= e' /\ stored e' box kv) l ->
  scanned (stranded e l) (sent e l) (scan Sum256 blake2b_Sum256 idpubkey doc (epochPrefix e) l).
Proof.
  unfold scanned. intros He Hs Hl. induction Hs as [|[k v] l Hs IH Hf]; [split; [by intros (? & ? & ? & ?%not_elem_of_nil & _)|]; intros d; split; [by intros ?%not_elem_of_nil|by intros (? & ? & ? & ? & ?%not_elem_of_nil & _)]|].
  apply Forall_cons in Hl as [(e' & box & Hle & Hst) Hl]. specialize (IH Hl). cbn [scan].
  assert (Hk : k = boxKey e' (box_BoxID box)) by (destruct Hst as (_ & _ & Heq); by apply (f_equal fst) in Heq). rewrite Hk, HasPrefix_epoch, <- Hk by (done || apply Hst).
  case_bool_decide as Hee; cbn [negb].
  - subst e'. rewrite bool_decide_eq_false_2.
    2:{ rewrite Hk. unfold boxKey. unfold PutUint64. rewrite length_app, length_be_split, box_id_length by apply Hst. unfold boxIDOffset, keyEpochSize. lia. }
    pose proof (rebalanceBox_stored e box (k, v) Hst) as Hr. cbn [fst snd] in Hr. rewrite Hr.
    assert (Huniq : forall box', stored e box' (k, v) -> box' = box).
    { intros box' (_ & Hw' & Heq). destruct Hst as (_ & Hw & Heq'). apply (f_equal snd) in Heq, Heq'. cbn [snd] in Heq, Heq'.
      pose proof (ParseMessage_wire box' Hw') as H1. pose proof (ParseMessage_wire box Hw) as H2. rewrite <- Heq in H1. rewrite <- Heq', H1 in H2. by injection H2. }
    destruct (getRemoteShards _ _ _ _ _) as [shards|err|] eqn:Hg; cbn; [|by exists box, (k, v), err; split; [left|]|by apply (getRemoteShards_runs (box_BoxID box))].
    destruct (scan _ _ _ _ _ _) as [ds [u|err|]]; [| |done].
    + destruct IH as [Hns IH]. split.
      * intros (b & kv & er & Hin & Hsb & Hge). apply elem_of_cons in Hin as [->|Hin]; [|apply Hns; by exists b, kv, er].
        apply Huniq in Hsb as ->. by rewrite Hg in Hge.
      * intros d. rewrite elem_of_app, IH. split.
        -- intros [Hd|(b & kv & sh & shd & Hin & H)]; [|exists b, kv, sh, shd; by split; [right|]].
           apply list_elem_of_fmap in Hd as (shard & -> & Hsh). exists box, (k, v), shards, shard. by split; [left|].
        -- intros (b & kv & sh & shd & Hin & Hsb & Hge & Hsh & ->). apply elem_of_cons in Hin as [->|Hin]; [left|right; by exists b, kv, sh, shd].
           apply Huniq in Hsb as ->. rewrite Hg in Hge. injection Hge as <-. apply list_elem_of_fmap. by exists shd.
    + destruct IH as (b & kv & er & Hin & H). exists b, kv, er. by split; [right|].
  - assert (Hno : forall b kv, kv ∈ (k, v) :: l -> ~ stored e b kv).
    { intros b kv Hin Hsb. assert (e' <= e); [|lia]. apply elem_of_cons in Hin as [->|Hin]; [by apply (stored_order e' e box b (k, v) (k, v)); [| |by destruct (bytes_le_total k k)]|].
      rewrite Forall_forall in Hf. apply (stored_order e' e box b (k, v) kv); [done..|]. by apply Hf. }
    split; [intros (b & kv & er & Hin & Hsb & _); by apply (Hno b kv)|]. intros d. split; [by intros ?%not_elem_of_nil|].
    intros (b & kv & sh & shd & Hin & Hsb & _). exfalso. by apply (Hno b kv).
Qed.

(** A pair of another epoch makes no difference. *)
Lemma stored_epoch e e' box box' kv : stored e box kv -> stored e' box' kv -> e = e'.
Proof. intros (He & _ & ->) (He' & _ & Hk). apply (f_equal fst) in Hk. by apply boxKey_inj in Hk as [-> _]. Qed.

Lemma stranded_cons e e' box kv l : stored e' box kv -> e' <> e -> stranded e (kv :: l) <-> stranded e l.
Proof.
  intros Hst Hne. split; intros (b & kv' & er & Hin & Hsb & H); exists b, kv', er; (split; [|done]); [|by right].
  apply elem_of_cons in Hin as [->|]; [|done]. exfalso. apply Hne. by eapply stored_epoch.
Qed.

Lemma sent_cons e e' box kv l d : stored e' box kv -> e' <> e -> sent e (kv :: l) d <-> sent e l d.
Proof.
  intros Hst Hne. split; intros (b & kv' & sh & shd & Hin & Hsb & H); exists b, kv', sh, shd; (split; [|done]); [|by right].
  apply elem_of_cons in Hin as [->|]; [|done]. exfalso. apply Hne. by eapply stored_epoch.
Qed.

(** The epochs before are skipped. *)
Lemma Seek_scan e l : epoch64 e -> StronglySorted (key_le fst) l -> Forall (fun kv => exists e' box, stored e' box kv) l ->
  scanned (stranded e l) (sent e l) (scan Sum256 blake2b_Sum256 idpubkey doc (epochPrefix e) (Seek (epochPrefix e) l)).
Proof.
  intros He Hs Hl. induction Hs as [|[k v] l Hs IH Hf]; [by apply (scan_from e []); [|constructor|]|].
  apply Forall_cons in Hl as [(e' & box & Hst) Hl]. cbn [Seek].
  assert (Hk : k = boxKey e' (box_BoxID box)) by (destruct Hst as (_ & _ & Heq); by apply (f_equal fst) in Heq).
  rewrite Hk, epochPrefix_le, <- Hk by (done || apply Hst). case_bool_decide as Hle.
  - apply scan_from; [done|by constructor|]. constructor; [by exists e', box|]. rewrite Forall_forall in Hf, Hl |- *. intros kv Hin.
    destruct (Hl kv Hin) as (e2 & b2 & Hst2). exists e2, b2. split; [|done]. assert (e' <= e2); [|lia]. by apply (stored_order e' e2 box b2 (k, v) kv), Hf.
  - eapply scanned_ext; [| |by apply IH]; [by rewrite stranded_cons by (done || lia)|]. intros d. by rewrite sent_cons by (done || lia).
Qed.

(** The pairs of a database in order. *)
Lemma iterator_stored m : wellStored good m ->
  StronglySorted (key_le fst) (iterator m) /\ Forall (fun kv => exists e box, stored e box kv) (iterator m).
Proof.
  intros Hm. split; [apply sortBy_sorted|]. apply Forall_forall. intros [k v] Hin. unfold iterator in Hin. rewrite sortBy_perm in Hin.
  apply elem_of_map_to_list in Hin. destruct (Hm k v Hin) as (e & box & He & -> & -> & Hw & _). by exists e, box.
Qed.

Lemma iterator_box m e box : wellStored good m -> epoch64 e ->
  (exists kv, kv ∈ iterator m /\ stored e box kv) <-> boxAt m e (box_BoxID box) = Some box.
Proof.
  intros Hm He. split.
  - intros (kv & Hin & _ & Hw & ->). unfold iterator in Hin. rewrite sortBy_perm in Hin. apply elem_of_map_to_list in Hin.
    unfold boxAt. rewrite Hin. by rewrite ParseMessage_wire.
  - intros Hb. apply (boxAt_some good) in Hb as (Hk & Hw & _); [|done..]. exists (boxKey e (box_BoxID box), wire box). split; [|done].
    unfold iterator. rewrite sortBy_perm. by apply elem_of_map_to_list.
Qed.

Lemma scanEpochs_spec m es : wellStored good m -> Forall epoch64 es ->
  scanned (exists e, e ∈ es /\ stranded e (iterator m)) (fun d => exists e, e ∈ es /\ sent e (iterator m) d)
    (scanEpochs Sum256 blake2b_Sum256 idpubkey doc m es).
Proof.
  intros Hm Hes. destruct (iterator_stored m Hm) as [Hs Hf]. induction Hes as [|e es He _ IH].
  - split; [by intros (e & ?%not_elem_of_nil & _)|]. intros d. split; [by intros ?%not_elem_of_nil|by intros (e & ?%not_elem_of_nil & _)].
  - cbn [scanEpochs]. pose proof (Seek_scan e (iterator m) He Hs Hf) as Hsc. destruct (scan _ _ _ _ _ _) as [ds [u|err|]]; [| |done].
    + destruct Hsc as [Hn Hd]. destruct (scanEpochs _ _ _ _ _ _) as [ds' [u'|err|]]; cbn in *; [| |done].
      * destruct IH as [Hn' Hd']. split; [intros (e' & Hin & H); apply elem_of_cons in Hin as [->|Hin]; [done|]; apply Hn'; by exists e'|].
        intros d. rewrite elem_of_app, Hd, Hd'. setoid_rewrite elem_of_cons. naive_solver.
      * destruct IH as (e' & Hin & H). exists e'. by split; [right|].
    + exists e. by split; [left|].
Qed.

(** The boxes of the retained epochs, and whether a shard of theirs is online. *)
Definition retained (cur : Z) (m : gmap bytes bytes) (box : Box) : Prop := exists e, e ∈ keptEpochs cur /\ boxAt m e (box_BoxID box) = Some box.

Definition offline (box : Box) : Prop := exists err, getRemoteShards Sum256 blake2b_Sum256 idpubkey (box_BoxID box) doc = Err err.

Lemma scan_retained cur m : wellStored good m -> epoch64 cur ->
  scanned (exists box, retained cur m box /\ offline box)
    (fun d => exists box shards shard, retained cur m box /\ getRemoteShards Sum256 blake2b_Sum256 idpubkey (box_BoxID box) doc = Ok shards /\
      shard ∈ shards /\ d = writeFor shard box)
    (scanEpochs Sum256 blake2b_Sum256 idpubkey doc m (keptEpochs cur)).
Proof.
  intros Hm Hc. pose proof (keptEpochs_64 cur Hc) as H64. rewrite Forall_forall in H64. eapply scanned_ext; [| |apply scanEpochs_spec; [done|by apply keptEpochs_64]].
  - split.
    + intros (e & He & box & kv & err & Hin & Hst & Hg). exists box. split; [|by exists err]. exists e. split; [done|]. apply iterator_box; [done|by apply H64|]. by exists kv.
    + intros (box & (e & He & Hb) & err & Hg). apply iterator_box in Hb as (kv & Hin & Hst); [|done|by apply H64]. exists e. split; [done|]. by exists box, kv, err.
  - intros d. split.
    + intros (e & He & box & kv & sh & shd & Hin & Hst & H). exists box, sh, shd. split; [|done]. exists e. split; [done|]. apply iterator_box; [done|by apply H64|]. by exists kv.
    + intros (box & sh & shd & (e & He & Hb) & H). apply iterator_box in Hb as (kv & Hin & Hst); [|done|by apply H64]. exists e. split; [done|]. by exists box, kv, sh, shd.
Qed.

End Scan.


(** ** What becomes of the writes *)

Section Resurrect.

Context (Sum256 blake2b_Sum256 : bytes -> bytes) (Period : Z).

Definition commandOf (d : dispatch) : command := CmdWrite (dp_BoxID d) (dp_Signature d) (dp_Payload d).

(** The calls of [DispatchCommand] in [Rebalance], with their readings of the clock. *)
Fixpoint dispatchAll (times : list (Z * Z)) (ds : list dispatch) (co : connector) : connector :=
  match ds with
  | [] => co
  | d :: ds =>
    let '(now, now') := default (0, 0) (head times) in
    dispatchAll (tail times) ds (DispatchCommand blake2b_Sum256 Period now now' (Some (commandOf d)) (dp_idHash d) co)
  end.

(** The peer is not connected, at most [n] commands wait for it, and the queue is
    younger than the time limit. *)
Record quiet (p : bytes) (t0 : Z) (n : nat) (co : connector) : Prop := {
  qt_conn : conns co !! p = None;
  qt_count : (length (peerEntries p (retryQueue co)) <= n)%nat;
  qt_seen : seenIn t0 (t0 + retryTTL Period) (retryQueue co);
  qt_well : wellQueued blake2b_Sum256 (retryQueue co);
}.

Abbreviation within t0 := (fun '(now, now') => t0 <= now <= t0 + retryTTL Period /\ t0 <= now' <= t0 + retryTTL Period).

Lemma dispatch_quiet p t0 n co now now' d : quiet p t0 n co -> within t0 (now, now') ->
  quiet p t0 (S n) (DispatchCommand blake2b_Sum256 Period now now' (Some (commandOf d)) (dp_idHash d) co).
Proof.
  intros [Hc Hn Hs Hw] [Ht Ht']. unfold DispatchCommand. destruct (conns co !! dp_idHash d) as [ch|] eqn:Hd.
  - split; [|cbn [retryQueue dispatchTo]; lia|done|done]. cbn. rewrite lookup_alter_ne by congruence. done.
  - split; [| |by apply queue_seenIn|by apply QueueForRetry_wellQueued].
    + unfold QueueForRetry. destruct (cmdIdentity _ _). by destruct (updateLoop _ _ _ _ _ _ _).
    + pose proof (queue_length blake2b_Sum256 Period now now' (commandOf d) p (dp_idHash d) co). lia.
Qed.

Lemma dispatchAll_quiet p t0 ds : forall n times co, quiet p t0 n co -> Forall (within t0) times -> length times = length ds ->
  quiet p t0 (n + length ds) (dispatchAll times ds co).
Proof.
  induction ds as [|d ds IH]; intros n times co Hq Ht Hl; [by rewrite Nat.add_0_r|]. destruct times as [|[now now'] times]; [done|].
  apply Forall_cons in Ht as [Hn Ht]. cbn. replace (n + S (length ds))%nat with (S n + length ds)%nat by lia.
  apply IH; [by apply dispatch_quiet|done|by injection Hl].
Qed.

(** The entry of a box holds the last command for it. *)
Lemma dispatchAll_last p t0 id c ds : forall n times co, 0 <= retryTTL Period -> quiet p t0 n co -> Forall (within t0) times -> length times = length ds ->
  (n + length ds <= maxRetryQueuePerPeer)%nat -> (forall d, d ∈ ds -> dp_idHash d = p -> dp_BoxID d = id -> commandOf d = c) ->
  holds (retryQueue co) p id c \/ (exists d, d ∈ ds /\ dp_idHash d = p /\ dp_BoxID d = id) ->
  holds (retryQueue (dispatchAll times ds co)) p id c.
Proof.
  induction ds as [|d ds IH]; intros n times co H0 Hq Ht Hl Hmax Hall Hsome; [destruct Hsome as [|(d & ?%not_elem_of_nil & _)]; done|].
  destruct times as [|[now now'] times]; [done|]. apply Forall_cons in Ht as [Hn Ht]. injection Hl as Hl. cbn [length] in Hmax. cbn [dispatchAll head tail default].
  apply (IH (S n)); [done|by apply dispatch_quiet|done|done|lia|by intros d' Hd'; apply Hall; right|]. unfold DispatchCommand.
  destruct (decide (dp_idHash d = p /\ dp_BoxID d = id)) as [[Hp Hid]|Hother].
  - left. rewrite Hp, (qt_conn _ _ _ _ Hq), (Hall d) by (done || by left). apply queued_holds. rewrite <- (Hall d) by (done || by left). cbn. by rewrite Hid.
  - destruct Hsome as [Hh|(d' & Hin & Hd')]; [left|right; apply elem_of_cons in Hin as [->|Hin]; [done|by exists d']].
    destruct (conns co !! dp_idHash d); [done|]. apply queue_keeps; [| | |done].
    + apply (seenIn_inTime _ t0); [done|apply Hn|apply Hq].
    + pose proof (qt_count _ _ _ _ Hq). unfold maxRetryQueuePerPeer in *. lia.
    + cbn. intros [= -> ->]. by apply Hother.
Qed.

(** When the peer connects, it is sent that command and no other for the box. *)
Lemma connect_sends p t0 n now id c sg pl co : 0 <= retryTTL Period -> quiet p t0 n co -> t0 <= now <= t0 + retryTTL Period ->
  holds (retryQueue co) p id c -> c = CmdWrite id sg pl ->
  exists ch, conns (processRetryQueue Period now (onNewConn p co)) !! p = Some ch /\ c ∈ ch /\ (forall sg' pl', CmdWrite id sg' pl' ∈ ch -> CmdWrite id sg' pl' = c).
Proof.
  intros H0 [Hc Hn Hs Hw] Hnow Hh Hcmd. eexists. split; [apply (processRetryQueue_sends Period now (onNewConn p co) p []); [by apply (seenIn_inTime _ t0)|apply lookup_insert_eq]|].
  cbn [app onNewConn retryQueue]. split.
  - destruct Hh as (rc & Hin & Hk & <-). apply list_elem_of_fmap. exists rc. split; [done|]. rewrite elem_of_reverse. apply list_elem_of_filter.
    apply keyOf_some in Hk as (Hp & _). done.
  - intros sg' pl' Hin. apply list_elem_of_fmap in Hin as (rc & Heq & Hin). rewrite elem_of_reverse in Hin. apply list_elem_of_filter in Hin as [Hp Hin].
    apply (holds_unique blake2b_Sum256 (retryQueue co) p id); [done| |done]. exists rc. split; [done|]. split; [|done].
    pose proof (wq_ident _ _ Hw) as Hi. rewrite Forall_forall in Hi. specialize (Hi rc Hin). rewrite <- Heq in Hi. cbn in Hi.
    unfold keyOf. injection Hi as H1 H2. by rewrite <- H2, <- H1, Hp.
Qed.

Lemma dispatchAll_app d1 : forall d2 times co,
  dispatchAll times (d1 ++ d2) co = dispatchAll (drop (length d1) times) d2 (dispatchAll times d1 co).
Proof.
  induction d1 as [|d d1 IH]; intros d2 times co; [done|]. cbn. destruct (default _ _) as [now now']. rewrite IH. destruct times; [cbn; by rewrite drop_nil|done].
Qed.

Lemma dispatchAll_take d1 : forall times co, dispatchAll (take (length d1) times) d1 co = dispatchAll times d1 co.
Proof. induction d1 as [|d d1 IH]; intros times co; [done|]. destruct times as [|[now now'] times]; [done|]. cbn. by rewrite IH. Qed.

(** Later writes of a box replace earlier ones. *)
Lemma later_wins p t0 id c d1 d2 times co : 0 <= retryTTL Period -> quiet p t0 0 co -> Forall (within t0) times -> length times = length (d1 ++ d2) ->
  (length (d1 ++ d2) <= maxRetryQueuePerPeer)%nat -> (forall d, d ∈ d2 -> dp_idHash d = p -> dp_BoxID d = id -> commandOf d = c) ->
  (exists d, d ∈ d2 /\ dp_idHash d = p /\ dp_BoxID d = id) ->
  quiet p t0 (length (d1 ++ d2)) (dispatchAll times (d1 ++ d2) co) /\ holds (retryQueue (dispatchAll times (d1 ++ d2) co)) p id c.
Proof.
  intros H0 Hq Ht Hl Hmax Hall Hsome. split; [by apply (dispatchAll_quiet p t0 _ 0)|]. rewrite length_app in Hl, Hmax. rewrite dispatchAll_app.
  apply (dispatchAll_last p t0 id c d2 (length d1)); [done| |by apply Forall_drop|rewrite length_drop; lia|lia|done|by right].
  rewrite <- dispatchAll_take. apply (dispatchAll_quiet p t0 d1 0); [done|by apply Forall_take|rewrite length_take; lia].
Qed.

(** The writes of the previous epoch come last. *)
Lemma kept_split (good : Box -> Prop) idpubkey doc m cur ds u : wellStored good m -> 0 < cur -> epoch64 cur ->
  scanEpochs Sum256 blake2b_Sum256 idpubkey doc m (keptEpochs cur) = (ds, Ok u) ->
  exists d1 d2, ds = d1 ++ d2 /\ (forall d, d ∈ d2 <-> sent Sum256 blake2b_Sum256 idpubkey doc (cur - 1) (iterator m) d).
Proof.
  intros Hm H0 Hc Hs. destruct (iterator_stored good m Hm) as [Hso Hf]. unfold keptEpochs in Hs. rewrite (proj2 (Z.eqb_neq cur 0)) in Hs by lia.
  cbn [scanEpochs] in Hs. destruct (scan _ _ _ _ (epochPrefix cur) _) as [d1 [u1|e1|]]; [|done..].
  pose proof (Seek_scan Sum256 blake2b_Sum256 idpubkey doc (cur - 1) (iterator m)) as Hsc. destruct (scan _ _ _ _ (epochPrefix (cur - 1)) _) as [d2 [u2|e2|]]; [|done..].
  injection Hs as <-. exists d1, d2. split; [by rewrite app_nil_r|]. apply Hsc; [unfold epoch64 in *; lia|done..].
Qed.

End Resurrect.

Lemma box_signedWrite {P : PigeonSizes} {B : BoxSign} g (box : Box) : wf box -> genuine g box -> box_Payload box <> [] ->
  signedWrite g (WireCommandToTrunnelReplicaWrite (box_BoxID box) (box_Signature box) (box_Payload box)) /\
  boxOf (WireCommandToTrunnelReplicaWrite (box_BoxID box) (box_Signature box) (box_Payload box)) = box.
Proof.
  destruct box as [i n p sg]. cbn. intros (Hi & Hn & [Hp Hb] & Hs) [Hk [[Ht _]|[Hl Hv]]] Hne; [done|]. cbn in *.
  assert (E : wrap 32 (Z.of_nat (length p)) = n) by (rewrite Hp; apply Z.mod_small; exact Hn).
  unfold boxOf, newBox, WireCommandToTrunnelReplicaWrite. cbn. rewrite E. split; [|done]. by split; cbn; [split_and!| | | |].
Qed.

(** A replica without a box stores it when it is sent to it. *)
Lemma peer_stores {P : PigeonSizes} {N : Nike} {B : BoxSign} nikeByName sphinxGeo g d cur sp (box : Box) :
  pigeonholeGeo nikeByName sphinxGeo = Ok g -> vacant g sp cur (box_BoxID box) -> epoch64 cur -> faultless d -> wf box -> genuine g box -> box_Payload box <> [] ->
  exists s2, onReplicaWrite nikeByName sphinxGeo d cur (box_BoxID box) (box_Signature box) (box_Payload box) sp = Ok (ReplicaSuccess, s2) /\
    stateHandleReplicaRead d cur (box_BoxID box) s2 = Ok box.
Proof.
  intros Hg (m & Hs & Hf & Hm & Hv) Hc Hd Hwf Hgen Hne. destruct (box_signedWrite g box Hwf Hgen Hne) as [Hsw Hbo].
  set (w := WireCommandToTrunnelReplicaWrite _ _ _) in *. pose proof (signedWrite_result nikeByName sphinxGeo g d cur w sp m Hg Hs Hf Hm Hc Hd Hsw) as Hw.
  cbn [rw_BoxID w WireCommandToTrunnelReplicaWrite] in Hw. rewrite Hv in Hw. eexists. split; [exact Hw|].
  unfold stateHandleReplicaRead. cbn [db setDb]. rewrite Hbo. rewrite (readLoop_stored (genuine g)).
  - pose proof (lookup_written m cur w (sw_wf _ _ Hsw) Hc) as Hl. rewrite Hbo in Hl. cbn [rw_BoxID w WireCommandToTrunnelReplicaWrite] in Hl. by rewrite Hl.
  - by apply wellStored_insert.
  - by apply keptEpochs_64.
  - intros e. apply Hd.
Qed.

(** Rebalancing can bring back a deleted box.  A replica holds the tombstone of a
    box in the current epoch, and in the previous epoch the box it replaced.  When it
    rebalances while another shard of the box is not connected, both writes get into
    the retry queue, the tombstone first; the box takes its place, so that the
    other shard is sent only the deleted content when it connects, and stores it:
    reads there give the content, reads of the first replica the tombstone. *)
Theorem rebalance_resurrects {P : PigeonSizes} {N : Nike} {B : BoxSign} nikeByName sphinxGeo g (Sum256 blake2b_Sum256 : bytes -> bytes) Period
    idpubkey doc doc' metaFails cur s m ds s' (tomb box : Box) shards shard co times now t0 d cur2 sp :
  pigeonholeGeo nikeByName sphinxGeo = Ok g -> db s = Some m -> wellStored (genuine g) m -> 0 < cur -> epoch64 cur ->
  boxAt m cur (box_BoxID box) = Some tomb -> tombstone tomb -> boxAt m (cur - 1) (box_BoxID box) = Some box -> box_Payload box <> [] ->
  Rebalance Sum256 blake2b_Sum256 idpubkey doc doc' metaFails cur s = (ds, Ok (), s') ->
  getRemoteShards Sum256 blake2b_Sum256 idpubkey (box_BoxID box) doc = Ok shards -> shard ∈ shards ->
  0 <= retryTTL Period -> Forall (fun '(n1, n2) => t0 <= n1 <= t0 + retryTTL Period /\ t0 <= n2 <= t0 + retryTTL Period) times ->
  t0 <= now <= t0 + retryTTL Period -> length times = length ds -> (length ds <= maxRetryQueuePerPeer)%nat ->
  quiet blake2b_Sum256 Period (blake2b_Sum256 (default [] (rd_IdentityKey shard))) t0 0 co ->
  vacant g sp cur2 (box_BoxID box) -> epoch64 cur2 -> faultless d ->
  stateHandleReplicaRead d cur (box_BoxID box) s = Ok tomb /\
  exists ch s2,
    conns (processRetryQueue Period now (onNewConn (blake2b_Sum256 (default [] (rd_IdentityKey shard))) (dispatchAll blake2b_Sum256 Period times ds co)))
      !! blake2b_Sum256 (default [] (rd_IdentityKey shard)) = Some ch /\
    (forall sg pl, CmdWrite (box_BoxID box) sg pl ∈ ch <-> sg = box_Signature box /\ pl = box_Payload box) /\
    onReplicaWrite nikeByName sphinxGeo d cur2 (box_BoxID box) (box_Signature box) (box_Payload box) sp = Ok (ReplicaSuccess, s2) /\
    stateHandleReplicaRead d cur2 (box_BoxID box) s2 = Ok box.
Proof.
  intros Hg Hs Hm H0 Hc Htomb Ht Hbox Hne HR Hsh Hin HTTL Htimes Hnow Hlen Hmax Hq (m2 & Hs2 & Hf2 & Hm2 & Hv2) Hc2 Hd.
  assert (Hc1 : epoch64 (cur - 1)) by (unfold epoch64 in *; lia).
  destruct (boxAt_some (genuine g) m (cur - 1) (box_BoxID box) box Hm Hc1 Hbox) as (_ & Hwf & Hgen & _).
  split.
  { unfold stateHandleReplicaRead. rewrite Hs, (readLoop_stored (genuine g)) by (done || (by apply keptEpochs_64) || intros e; apply Hd).
    unfold keptEpochs. rewrite (proj2 (Z.eqb_neq cur 0)) by lia. cbn [lookupBox]. by rewrite Htomb. }
  assert (HE : exists u, scanEpochs Sum256 blake2b_Sum256 idpubkey doc m (keptEpochs cur) = (ds, Ok u)).
  { unfold Rebalance in HR. rewrite Hs in HR. destruct (scanEpochs _ _ _ _ _ _) as [ds0 [u|e|]]; [|done..]. exists u.
    destruct doc'; [destruct (storeLastRebalanceFingerprint _ _ _)|]; by injection HR as -> _. }
  destruct HE as [u HE]. destruct (kept_split Sum256 blake2b_Sum256 (genuine g) idpubkey doc m cur ds u) as (d1 & d2 & -> & Hd2); [done..|].
  pose proof (proj2 (iterator_box (genuine g) m (cur - 1) box Hm Hc1) Hbox) as (kv & Hkv & Hst).
  destruct (later_wins blake2b_Sum256 Period (blake2b_Sum256 (default [] (rd_IdentityKey shard))) t0 (box_BoxID box)
    (CmdWrite (box_BoxID box) (box_Signature box) (box_Payload box)) d1 d2 times co) as [Hq' Hh]; [done..| | |].
  { intros w Hw _ Hid. apply Hd2 in Hw as (b & kv' & sh & shd & Hkv' & Hst' & _ & _ & ->). cbn in Hid.
    assert (Hb : boxAt m (cur - 1) (box_BoxID b) = Some b) by (apply (iterator_box (genuine g)); [done..|]; by exists kv').
    rewrite Hid, Hbox in Hb. injection Hb as <-. done. }
  { exists (writeFor blake2b_Sum256 shard box). split; [|done]. apply Hd2. by exists box, kv, shards, shard. }
  destruct (connect_sends blake2b_Sum256 Period _ t0 _ now _ _ _ _ _ HTTL Hq' Hnow Hh eq_refl) as (ch & Hch & Hin' & Honly).
  destruct (peer_stores nikeByName sphinxGeo g d cur2 sp box) as (s2 & Hw2 & Hr2); [done| |done..|]. { by exists m2. }
  exists ch, s2. split_and!; [done| |done|done]. intros sg pl. split; [|by intros [-> ->]]. intros H. apply Honly in H. by injection H as -> ->.
Qed.

(** ** A concrete replica *)

Abbreviation toyTomb := (newBox toyBoxID (spread (checksum toyBoxID) 64) []).
Abbreviation toyBox := (boxOf (toyWrite 5)).
Abbreviation toyBoxes := (<[boxKey 4 toyBoxID := wire toyTomb]> (<[boxKey 3 toyBoxID := wire toyBox]> (∅ : gmap bytes bytes))).
Abbreviation toyHolder := (setDb toyStore toyBoxes).

Lemma toyTomb_wf : wf toyTomb.
Proof.
  apply (tombstone_wf (mkReplicaWrite toyBoxID (spread (checksum toyBoxID) 64) 52 (toyContent 5))). destruct (toyWrite_wf 5) as (Hi & _ & Hn); [done|].
  split_and!; [exact Hi|split; [done|]|apply Hn..]. unfold spread. apply Forall_fmap, Forall_forall. intros z _. apply mod256_byte.
Qed.

Lemma toyBox_wf : wf toyBox.
Proof. by apply newBox_wf, toyWrite_wf. Qed.

Lemma toyBoxes_stored : wellStored (genuine toySmall) toyBoxes.
Proof.
  apply (wellStored_insert (genuine toySmall) _ 4 toyTomb); [|exact toyTomb_wf|by split; [|left]|by split].
  apply (wellStored_insert (genuine toySmall) _ 3 toyBox); [apply map_Forall_empty|exact toyBox_wf| |by split].
  apply (signedWrite_genuine toySmall (toyWrite 5)). split; try done. by apply toyWrite_wf.
Qed.

Lemma toyBoxes_at : boxAt toyBoxes 4 toyBoxID = Some toyTomb /\ boxAt toyBoxes 3 toyBoxID = Some toyBox.
Proof.
  split.
  - rewrite (boxAt_insert _ 4 toyTomb) by (exact toyTomb_wf || by split). by rewrite bool_decide_eq_true_2.
  - rewrite (boxAt_insert _ 4 toyTomb) by (exact toyTomb_wf || by split). rewrite bool_decide_eq_false_2 by by intros [? _].
    rewrite (boxAt_insert _ 3 toyBox) by (exact toyBox_wf || by split). by rewrite bool_decide_eq_true_2.
Qed.

Abbreviation toyRebalance := (Rebalance toyBlake toyBlake [0] (Some toyReplicas) (Some toyReplicas) false 4 toyHolder).


Lemma rebalance_resurrects_witness : exists ds s' ch s2, toyRebalance = (ds, Ok (), s') /\
  stateHandleReplicaRead goodDisk 4 toyBoxID toyHolder = Ok toyTomb /\
  conns (processRetryQueue defaultPeriod 9 (onNewConn (toyBlake [1]) (dispatchAll toyBlake defaultPeriod [(0, 0); (1, 1)] ds (mkConnector ∅ []))))
    !! toyBlake [1] = Some ch /\
  (forall sg pl, CmdWrite toyBoxID sg pl ∈ ch <-> sg = box_Signature toyBox /\ pl = box_Payload toyBox) /\
  onReplicaWrite toyRegistry toySphinx goodDisk 4 toyBoxID (box_Signature toyBox) (box_Payload toyBox) toyStore = Ok (ReplicaSuccess, s2) /\
  stateHandleReplicaRead goodDisk 4 toyBoxID s2 = Ok toyBox.
Proof.
  assert (Hok : match toyRebalance with (ds, Ok _, _) => Nat.eqb (length ds) 2 | _ => false end = true) by (vm_compute; reflexivity).
  destruct toyRebalance as [[ds r] s'] eqn:HR. destruct r as [[]| |]; [|done..]. apply Nat.eqb_eq in Hok.
  destruct (rebalance_resurrects toyRegistry toySphinx toySmall toyBlake toyBlake defaultPeriod [0] (Some toyReplicas) (Some toyReplicas) false 4
    toyHolder toyBoxes ds s' toyTomb toyBox [toyReplicaNode 1] (toyReplicaNode 1) (mkConnector ∅ []) [(0, 0); (1, 1)] 9 0 goodDisk 4 toyStore)
    as (Hr & ch & s2 & H1 & H2 & H3 & H4).
  - exact toySmall_geo.
  - reflexivity.
  - exact toyBoxes_stored.
  - lia.
  - by split.
  - apply toyBoxes_at.
  - by split.
  - apply toyBoxes_at.
  - done.
  - exact HR.
  - vm_compute. reflexivity.
  - by left.
  - by vm_compute.
  - assert (retryTTL defaultPeriod = 3600000000000) as -> by (vm_compute; reflexivity). repeat constructor; lia.
  - assert (retryTTL defaultPeriod = 3600000000000) as -> by (vm_compute; reflexivity). lia.
  - done.
  - rewrite Hok. unfold maxRetryQueuePerPeer. lia.
  - split; [done|cbn; lia|by constructor|]. split; [intros p; cbn; lia|by apply NoDup_nil_2|done].
  - apply toyStore_vacant.
  - by split.
  - by split.
  - exists ds, s', ch, s2. split_and!; done.
Defined.
