(* ===== verification/ReplicaProxy.v ===== *)
(** Reads that a replica passes on to a shard: [proxyReadRequest] of
    [replica/handlers.go] together with the handler of the shard. *)

From S2P Require Import Prelude Schemes SphinxGeo TimerQueue ByteOrder PigeonGeo PigeonMessages PkiDocument Sharding PigeonPki ReplicaState ReplicaHandlers ReplicaBoxes ReplicaMessages.
From Stdlib Require Import ZArith Lia.
From stdpp Require Import prelude list strings gmap.

Local Open Scope Z_scope.

Section Proxy.

Context {P : PigeonSizes} {N : Nike} {NL : NikeLaws N} {M : Mkem N} {ML : MkemLaws M} {B : BoxSign} (nikeByName : string -> option Nike).
Context (Sum256 blake2b_Sum256 : bytes -> bytes) (sphinxGeo : Geometry) (g : PigeonholeGeometry).

(** What a shard answers to another replica. *)
Definition shardAnswers (epoch cur : Z) (d : disk) (rn : randomness) (send : bytes -> replicaMessage -> outcome messageReply) (svS : replicaServer)
    (m : replicaMessage) : outcome messageReply :=
  '(r, _, _) ← handleReplicaMessage nikeByName Sum256 blake2b_Sum256 sphinxGeo epoch cur epoch d rn send m svS; Ok r.

(** A replica that does not keep the box, that has the key [pk] for the current
    epoch, and that draws the shard [target]; [pkS] is the key of the shard. *)
Record passesOn (sv : replicaServer) (doc : Document) (boxID : bytes) (epoch : Z) (rn : randomness) (pk : nike_PublicKey)
    (target : ReplicaDescriptor) (pkS : nike_PublicKey) (rid : Z) : Prop := {
  po_doc : sv_doc sv = Some doc;
  po_id : GetReplicaIDByIdentityKey doc (Ok (sv_identity sv)) = Ok rid;
  po_epoch : 0 <= epoch /\ epoch + 1 < 2 ^ 63;
  po_key : exists sk, sv_keys sv !! epoch = Some sk /\ nike_Public sk = pk;
  po_shards : exists shards idx rest, GetShards Sum256 blake2b_Sum256 boxID doc = Ok shards /\ isShard (sv_identity sv) shards = false /\
    CryptoRandIndex (Z.of_nat (length shards)) (rn_shard rn) = Ok (idx, rest) /\ index shards (Z.to_nat idx) = Ok target;
  po_target : EnvelopeKeys target !! epoch = Some (nike_Bytes pkS);
}.

(** The answer of the shard reaches the client, sealed with the key the client used. *)
Lemma proxied_read epoch cur d rn send epochS curS dS rnS sendS svS sv doc rnd pks i pk target pkS rid payload r rr :
  formatSizes P -> pigeonholeGeo nikeByName sphinxGeo = Ok g -> passesOn sv doc (rr_BoxID r) epoch rn pk target pkS rid -> pks !! i = Some pk ->
  attends Sum256 blake2b_Sum256 svS epochS pkS doc (rr_BoxID r) ->
  (forall m, send (blake2b_Sum256 (default [] (rd_IdentityKey target))) m = shardAnswers epochS curS dS rnS sendS svS m) ->
  wf r -> ParseMessage payload = Ok (mkReplicaInnerMessage 0 (Some r) None) ->
  handleReplicaRead dS curS r (sv_store svS) = Ok rr -> wf rr -> (length (rrr_Payload rr) <= CalculateBoxCiphertextLength g)%nat ->
  exists reply, handleReplicaMessage nikeByName Sum256 blake2b_Sum256 sphinxGeo epoch cur epoch d rn send (requestOf rnd pks i payload).1 sv
      = Ok (reply, [], sv_store sv) /\
    mr_EnvelopeHash reply = EnvelopeHash blake2b_Sum256 (requestOf rnd pks i payload).1 /\ mr_ReplicaID reply = rid /\ mr_ErrorCode reply = rrr_ErrorCode rr /\
    mr_EnvelopeReply reply <> [] /\
    openReply (requestOf rnd pks i payload).2 pk reply = Ok (mkReplicaMessageReplyInnerMessage 0 (Some rr) None) /\
    (forall pk', pk' <> pk -> exists e, mk_DecryptEnvelope (requestOf rnd pks i payload).2 pk' (mr_EnvelopeReply reply) = Err e).
Proof.
  intros Hsz Hg [Hdoc Hrid [H0 H1] (skc & Hkc & Hpc) (shards & idx & rest & Hsh & His & Hidx & Htg) Htk] Hi Hatt Hsend Hwr Hparse Hread Hw Hl.
  destruct (requestOf_received rnd pks i pk payload (sv_keys sv) epoch) as (ep & sk & e & Hu & -> & Hpub & Ht); [done..| |].
  { exists epoch, skc. split_and!; try done; lia. }
  assert (Hwi : wf (mkReplicaInnerMessage 0 (Some r) None)) by (left; eauto).
  set (inner := wire (mkReplicaInnerMessage 0 (Some r) None)).
  assert (Hpi : ParseMessage inner = Ok (mkReplicaInnerMessage 0 (Some r) None)).
  { unfold ParseMessage, inner. rewrite <- (app_nil_r (wire _)). by rewrite (rd_print _ _ _ fmt_reads). }
  destruct (shard_reads nikeByName Sum256 blake2b_Sum256 sphinxGeo g epochS curS epochS dS rnS sendS (rn_envelope rn) [pkS] 0 pkS inner r rr svS doc
    Hsz Hg Hatt eq_refl Hpi Hread Hw Hl) as (rS & HhS & _ & HneS & HoS).
  destruct (read_reply_size g rr Hsz Hw Hl) as [Hwm Hlm].
  destruct (sealReply_opens nikeByName sphinxGeo g (rn_nonce rn) skc (requestOf rnd pks i payload).2
    (EnvelopeHash blake2b_Sum256 (requestOf rnd pks i payload).1) rid (rrr_ErrorCode rr) _ Hg Hwm Hlm) as (blob & Hseal & _ & Hopen).
  eexists (mkMessageReply _ _ _ _). split_and!; [|reflexivity|reflexivity|reflexivity|apply mk_reply_not_nil|rewrite <- Hpc; exact Hopen|].
  2: { intros pk' Hpk'. cbn [mr_EnvelopeReply]. apply mk_reply_rejects. congruence. }
  unfold handleReplicaMessage. rewrite Hu, Ht, Hparse, Hdoc, Hrid. cbn [ReadMsg WriteMsg]. rewrite Hsh, His.
  unfold answer, proxyReadRequest, proxyRequest. rewrite Hdoc, Hrid, Hsh. go. rewrite Hidx. go. rewrite Htg. go. unfold GetKeypair. rewrite Hkc. go.
  rewrite Bytes_ok by done. go. rewrite Htk. go. rewrite nike_unmarshal_bytes. go.
  fold inner. set (rq := requestOf rnd pks i payload) in *. pose proof (mk_deks (rn_envelope rn) [pkS] inner) as Hdk. unfold requestOf in HhS, HoS.
  destruct (mk_Encapsulate (rn_envelope rn) [pkS] inner) as [ephS ct]. cbn [fst snd] in *. destruct (DEKCiphertexts ct) as [|dek deks]; [done|].
  change (index (dek :: deks) 0) with (Ok dek). go. rewrite Hsend. unfold shardAnswers. change (default [] ((dek :: deks) !! 0%nat)) with dek in HhS. rewrite HhS. go.
  unfold relayReply. unfold openReply in HoS. go_inv HoS. destruct (mr_EnvelopeReply rS) as [|x l]; [done|]. rewrite E, HoS. cbn [ReadReply].
  by rewrite Hseal.
Qed.

End Proxy.
