(* ===== verification/Bacap.v ===== *)
(** BACAP: what [courier/server] and [client] use of the package [bacap] of hpqc.

    A write capability names a sequence of boxes, one for each index; the box of an
    index has an identifier, and a message is sealed for its box with a signature
    that the identifier verifies.  A reader or a writer stands at an index;
    [setNextIndex] and [writerNextIndex] are the field of a writer that has it. *)

From S2P Require Import Prelude Schemes ReplicaHandlers.
From Stdlib Require Import ZArith Lia.
From stdpp Require Import prelude list strings.

Local Open Scope Z_scope.

Definition PIGEONHOLE_CTX : bytes := string_bytes "pigeonhole context".

Class Bacap := {
  bc_WriteCap : Type;
  bc_ReadCap : Type;
  MessageBoxIndex : Type;
  StatefulReader : Type;
  StatefulWriter : Type;
  NewWriteCapFromBytes : bytes -> outcome bc_WriteCap;
  WriteCap_ReadCap : bc_WriteCap -> bc_ReadCap;
  NewEmptyMessageBoxIndexFromBytes : bytes -> outcome MessageBoxIndex;
  NextIndex : MessageBoxIndex -> outcome MessageBoxIndex;
  NewStatefulReader : bc_ReadCap -> bytes -> outcome StatefulReader;
  NewStatefulReaderWithIndex : bc_ReadCap -> bytes -> MessageBoxIndex -> outcome StatefulReader;
  NextBoxID : StatefulReader -> outcome bytes;
  DecryptNext : bytes -> bytes -> bytes -> bytes -> StatefulReader -> outcome bytes * StatefulReader;
  NewStatefulWriter : bc_WriteCap -> bytes -> outcome StatefulWriter;
  NewStatefulWriterWithIndex : bc_WriteCap -> bytes -> MessageBoxIndex -> outcome StatefulWriter;
  PrepareNext : bytes -> StatefulWriter -> outcome (bytes * bytes * bytes);
  EncryptNext : bytes -> StatefulWriter -> outcome (bytes * bytes * bytes) * StatefulWriter;
  setNextIndex : MessageBoxIndex -> StatefulWriter -> StatefulWriter;
  writerNextIndex : StatefulWriter -> MessageBoxIndex;
  SignBox : MessageBoxIndex -> bc_WriteCap -> bytes -> bytes -> bytes * bytes;
}.

(** [readerAt], [writerAt]: the states.  [boxIDAt]: the identifiers.  [sealBox]:
    the ciphertext and the signature. *)
Class BacapLaws (C : Bacap) (B : BoxSign) := {
  firstIndex : bc_ReadCap -> MessageBoxIndex;
  readerAt : bc_ReadCap -> bytes -> MessageBoxIndex -> StatefulReader;
  writerAt : bc_WriteCap -> bytes -> MessageBoxIndex -> StatefulWriter;
  boxIDAt : bc_ReadCap -> bytes -> MessageBoxIndex -> bytes;
  sealBox : bc_WriteCap -> bytes -> MessageBoxIndex -> bytes -> bytes * bytes;
  bc_reader rc ctx : NewStatefulReader rc ctx = Ok (readerAt rc ctx (firstIndex rc));
  bc_readerWithIndex rc ctx idx : NewStatefulReaderWithIndex rc ctx idx = Ok (readerAt rc ctx idx);
  bc_writer wc ctx : NewStatefulWriter wc ctx = Ok (writerAt wc ctx (firstIndex (WriteCap_ReadCap wc)));
  bc_writerWithIndex wc ctx idx : NewStatefulWriterWithIndex wc ctx idx = Ok (writerAt wc ctx idx);
  bc_nextBoxID rc ctx idx : NextBoxID (readerAt rc ctx idx) = Ok (boxIDAt rc ctx idx);
  bc_prepare wc ctx idx p : PrepareNext p (writerAt wc ctx idx) = Ok (boxIDAt (WriteCap_ReadCap wc) ctx idx, (sealBox wc ctx idx p).1, (sealBox wc ctx idx p).2);
  bc_encrypt wc ctx idx idx' p : NextIndex idx = Ok idx' ->
    EncryptNext p (writerAt wc ctx idx)
      = (Ok (boxIDAt (WriteCap_ReadCap wc) ctx idx, (sealBox wc ctx idx p).1, (sealBox wc ctx idx p).2), writerAt wc ctx idx');
  bc_setIndex wc ctx idx idx' : setNextIndex idx' (writerAt wc ctx idx) = writerAt wc ctx idx';
  bc_index wc ctx idx : writerNextIndex (writerAt wc ctx idx) = idx;
  bc_decrypt wc ctx idx idx' p : NextIndex idx = Ok idx' ->
    DecryptNext ctx (boxIDAt (WriteCap_ReadCap wc) ctx idx) (sealBox wc ctx idx p).1 (sealBox wc ctx idx p).2 (readerAt (WriteCap_ReadCap wc) ctx idx)
      = (Ok p, readerAt (WriteCap_ReadCap wc) ctx idx');
  bc_sizes wc ctx idx p : length (sealBox wc ctx idx p).1 = (length p + 16)%nat /\ length (sealBox wc ctx idx p).2 = 64%nat;
  bc_bytes wc ctx idx p : Forall is_byte p -> Forall is_byte (sealBox wc ctx idx p).1 /\ Forall is_byte (sealBox wc ctx idx p).2;
  bc_boxID rc ctx idx : ed_Unmarshal (boxIDAt rc ctx idx) = true /\ length (boxIDAt rc ctx idx) = 32%nat /\ Forall is_byte (boxIDAt rc ctx idx);
  bc_verifies wc ctx idx p : ed_Verify (boxIDAt (WriteCap_ReadCap wc) ctx idx) (sealBox wc ctx idx p).1 (sealBox wc ctx idx p).2 = true;
}.
