(* ===== verification/Courier.v ===== *)
(** The courier: [courier/server/plugin.go] (envelopes), [envelope_epoch.go].

    A courier passes the envelopes of clients on to replicas, keeps their replies
    and gives them to clients that ask again.  The locks make the operations
    steps; [handleOldMessage] reads the entry after the lock was released, and the
    model has it in the same step.  Goroutines that send to replicas are part of the state: an envelope is
    in flight from [scheduleReplicaDispatch] until [endDispatch].  Readings of the
    clock are arguments. *)

From S2P Require Import Prelude Schemes SphinxGeo TimerQueue EpochTime PigeonGeo PigeonMessages PkiDocument ReplicaHandlers.
From Stdlib Require Import ZArith Lia.
From stdpp Require Import prelude list strings gmap.

Local Open Scope Z_scope.

Definition ReplyTypeACK : Z := 0.
Definition ReplyTypePayload : Z := 1.

Definition EnvelopeErrorSuccess : Z := 0.
Definition EnvelopeErrorInvalidEnvelope : Z := 1.
Definition EnvelopeErrorCacheCorruption : Z := 2.
Definition EnvelopeErrorPropagationError : Z := 3.
Definition EnvelopeErrorInvalidEpoch : Z := 4.

Definition DedupCacheTTL : Z := 5 * minute.
Definition maxConcurrentReplicaDispatch : nat := 256.

Definition ValidCourierEnvelopeEpochWindow : Z := 1.

Definition isEnvelopeEpochAcceptable (envelopeEpoch currentEpoch : Z) : bool :=
  if bool_decide (currentEpoch < envelopeEpoch) then bool_decide (wrap 64 (envelopeEpoch - currentEpoch) <= ValidCourierEnvelopeEpochWindow)
  else bool_decide (wrap 64 (currentEpoch - envelopeEpoch) <= ValidCourierEnvelopeEpochWindow).

(** The two slots are for the two intermediate replicas. *)
Record CourierBookKeeping := mkBookKeeping {
  bk_Epoch : Z;
  CreatedAt : Z;
  bk_QueryType : Z;
  bk_IntermediateReplicas : Z * Z;
  EnvelopeReplies : option messageReply * option messageReply;
}.

Record courier := mkCourier {
  dedupCache : gmap bytes CourierBookKeeping;
  inFlight : gset bytes;
}.

Definition setCache (e : courier) (c : gmap bytes CourierBookKeeping) : courier := mkCourier c (inFlight e).

Section Courier.

Context (blake2b_Sum256 : bytes -> bytes).

Definition CourierEnvelope_EnvelopeHash (c : CourierEnvelope) : bytes := blake2b_Sum256 (SenderPubkey c ++ Ciphertext c).

(** ** Replies of replicas *)

Definition slot {A} (i : bool) (p : A * A) : A := if i then snd p else fst p.
Definition setSlot {A} (i : bool) (v : A) (p : A * A) : A * A := if i then (fst p, v) else (v, snd p).

(** The index, if there is one. *)
Definition findReplicaIndex (entry : CourierBookKeeping) (replicaID : Z) : option bool :=
  if Z.eqb (fst (bk_IntermediateReplicas entry)) replicaID then Some false
  else if Z.eqb (snd (bk_IntermediateReplicas entry)) replicaID then Some true else None.

Definition setReply (entry : CourierBookKeeping) (i : bool) (r : messageReply) : CourierBookKeeping :=
  mkBookKeeping (bk_Epoch entry) (CreatedAt entry) (bk_QueryType entry) (bk_IntermediateReplicas entry) (setSlot i (Some r) (EnvelopeReplies entry)).

Definition storeOrReplaceReply (entry : CourierBookKeeping) (reply : messageReply) (replyIndex : bool) : CourierBookKeeping :=
  match slot replyIndex (EnvelopeReplies entry) with
  | None => setReply entry replyIndex reply
  | Some existing => if negb (Z.eqb (mr_ErrorCode existing) 0) then setReply entry replyIndex reply else entry
  end.

(** A slot that is not used is marked with 255. *)
Definition unusedSlot (entry : CourierBookKeeping) (i : bool) : bool :=
  Z.eqb (slot i (bk_IntermediateReplicas entry)) 255 && bool_decide (slot i (EnvelopeReplies entry) = None).

Definition useSlot (entry : CourierBookKeeping) (reply : messageReply) (i : bool) : CourierBookKeeping :=
  mkBookKeeping (bk_Epoch entry) (CreatedAt entry) (bk_QueryType entry)
    (setSlot i (mr_ReplicaID reply) (bk_IntermediateReplicas entry)) (setSlot i (Some reply) (EnvelopeReplies entry)).

Definition handleExistingEntry (entry : CourierBookKeeping) (reply : messageReply) : CourierBookKeeping :=
  match findReplicaIndex entry (mr_ReplicaID reply) with
  | Some replyIndex => storeOrReplaceReply entry reply replyIndex
  | None =>
    if unusedSlot entry false then useSlot entry reply false
    else if unusedSlot entry true then useSlot entry reply true
    else entry
  end.

Definition CacheReply (reply : messageReply) (e : courier) : courier :=
  match dedupCache e !! mr_EnvelopeHash reply with
  | Some entry => setCache e (<[mr_EnvelopeHash reply := handleExistingEntry entry reply]> (dedupCache e))
  | None => e
  end.

Definition pruneDedupCacheLocked (now ttl : Z) (c : gmap bytes CourierBookKeeping) : gmap bytes CourierBookKeeping :=
  filter (fun '(_, entry) => ~ ttl < Sub now (CreatedAt entry)) c.

(** ** Requests of clients *)

Definition envelopeReply (envHash : bytes) (replyIndex replyType : Z) (payload : bytes) (errorCode : Z) : CourierQueryReply :=
  mkCourierQueryReply 0 (Some (mkCourierEnvelopeReply envHash replyIndex replyType (wrap 32 (Z.of_nat (length payload))) payload errorCode)) None.

Definition ackReply (envHash : bytes) (replyIndex : Z) : CourierQueryReply := envelopeReply envHash replyIndex ReplyTypeACK [] EnvelopeErrorSuccess.

Definition createEnvelopeErrorReply (envHash : bytes) (errorCode replyIndex : Z) : CourierQueryReply :=
  envelopeReply envHash replyIndex ReplyTypeACK [] errorCode.

(** The messages for the two replicas; sending stops at the first that fails. *)
Definition replicaMessage1 (c : CourierEnvelope) : replicaMessage := mkReplicaMessage (SenderPubkey c) (Dek1 c) (Ciphertext c).
Definition replicaMessage2 (c : CourierEnvelope) : replicaMessage := mkReplicaMessage (SenderPubkey c) (Dek2 c) (Ciphertext c).

Definition propagateQueryToReplicas {W : Type} (SendMessage : Z -> replicaMessage -> W -> outcome () * W) (c : CourierEnvelope) (w : W) : outcome () * W :=
  match index (IntermediateReplicas c) 0 with
  | Ok firstReplicaID =>
    match SendMessage firstReplicaID (replicaMessage1 c) w with
    | (Ok tt, w) =>
      match index (IntermediateReplicas c) 1 with
      | Ok secondReplicaID =>
        match SendMessage secondReplicaID (replicaMessage2 c) w with
        | (Ok tt, w) => (Ok tt, w)
        | (_, w) => (Err "failed to dispatch to replica", w)
        end
      | _ => (Panic, w)
      end
    | (_, w) => (Err "failed to dispatch to replica", w)
    end
  | _ => (Panic, w)
  end.

(** Whether a goroutine is started. *)
Definition scheduleReplicaDispatch (envHash : bytes) (e : courier) : bool * courier :=
  if bool_decide (envHash ∈ inFlight e) then (false, e)
  else (true, mkCourier (dedupCache e) ({[ envHash ]} ∪ inFlight e)).

(** The goroutine ends. *)
Definition endDispatch (envHash : bytes) (e : courier) : courier := mkCourier (dedupCache e) (inFlight e ∖ {[ envHash ]}).

Definition cacheEntryHasOnlyErrors (entry : CourierBookKeeping) : bool :=
  let '(r0, r1) := EnvelopeReplies entry in
  let failed r := match r with Some r => negb (Z.eqb (mr_ErrorCode r) 0) | None => true end in
  failed r0 && failed r1 && (bool_decide (is_Some r0) || bool_decide (is_Some r1)).

(** The reply and its index. *)
Definition chooseReply (entry : CourierBookKeeping) (i : bool) : bytes * bool :=
  match slot i (EnvelopeReplies entry), slot (negb i) (EnvelopeReplies entry) with
  | Some r, Some o =>
    if bool_decide (mr_EnvelopeReply r = []) && bool_decide (mr_EnvelopeReply o <> []) then (mr_EnvelopeReply o, negb i)
    else (mr_EnvelopeReply r, i)
  | Some r, None => (mr_EnvelopeReply r, i)
  | None, Some o => (mr_EnvelopeReply o, negb i)
  | None, None => ([], i)
  end.

Definition handleOldMessage (entry : CourierBookKeeping) (envHash : bytes) (ReplyIndex : Z) : CourierQueryReply :=
  if bool_decide (1 < ReplyIndex) then createEnvelopeErrorReply envHash EnvelopeErrorInvalidEnvelope 0
  else
    let '(payload, i) := chooseReply entry (Z.eqb ReplyIndex 1) in
    envelopeReply envHash (if i then 1 else 0) (if bool_decide (payload = []) then ReplyTypeACK else ReplyTypePayload) payload EnvelopeErrorSuccess.

(** [doc] is the epoch of the document, if there is one; the reply, whether a
    dispatch was started, and the courier. *)
Definition cacheHandleCourierEnvelope (replicaEpoch : Z) (doc : option Z) (now now' queryType : Z) (m : CourierEnvelope) (e : courier)
    : outcome (CourierQueryReply * bool * courier) :=
  let envHash := CourierEnvelope_EnvelopeHash m in
  if negb (isEnvelopeEpochAcceptable (ce_Epoch m) replicaEpoch) then
    Ok (createEnvelopeErrorReply envHash EnvelopeErrorInvalidEpoch (ce_ReplyIndex m), false, e)
  else
    match dedupCache e !! envHash with
    | None =>
      i0 ← index (IntermediateReplicas m) 0;
      i1 ← index (IntermediateReplicas m) 1;
      let entry := mkBookKeeping (default 0 doc) now' queryType (i0, i1) (None, None) in
      let e := setCache e (<[envHash := entry]> (pruneDedupCacheLocked now DedupCacheTTL (dedupCache e))) in
      let '(started, e) := scheduleReplicaDispatch envHash e in
      Ok (ackReply envHash (ce_ReplyIndex m), started, e)
    | Some entry =>
      let '(started, e) := if cacheEntryHasOnlyErrors entry then scheduleReplicaDispatch envHash e else (false, e) in
      Ok (handleOldMessage entry envHash (ce_ReplyIndex m), started, e)
    end.

End Courier.

(** ** Runs

    The operations one after the other. *)

Inductive courierEvent :=
| OnEnvelope (replicaEpoch : Z) (doc : option Z) (now now' queryType : Z) (m : CourierEnvelope)
| OnReply (r : messageReply)
| OnDispatched (envHash : bytes).

Section Runs.

Context (blake2b_Sum256 : bytes -> bytes).

Definition courierStep (e : courier) (ev : courierEvent) : outcome courier :=
  match ev with
  | OnEnvelope replicaEpoch doc now now' queryType m =>
    '(_, _, e) ← cacheHandleCourierEnvelope blake2b_Sum256 replicaEpoch doc now now' queryType m e; Ok e
  | OnReply r => Ok (CacheReply r e)
  | OnDispatched h => Ok (endDispatch h e)
  end.

Fixpoint courierRun (evs : list courierEvent) (e : courier) : outcome courier :=
  match evs with
  | [] => Ok e
  | ev :: evs => e ← courierStep e ev; courierRun evs e
  end.

Definition NewCourier : courier := mkCourier ∅ ∅.

(** What is kept belongs to its entry and to its slot. *)
Definition entryOk (h : bytes) (entry : CourierBookKeeping) : Prop :=
  forall i r, slot i (EnvelopeReplies entry) = Some r -> mr_EnvelopeHash r = h /\ mr_ReplicaID r = slot i (bk_IntermediateReplicas entry).

Definition cacheOk (e : courier) : Prop := map_Forall entryOk (dedupCache e).

(** [now] is not more than [DedupCacheTTL] after the entry was made. *)
Definition fresh (entry : CourierBookKeeping) (ev : courierEvent) : Prop :=
  match ev with
  | OnEnvelope _ _ now _ _ _ => Sub now (CreatedAt entry) <= DedupCacheTTL
  | _ => True
  end.

Lemma slot_setSlot {A} i j (v : A) p : slot j (setSlot i v p) = if Bool.eqb i j then v else slot j p.
Proof. by destruct i, j. Qed.

Lemma findReplicaIndex_slot entry id i : findReplicaIndex entry id = Some i -> slot i (bk_IntermediateReplicas entry) = id.
Proof. unfold findReplicaIndex. repeat case_match; intros [= <-]; by apply Z.eqb_eq. Qed.

(** A reply goes to a slot of its replica, or to one that was not used, and does
    not replace a reply without error. *)
Lemma handleExistingEntry_cases entry reply : let entry' := handleExistingEntry entry reply in
  entry' = entry \/
  exists i ids, entry' = mkBookKeeping (bk_Epoch entry) (CreatedAt entry) (bk_QueryType entry) ids (setSlot i (Some reply) (EnvelopeReplies entry)) /\
    slot i ids = mr_ReplicaID reply /\ slot (negb i) ids = slot (negb i) (bk_IntermediateReplicas entry) /\
    (forall r, slot i (EnvelopeReplies entry) = Some r -> mr_ErrorCode r <> 0).
Proof.
  cbn zeta. unfold handleExistingEntry. destruct findReplicaIndex as [i|] eqn:Hf.
  - apply findReplicaIndex_slot in Hf. unfold storeOrReplaceReply. destruct (slot i (EnvelopeReplies entry)) as [r|] eqn:Hs.
    + destruct (Z.eqb_spec (mr_ErrorCode r) 0); [by left|]. right. exists i, (bk_IntermediateReplicas entry). split_and!; try done. rewrite Hs. by intros ? [= <-].
    + right. exists i, (bk_IntermediateReplicas entry). split_and!; try done. by rewrite Hs.
  - assert (Hu : forall i, unusedSlot entry i = true -> slot i (EnvelopeReplies entry) = None).
    { intros i [_ H]%andb_prop. by apply bool_decide_eq_true in H. }
    destruct (unusedSlot entry false) eqn:H0; [|destruct (unusedSlot entry true) eqn:H1; [|by left]]; right;
      [exists false|exists true]; eexists; (split; [reflexivity|]); split_and!; try done; intros r; rewrite Hu; done.
Qed.

Lemma handleExistingEntry_ok h entry reply : mr_EnvelopeHash reply = h -> entryOk h entry -> entryOk h (handleExistingEntry entry reply).
Proof.
  intros Hh Hok. destruct (handleExistingEntry_cases entry reply) as [->|(i & ids & -> & Hi & Hn & _)]; [done|].
  intros j r. cbn. rewrite slot_setSlot. destruct (Bool.eqb_spec i j) as [<-|Hne].
  - intros [= <-]. by rewrite Hi.
  - intros Hr. destruct (Hok _ _ Hr) as [-> Hid]. split; [done|]. replace j with (negb i) in * by by destruct i, j. by rewrite Hn.
Qed.

(** A successful reply stays. *)
Lemma handleExistingEntry_keeps entry reply i r :
  slot i (EnvelopeReplies entry) = Some r -> mr_ErrorCode r = 0 -> slot i (EnvelopeReplies (handleExistingEntry entry reply)) = Some r.
Proof.
  intros Hr H0. destruct (handleExistingEntry_cases entry reply) as [->|(j & ids & -> & _ & _ & He)]; [done|].
  cbn. rewrite slot_setSlot. destruct (Bool.eqb_spec j i) as [->|]; [|done]. by destruct (He _ Hr).
Qed.

Lemma handleExistingEntry_created entry reply : CreatedAt (handleExistingEntry entry reply) = CreatedAt entry.
Proof. by destruct (handleExistingEntry_cases entry reply) as [->|(j & ids & -> & _)]. Qed.

Lemma schedule_cache h e b e' : scheduleReplicaDispatch h e = (b, e') -> dedupCache e' = dedupCache e.
Proof. unfold scheduleReplicaDispatch. case_match; by intros [= <- <-]. Qed.

(** The cache after an envelope. *)
Lemma envelope_cache replicaEpoch doc now now' qt m e rep started e' :
  cacheHandleCourierEnvelope blake2b_Sum256 replicaEpoch doc now now' qt m e = Ok (rep, started, e') ->
  dedupCache e' = dedupCache e \/
  dedupCache e !! CourierEnvelope_EnvelopeHash blake2b_Sum256 m = None /\
  exists i0 i1, dedupCache e' = <[CourierEnvelope_EnvelopeHash blake2b_Sum256 m := mkBookKeeping (default 0 doc) now' qt (i0, i1) (None, None)]>
    (pruneDedupCacheLocked now DedupCacheTTL (dedupCache e)).
Proof.
  unfold cacheHandleCourierEnvelope. case_match; [intros [= <- <- <-]; by left|].
  destruct (dedupCache e !! _) as [entry|] eqn:He.
  - destruct (cacheEntryHasOnlyErrors entry).
    + destruct scheduleReplicaDispatch as [b e1] eqn:Hs. intros [= <- <- <-]. left. eauto using schedule_cache.
    + intros [= <- <- <-]. by left.
  - intros Hh. do 2 go_inv Hh. destruct scheduleReplicaDispatch as [b e1] eqn:Hs. revert Hh. intros [= <- <- <-]. right. split; [done|].
    eexists _, _. by rewrite (schedule_cache _ _ _ _ Hs).
Qed.

Lemma step_ok e ev e' : cacheOk e -> courierStep e ev = Ok e' -> cacheOk e'.
Proof.
  intros Hok. destruct ev as [re doc now now' qt m|r|h]; cbn.
  - intros H. go_inv H. destruct v as [[rep b] e1]. cbn in H. injection H as <-. unfold cacheOk.
    destruct (envelope_cache _ _ _ _ _ _ _ _ _ _ E) as [->|(_ & i0 & i1 & ->)]; [done|].
    apply map_Forall_insert_2; [by intros [] r|]. intros k x [Hx _]%map_lookup_filter_Some. by apply Hok.
  - intros [= <-]. unfold CacheReply. destruct (dedupCache e !! mr_EnvelopeHash r) as [entry|] eqn:He; [|done].
    unfold cacheOk. cbn. apply map_Forall_insert_2; [|done]. apply handleExistingEntry_ok; [done|]. by apply Hok.
  - by intros [= <-].
Qed.

(** Until its entry is too old, a successful reply is kept. *)
Lemma step_keeps e ev e' h entry i r : courierStep e ev = Ok e' -> fresh entry ev ->
  dedupCache e !! h = Some entry -> slot i (EnvelopeReplies entry) = Some r -> mr_ErrorCode r = 0 ->
  exists entry', dedupCache e' !! h = Some entry' /\ CreatedAt entry' = CreatedAt entry /\ slot i (EnvelopeReplies entry') = Some r.
Proof.
  intros Hst Hfr He Hr H0. destruct ev as [re doc now now' qt m|rep|h']; cbn in Hst.
  - go_inv Hst. destruct v as [[rep b] e1]. cbn in Hst. injection Hst as <-.
    destruct (envelope_cache _ _ _ _ _ _ _ _ _ _ E) as [->|(Hn & i0 & i1 & ->)]; [eauto|].
    exists entry. split; [|done]. rewrite lookup_insert_ne by congruence. apply map_lookup_filter_Some. split; [done|]. cbn in *. lia.
  - injection Hst as <-. unfold CacheReply. destruct (dedupCache e !! mr_EnvelopeHash rep) as [entry1|] eqn:He1; [|eauto]. cbn.
    destruct (decide (mr_EnvelopeHash rep = h)) as [<-|Hne]; [|rewrite lookup_insert_ne by done; eauto].
    rewrite lookup_insert_eq. eexists. split; [done|]. simplify_eq. split; [apply handleExistingEntry_created|]. by apply handleExistingEntry_keeps.
  - injection Hst as <-. eauto.
Qed.

Lemma run_keeps evs e e' h entry i r : courierRun evs e = Ok e' -> Forall (fresh entry) evs ->
  dedupCache e !! h = Some entry -> slot i (EnvelopeReplies entry) = Some r -> mr_ErrorCode r = 0 ->
  exists entry', dedupCache e' !! h = Some entry' /\ CreatedAt entry' = CreatedAt entry /\ slot i (EnvelopeReplies entry') = Some r.
Proof.
  revert e entry. induction evs as [|ev evs IH]; intros e entry Hrun Hfr He Hr H0; cbn in Hrun.
  - simplify_eq. eauto.
  - go_inv Hrun. inversion Hfr as [|?? Hf Hfs]; subst.
    destruct (step_keeps _ _ _ _ _ _ _ E Hf He Hr H0) as (entry1 & He1 & Hc & Hr1).
    destruct (IH _ entry1 Hrun) as (entry2 & He2 & Hc2 & Hr2); [|done..|].
    + eapply Forall_impl; [done|]. by intros []; cbn; rewrite ?Hc.
    + exists entry2. by rewrite Hc2.
Qed.

(** Which reply a client gets: one of the entry, and the one it asks for unless
    that one is empty. *)
Lemma old_message_payload entry h (i : bool) r : slot i (EnvelopeReplies entry) = Some r -> mr_EnvelopeReply r <> [] ->
  handleOldMessage entry h (if i then 1 else 0) = envelopeReply h (if i then 1 else 0) ReplyTypePayload (mr_EnvelopeReply r) EnvelopeErrorSuccess.
Proof.
  intros Hs Hne. unfold handleOldMessage. rewrite bool_decide_eq_false_2 by (destruct i; lia).
  replace (Z.eqb (if i then 1 else 0) 1) with i by by destruct i. unfold chooseReply. rewrite Hs.
  assert (Hb : bool_decide (mr_EnvelopeReply r = []) = false) by by apply bool_decide_eq_false_2.
  destruct (slot (negb i) (EnvelopeReplies entry)); rewrite ?Hb; cbn [andb]; by rewrite ?Hb.
Qed.

End Runs.

Lemma run_ok blake2b_Sum256 evs e e' : cacheOk e -> courierRun blake2b_Sum256 evs e = Ok e' -> cacheOk e'.
Proof.
  revert e. induction evs as [|ev evs IH]; intros e Hok Hrun; cbn in Hrun; [by simplify_eq|].
  go_inv Hrun. eauto using step_ok.
Qed.

(** C39: Replies are served.  Once a courier keeps a reply without error from an
    intermediate replica of an envelope, it answers the client that sends the
    envelope again for that replica with this reply, which is the reply to this
    envelope and not to another one, and does not bother the replicas.  This is so
    after any run of other requests and replies, until the entry is older than
    [DedupCacheTTL]. *)
Theorem cached_reply_served blake2b_Sum256 evs evs' e e' m entry (i : bool) r replicaEpoch doc now now' queryType :
  courierRun blake2b_Sum256 evs NewCourier = Ok e ->
  dedupCache e !! CourierEnvelope_EnvelopeHash blake2b_Sum256 m = Some entry ->
  slot i (EnvelopeReplies entry) = Some r -> mr_ErrorCode r = 0 -> mr_EnvelopeReply r <> [] ->
  courierRun blake2b_Sum256 evs' e = Ok e' -> Forall (fresh entry) evs' ->
  isEnvelopeEpochAcceptable (ce_Epoch m) replicaEpoch = true -> ce_ReplyIndex m = (if i then 1 else 0) ->
  mr_EnvelopeHash r = CourierEnvelope_EnvelopeHash blake2b_Sum256 m /\ mr_ReplicaID r = slot i (bk_IntermediateReplicas entry) /\
  cacheHandleCourierEnvelope blake2b_Sum256 replicaEpoch doc now now' queryType m e'
    = Ok (envelopeReply (CourierEnvelope_EnvelopeHash blake2b_Sum256 m) (if i then 1 else 0) ReplyTypePayload (mr_EnvelopeReply r) EnvelopeErrorSuccess, false, e').
Proof.
  intros Hrun He Hr H0 Hne Hrun' Hfr Hep Hi.
  assert (Hok : cacheOk e) by (eapply run_ok; [|done]; apply map_Forall_empty).
  destruct (Hok _ _ He _ _ Hr) as [Hh Hid]. split_and!; [done..|].
  destruct (run_keeps _ _ _ _ _ _ _ _ Hrun' Hfr He Hr H0) as (entry' & He' & _ & Hr').
  unfold cacheHandleCourierEnvelope. rewrite Hep, He', Hi. cbn [negb].
  assert (Hc : cacheEntryHasOnlyErrors entry' = false).
  { unfold cacheEntryHasOnlyErrors. destruct (EnvelopeReplies entry') as [r0 r1]. destruct i; cbn in Hr'; subst; rewrite H0; [by rewrite andb_false_r|done]. }
  rewrite Hc. by rewrite (old_message_payload _ _ _ _ Hr' Hne).
Qed.
