(* ===== verification/CourierCopy.v ===== *)
(** The copy command of the courier: [courier/server/plugin.go] (from
    [handleCopyCommand] on) and [copy_errors.go].

    A copy command names a stream of boxes; the courier reads them, decodes the
    envelopes in them and sends each one to its replicas.  [W] is the world outside
    of the courier: what is sent goes into it and replies come out of it.  The work
    runs in a goroutine: [handleCopyCommand] starts it and [runCopyCommand] stores
    its result. *)

From S2P Require Import Prelude Schemes SphinxGeo TimerQueue EpochTime PigeonGeo PigeonMessages CopyStream PkiDocument Sharding ReplicaHandlers Bacap Courier.
From Stdlib Require Import ZArith Lia.
From stdpp Require Import prelude list strings gmap.

Local Open Scope Z_scope.

Definition CopyStatusSucceeded : Z := 0.
Definition CopyStatusInProgress : Z := 1.
Definition CopyStatusFailed : Z := 2.

Definition CopyDedupCacheTTL : Z := 30 * minute.
Definition maxCopyReadTransientAttempts : nat := 8.
Definition copyReadReplyTimeout : Z := 20 * second.
Definition maxCopyWriteAttempts : nat := 8.
Definition copyWriteReplyTimeout : Z := 30 * second.
Definition copyBackoffBase : Z := 500 * millisecond.
Definition copyBackoffCap : Z := 10 * second.
Definition maxCopyStreamBoxes : nat := Z.to_nat (2 ^ 16).
Definition maxCopyStreamEnvelopes : nat := Z.to_nat (2 ^ 16).

Definition copyAttemptBackoff (attempt : Z) : Z :=
  let shift := if bool_decide (8 < attempt) then 8 else attempt in
  let d := copyBackoffBase * Z.shiftl 1 shift in
  if bool_decide (copyBackoffCap < d) then copyBackoffCap else d.

Definition copyReply (status errorCode failedEnvelopeIndex : Z) : CourierQueryReply :=
  mkCourierQueryReply 1 None (Some (mkCopyCommandReply status errorCode failedEnvelopeIndex)).

Definition copySucceededReply : CourierQueryReply := copyReply CopyStatusSucceeded 0 0.
Definition copyFailedReply (replicaErr failedEnvelopeIndex : Z) : CourierQueryReply := copyReply CopyStatusFailed replicaErr failedEnvelopeIndex.
Definition inProgressReply : CourierQueryReply := copyReply CopyStatusInProgress 0 0.

Inductive replicaErrorCategory := replicaErrorTemporary | replicaErrorPermanent.

Definition classifyReplicaErrorForCopyRead (code : Z) : replicaErrorCategory :=
  if bool_decide (code ∈ [ReplicaErrorBoxIDNotFound; ReplicaErrorStorageFull; ReplicaErrorDatabaseFailure; ReplicaErrorInternalError; ReplicaErrorReplicationFailed])
  then replicaErrorTemporary else replicaErrorPermanent.

(** ** The world

    [awaitReplies h n t]: the replies, at most [n], that are put on the channel of
    the envelope [h] before [t] has passed.  [draw]: random bytes. *)

Class World (W : Type) := {
  SendMessage : Z -> replicaMessage -> W -> outcome () * W;
  awaitReplies : bytes -> nat -> Z -> W -> list messageReply * W;
  sleep : Z -> W -> W;
  draw : W -> bytes * W;
  PKIDocument : W -> option Document;
  replicaNow : W -> Z;
}.

Section Copy.

Context {P : PigeonSizes} {N : Nike} {M : Mkem N} {C : Bacap} {W : Type} {E : World W}.
Context (Sum256 blake2b_Sum256 : bytes -> bytes) (g : PigeonholeGeometry).

(** The pause before an attempt. *)
Definition backoff (attempt : nat) (w : W) : W :=
  match attempt with O => w | S n => sleep (copyAttemptBackoff (Z.of_nat n)) w end.

(** ** Writing *)

(** The replies to an attempt: [Some] verdict, or nothing to go by. *)
Definition copyVerdict (replies : list messageReply) : option (bool * Z) :=
  if existsb (fun r => Z.eqb (mr_ErrorCode r) ReplicaSuccess) replies then Some (true, 0)
  else
    match replies with
    | [] => None
    | r0 :: _ =>
      Some (false, if existsb (fun r => Z.eqb (mr_ErrorCode r) ReplicaErrorBoxAlreadyExists) replies then ReplicaErrorBoxAlreadyExists else mr_ErrorCode r0)
    end.

Fixpoint dispatchCopyLoop (tries attempt : nat) (envelope : CourierEnvelope) (w : W) : outcome (bool * Z) * W :=
  match tries with
  | O => (Ok (false, 0), w)
  | S tries =>
    match propagateQueryToReplicas SendMessage envelope (backoff attempt w) with
    | (Ok tt, w) =>
      let '(replies, w) := awaitReplies (CourierEnvelope_EnvelopeHash blake2b_Sum256 envelope) 2 copyWriteReplyTimeout w in
      match copyVerdict replies with
      | Some v => (Ok v, w)
      | None => dispatchCopyLoop tries (S attempt) envelope w
      end
    | (Err _, w) => dispatchCopyLoop tries (S attempt) envelope w
    | (Panic, w) => (Panic, w)
    end
  end.

Definition dispatchCopyEnvelope (envelope : CourierEnvelope) (w : W) : outcome (bool * Z) * W := dispatchCopyLoop maxCopyWriteAttempts 0 envelope w.

(** ** Reading *)

(** The reply if there is one, and the code of the replica. *)
Definition tryReadFromShardReplica (boxID : bytes) (shard : ReplicaDescriptor) (shardPubKey : nike_PublicKey) (w : W)
    : outcome (option ReplicaReadReply * Z) * W :=
  match Bytes (mkReplicaInnerMessage 0 (Some (mkReplicaRead boxID)) None) with
  | Ok inner =>
    let '(rnd, w) := draw w in
    let '(mkemPrivateKey, ct) := mk_Encapsulate rnd [shardPubKey] inner in
    match index (DEKCiphertexts ct) 0 with
    | Ok dek =>
      let query := mkReplicaMessage (nike_Bytes (nike_Public mkemPrivateKey)) dek (mk_Envelope ct) in
      match SendMessage (ReplicaID shard) query w with
      | (Ok tt, w) =>
        let '(replies, w) := awaitReplies (EnvelopeHash blake2b_Sum256 query) 1 copyReadReplyTimeout w in
        match replies with
        | [] => (Err "reply timeout", w)
        | reply :: _ =>
          if negb (Z.eqb (mr_ErrorCode reply) ReplicaSuccess) then (Ok (None, mr_ErrorCode reply), w)
          else
            (raw ← mk_DecryptEnvelope mkemPrivateKey shardPubKey (mr_EnvelopeReply reply);
             replyInner ← (ParseMessage raw : outcome ReplicaMessageReplyInnerMessage);
             match ReadReply replyInner with
             | None => Err "reply is not a ReadReply"
             | Some rr => Ok (Some rr, 0)
             end, w)
        end
      | (Err e, w) => (Err e, w)
      | (Panic, w) => (Panic, w)
      end
    | _ => (Panic, w)
    end
  | _ => (Panic, w)
  end.

(** What a shard gave: a reply, or the last code and the last error. *)
Inductive shardResult := Found (rr : ReplicaReadReply) | Exhausted (lastReplicaCode : Z) (lastErr : option string) | Crashed.

Fixpoint attemptLoop (tries attempt : nat) (boxID : bytes) (shard : ReplicaDescriptor) (pk : nike_PublicKey) (lastReplicaCode : Z) (lastErr : option string) (w : W)
    : shardResult * W :=
  match tries with
  | O => (Exhausted lastReplicaCode lastErr, w)
  | S tries =>
    match tryReadFromShardReplica boxID shard pk (backoff attempt w) with
    | (Err e, w) => attemptLoop tries (S attempt) boxID shard pk lastReplicaCode (Some e) w
    | (Panic, w) => (Crashed, w)
    | (Ok (Some rr, _), w) => (Found rr, w)
    | (Ok (None, code), w) =>
      match classifyReplicaErrorForCopyRead code with
      | replicaErrorTemporary => attemptLoop tries (S attempt) boxID shard pk code lastErr w
      | replicaErrorPermanent => (Exhausted code lastErr, w)
      end
    end
  end.

Definition shardKey (shard : ReplicaDescriptor) (replicaEpoch : Z) : outcome nike_PublicKey :=
  match EnvelopeKeys shard !! replicaEpoch with
  | None | Some [] => Err "no envelope key for shard"
  | Some keyBytes => nike_UnmarshalBinaryPublicKey keyBytes
  end.

Fixpoint shardsLoop (shards : list ReplicaDescriptor) (replicaEpoch : Z) (boxID : bytes) (lastReplicaCode : Z) (lastErr : option string) (w : W)
    : shardResult * W :=
  match shards with
  | [] => (Exhausted lastReplicaCode lastErr, w)
  | shard :: shards =>
    match shardKey shard replicaEpoch with
    | Ok pk =>
      match attemptLoop maxCopyReadTransientAttempts 0 boxID shard pk lastReplicaCode lastErr w with
      | (Exhausted code err, w) => shardsLoop shards replicaEpoch boxID code err w
      | r => r
      end
    | Err e => shardsLoop shards replicaEpoch boxID lastReplicaCode (Some e) w
    | Panic => (Crashed, w)
    end
  end.

(** The reply, the code of the replica that failed, and the world. *)
Definition readBoxFromShardReplicas (boxID : bytes) (w : W) : outcome ReplicaReadReply * Z * W :=
  match PKIDocument w with
  | None => (Err "PKI document is nil", 0, w)
  | Some doc =>
    match GetShards Sum256 blake2b_Sum256 boxID doc with
    | Ok shards =>
      if bool_decide (shards = []) then (Err "no shards available for box", 0, w)
      else
        match shardsLoop shards (replicaNow w) boxID 0 None w with
        | (Found rr, w) => (Ok rr, 0, w)
        | (Exhausted code err, w) => (Err (default "all shard replicas exhausted" err), code, w)
        | (Crashed, w) => (Panic, 0, w)
        end
    | Err e => (Err e, 0, w)
    | Panic => (Panic, 0, w)
    end
  end.

Definition readNextBox (reader : StatefulReader) (boxID : bytes) (w : W) : outcome bytes * Z * StatefulReader * W :=
  match readBoxFromShardReplicas boxID w with
  | (Ok rr, _, w) =>
    match DecryptNext PIGEONHOLE_CTX boxID (rrr_Payload rr) (rrr_Signature rr) reader with
    | (Ok decryptedPadded, reader) => (ExtractMessageFromPaddedPayload decryptedPadded, 0, reader, w)
    | (Err e, reader) => (Err e, 0, reader, w)
    | (Panic, reader) => (Panic, 0, reader, w)
    end
  | (Err e, code, w) => (Err e, code, reader, w)
  | (Panic, code, w) => (Panic, code, reader, w)
  end.

(** ** The command *)

(** The envelopes of a box: all of them are sent, or the code of the one that
    failed; the envelopes that were sent so far are kept. *)
Fixpoint dispatchAll (envelopes processed : list CourierEnvelope) (w : W) : outcome (option Z) * list CourierEnvelope * W :=
  match envelopes with
  | [] => (Ok None, processed, w)
  | envelope :: envelopes =>
    match dispatchCopyEnvelope envelope w with
    | (Ok (true, _), w) => dispatchAll envelopes (processed ++ [envelope]) w
    | (Ok (false, replicaErr), w) => (Ok (Some replicaErr), processed, w)
    | (Err e, w) => (Err e, processed, w)
    | (Panic, w) => (Panic, processed, w)
    end
  end.

(** The reply, the boxes that were read, the envelopes that were sent. *)
Record copyResult := mkCopyResult { cr_reply : outcome CourierQueryReply; boxIDList : list bytes; processed : list CourierEnvelope; cr_world : W }.

Definition failedAt (replicaErr : Z) (boxes : list bytes) (sent : list CourierEnvelope) (w : W) : copyResult :=
  mkCopyResult (Ok (copyFailedReply replicaErr (wrap 64 (Z.of_nat (length sent) + 1)))) boxes sent w.

(** The loop ends: each round reads a box, and there is a limit to them. *)
Fixpoint copyLoop (fuel : nat) (reader : StatefulReader) (decoder : CopyStreamEnvelopeDecoder) (boxes : list bytes) (sent : list CourierEnvelope) (w : W) : copyResult :=
  match fuel with
  | O => failedAt 0 boxes sent w
  | S fuel =>
    if bool_decide (maxCopyStreamBoxes <= length boxes)%nat then failedAt 0 boxes sent w
    else if bool_decide (maxCopyStreamEnvelopes <= length sent)%nat then failedAt 0 boxes sent w
    else
      match NextBoxID reader with
      | Ok boxID =>
        let boxes := boxes ++ [boxID] in
        match readNextBox reader boxID w with
        | (Ok boxPlaintext, _, reader, w) =>
          match DecodeEnvelopes (AddBoxData boxPlaintext decoder) with
          | Ok (envelopes, isFinal, None, decoder) =>
            match dispatchAll envelopes sent w with
            | (Ok None, sent, w) =>
              if isFinal then mkCopyResult (Ok copySucceededReply) boxes sent w else copyLoop fuel reader decoder boxes sent w
            | (Ok (Some replicaErr), sent, w) => failedAt replicaErr boxes sent w
            | (_, sent, w) => mkCopyResult Panic boxes sent w
            end
          | Ok (_, _, Some _, _) => failedAt 0 boxes sent w
          | _ => mkCopyResult Panic boxes sent w
          end
        | (Err _, replicaCode, _, w) => failedAt replicaCode boxes sent w
        | (Panic, _, _, w) => mkCopyResult Panic boxes sent w
        end
      | Err _ => failedAt 0 boxes sent w
      | Panic => mkCopyResult Panic boxes sent w
      end
  end.

Definition processCopyCommand (copyCmd : CopyCommand) (w : W) : copyResult :=
  match NewWriteCapFromBytes (WriteCap copyCmd) with
  | Ok writeCap =>
    match NewStatefulReader (WriteCap_ReadCap writeCap) PIGEONHOLE_CTX with
    | Ok reader => copyLoop (S maxCopyStreamBoxes) reader (NewCopyStreamEnvelopeDecoder g) [] [] w
    | Err _ => mkCopyResult (Ok (copyFailedReply 0 0)) [] [] w
    | Panic => mkCopyResult Panic [] [] w
    end
  | Err _ => mkCopyResult (Ok (copyFailedReply 0 0)) [] [] w
  | Panic => mkCopyResult Panic [] [] w
  end.

(** ** Tombstones

    The goroutine that a command that succeeded starts. *)

Fixpoint sendEach (ids : list Z) (messages : list replicaMessage) (w : W) : W :=
  match ids, messages with
  | id :: ids, m :: messages => sendEach ids messages (SendMessage id m w).2
  | _, _ => w
  end.

Fixpoint dispatchTombstoneLoop (tries attempt : nat) (envHash : bytes) (replicaIDs : list Z) (messages : list replicaMessage) (w : W) : bool * W :=
  match tries with
  | O => (false, w)
  | S tries =>
    let w := sendEach replicaIDs messages (backoff attempt w) in
    let '(replies, w) := awaitReplies envHash (length replicaIDs) copyWriteReplyTimeout w in
    if existsb (fun r => Z.eqb (mr_ErrorCode r) ReplicaSuccess) replies then (true, w)
    else if existsb (fun r => Z.eqb (mr_ErrorCode r) ReplicaErrorBoxAlreadyExists) replies then (false, w)
    else dispatchTombstoneLoop tries (S attempt) envHash replicaIDs messages w
  end.

Definition dispatchTombstone (envHash : bytes) (replicaIDs : list Z) (messages : list replicaMessage) (w : W) : bool * W :=
  dispatchTombstoneLoop maxCopyWriteAttempts 0 envHash replicaIDs messages w.

(** The shards with a key that can be used. *)
Definition usableShards (shards : list ReplicaDescriptor) (replicaEpoch : Z) : list (Z * nike_PublicKey) :=
  omap (fun shard =>
    match EnvelopeKeys shard !! replicaEpoch with
    | None => None
    | Some keyBytes => match nike_UnmarshalBinaryPublicKey keyBytes with Ok pk => Some (ReplicaID shard, pk) | _ => None end
    end) shards.

Definition tombstoneMessage (boxID ciphertext sig : bytes) : ReplicaInnerMessage :=
  mkReplicaInnerMessage 1 None (Some (mkReplicaWrite boxID sig (wrap 32 (Z.of_nat (length ciphertext))) ciphertext)).

(** The tombstone of a box, sealed, to its shards. *)
Definition sendTombstone (doc : Document) (boxID ciphertext sig : bytes) (w : W) : W :=
  match GetShards Sum256 blake2b_Sum256 boxID doc with
  | Ok [s1; s2] =>
    let usable := usableShards [s1; s2] (replicaNow w) in
    if bool_decide (usable = []) then w
    else
      match Bytes (tombstoneMessage boxID ciphertext sig) with
      | Ok inner =>
        let '(rnd, w) := draw w in
        let '(mkemPrivateKey, ct) := mk_Encapsulate rnd (map snd usable) inner in
        let messages := map (fun dek => mkReplicaMessage (nike_Bytes (nike_Public mkemPrivateKey)) dek (mk_Envelope ct)) (take (length usable) (DEKCiphertexts ct)) in
        let envHash := blake2b_Sum256 (nike_Bytes (nike_Public mkemPrivateKey) ++ mk_Envelope ct) in
        (dispatchTombstone envHash (map fst usable) messages w).2
      | _ => w
      end
  | _ => w
  end.

Fixpoint tombstonesLoop (doc : Document) (boxIDs : list bytes) (writer : StatefulWriter) (w : W) : W :=
  match boxIDs with
  | [] => w
  | boxID :: boxIDs =>
    match CreatePaddedPayload [] (PaddedPayloadLength g) with
    | Ok paddedPayload =>
      match EncryptNext paddedPayload writer with
      | (Ok (encBoxID, ciphertext, sig), writer) =>
        let w := if bool_decide (encBoxID = boxID) then sendTombstone doc boxID ciphertext sig w else w in
        tombstonesLoop doc boxIDs writer w
      | (_, writer) => tombstonesLoop doc boxIDs writer w
      end
    | _ => tombstonesLoop doc boxIDs writer w
    end
  end.

Definition writeTombstonesToTempChannel (writeCap : bc_WriteCap) (boxIDs : list bytes) (w : W) : W :=
  match NewStatefulWriter writeCap PIGEONHOLE_CTX with
  | Ok writer =>
    match PKIDocument w with
    | None => w
    | Some doc => tombstonesLoop doc boxIDs writer w
    end
  | _ => w
  end.

(** ** The cache of commands *)

(** A command that is in progress, or its reply and when it ended. *)
Inductive CopyCommandState := InProgress | Completed (Result : CourierQueryReply) (CompletedAt : Z).

Definition stale (now ttl : Z) (state : CopyCommandState) : bool :=
  match state with InProgress => false | Completed _ completedAt => bool_decide (ttl < Sub now completedAt) end.

Definition pruneCopyDedupCacheLocked (now ttl : Z) (c : gmap bytes CopyCommandState) : gmap bytes CopyCommandState :=
  filter (fun '(_, state) => stale now ttl state = false) c.

(** The reply, whether the work is started, and the cache.  The two readings of
    the clock. *)
Definition handleCopyCommand (now now' : Z) (copyCmd : CopyCommand) (c : gmap bytes CopyCommandState) : CourierQueryReply * bool * gmap bytes CopyCommandState :=
  let copyKey := blake2b_Sum256 (WriteCap copyCmd) in
  let start c := (inProgressReply, true, <[copyKey := InProgress]> (pruneCopyDedupCacheLocked now' CopyDedupCacheTTL c)) in
  match c !! copyKey with
  | Some InProgress => (inProgressReply, false, c)
  | Some (Completed result completedAt) => if bool_decide (Sub now completedAt < CopyDedupCacheTTL) then (result, false, c) else start (delete copyKey c)
  | None => start c
  end.

(** The work has ended, with a reply or with a panic. *)
Definition runCopyCommand (result : outcome CourierQueryReply) (now : Z) (copyKey : bytes) (c : gmap bytes CopyCommandState) : gmap bytes CopyCommandState :=
  <[copyKey := Completed (match result with Ok r => r | _ => copyFailedReply 0 0 end) now]> c.

End Copy.
