(* ===== verification/CopyCommand.v ===== *)
(** What the copy command of [CourierCopy] does: every envelope of the stream is
    sent and accepted, or the reply says where it stopped. *)

From S2P Require Import Prelude Schemes ToySchemes SphinxGeo TimerQueue EpochTime PigeonGeo PigeonMessages CopyStream PkiDocument Sharding PigeonPki ReplicaState ReplicaHandlers ReplicaToy ReplicaBoxes ReplicaMessages Bacap Courier CourierCopy.
From Stdlib Require Import ZArith Lia.
From stdpp Require Import prelude list strings gmap.

Local Open Scope Z_scope.

Section Sound.

Context {P : PigeonSizes} {N : Nike} {M : Mkem N} {C : Bacap} {W : Type} {E : World W}.
Context (Sum256 blake2b_Sum256 : bytes -> bytes) (g : PigeonholeGeometry).

(** Both replicas of the envelope were sent it, and one of them answered in time
    that it did what it was asked to. *)
Definition accepted (envelope : CourierEnvelope) : Prop :=
  exists w0 w1 w2 replies, propagateQueryToReplicas SendMessage envelope w0 = (Ok tt, w1) /\
    awaitReplies (CourierEnvelope_EnvelopeHash blake2b_Sum256 envelope) 2 copyWriteReplyTimeout w1 = (replies, w2) /\
    Exists (fun r => mr_ErrorCode r = ReplicaSuccess) replies.

(** The shards of the box gave what is in it. *)
Definition wasRead (boxID plaintext : bytes) : Prop :=
  exists reader w code reader' w', readNextBox Sum256 blake2b_Sum256 reader boxID w = (Ok plaintext, code, reader', w').

Lemma copyVerdict_true replies code : copyVerdict replies = Some (true, code) -> Exists (fun r => mr_ErrorCode r = ReplicaSuccess) replies.
Proof.
  unfold copyVerdict. destruct (existsb _ replies) eqn:Hx; [|by destruct replies].
  apply existsb_exists in Hx as (r & Hr & H0%Z.eqb_eq). intros _. apply Exists_exists. exists r. by rewrite list_elem_of_In.
Qed.

Lemma dispatchCopyLoop_accepted tries attempt envelope w code w' :
  dispatchCopyLoop blake2b_Sum256 tries attempt envelope w = (Ok (true, code), w') -> accepted envelope.
Proof.
  revert attempt w. induction tries as [|tries IH]; intros attempt w; cbn; [done|].
  destruct (propagateQueryToReplicas _ _ _) as [[[]| |] w1] eqn:Hp; [|apply IH|done].
  destruct (awaitReplies _ _ _ w1) as [replies w2] eqn:Ha. destruct (copyVerdict replies) as [v|] eqn:Hv; [|apply IH].
  intros [= -> ->]. eexists _, _, _, _. split_and!; [exact Hp|exact Ha|]. by eapply copyVerdict_true.
Qed.

Lemma dispatchAll_sound envelopes sent w o sent' w' : dispatchAll blake2b_Sum256 envelopes sent w = (o, sent', w') ->
  exists new, sent' = sent ++ new /\ Forall accepted new /\ (o = Ok None -> new = envelopes).
Proof.
  revert sent w. induction envelopes as [|e envelopes IH]; intros sent w; cbn [dispatchAll].
  - intros [= <- <- <-]. exists []. by rewrite app_nil_r.
  - destruct (dispatchCopyEnvelope blake2b_Sum256 e w) as [[[[] code]| |] w1] eqn:Hd.
    + intros Hx. destruct (IH _ _ Hx) as (new & -> & Hacc & Hall). exists (e :: new). rewrite <- app_assoc. split_and!; [done| |].
      * constructor; [|done]. by eapply dispatchCopyLoop_accepted.
      * by intros ->%Hall.
    + intros [= <- <- <-]. exists []. by rewrite app_nil_r.
    + intros [= <- <- <-]. exists []. by rewrite app_nil_r.
    + intros [= <- <- <-]. exists []. by rewrite app_nil_r.
Qed.

(** What a run of the loop has done: it has read [ids], found [plains] in those it
    could read, and sent [new]. *)
Record loopDone (decoder : CopyStreamEnvelopeDecoder) (boxes : list bytes) (sent : list CourierEnvelope) (r : copyResult (W := W)) : Prop := {
  ld_boxes : exists ids, boxIDList r = boxes ++ ids /\ (length boxes <= maxCopyStreamBoxes -> length (boxIDList r) <= maxCopyStreamBoxes)%nat;
  ld_sent : exists new, processed r = sent ++ new /\ Forall accepted new;
  ld_reply reply : cr_reply r = Ok reply ->
    (exists code, reply = copyFailedReply code (wrap 64 (Z.of_nat (length (processed r)) + 1))) \/
    reply = copySucceededReply /\
    exists ids plains new d flags, boxIDList r = boxes ++ ids /\ Forall2 wasRead ids plains /\ processed r = sent ++ new /\
      decodeStream plains decoder = Ok (new, flags ++ [true], d);
}.

Lemma failedAt_done decoder boxes ids sent new code w : Forall accepted new ->
  (length boxes <= maxCopyStreamBoxes -> length (boxes ++ ids) <= maxCopyStreamBoxes)%nat ->
  loopDone decoder boxes sent (failedAt code (boxes ++ ids) (sent ++ new) w).
Proof. intros Hn Hl. split; cbn; [by eexists|by eexists|]. intros reply [= <-]. left. by eexists. Qed.

Lemma panic_done decoder boxes ids sent new w : Forall accepted new ->
  (length boxes <= maxCopyStreamBoxes -> length (boxes ++ ids) <= maxCopyStreamBoxes)%nat ->
  loopDone decoder boxes sent (mkCopyResult Panic (boxes ++ ids) (sent ++ new) w).
Proof. intros Hn Hl. split; cbn; [by eexists|by eexists|done]. Qed.

Lemma copyLoop_done fuel reader decoder boxes sent w :
  loopDone decoder boxes sent (copyLoop Sum256 blake2b_Sum256 fuel reader decoder boxes sent w).
Proof.
  assert (Hstop : forall decoder boxes sent code w, loopDone decoder boxes sent (failedAt code boxes sent w)).
  { intros. rewrite <- (app_nil_r boxes0) at 2. rewrite <- (app_nil_r sent0) at 2. apply failedAt_done; [done|]. by rewrite app_nil_r. }
  revert reader decoder boxes sent w. induction fuel as [|fuel IH]; intros reader decoder boxes sent w; [apply Hstop|]. cbn [copyLoop].
  case_bool_decide as Hb; [apply Hstop|]. case_bool_decide as He; [apply Hstop|].
  destruct (NextBoxID reader) as [boxID| |]; [|apply Hstop|].
  2: { rewrite <- (app_nil_r boxes) at 2. rewrite <- (app_nil_r sent) at 2. apply panic_done; [done|]. by rewrite app_nil_r. }
  assert (Hl : (length boxes <= maxCopyStreamBoxes -> length (boxes ++ [boxID]) <= maxCopyStreamBoxes)%nat).
  { rewrite length_app. cbn. lia. }
  destruct (readNextBox Sum256 blake2b_Sum256 reader boxID w) as [[[[plain| |] code] reader'] w'] eqn:Hr.
  2, 3: rewrite <- (app_nil_r sent) at 2; first [by apply failedAt_done|by apply panic_done].
  destruct (DecodeEnvelopes _) as [[[[envelopes isFinal] [err|]] decoder']| |] eqn:Hd.
  1, 3, 4: rewrite <- (app_nil_r sent) at 2; first [by apply failedAt_done|by apply panic_done].
  destruct (dispatchAll blake2b_Sum256 envelopes sent w') as [[o sent'] w''] eqn:Ha. apply dispatchAll_sound in Ha as (new & -> & Hacc & Hall).
  destruct o as [[replicaErr|]| |]; [by apply failedAt_done| |by apply panic_done|by apply panic_done].
  specialize (Hall eq_refl) as ->. assert (Hwr : wasRead boxID plain) by by eexists _, _, _, _, _.
  destruct isFinal.
  - split; cbn; [by eexists|by eexists|]. intros reply [= <-]. right. split; [done|].
    exists [boxID], [plain], envelopes, decoder', []. split_and!; [done|by repeat constructor|done|]. cbn [decodeStream]. rewrite Hd. go. by rewrite app_nil_r.
  - destruct (IH reader' decoder' (boxes ++ [boxID]) (sent ++ envelopes) w'') as [(ids & Hids & Hlen) (new & Hnew & Hacc') Hrep].
    split.
    + exists (boxID :: ids). rewrite Hids, <- app_assoc. split; [done|]. rewrite Hids, <- app_assoc in Hlen. auto.
    + exists (envelopes ++ new). rewrite Hnew, <- app_assoc. split; [done|]. by apply Forall_app.
    + intros reply Hreply. destruct (Hrep _ Hreply) as [?|(-> & ids' & plains & new' & d & flags & Hi & Hp & Hn & Hdec)]; [by left|right].
      split; [done|]. exists (boxID :: ids'), (plain :: plains), (envelopes ++ new'), d, (false :: flags).
      rewrite Hi, Hn, <- !app_assoc. split_and!; [done|by constructor|done|]. cbn [decodeStream]. rewrite Hd. go. rewrite Hdec. by go.
Qed.

(** The bound of the loop is the limit of boxes. *)
Lemma copyLoop_fuel fuel fuel' reader decoder boxes sent w :
  (maxCopyStreamBoxes < fuel + length boxes)%nat -> (maxCopyStreamBoxes < fuel' + length boxes)%nat ->
  copyLoop Sum256 blake2b_Sum256 fuel reader decoder boxes sent w = copyLoop Sum256 blake2b_Sum256 fuel' reader decoder boxes sent w.
Proof.
  revert fuel' reader decoder boxes sent w. induction fuel as [|fuel IH]; intros [|fuel'] reader decoder boxes sent w Hf Hf'; cbn [copyLoop].
  - done.
  - rewrite bool_decide_eq_true_2 by lia. done.
  - rewrite bool_decide_eq_true_2 by lia. done.
  - repeat case_match; try done. apply IH; rewrite length_app; cbn; lia.
Qed.

End Sound.

(** ** Streams that are there *)

Section Complete.

Context {P : PigeonSizes} {N : Nike} {M : Mkem N} {B : BoxSign} {C : Bacap} {BL : BacapLaws C B} {W : Type} {E : World W}.
Context (Sum256 blake2b_Sum256 : bytes -> bytes) (g : PigeonholeGeometry).

(** From the index [idx] on, the shards have the chunks in the boxes of [wc], as
    the owner of [wc] has sealed them. *)
Inductive streamAt (wc : bc_WriteCap) : MessageBoxIndex -> list bytes -> Prop :=
| stream_nil idx : streamAt wc idx []
| stream_cons idx idx' chunk chunks padded rr :
    NextIndex idx = Ok idx' -> CreatePaddedPayload chunk (PaddedPayloadLength g) = Ok padded ->
    (rrr_Payload rr, rrr_Signature rr) = sealBox wc PIGEONHOLE_CTX idx padded ->
    (forall w, exists w', readBoxFromShardReplicas Sum256 blake2b_Sum256 (boxIDAt (WriteCap_ReadCap wc) PIGEONHOLE_CTX idx) w = (Ok rr, 0, w')) ->
    streamAt wc idx' chunks -> streamAt wc idx (chunk :: chunks).

Lemma padded_extract message size padded : Z.of_nat size < 2 ^ 32 -> CreatePaddedPayload message size = Ok padded ->
  ExtractMessageFromPaddedPayload padded = Ok message /\ length padded = size.
Proof.
  intros Hs Hc. destruct (padded_payload_roundtrip message size) as (p & Hp & Hl & He); [|done|].
  - unfold CreatePaddedPayload in Hc. case_bool_decide; [done|lia].
  - rewrite Hp in Hc. by injection Hc as <-.
Qed.

Context (Hsize : Z.of_nat (PaddedPayloadLength g) < 2 ^ 32).

Lemma readNextBox_ok wc idx idx' chunk padded rr w w' :
  NextIndex idx = Ok idx' -> CreatePaddedPayload chunk (PaddedPayloadLength g) = Ok padded ->
  (rrr_Payload rr, rrr_Signature rr) = sealBox wc PIGEONHOLE_CTX idx padded ->
  readBoxFromShardReplicas Sum256 blake2b_Sum256 (boxIDAt (WriteCap_ReadCap wc) PIGEONHOLE_CTX idx) w = (Ok rr, 0, w') ->
  readNextBox Sum256 blake2b_Sum256 (readerAt (WriteCap_ReadCap wc) PIGEONHOLE_CTX idx) (boxIDAt (WriteCap_ReadCap wc) PIGEONHOLE_CTX idx) w
    = (Ok chunk, 0, readerAt (WriteCap_ReadCap wc) PIGEONHOLE_CTX idx', w').
Proof.
  intros Hn Hp Hs Hr. unfold readNextBox. rewrite Hr. pose proof (bc_decrypt wc PIGEONHOLE_CTX idx idx' padded Hn) as Hd.
  rewrite <- Hs in Hd. cbn [fst snd] in Hd. rewrite Hd. destruct (padded_extract _ _ _ Hsize Hp) as [-> _]. done.
Qed.

(** Every envelope is accepted by a replica. *)
Definition allAccepted (envelopes : list CourierEnvelope) : Prop :=
  Forall (fun e => forall w, exists code w', dispatchCopyEnvelope blake2b_Sum256 e w = (Ok (true, code), w')) envelopes.

Lemma dispatchAll_all envelopes sent w : allAccepted envelopes -> exists w', dispatchAll blake2b_Sum256 envelopes sent w = (Ok None, sent ++ envelopes, w').
Proof.
  intros Ha. revert sent w. induction Ha as [|e envelopes He _ IH]; intros sent w; cbn [dispatchAll].
  - rewrite app_nil_r. by eexists.
  - destruct (He w) as (code & w1 & ->). destruct (IH (sent ++ [e]) w1) as [w2 ->]. rewrite <- app_assoc. by eexists.
Qed.

Lemma copyLoop_complete wc fuel n chunks idx decoder d boxes sent envelopes w :
  decodeStream chunks decoder = Ok (envelopes, replicate n false ++ [true], d) -> streamAt wc idx chunks -> allAccepted envelopes ->
  (length boxes + length chunks <= maxCopyStreamBoxes)%nat -> (length sent + length envelopes < maxCopyStreamEnvelopes)%nat -> (length chunks <= fuel)%nat ->
  exists ids w', copyLoop Sum256 blake2b_Sum256 fuel (readerAt (WriteCap_ReadCap wc) PIGEONHOLE_CTX idx) decoder boxes sent w
      = mkCopyResult (Ok copySucceededReply) (boxes ++ ids) (sent ++ envelopes) w' /\ length ids = length chunks.
Proof.
  intros Hdec Hst. revert fuel n decoder boxes sent envelopes w Hdec.
  induction Hst as [idx|idx idx' chunk chunks padded rr Hn Hp Hs Hr _ IH]; intros fuel n decoder boxes sent envelopes w Hdec Hacc Hb He Hf.
  - cbn in Hdec. by destruct n.
  - cbn [decodeStream] in Hdec. go_inv Hdec. destruct v as [[[envs isFinal] [err|]] decoder']; [done|]. go_inv Hdec. destruct v as [[envs' flags] d'].
    injection Hdec as <- Hfl <-. apply Forall_app in Hacc as [Ha Ha']. rewrite length_app in He. cbn [length] in Hb, Hf.
    destruct fuel as [|fuel]; [lia|]. cbn [copyLoop]. rewrite !bool_decide_eq_false_2 by lia. rewrite bc_nextBoxID.
    destruct (Hr w) as [w1 Hr1]. rewrite (readNextBox_ok wc idx idx' chunk padded rr w w1) by done. rewrite E0.
    destruct (dispatchAll_all envs sent w1 Ha) as [w2 ->].
    destruct n as [|n]; cbn in Hfl; injection Hfl as -> ->.
    + exists [boxIDAt (WriteCap_ReadCap wc) PIGEONHOLE_CTX idx], w2. destruct chunks as [|c chunks]; [|cbn in E1; by repeat (go_inv E1; repeat case_match)].
      cbn in E1. injection E1 as <- <-. by rewrite app_nil_r.
    + destruct (IH fuel n decoder' (boxes ++ [boxIDAt (WriteCap_ReadCap wc) PIGEONHOLE_CTX idx]) (sent ++ envs) envs' w2) as (ids & w3 & -> & Hl);
        [done|done|rewrite length_app; cbn; lia|rewrite length_app; lia|lia|].
      exists (boxIDAt (WriteCap_ReadCap wc) PIGEONHOLE_CTX idx :: ids), w3. rewrite <- !app_assoc. cbn. by rewrite Hl.
Qed.

(** *** What the shards answer *)

Context {NL : NikeLaws N} {ML : MkemLaws M} (nikeByName : string -> option Nike) (sphinxGeo : Geometry).

(** What is sent to the replica [id] is answered by [sv]. *)
Definition delivers (id : Z) (epoch cur : Z) (d : disk) (rn : randomness) (send : bytes -> replicaMessage -> outcome messageReply) (sv : replicaServer) : Prop :=
  forall m r ds s' w, handleReplicaMessage nikeByName Sum256 blake2b_Sum256 sphinxGeo epoch cur epoch d rn send m sv = Ok (r, ds, s') ->
    exists w1 w2, SendMessage id m w = (Ok tt, w1) /\ awaitReplies (EnvelopeHash blake2b_Sum256 m) 1 copyReadReplyTimeout w1 = ([r], w2).

Lemma shard_answers boxID w doc shard pk epoch cur d rn send sv rr :
  formatSizes P -> pigeonholeGeo nikeByName sphinxGeo = Ok g -> wf (mkReplicaRead boxID) ->
  attends Sum256 blake2b_Sum256 sv epoch pk doc boxID -> delivers (ReplicaID shard) epoch cur d rn send sv ->
  handleReplicaRead d cur (mkReplicaRead boxID) (sv_store sv) = Ok rr -> rrr_ErrorCode rr = ReplicaSuccess -> wf rr ->
  (length (rrr_Payload rr) <= CalculateBoxCiphertextLength g)%nat ->
  exists w', tryReadFromShardReplica blake2b_Sum256 boxID shard pk w = (Ok (Some rr, 0), w').
Proof.
  intros Hsz Hg Hwf Hatt Hdel Hread Hcode Hw Hl. unfold tryReadFromShardReplica.
  set (inner := mkReplicaInnerMessage 0 (Some (mkReplicaRead boxID)) None).
  assert (Hwi : wf inner) by (left; eauto). rewrite (Bytes_ok inner Hwi).
  assert (Hpi : ParseMessage (wire inner) = Ok inner).
  { unfold ParseMessage. rewrite <- (app_nil_r (wire _)). by rewrite (rd_print _ _ _ fmt_reads). }
  destruct (draw w) as [rnd w1]. destruct (shard_reads nikeByName Sum256 blake2b_Sum256 sphinxGeo g epoch cur epoch d rn send rnd [pk] 0 pk (wire inner)
    (mkReplicaRead boxID) rr sv doc Hsz Hg Hatt eq_refl Hpi Hread Hw Hl) as (reply & Hh & Hec & _ & Ho).
  pose proof (mk_deks rnd [pk] (wire inner)) as Hdk. pose proof (mk_ephemeral rnd [pk] (wire inner)) as Heph.
  unfold requestOf in Hh, Ho. destruct (mk_Encapsulate rnd [pk] (wire inner)) as [eph ct]. cbn [fst snd] in *. rewrite Heph in Hh.
  destruct (DEKCiphertexts ct) as [|dek deks]; [done|]. change (index (dek :: deks) 0) with (Ok dek). change (default [] ((dek :: deks) !! 0%nat)) with dek in Hh. cbv beta iota.
  destruct (Hdel _ _ _ _ w1 Hh) as (w2 & w3 & -> & ->). rewrite Hec, Hcode. cbn [Z.eqb negb ReplicaSuccess].
  unfold openReply in Ho. go_inv Ho. rewrite E0. go. rewrite Ho. go. cbn [ReadReply]. by eexists.
Qed.

(** A box that a shard has is read from it. *)
Lemma shard_serves boxID w doc shard shards pk epoch cur d rn send sv rr :
  formatSizes P -> pigeonholeGeo nikeByName sphinxGeo = Ok g -> wf (mkReplicaRead boxID) ->
  PKIDocument w = Some doc -> GetShards Sum256 blake2b_Sum256 boxID doc = Ok (shard :: shards) -> shardKey shard (replicaNow w) = Ok pk ->
  attends Sum256 blake2b_Sum256 sv epoch pk doc boxID -> delivers (ReplicaID shard) epoch cur d rn send sv ->
  handleReplicaRead d cur (mkReplicaRead boxID) (sv_store sv) = Ok rr -> rrr_ErrorCode rr = ReplicaSuccess -> wf rr ->
  (length (rrr_Payload rr) <= CalculateBoxCiphertextLength g)%nat ->
  exists w', readBoxFromShardReplicas Sum256 blake2b_Sum256 boxID w = (Ok rr, 0, w').
Proof.
  intros Hsz Hg Hwf Hdoc Hsh Hk Hatt Hdel Hread Hcode Hw Hl. unfold readBoxFromShardReplicas. rewrite Hdoc, Hsh, bool_decide_eq_false_2 by done.
  cbn [shardsLoop]. rewrite Hk. destruct (shard_answers boxID w doc shard pk epoch cur d rn send sv rr) as [w1 Hw1]; [done..|].
  change maxCopyReadTransientAttempts with (S 7). generalize 7%nat. intros k. cbn [attemptLoop backoff]. rewrite Hw1. by eexists.
Qed.

End Complete.



(** ** Tombstones of the courier *)

Lemma copy_at_bytes dst lo hi src : Forall is_byte dst -> Forall is_byte src -> Forall is_byte (copy_at dst lo hi src).
Proof.
  intros Hd Hs. unfold copy_at, copy_into.
  repeat (apply Forall_app; split); repeat first [done|apply Forall_take|apply Forall_drop].
Qed.

Lemma padded_bytes message size padded : Forall is_byte message -> CreatePaddedPayload message size = Ok padded -> Forall is_byte padded.
Proof.
  intros Hb. unfold CreatePaddedPayload. case_bool_decide; [done|]. intros [= <-].
  apply copy_at_bytes; [|done]. apply copy_at_bytes; [|apply be_split_bytes]. apply Forall_replicate. unfold is_byte. lia.
Qed.

(** What the owner of a capability has padded and sealed is a write that replicas
    accept. *)
Lemma sealed_signedWrite {P : PigeonSizes} {B : BoxSign} {C : Bacap} {BL : BacapLaws C B} (g : PigeonholeGeometry) (wc : bc_WriteCap) idx message padded :
  Z.of_nat (CalculateBoxCiphertextLength g) < 2 ^ 32 -> Forall is_byte message -> CreatePaddedPayload message (PaddedPayloadLength g) = Ok padded ->
  let ct := (sealBox wc PIGEONHOLE_CTX idx padded).1 in
  signedWrite g (mkReplicaWrite (boxIDAt (WriteCap_ReadCap wc) PIGEONHOLE_CTX idx) (sealBox wc PIGEONHOLE_CTX idx padded).2 (wrap 32 (Z.of_nat (length ct))) ct).
Proof.
  intros Hsz Hb Hp ct. assert (Hsz' : Z.of_nat (PaddedPayloadLength g) < 2 ^ 32) by (unfold CalculateBoxCiphertextLength, PaddedPayloadLength in *; lia).
  destruct (padded_extract _ _ _ Hsz' Hp) as [_ Hl]. destruct (bc_sizes wc PIGEONHOLE_CTX idx padded) as [Hct Hsg].
  destruct (bc_boxID (WriteCap_ReadCap wc) PIGEONHOLE_CTX idx) as (Hkey & Hbl & Hbb).
  destruct (bc_bytes wc PIGEONHOLE_CTX idx padded) as [Hcb Hsb]; [exact (padded_bytes _ _ _ Hb Hp)|].
  assert (Hlen : length ct = CalculateBoxCiphertextLength g) by (unfold ct; rewrite Hct, Hl; done).
  assert (Hu : wrap 32 (Z.of_nat (length ct)) = Z.of_nat (length ct)) by (apply Z.mod_small; lia). rewrite Hu.
  split; [|cbn [rw_Payload]; unfold ct; intros Hx; rewrite Hx in Hct; cbn in Hct; lia|done|done|apply bc_verifies].
  split_and!; cbn [rw_BoxID rw_Signature rw_PayloadLen rw_Payload]; split; try done; lia.
Qed.

Lemma dispatchTombstone_refused {W : Type} {E : World W} envHash ids messages (w w' : W) replies :
  awaitReplies envHash (length ids) copyWriteReplyTimeout (sendEach ids messages w) = (replies, w') -> replies <> [] ->
  Forall (fun r => mr_ErrorCode r = ReplicaErrorBoxAlreadyExists) replies -> dispatchTombstone envHash ids messages w = (false, w').
Proof.
  intros Ha Hne Hr. unfold dispatchTombstone. change maxCopyWriteAttempts with (S 7). generalize 7%nat. intros k. cbn [dispatchTombstoneLoop backoff]. rewrite Ha.
  destruct Hr as [|r replies Hr Hrs]; [done|]. cbn [existsb]. rewrite Hr. cbn [Z.eqb orb ReplicaErrorBoxAlreadyExists ReplicaSuccess].
  assert (Hx : existsb (fun r => Z.eqb (mr_ErrorCode r) ReplicaSuccess) replies = false).
  { clear -Hrs. induction Hrs as [|x l Hx _ IH]; [done|]. cbn. by rewrite Hx. }
  by rewrite Hx.
Qed.

(** The tombstones of a courier do not delete anything.  What
    [writeTombstonesToTempChannel] sends to the shards for a box of the stream is an
    empty message, padded and sealed like any other, and not an empty payload: a
    shard that has the box answers that it already exists, keeps it as it is, and
    [dispatchTombstone] gives up. *)
Theorem courier_tombstone_refused {P : PigeonSizes} {N : Nike} {B : BoxSign} {C : Bacap} {BL : BacapLaws C B} {W : Type} {E : World W} nikeByName sphinxGeo g
    (wc : bc_WriteCap) idx idx' chunk padded paddedPayload encBoxID ciphertext sig writer d cur s m box :
  pigeonholeGeo nikeByName sphinxGeo = Ok g -> Z.of_nat (CalculateBoxCiphertextLength g) < 2 ^ 32 ->
  NextIndex idx = Ok idx' -> chunk <> [] -> CreatePaddedPayload chunk (PaddedPayloadLength g) = Ok padded ->
  CreatePaddedPayload [] (PaddedPayloadLength g) = Ok paddedPayload ->
  EncryptNext paddedPayload (writerAt wc PIGEONHOLE_CTX idx) = (Ok (encBoxID, ciphertext, sig), writer) ->
  db s = Some m -> storageFull s = false -> wellStored (genuine g) m -> epoch64 cur -> faultless d ->
  lookupBox m encBoxID (keptEpochs cur) = Some box -> (box_Payload box, box_Signature box) = sealBox wc PIGEONHOLE_CTX idx padded ->
  (exists w, WriteMsg (tombstoneMessage encBoxID ciphertext sig) = Some w /\ rw_Payload w <> [] /\
    handleReplicaWrite nikeByName sphinxGeo d cur w s = Ok (ReplicaErrorBoxAlreadyExists, s)) /\
  (forall envHash ids messages (w w' : W) replies,
    awaitReplies envHash (length ids) copyWriteReplyTimeout (sendEach ids messages w) = (replies, w') -> replies <> [] ->
    Forall (fun r => mr_ErrorCode r = ReplicaErrorBoxAlreadyExists) replies -> dispatchTombstone envHash ids messages w = (false, w')).
Proof.
  intros Hg Hsz Hn Hne Hp Hp0 Henc Hdb Hfull Hst Hcur Hd Hbox Hpay. split; [|apply dispatchTombstone_refused]. rewrite (bc_encrypt _ _ _ _ _ Hn) in Henc. injection Henc as <- <- <- <-.
  assert (Hsz' : Z.of_nat (PaddedPayloadLength g) < 2 ^ 32) by (unfold CalculateBoxCiphertextLength, PaddedPayloadLength in *; lia).
  destruct (padded_extract _ _ _ Hsz' Hp) as [He _]. destruct (padded_extract _ _ _ Hsz' Hp0) as [He0 _].
  pose proof (sealed_signedWrite g wc idx [] paddedPayload Hsz (Forall_nil_2 _) Hp0) as Hw. cbn zeta in Hw. set (w := mkReplicaWrite _ _ _ _) in Hw.
  exists w. split; [reflexivity|]. split; [apply (sw_payload _ _ Hw)|].
  rewrite (signedWrite_result nikeByName sphinxGeo g d cur w s m) by done. cbn [rw_BoxID w]. rewrite Hbox.
  assert (Hdiff : bool_decide (box_Payload box = rw_Payload w) && bool_decide (box_Signature box = rw_Signature w) = false); [|by rewrite Hdiff].
  apply not_true_is_false. intros [Hx%bool_decide_eq_true Hy%bool_decide_eq_true]%andb_true_iff. cbn in Hx, Hy. rewrite Hx, Hy in Hpay.
  pose proof (bc_decrypt wc PIGEONHOLE_CTX idx idx' padded Hn) as D1. rewrite <- Hpay in D1. cbn [fst snd] in D1.
  rewrite (bc_decrypt wc PIGEONHOLE_CTX idx idx' paddedPayload Hn) in D1. injection D1 as ->. congruence.
Qed.
