(* ===== verification/CopyWitness.v ===== *)
(** A small BACAP scheme with its laws, a world in which one replica answers, and
    the copy command there. *)

From S2P Require Import Prelude Schemes ToySchemes SphinxGeo TimerQueue EpochTime PigeonGeo PigeonMessages CopyStream PkiDocument Sharding PigeonPki ReplicaState ReplicaHandlers ReplicaToy ReplicaBoxes ReplicaMessages Bacap Courier CourierCopy CopyCommand.
From Stdlib Require Import ZArith Lia.
From stdpp Require Import prelude list strings gmap.

Local Open Scope Z_scope.

(** Indexes are numbers; a reader and a writer are their index. *)
Definition toyBoxIDAt (idx : Z) : bytes := replicate 31 7 ++ [idx mod 256].
Definition toySeal (idx : Z) (p : bytes) : bytes * bytes := let ct := p ++ zeros 16 in (ct, spread (checksum (toyBoxIDAt idx ++ ct)) 64).

#[export] Instance toyBacap : Bacap := {|
  bc_WriteCap := unit;
  bc_ReadCap := unit;
  MessageBoxIndex := Z;
  StatefulReader := Z;
  StatefulWriter := Z;
  NewWriteCapFromBytes _ := Ok tt;
  WriteCap_ReadCap _ := tt;
  NewEmptyMessageBoxIndexFromBytes b := match b with [x] => Ok x | _ => Err "index" end;
  NextIndex idx := Ok (idx + 1);
  NewStatefulReader _ _ := Ok 0;
  NewStatefulReaderWithIndex _ _ idx := Ok idx;
  NextBoxID idx := Ok (toyBoxIDAt idx);
  DecryptNext _ boxID ct sig idx :=
    if bool_decide (boxID = toyBoxIDAt idx /\ sig = spread (checksum (toyBoxIDAt idx ++ ct)) 64) then (Ok (take (length ct - 16) ct), idx + 1)
    else (Err "verification failed", idx);
  NewStatefulWriter _ _ := Ok 0;
  NewStatefulWriterWithIndex _ _ idx := Ok idx;
  PrepareNext p idx := Ok (toyBoxIDAt idx, (toySeal idx p).1, (toySeal idx p).2);
  EncryptNext p idx := (Ok (toyBoxIDAt idx, (toySeal idx p).1, (toySeal idx p).2), idx + 1);
  setNextIndex idx _ := idx;
  writerNextIndex idx := idx;
  SignBox idx _ _ p := (toyBoxIDAt idx, spread (checksum (toyBoxIDAt idx ++ p)) 64);
|}.

#[export] Instance toyBacapLaws : BacapLaws toyBacap toyBoxSign.
Proof.
  refine {| firstIndex _ := 0 : @MessageBoxIndex toyBacap; readerAt _ _ idx := idx : @StatefulReader toyBacap; writerAt _ _ idx := idx : @StatefulWriter toyBacap;
    boxIDAt _ _ idx := toyBoxIDAt idx; sealBox _ _ idx p := toySeal idx p |}; try done.
  - by intros wc ctx idx idx' p [= <-].
  - intros wc ctx idx idx' p [= <-]. cbn -[toyBoxIDAt spread checksum zeros]. rewrite bool_decide_eq_true_2 by done. do 2 f_equal. rewrite length_app.
    change (length (zeros 16)) with 16%nat. rewrite Nat.add_sub. by rewrite take_app_length.
  - intros wc ctx idx p. cbn [fst snd toySeal]. rewrite length_app, length_spread. done.
  - intros wc ctx idx p Hp. cbn [fst snd toySeal]. split.
    + apply Forall_app. split; [done|]. apply Forall_replicate. unfold is_byte. lia.
    + unfold spread. apply Forall_fmap, Forall_forall. intros z _. apply mod256_byte.
  - intros rc ctx idx. cbn -[toyBoxIDAt]. split_and!; [done|done|]. apply Forall_app. split; [apply Forall_replicate; unfold is_byte; lia|].
    constructor; [apply mod256_byte|done].
  - intros wc ctx idx p. cbn -[toyBoxIDAt spread checksum zeros]. by rewrite bool_decide_eq_true_2.
Defined.

(** *** A stream in the store of a replica *)

Abbreviation toyChunks := (match encodeStream toySmall [toyEnvelope 8] with Ok l => l | _ => [] end).

Definition toySealed (idx : Z) (chunk : bytes) : ReplicaWrite :=
  match CreatePaddedPayload chunk (PaddedPayloadLength toySmall) with
  | Ok padded => mkReplicaWrite (toyBoxIDAt idx) (toySeal idx padded).2 (Z.of_nat (length (toySeal idx padded).1)) (toySeal idx padded).1
  | _ => mkReplicaWrite [] [] 0 []
  end.

Fixpoint writeChunks (idx : Z) (chunks : list bytes) (s : boxStore) : boxStore :=
  match chunks with
  | [] => s
  | chunk :: chunks =>
    match handleReplicaWrite toyRegistry toySphinx goodDisk 3 (toySealed idx chunk) s with
    | Ok (_, s) => writeChunks (idx + 1) chunks s
    | _ => s
    end
  end.

Definition toyKeeper : replicaServer :=
  Eval vm_compute in setStore (toyServer 0) (writeChunks 0 toyChunks toyStore).

Abbreviation toyKeeps m := (handleReplicaMessage toyRegistry toyBlake toyBlake toySphinx 3 3 3 goodDisk (mkRandomness [] [] []) (fun _ _ => Err "none") m toyKeeper).

(** The world is what was sent; the keeper is the replica 0, and the others accept
    everything. *)
#[export] Instance toyWorld : World (list (Z * replicaMessage)) := {|
  SendMessage id m w := (Ok tt, (id, m) :: w);
  awaitReplies h n t w :=
    match w with
    | (id, m) :: _ => (if Z.eqb id 0 then match toyKeeps m with Ok (r, _, _) => [r] | _ => [] end else [mkMessageReply 0 h [] 1], w)
    | [] => ([], w)
    end;
  sleep _ w := w;
  draw w := ([9], w);
  PKIDocument _ := Some toyReplicas;
  replicaNow _ := 3;
|}.

Lemma toyKeeper_delivers : delivers toyBlake toyBlake toyRegistry toySphinx 0 3 3 goodDisk (mkRandomness [] [] []) (fun _ _ => Err "none") toyKeeper.
Proof. intros m r ds s' w Hm. eexists _, _. split; [reflexivity|]. unfold awaitReplies, toyWorld. cbn [Z.eqb]. rewrite Hm. reflexivity. Qed.

Lemma toyKeeper_attends idx : attends toyBlake toyBlake toyKeeper 3 (toyPublic 0) toyReplicas (toyBoxIDAt idx).
Proof.
  split.
  - reflexivity.
  - exists 0. reflexivity.
  - exists 3, (@nike_GeneratePrivateKey toyNike [0]). split_and!; try done; lia.
  - lia.
  - exists [toyReplicaNode 0; toyReplicaNode 1]. split; [vm_compute; reflexivity|reflexivity].
Qed.

(** The keeper has a chunk in the box of an index. *)
Definition toyHas (idx : Z) (chunk : bytes) : bool :=
  match CreatePaddedPayload chunk (PaddedPayloadLength toySmall) with
  | Ok padded =>
    bool_decide (Forall (fun x => 0 <= x /\ x < 256) chunk) &&
    match handleReplicaRead goodDisk 3 (mkReplicaRead (toyBoxIDAt idx)) (sv_store toyKeeper) with
    | Ok rr => Z.eqb (rrr_ErrorCode rr) ReplicaSuccess && bool_decide (rrr_BoxID rr = toyBoxIDAt idx) && bool_decide (rrr_Signature rr = (toySeal idx padded).2) &&
        Z.eqb (rrr_PayloadLen rr) (Z.of_nat (length (rrr_Payload rr))) && bool_decide (rrr_Payload rr = (toySeal idx padded).1)
    | _ => false
    end
  | _ => false
  end.

Lemma toyHas_stream idx chunk chunks : toyHas idx chunk = true -> streamAt toyBlake toyBlake toySmall tt (idx + 1) chunks ->
  streamAt toyBlake toyBlake toySmall tt (idx : @MessageBoxIndex toyBacap) (chunk :: chunks).
Proof.
  intros Hh Hs. unfold toyHas in Hh. destruct (CreatePaddedPayload chunk _) as [padded| |] eqn:Hp; [|done..].
  apply andb_true_iff in Hh as [Hb%bool_decide_eq_true Hh]. destruct (handleReplicaRead _ _ _ _) as [rr| |] eqn:Hr; [|done..].
  rewrite !andb_true_iff, !bool_decide_eq_true, !Z.eqb_eq in Hh. destruct Hh as [[[[Hc Hi] Hg] Hn] Hpl].
  destruct (padded_extract chunk (PaddedPayloadLength toySmall) padded eq_refl Hp) as [_ Hlen].
  destruct (bc_sizes (tt : @bc_WriteCap toyBacap) PIGEONHOLE_CTX (idx : @MessageBoxIndex toyBacap) padded) as [Hl1 Hl2].
  destruct (bc_bytes (tt : @bc_WriteCap toyBacap) PIGEONHOLE_CTX (idx : @MessageBoxIndex toyBacap) padded) as [Hb1 Hb2]; [by apply (padded_bytes chunk (PaddedPayloadLength toySmall))|].
  destruct (bc_boxID (tt : @bc_ReadCap toyBacap) PIGEONHOLE_CTX (idx : @MessageBoxIndex toyBacap)) as (_ & Hbl & Hbb). change (length (toyBoxIDAt idx) = 32%nat) in Hbl.
  change (length (toySeal idx padded).2 = 64%nat) in Hl2. change (Forall is_byte (toyBoxIDAt idx)) in Hbb.
  change (Forall is_byte (toySeal idx padded).1) in Hb1. change (Forall is_byte (toySeal idx padded).2) in Hb2.
  assert (Hl : length (rrr_Payload rr) = 52%nat) by (rewrite Hpl; rewrite Hlen in Hl1; exact Hl1).
  econstructor; [reflexivity|exact Hp| | |exact Hs].
  - rewrite Hg, Hpl. symmetry. apply surjective_pairing.
  - intros w. change (boxIDAt _ _ _) with (toyBoxIDAt idx). eapply (shard_serves toyBlake toyBlake toySmall toyRegistry toySphinx); try done.
    + apply toyKeeper_attends.
    + apply toyKeeper_delivers.
    + split_and!; rewrite ?Hc, ?Hi, ?Hg, ?Hn; [done|split; [by rewrite Hbl|done]|split; [by rewrite Hl2|done]|split; [lia|rewrite Hl; done]|split; [done|by rewrite Hpl]].
    + rewrite Hl. done.
Qed.


Abbreviation toyTemp := (mkBoxStore (Some {[ boxKey 3 (toyBoxIDAt 0) := wire (boxOf (toySealed 0 [4])) ]}) ∅ false).

Definition allBytes (l : bytes) : bool := forallb (fun x => bool_decide (0 <= x) && bool_decide (x < 256)) l.

Lemma allBytes_ok l : allBytes l = true -> Forall is_byte l.
Proof.
  intros Hb. apply Forall_forall. intros x Hx. apply (proj1 (forallb_forall _ _)) with (x := x) in Hb; [|by apply list_elem_of_In].
  apply andb_true_iff in Hb as [H0%bool_decide_eq_true H1%bool_decide_eq_true]. by split.
Qed.

Lemma toySealed_signed : signedWrite toySmall (toySealed 0 [4]).
Proof. split; [|done..]. split_and!; split; try done; apply allBytes_ok; vm_compute; reflexivity. Qed.

Lemma courier_tombstone_refused_witness : exists w,
  WriteMsg (tombstoneMessage (toyBoxIDAt 0) (rw_Payload (toySealed 0 [])) (rw_Signature (toySealed 0 []))) = Some w /\ rw_Payload w <> [] /\
  handleReplicaWrite toyRegistry toySphinx goodDisk 3 w toyTemp = Ok (ReplicaErrorBoxAlreadyExists, toyTemp).
Proof.
  destruct (courier_tombstone_refused (W := list (Z * replicaMessage)) toyRegistry toySphinx toySmall (tt : @bc_WriteCap toyBacap) 0 1 [4]
    (match CreatePaddedPayload [4] (PaddedPayloadLength toySmall) with Ok p => p | _ => [] end)
    (match CreatePaddedPayload [] (PaddedPayloadLength toySmall) with Ok p => p | _ => [] end)
    (toyBoxIDAt 0) (rw_Payload (toySealed 0 [])) (rw_Signature (toySealed 0 [])) 1 goodDisk 3 toyTemp
    {[ boxKey 3 (toyBoxIDAt 0) := wire (boxOf (toySealed 0 [4])) ]} (boxOf (toySealed 0 [4]))) as [Hw _]; [..|exact Hw].
  - exact toySmall_geo.
  - reflexivity.
  - reflexivity.
  - discriminate.
  - vm_compute. reflexivity.
  - vm_compute. reflexivity.
  - vm_compute. reflexivity.
  - reflexivity.
  - reflexivity.
  - apply (wellStored_insert (genuine toySmall) ∅ 3 (boxOf (toySealed 0 [4]))); [apply map_Forall_empty|apply newBox_wf, toySealed_signed|
      apply signedWrite_genuine, toySealed_signed|by unfold epoch64].
  - by unfold epoch64.
  - by split.
  - vm_compute. reflexivity.
  - vm_compute. reflexivity.
Defined.

(** *** A reply that is kept *)

Abbreviation toyHash := (CourierEnvelope_EnvelopeHash toyBlake (toyEnvelope 8)).
Abbreviation toyReply := (mkMessageReply 0 toyHash [6; 6] 1).
Abbreviation toyKept := (match courierRun toyBlake [OnEnvelope 7 None 0 0 0 (toyEnvelope 8); OnReply toyReply] NewCourier with Ok e => e | _ => NewCourier end).

Lemma cached_reply_served_witness : exists e',
  courierRun toyBlake [OnDispatched toyHash; OnReply (mkMessageReply 1 toyHash [] 1); OnEnvelope 7 None minute minute 0 (toyEnvelope 9)] toyKept = Ok e' /\
  cacheHandleCourierEnvelope toyBlake 8 None minute minute 0 (toyEnvelope 8) e' = Ok (envelopeReply toyHash 0 ReplyTypePayload [6; 6] EnvelopeErrorSuccess, false, e').
Proof.
  destruct (courierRun toyBlake [OnDispatched toyHash; OnReply (mkMessageReply 1 toyHash [] 1); OnEnvelope 7 None minute minute 0 (toyEnvelope 9)] toyKept)
    as [e'| |] eqn:He; [|vm_compute in He; discriminate He..].
  exists e'. split; [reflexivity|].
  destruct (cached_reply_served toyBlake [OnEnvelope 7 None 0 0 0 (toyEnvelope 8); OnReply toyReply]
    [OnDispatched toyHash; OnReply (mkMessageReply 1 toyHash [] 1); OnEnvelope 7 None minute minute 0 (toyEnvelope 9)] toyKept e' (toyEnvelope 8)
    (mkBookKeeping 0 0 0 (1, 2) (Some toyReply, None)) false toyReply 8 None minute minute 0) as (_ & _ & Hc); [..|exact Hc].
  - vm_compute. reflexivity.
  - vm_compute. reflexivity.
  - reflexivity.
  - reflexivity.
  - discriminate.
  - exact He.
  - repeat constructor. cbn. unfold Sub. vm_compute. discriminate.
  - reflexivity.
  - reflexivity.
Defined.
