(* ===== verification/ClientEnvelopes.v ===== *)
(** Envelopes on the client: [client/pigeonhole.go] (encryption of reads and writes,
    decryption of replies), [client/envelope_descriptor.go] and the decryption in
    [client/daemon.go].

    A request gives an error code or what is needed to send it and to read the
    reply.  CBOR and the encoding of private keys are parameters. *)

From S2P Require Import Prelude Schemes SphinxGeo TimerQueue EpochTime PigeonGeo PigeonMessages PkiDocument Sharding PigeonPki ReplicaHandlers Bacap Courier.
From Stdlib Require Import ZArith Lia.
From stdpp Require Import prelude list strings gmap.

Local Open Scope Z_scope.

Definition ThinClientSuccess : Z := 0.
Definition ThinClientErrorInvalidRequest : Z := 3.
Definition ThinClientErrorInternalError : Z := 4.
Definition ThinClientErrorMKEMDecryptionFailed : Z := 22.
Definition ThinClientErrorBACAPDecryptionFailed : Z := 23.
Definition ThinClientErrorStartResendingCancelled : Z := 24.
Definition ThinClientErrorInvalidTombstoneSig : Z := 25.
Definition ThinClientErrorCopyCommandFailed : Z := 26.

Record EnvelopeDescriptor := mkEnvelopeDescriptor { desc_Epoch : Z; ReplicaNums : Z * Z; EnvelopeKey : bytes }.

(** [cbor.Marshal] and [cbor.Unmarshal] of descriptors, and the encoding of the
    private keys of the scheme. *)
Class DescriptorCodec (N : Nike) := {
  marshalDescriptor : EnvelopeDescriptor -> outcome bytes;
  unmarshalDescriptor : bytes -> outcome EnvelopeDescriptor;
  privateKeyBytes : nike_PrivateKey -> bytes;
  unmarshalPrivateKey : bytes -> outcome nike_PrivateKey;
}.

Class DescriptorCodecLaws {N : Nike} (D : DescriptorCodec N) : Prop := {
  dc_descriptor desc : exists b, marshalDescriptor desc = Ok b /\ unmarshalDescriptor b = Ok desc;
  dc_key sk : unmarshalPrivateKey (privateKeyBytes sk) = Ok sk;
}.

(** What a thin client gets for a read or a write. *)
Record encryptReply {C : Bacap} := mkEncryptReply {
  MessageCiphertext : bytes;
  er_EnvelopeDescriptor : bytes;
  er_EnvelopeHash : bytes;
  NextMessageBoxIndex : MessageBoxIndex;
}.
Arguments encryptReply C : clear implicits.
Arguments mkEncryptReply {C} _ _ _ _.

(** Errors of a step end the request with a code. *)
Definition orCode {A B} (code : Z) (o : outcome A) (k : A -> outcome (Z + B)) : outcome (Z + B) :=
  match o with Ok a => k a | Err _ => Ok (inl code) | Panic => Panic end.

Section Client.

Context {P : PigeonSizes} {N : Nike} {M : Mkem N} {C : Bacap} {D : DescriptorCodec N}.
Context (Sum256 blake2b_Sum256 : bytes -> bytes) (Period : Z) (geo : option PigeonholeGeometry).

(** ** Requests *)

(** [epoch]: what [ReplicaNow] gives; [draws], [rnd]: random numbers and bytes. *)
Definition createEnvelopeFromMessageWithPadding (epoch : Z) (draws : list Z) (rnd : bytes) (msg : ReplicaInnerMessage) (doc : Document) (isRead : bool) (replyIndex : Z)
    (geo : option PigeonholeGeometry) : outcome (CourierEnvelope * nike_PrivateKey) :=
  boxid ← (if isRead then r ← deref (ReadMsg msg); Ok (rr_BoxID r) else w ← deref (WriteMsg msg); Ok (rw_BoxID w));
  '(r1, r2, replicaPubKeys) ← GetRandomIntermediateReplicas Sum256 blake2b_Sum256 epoch (Some doc) boxid draws;
  msgBytes ← match geo with Some _ => PadInnerMessageForEncryption msg geo | None => Bytes msg end;
  let '(mkemPrivateKey, ct) := mk_Encapsulate rnd replicaPubKeys msgBytes in
  d1 ← index (DEKCiphertexts ct) 0;
  d2 ← index (DEKCiphertexts ct) 1;
  let senderPubkeyBytes := nike_Bytes (nike_Public mkemPrivateKey) in
  Ok (mkCourierEnvelope [r1; r2] (copy_into (zeros 60) d1) (copy_into (zeros 60) d2) replyIndex
        (ConvertNormalToReplicaEpoch Period (doc_Epoch doc))
        (wrap 16 (Z.of_nat (length senderPubkeyBytes))) senderPubkeyBytes
        (wrap 32 (Z.of_nat (length (mk_Envelope ct)))) (mk_Envelope ct),
      mkemPrivateKey).

(** The end of [encryptRead] and [encryptWrite]. *)
Definition encryptEnvelope (epoch : Z) (draws : list Z) (rnd : bytes) (msg : ReplicaInnerMessage) (doc : Document) (isRead : bool) (idx : MessageBoxIndex)
    : outcome (Z + encryptReply C) :=
  orCode ThinClientErrorInternalError (createEnvelopeFromMessageWithPadding epoch draws rnd msg doc isRead 0 geo) (fun '(courierEnvelope, envelopePrivateKey) =>
  i0i1 ← (i0 ← index (IntermediateReplicas courierEnvelope) 0; i1 ← index (IntermediateReplicas courierEnvelope) 1; Ok (i0, i1));
  orCode ThinClientErrorInternalError
    (marshalDescriptor (mkEnvelopeDescriptor (ConvertNormalToReplicaEpoch Period (doc_Epoch doc)) i0i1 (privateKeyBytes envelopePrivateKey))) (fun envelopeDescriptorBytes =>
  orCode ThinClientErrorInternalError (NextIndex idx) (fun nextMessageBoxIndex =>
  ciphertext ← Bytes (mkCourierQuery 0 (Some courierEnvelope) None);
  Ok (inr (mkEncryptReply ciphertext envelopeDescriptorBytes (CourierEnvelope_EnvelopeHash blake2b_Sum256 courierEnvelope) nextMessageBoxIndex))))).

Definition encryptRead (epoch : Z) (draws : list Z) (rnd : bytes) (readCap : option bc_ReadCap) (messageBoxIndex : option MessageBoxIndex) (doc : option Document)
    : outcome (Z + encryptReply C) :=
  match readCap, messageBoxIndex with
  | None, _ | _, None => Ok (inl ThinClientErrorInvalidRequest)
  | Some readCap, Some idx =>
    orCode ThinClientErrorInternalError (NewStatefulReaderWithIndex readCap PIGEONHOLE_CTX idx) (fun statefulReader =>
    orCode ThinClientErrorInternalError (NextBoxID statefulReader) (fun boxID =>
    match doc with
    | None => Ok (inl ThinClientErrorInternalError)
    | Some doc => encryptEnvelope epoch draws rnd (mkReplicaInnerMessage 0 (Some (mkReplicaRead boxID)) None) doc true idx
    end))
  end.

Definition writeInnerMessage (boxID ciphertext sig : bytes) : ReplicaInnerMessage :=
  mkReplicaInnerMessage 1 None (Some (mkReplicaWrite boxID sig (wrap 32 (Z.of_nat (length ciphertext))) ciphertext)).

(** An empty plaintext is a tombstone: the empty payload is signed. *)
Definition sealWrite (writeCap : bc_WriteCap) (idx : MessageBoxIndex) (plaintext : bytes) (g : PigeonholeGeometry) (k : bytes -> bytes -> bytes -> outcome (Z + encryptReply C))
    : outcome (Z + encryptReply C) :=
  match plaintext with
  | [] => let '(boxID, sigraw) := SignBox idx writeCap PIGEONHOLE_CTX [] in k boxID [] (copy_into (zeros 64) sigraw)
  | _ =>
    if bool_decide (MaxPlaintextPayloadLength g + 4 < length plaintext + 4)%nat then Ok (inl ThinClientErrorInvalidRequest)
    else
      orCode ThinClientErrorInternalError (CreatePaddedPayload plaintext (MaxPlaintextPayloadLength g + 4)) (fun paddedPayload =>
      orCode ThinClientErrorInternalError (NewStatefulWriterWithIndex writeCap PIGEONHOLE_CTX idx) (fun statefulWriter =>
      orCode ThinClientErrorInternalError (PrepareNext paddedPayload statefulWriter) (fun '(boxID, ciphertext, sigraw) =>
      k boxID ciphertext (copy_into (zeros 64) sigraw))))
  end.

Definition encryptWrite (epoch : Z) (draws : list Z) (rnd : bytes) (writeCap : option bc_WriteCap) (messageBoxIndex : option MessageBoxIndex) (plaintext : option bytes)
    (doc : option Document) : outcome (Z + encryptReply C) :=
  match writeCap, messageBoxIndex, plaintext with
  | None, _, _ | _, None, _ | _, _, None => Ok (inl ThinClientErrorInvalidRequest)
  | Some writeCap, Some idx, Some plaintext =>
    match doc, geo with
    | None, _ | _, None => Ok (inl ThinClientErrorInternalError)
    | Some doc, Some g =>
      sealWrite writeCap idx plaintext g (fun boxID ciphertext sig => encryptEnvelope epoch draws rnd (writeInnerMessage boxID ciphertext sig) doc false idx)
    end
  end.

(** ** Replies *)

Inductive clientError := replicaError (code : Z) | errMKEMDecryptionFailed | errBACAPDecryptionFailed | otherError.

Fixpoint tryDecryptMKEMWithReplicas (privateKey : nike_PrivateKey) (envelope : bytes) (replicaNums : list Z) (replicaPubKeys : gmap Z nike_PublicKey)
    : clientError + bytes * Z :=
  match replicaNums with
  | [] => inl errMKEMDecryptionFailed
  | replicaNum :: replicaNums =>
    match replicaPubKeys !! replicaNum with
    | None => tryDecryptMKEMWithReplicas privateKey envelope replicaNums replicaPubKeys
    | Some pubKey =>
      match mk_DecryptEnvelope privateKey pubKey envelope with
      | Ok decrypted => inr (decrypted, replicaNum)
      | _ => tryDecryptMKEMWithReplicas privateKey envelope replicaNums replicaPubKeys
      end
    end
  end.

(** The keys of the replicas; those that cannot be used are left out. *)
Definition addReplicaKey (doc : Document) (replicaEpoch : Z) (keys : gmap Z nike_PublicKey) (num : Z) : gmap Z nike_PublicKey :=
  match ReplicaNum num doc with
  | Ok desc =>
    match EnvelopeKeys desc !! replicaEpoch with
    | None | Some [] => keys
    | Some keyBytes => match nike_UnmarshalBinaryPublicKey keyBytes with Ok pk => <[num := pk]> keys | _ => keys end
    end
  | _ => keys
  end.

Definition replicaPubKeysOf (doc : Document) (replicaEpoch : Z) (nums : list Z) : gmap Z nike_PublicKey := foldl (addReplicaKey doc replicaEpoch) ∅ nums.

Definition decryptMKEMEnvelope (doc : option Document) (payload : bytes) (desc : EnvelopeDescriptor) (privateKey : nike_PrivateKey)
    : clientError + ReplicaMessageReplyInnerMessage :=
  match doc with
  | None => inl otherError
  | Some doc =>
    let nums := [fst (ReplicaNums desc); snd (ReplicaNums desc)] in
    match tryDecryptMKEMWithReplicas privateKey payload nums (replicaPubKeysOf doc (desc_Epoch desc) nums) with
    | inl e => inl e
    | inr (rawInnerMsg, _) =>
      match (ParseMessage rawInnerMsg : outcome ReplicaMessageReplyInnerMessage) with
      | Ok innerMsg => inr innerMsg
      | _ => inl otherError
      end
    end
  end.

Inductive innerMessageType := innerMessageRead | innerMessageWrite.

Definition classifyInnerMessage (msg : ReplicaMessageReplyInnerMessage) : clientError + innerMessageType :=
  if Z.eqb (rmr_MessageType msg) 0 then match ReadReply msg with None => inl otherError | Some _ => inr innerMessageRead end
  else if Z.eqb (rmr_MessageType msg) 1 then match WriteReply msg with None => inl otherError | Some _ => inr innerMessageWrite end
  else inl otherError.

(** Whether to go on, whether the box is a tombstone. *)
Definition classifyReadReplyError (errorCode : Z) : clientError + bool :=
  if Z.eqb errorCode 0 then inr false
  else if Z.eqb errorCode ReplicaErrorTombstone then inr true
  else inl (replicaError errorCode).

Definition classifyWriteReply (errorCode : Z) : clientError + bytes :=
  if negb (Z.eqb errorCode 0) then inl (replicaError errorCode) else inr [].

(** What the client keeps about a message it has sent. *)
Record sentMessage := mkSentMessage {
  sm_EnvelopeDescriptor : bytes;
  sm_IsRead : bool;
  sm_ReadCap : option bc_ReadCap;
  sm_MessageBoxIndex : option bytes;
}.

Definition decryptReadReply (rr : ReplicaReadReply) (readCap : bc_ReadCap) (indexBytes : bytes) : clientError + bytes :=
  match NewEmptyMessageBoxIndexFromBytes indexBytes with
  | Ok messageBoxIndex =>
    match NewStatefulReaderWithIndex readCap PIGEONHOLE_CTX messageBoxIndex with
    | Ok statefulReader =>
      match (DecryptNext PIGEONHOLE_CTX (rrr_BoxID rr) (rrr_Payload rr) (rrr_Signature rr) statefulReader).1 with
      | Ok plaintext => if Z.eqb (rrr_ErrorCode rr) ReplicaErrorTombstone then inl (replicaError ReplicaErrorTombstone) else inr plaintext
      | _ =>
        if Z.eqb (rrr_ErrorCode rr) ReplicaErrorTombstone then inl (replicaError ThinClientErrorInvalidTombstoneSig)
        else inl errBACAPDecryptionFailed
      end
    | _ => inl errBACAPDecryptionFailed
    end
  | _ => inl errBACAPDecryptionFailed
  end.

Definition decryptPigeonholeReply (doc : option Document) (sm : sentMessage) (payload : bytes) : clientError + bytes :=
  match unmarshalDescriptor (sm_EnvelopeDescriptor sm) with
  | Ok envelopeDesc =>
    match unmarshalPrivateKey (EnvelopeKey envelopeDesc) with
    | Ok privateKey =>
      match decryptMKEMEnvelope doc payload envelopeDesc privateKey with
      | inl e => inl e
      | inr innerMsg =>
        match classifyInnerMessage innerMsg, ReadReply innerMsg, WriteReply innerMsg with
        | inr innerMessageRead, Some rr, _ =>
          match classifyReadReplyError (rrr_ErrorCode rr) with
          | inl e => inl e
          | inr _ =>
            match sm_IsRead sm, sm_ReadCap sm, sm_MessageBoxIndex sm with
            | true, Some readCap, Some indexBytes => decryptReadReply rr readCap indexBytes
            | _, _, _ => inr (rrr_Payload rr)
            end
          end
        | inr innerMessageWrite, _, Some wr => classifyWriteReply (rwr_ErrorCode wr)
        | inl e, _, _ => inl e
        | _, _, _ => inl otherError
        end
      end
    | _ => inl otherError
    end
  | _ => inl otherError
  end.

Inductive payloadErrorAction := payloadActionReturnError | payloadActionRetry | payloadActionIdempotentSuccess.

Definition determinePayloadErrorAction (err : clientError) (isRead noRetryOnBoxIDNotFound noIdempotentBoxAlreadyExists : bool) : payloadErrorAction :=
  match err with
  | replicaError code =>
    if Z.eqb code ReplicaErrorBoxIDNotFound && isRead && negb noRetryOnBoxIDNotFound then payloadActionRetry
    else if Z.eqb code ReplicaErrorBoxAlreadyExists && negb isRead && negb noIdempotentBoxAlreadyExists then payloadActionIdempotentSuccess
    else payloadActionReturnError
  | _ => payloadActionReturnError
  end.

Definition mapDecryptionErrorToCode (err : clientError) : Z :=
  match err with
  | errMKEMDecryptionFailed => ThinClientErrorMKEMDecryptionFailed
  | errBACAPDecryptionFailed => ThinClientErrorBACAPDecryptionFailed
  | replicaError code => code
  | otherError => ThinClientErrorInternalError
  end.

End Client.
