(* ===== verification/ClientRead.v ===== *)
(** A read, from the client through a courier, an intermediate replica and a shard
    and back: [client/pigeonhole.go], [courier/server/plugin.go] and
    [replica/handlers.go] together. *)

From S2P Require Import Prelude Schemes ToySchemes SphinxGeo TimerQueue EpochTime PigeonGeo PigeonMessages CopyStream PkiDocument Sharding PigeonPki ReplicaState ReplicaHandlers ReplicaToy ReplicaBoxes ReplicaMessages ReplicaProxy Bacap Courier CopyCommand CopyWitness ClientEnvelopes.
From Stdlib Require Import ZArith Lia.
From stdpp Require Import prelude list strings gmap.

Local Open Scope Z_scope.

Section Envelope.

Context {P : PigeonSizes} {N : Nike} {NL : NikeLaws N} {M : Mkem N} {ML : MkemLaws M}.
Context (Sum256 blake2b_Sum256 : bytes -> bytes) (Period : Z).

Lemma GetRandomIntermediateReplicas_keys epoch doc boxid draws r1 r2 ks :
  GetRandomIntermediateReplicas Sum256 blake2b_Sum256 epoch (Some doc) boxid draws = Ok (r1, r2, ks) ->
  exists k1 k2, ks = [k1; k2] /\ replicaPubKey doc epoch r1 = Ok k1 /\ replicaPubKey doc epoch r2 = Ok k2.
Proof.
  assert (Hk : forall a b ks', getReplicaPubKeys doc epoch a b = Ok ks' ->
    exists k1 k2, ks' = [k1; k2] /\ replicaPubKey doc epoch a = Ok k1 /\ replicaPubKey doc epoch b = Ok k2).
  { unfold getReplicaPubKeys. intros a b ks' Hx. do 2 go_inv Hx. injection Hx as <-. eauto. }
  unfold GetRandomIntermediateReplicas. intros Hx. go_inv Hx. case_bool_decide; [done|]. destruct (Z.eqb _ 2); [|destruct (Z.eqb _ 3)].
  - do 3 go_inv Hx. injection Hx as <- <- <-. eauto.
  - go_inv Hx. destruct v0 as [? ?]. go_inv Hx. destruct v0 as [? ?]. go_inv Hx. injection Hx as <- <- <-. eauto.
  - go_inv Hx. destruct v0 as [? ?]. go_inv Hx. destruct v0 as [? ?]. go_inv Hx. injection Hx as <- <- <-. eauto.
Qed.

(** The two messages a courier takes out of an envelope are those that the client
    has sealed. *)
Lemma envelope_requests epoch draws rnd r doc g m key :
  createEnvelopeFromMessageWithPadding Sum256 blake2b_Sum256 Period epoch draws rnd (mkReplicaInnerMessage 0 (Some r) None) doc true 0 (Some g) = Ok (m, key) ->
  exists r1 r2 k1 k2 padded, IntermediateReplicas m = [r1; r2] /\ replicaPubKey doc epoch r1 = Ok k1 /\ replicaPubKey doc epoch r2 = Ok k2 /\
    PadInnerMessageForEncryption (mkReplicaInnerMessage 0 (Some r) None) (Some g) = Ok padded /\
    replicaMessage1 m = (requestOf rnd [k1; k2] 0 padded).1 /\ replicaMessage2 m = (requestOf rnd [k1; k2] 1 padded).1 /\
    key = (requestOf rnd [k1; k2] 0 padded).2 /\ key = (requestOf rnd [k1; k2] 1 padded).2 /\
    ce_ReplyIndex m = 0 /\ ce_Epoch m = ConvertNormalToReplicaEpoch Period (doc_Epoch doc).
Proof.
  unfold createEnvelopeFromMessageWithPadding. intros Hx. change (deref (ReadMsg (mkReplicaInnerMessage 0 (Some r) None))) with (Ok r) in Hx.
  autorewrite with go in Hx. cbv beta iota in Hx. go_inv Hx. destruct v as [[r1 r2] ks].
  destruct (GetRandomIntermediateReplicas_keys _ _ _ _ _ _ _ E) as (k1 & k2 & -> & Hk1 & Hk2). go_inv Hx.
  pose proof (mk_ephemeral rnd [k1; k2] v) as He. pose proof (mk_deks rnd [k1; k2] v) as Hd. pose proof (mk_dek_size rnd [k1; k2] v) as Hs.
  unfold requestOf. destruct (mk_Encapsulate rnd [k1; k2] v) as [eph ct] eqn:Hen. cbn [fst snd] in *.
  destruct (DEKCiphertexts ct) as [|d1 [|d2 [|? ?]]] eqn:Hdk; try done. apply Forall_cons in Hs as [Hs1 Hs]. apply Forall_cons in Hs as [Hs2 _].
  change (index [d1; d2] 0) with (Ok d1) in Hx. change (index [d1; d2] 1) with (Ok d2) in Hx. autorewrite with go in Hx. cbv beta iota in Hx.
  injection Hx as <- <-. exists r1, r2, k1, k2, v. rewrite Hen, Hdk, He. unfold replicaMessage1, replicaMessage2.
  cbn [SenderPubkey Dek1 Dek2 Ciphertext]. rewrite !copy_into_same by golen. split_and!; done.
Qed.

End Envelope.

Section Courier.

Context (blake2b_Sum256 : bytes -> bytes).

(** A new envelope is acknowledged; with the reply of one of its replicas, the
    client that sends it again gets this reply. *)
Lemma courier_passes_reply epoch doc now now' qt m e r1 r2 reply :
  isEnvelopeEpochAcceptable (ce_Epoch m) epoch = true -> IntermediateReplicas m = [r1; r2] -> ce_ReplyIndex m = 0 ->
  dedupCache e !! CourierEnvelope_EnvelopeHash blake2b_Sum256 m = None ->
  mr_EnvelopeHash reply = CourierEnvelope_EnvelopeHash blake2b_Sum256 m -> mr_ReplicaID reply = r1 \/ mr_ReplicaID reply = r2 -> mr_EnvelopeReply reply <> [] ->
  exists started e1, cacheHandleCourierEnvelope blake2b_Sum256 epoch doc now now' qt m e
      = Ok (ackReply (CourierEnvelope_EnvelopeHash blake2b_Sum256 m) 0, started, e1) /\
    forall epoch2 doc2 now2 now2' qt2, isEnvelopeEpochAcceptable (ce_Epoch m) epoch2 = true ->
      exists again e2 i, cacheHandleCourierEnvelope blake2b_Sum256 epoch2 doc2 now2 now2' qt2 m (CacheReply reply e1)
        = Ok (envelopeReply (CourierEnvelope_EnvelopeHash blake2b_Sum256 m) i ReplyTypePayload (mr_EnvelopeReply reply) EnvelopeErrorSuccess, again, e2).
Proof.
  intros Hep Hir Hri Hnone Hh Hid Hne. set (h := CourierEnvelope_EnvelopeHash blake2b_Sum256 m) in *.
  set (entry := mkBookKeeping (default 0 doc) now' qt (r1, r2) (None, None)).
  destruct (scheduleReplicaDispatch h (setCache e (<[h := entry]> (pruneDedupCacheLocked now DedupCacheTTL (dedupCache e))))) as [started e1] eqn:Hs.
  exists started, e1. split.
  { unfold cacheHandleCourierEnvelope. fold h. rewrite Hep, Hnone, Hir, Hri. cbn [negb]. change (index [r1; r2] 0) with (Ok r1).
    change (index [r1; r2] 1) with (Ok r2). go. fold entry. by rewrite Hs. }
  intros epoch2 doc2 now2 now2' qt2 Hep2. pose proof (schedule_cache _ _ _ _ Hs) as Hc. cbn [dedupCache setCache] in Hc.
  unfold CacheReply. rewrite Hh, Hc, lookup_insert_eq.
  assert (Hx : exists i : bool, EnvelopeReplies (handleExistingEntry entry reply) = setSlot i (Some reply) (None, None)).
  { unfold handleExistingEntry, findReplicaIndex. cbn [bk_IntermediateReplicas entry fst snd].
    destruct (Z.eqb_spec r1 (mr_ReplicaID reply)); [by exists false|]. destruct (Z.eqb_spec r2 (mr_ReplicaID reply)); [by exists true|]. by destruct Hid. }
  destruct Hx as [i Hx]. set (entry' := handleExistingEntry entry reply) in *.
  unfold cacheHandleCourierEnvelope. fold h. rewrite Hep2. cbn [negb dedupCache setCache]. rewrite lookup_insert_eq, Hri.
  assert (Ho : handleOldMessage entry' h 0 = envelopeReply h (if i then 1 else 0) ReplyTypePayload (mr_EnvelopeReply reply) EnvelopeErrorSuccess).
  { unfold handleOldMessage, chooseReply. rewrite Hx. assert (Hb : bool_decide (mr_EnvelopeReply reply = []) = false) by by apply bool_decide_eq_false_2.
    destruct i; cbn; by rewrite Hb. }
  destruct (if cacheEntryHasOnlyErrors entry' then _ else _) as [again e2] eqn:Hag. exists again, e2, (if i then 1 else 0). by rewrite Ho.
Qed.

End Courier.

Section Decrypt.

Context {P : PigeonSizes} {N : Nike} {NL : NikeLaws N} {M : Mkem N} {ML : MkemLaws M} {B : BoxSign} {C : Bacap} {BL : BacapLaws C B} {D : DescriptorCodec N} {DL : DescriptorCodecLaws D}.

Lemma addReplicaKey_ok doc epoch keys num k : replicaPubKey doc epoch num = Ok k -> addReplicaKey doc epoch keys num = <[num := k]> keys.
Proof.
  unfold replicaPubKey, addReplicaKey. intros Hx. go_inv Hx. rewrite E. destruct (EnvelopeKeys v !! epoch) as [[|x l]|]; try done. by rewrite Hx.
Qed.

(** The client tries the keys of both replicas; the one that answered opens the
    reply, and the other one does not open it. *)
Lemma reply_decrypted doc epoch r1 r2 k1 k2 pk key payload msg :
  replicaPubKey doc epoch r1 = Ok k1 -> replicaPubKey doc epoch r2 = Ok k2 -> pk = k1 \/ pk = k2 ->
  (blob ← mk_DecryptEnvelope key pk payload; ParseMessage blob) = Ok msg -> (forall pk', pk' <> pk -> exists e, mk_DecryptEnvelope key pk' payload = Err e) ->
  forall keyBytes, decryptMKEMEnvelope (Some doc) payload (mkEnvelopeDescriptor epoch (r1, r2) keyBytes) key = inr msg.
Proof.
  intros Hk1 Hk2 Hpk Ho Hrej keyBytes. go_inv Ho. unfold decryptMKEMEnvelope. cbn [ReplicaNums desc_Epoch fst snd]. unfold replicaPubKeysOf. cbn [foldl].
  rewrite (addReplicaKey_ok _ _ _ _ _ Hk1), (addReplicaKey_ok _ _ _ _ _ Hk2). cbn [tryDecryptMKEMWithReplicas].
  assert (H1 : (<[r2 := k2]> (<[r1 := k1]> ∅) : gmap Z nike_PublicKey) !! r1 = Some k1).
  { destruct (decide (r1 = r2)) as [<-|Hne]; [rewrite lookup_insert_eq; congruence|rewrite lookup_insert_ne by done; apply lookup_insert_eq]. }
  rewrite H1, lookup_insert_eq. destruct (decide (nike_Bytes k1 = nike_Bytes pk)) as [->%nike_Bytes_inj|Hne].
  - by rewrite E, Ho.
  - destruct (Hrej k1) as [e ->]; [congruence|]. destruct Hpk as [->| ->]; [done|]. by rewrite E, Ho.
Qed.

End Decrypt.


(** ** A read in a network of five replicas *)

#[export] Instance toyCodec : DescriptorCodec toyNike := {|
  marshalDescriptor desc := Ok (desc_Epoch desc :: fst (ReplicaNums desc) :: snd (ReplicaNums desc) :: EnvelopeKey desc);
  unmarshalDescriptor b := match b with e :: r1 :: r2 :: k => Ok (mkEnvelopeDescriptor e (r1, r2) k) | _ => Err "cbor" end;
  privateKeyBytes sk := [sk];
  unmarshalPrivateKey b := match b with [sk] => Ok sk | _ => Err "key" end;
|}.

#[export] Instance toyCodecLaws : DescriptorCodecLaws toyCodec.
Proof. split; [|done]. intros [e [r1 r2] k]. by eexists. Qed.

Abbreviation toyPeriod := (ReplicaEpochPeriod / 2).
Abbreviation toyReadMsg := (mkReplicaInnerMessage 0 (Some (mkReplicaRead (toyBoxIDAt 0))) None).
Abbreviation toyCreated := (createEnvelopeFromMessageWithPadding toyBlake toyBlake toyPeriod 3 [2; 3] [9] toyReadMsg toyReplicas true 0 (Some toySmall)).
Abbreviation toySent := (match toyCreated with Ok (m, _) => m | _ => toyEnvelope 8 end).
Abbreviation toyShard := (setStore (toyServer 0) toyTemp).
Abbreviation noRandom := (mkRandomness [0] [] []).

Lemma toySent_wf : wf toySent.
Proof.
  split_and!; first [split; [vm_compute; reflexivity|apply allBytes_ok; vm_compute; reflexivity]|apply (bool_decide_unpack _); vm_compute; exact I].
Qed.

