(* ===== verification/ClientStream.v ===== *)
(** Streams for the copy command on the client: [createCourierEnvelopesFromPayload],
    [createCourierEnvelopesFromPayloads] and
    [createCourierEnvelopesFromTombstoneRange] of [client/pigeonhole.go], and that
    what they make is what was asked for. *)

From S2P Require Import Prelude Schemes ToySchemes SphinxGeo TimerQueue EpochTime PigeonGeo PigeonMessages CopyStream PkiDocument Sharding PigeonPki ReplicaHandlers ReplicaToy ReplicaBoxes ReplicaMessages Bacap Courier CourierCopy CopyCommand CopyWitness ClientEnvelopes ClientRead.
From Stdlib Require Import ZArith Lia.
From stdpp Require Import prelude list strings.

Local Open Scope Z_scope.

(** [fuel]: one more than the number of bytes is enough when the size is not zero. *)
Fixpoint splitLoop (fuel : nat) (payload : bytes) (maxChunkSize : nat) : list bytes :=
  match fuel, payload with
  | S fuel, _ :: _ => take maxChunkSize payload :: splitLoop fuel (drop maxChunkSize payload) maxChunkSize
  | _, _ => []
  end.

Definition chunkPayload (payload : bytes) (maxChunkSize : nat) : list bytes := splitLoop (S (length payload)) payload maxChunkSize.

Definition maxPayloadSize : Z := 10 * 1024 * 1024.

Record CreateCourierEnvelopesFromPayload {C : Bacap} := mkFromPayload {
  cfp_Payload : bytes;
  DestWriteCap : option bc_WriteCap;
  DestStartIndex : option MessageBoxIndex;
  cfp_IsStart : bool;
  cfp_IsLast : bool;
}.
Arguments CreateCourierEnvelopesFromPayload C : clear implicits.

Record Destination {C : Bacap} := mkDestination { dest_WriteCap : option bc_WriteCap; StartIndex : option MessageBoxIndex; dest_Payload : bytes }.
Arguments Destination C : clear implicits.

Record CreateCourierEnvelopesFromPayloads {C : Bacap} := mkFromPayloads { Destinations : list (Destination C); cfs_Buffer : bytes; cfs_IsStart : bool; cfs_IsLast : bool }.
Arguments CreateCourierEnvelopesFromPayloads C : clear implicits.

Record CreateCourierEnvelopesFromTombstoneRange {C : Bacap} := mkFromTombstones {
  ct_DestWriteCap : option bc_WriteCap;
  ct_DestStartIndex : option MessageBoxIndex;
  ct_MaxCount : nat;
  ct_Buffer : bytes;
  ct_IsStart : bool;
  ct_IsLast : bool;
}.
Arguments CreateCourierEnvelopesFromTombstoneRange C : clear implicits.

(** A step that can end the request with a code. *)
Definition bindCode {A B} (o : outcome (Z + A)) (k : A -> outcome (Z + B)) : outcome (Z + B) :=
  r ← o; match r with inl code => Ok (inl code) | inr a => k a end.

(** The conversion of a slice to an array of [DEKSize] bytes. *)
Definition dekArray (b : bytes) : outcome bytes := if bool_decide (length b < 60)%nat then Panic else Ok (take 60 b).

Section Stream.

Context {P : PigeonSizes} {N : Nike} {M : Mkem N} {C : Bacap}.
Context (Sum256 blake2b_Sum256 : bytes -> bytes) (Period : Z) (geo : option PigeonholeGeometry).

(** [epoch]: what [ReplicaNow] gives; [rands i]: the random numbers and bytes for the
    envelope [i]. *)
Context (epoch : Z) (rands : nat -> list Z * bytes).

Definition validateEnvelopePayloadRequest (payload : bytes) (writeCap : option bc_WriteCap) (startIndex : option MessageBoxIndex) (maxPlaintextPayloadLength : nat)
    : outcome (bc_WriteCap * MessageBoxIndex) :=
  match writeCap, startIndex with
  | None, _ => Err "DestWriteCap is nil"
  | _, None => Err "DestStartIndex is nil"
  | Some writeCap, Some startIndex =>
    if bool_decide (maxPayloadSize < Z.of_nat (length payload)) then Err "payload size exceeds maximum"
    else if bool_decide (Z.of_nat maxPlaintextPayloadLength - 4 <= 0) then Err "invalid geometry, maxPayload <= 0"
    else Ok (writeCap, startIndex)
  end.

Definition buildCourierEnvelope (i : nat) (doc : Document) (replicaEpoch : Z) (boxID : bytes) (msg : ReplicaInnerMessage) : outcome CourierEnvelope :=
  '(r1, r2, replicaPubKeys) ← GetRandomIntermediateReplicas Sum256 blake2b_Sum256 epoch (Some doc) boxID (rands i).1;
  paddedMsg ← PadInnerMessageForEncryption msg geo;
  let '(mkemPrivateKey, mkemCiphertext) := mk_Encapsulate (rands i).2 replicaPubKeys paddedMsg in
  let senderPubkey := nike_Bytes (nike_Public mkemPrivateKey) in
  d1 ← index (DEKCiphertexts mkemCiphertext) 0; dek1 ← dekArray d1;
  d2 ← index (DEKCiphertexts mkemCiphertext) 1; dek2 ← dekArray d2;
  Ok (mkCourierEnvelope [r1; r2] dek1 dek2 0 replicaEpoch (wrap 16 (Z.of_nat (length senderPubkey))) senderPubkey
        (wrap 32 (Z.of_nat (length (mk_Envelope mkemCiphertext)))) (mk_Envelope mkemCiphertext)).

Definition encryptWriteChunk (g : PigeonholeGeometry) (writer : StatefulWriter) (chunk : bytes) (advance : bool) : outcome (bytes * bytes * bytes * StatefulWriter) :=
  paddedPayload ← CreatePaddedPayload chunk (MaxPlaintextPayloadLength g + 4);
  let '(r, writer) := if advance then EncryptNext paddedPayload writer else (PrepareNext paddedPayload writer, writer) in
  '(boxID, ciphertext, sigraw) ← r;
  Ok (boxID, ciphertext, copy_into (zeros 64) sigraw, writer).

(** A new encoder, with the rest of an earlier call. *)
Definition startEncoder (g : PigeonholeGeometry) (buffer : bytes) (isStart : bool) : CopyStreamEncoder :=
  let encoder := NewCopyStreamEncoder g in
  let encoder := match buffer with [] => encoder | _ => SetBuffer (Some buffer) encoder end in
  if isStart then encoder else SuppressStart encoder.

(** The end of a call that gives the rest to its caller. *)
Definition endEncoder (isLast : bool) (encoder : CopyStreamEncoder) : outcome (list bytes * bytes) :=
  if isLast then '(els, _) ← Flush encoder; Ok (els, []) else Ok ([], GetBuffer encoder).

(** ** One payload *)

Fixpoint envelopesLoop (g : PigeonholeGeometry) (doc : Document) (replicaEpoch : Z) (i : nat) (chunks : list bytes) (writer : StatefulWriter)
    : outcome (Z + list CourierEnvelope * StatefulWriter) :=
  match chunks with
  | [] => Ok (inr ([], writer))
  | chunk :: chunks =>
    orCode ThinClientErrorInternalError (encryptWriteChunk g writer chunk true) (fun '(boxID, ciphertext, sig, writer) =>
    orCode ThinClientErrorInternalError (buildCourierEnvelope i doc replicaEpoch boxID (writeInnerMessage boxID ciphertext sig)) (fun envelope =>
    bindCode (envelopesLoop g doc replicaEpoch (S i) chunks writer) (fun '(envelopes, writer) => Ok (inr (envelope :: envelopes, writer)))))
  end.

Definition createCourierEnvelopesFromPayload (req : CreateCourierEnvelopesFromPayload C) (doc : option Document) : outcome (Z + list bytes * MessageBoxIndex) :=
  g ← deref geo;
  match validateEnvelopePayloadRequest (cfp_Payload req) (DestWriteCap req) (DestStartIndex req) (MaxPlaintextPayloadLength g) with
  | Ok (writeCap, startIndex) =>
    match doc with
    | None => Ok (inl ThinClientErrorInternalError)
    | Some doc =>
      let replicaEpoch := ConvertNormalToReplicaEpoch Period (doc_Epoch doc) in
      orCode ThinClientErrorInternalError (NewStatefulWriter writeCap PIGEONHOLE_CTX) (fun statefulWriter =>
      let chunks := chunkPayload (cfp_Payload req) (MaxPlaintextPayloadLength g - 4) in
      bindCode (envelopesLoop g doc replicaEpoch 0 chunks (setNextIndex startIndex statefulWriter)) (fun '(envelopes, statefulWriter) =>
      orCode ThinClientErrorInternalError (addAll envelopes (startEncoder g [] (cfp_IsStart req))) (fun '(elements, encoder) =>
      '(trailing, _) ← (if cfp_IsLast req then Flush encoder else FlushWithoutFinal encoder);
      Ok (inr (elements ++ trailing, writerNextIndex statefulWriter)))))
    end
  | _ => Ok (inl ThinClientErrorInvalidRequest)
  end.

(** ** Payloads for several destinations *)

(** The loop over the chunks of a destination. *)
Fixpoint chunksLoop (g : PigeonholeGeometry) (doc : Document) (replicaEpoch : Z) (chunks : list bytes) (statefulWriter : StatefulWriter) (currentIndex : MessageBoxIndex)
    (i : nat) (encoder : CopyStreamEncoder) : outcome (Z + list bytes * MessageBoxIndex * nat * CopyStreamEncoder) :=
  match chunks with
  | [] => Ok (inr ([], currentIndex, i, encoder))
  | chunk :: chunks =>
    orCode ThinClientErrorInternalError (encryptWriteChunk g (setNextIndex currentIndex statefulWriter) chunk false) (fun '(boxID, ciphertext, sig, statefulWriter) =>
    orCode ThinClientErrorInternalError (buildCourierEnvelope i doc replicaEpoch boxID (writeInnerMessage boxID ciphertext sig)) (fun envelope =>
    orCode ThinClientErrorInternalError (AddEnvelope (Some envelope) encoder) (fun '(newElements, encoder) =>
    orCode ThinClientErrorInternalError (NextIndex currentIndex) (fun currentIndex =>
    bindCode (chunksLoop g doc replicaEpoch chunks statefulWriter currentIndex (S i) encoder) (fun '(elements, index, i, encoder) =>
    Ok (inr (newElements ++ elements, index, i, encoder)))))))
  end.

Fixpoint destinationsLoop (g : PigeonholeGeometry) (doc : Document) (replicaEpoch : Z) (destinations : list (Destination C)) (i : nat) (encoder : CopyStreamEncoder)
    : outcome (Z + list bytes * list MessageBoxIndex * nat * CopyStreamEncoder) :=
  match destinations with
  | [] => Ok (inr ([], [], i, encoder))
  | dest :: destinations =>
    match dest_WriteCap dest, StartIndex dest with
    | Some writeCap, Some startIndex =>
      if bool_decide (maxPayloadSize < Z.of_nat (length (dest_Payload dest))) then Ok (inl ThinClientErrorInvalidRequest)
      else
        orCode ThinClientErrorInternalError (NewStatefulWriter writeCap PIGEONHOLE_CTX) (fun statefulWriter =>
        bindCode (chunksLoop g doc replicaEpoch (chunkPayload (dest_Payload dest) (MaxPlaintextPayloadLength g - 4)) statefulWriter startIndex i encoder)
          (fun '(elements, index, i, encoder) =>
        bindCode (destinationsLoop g doc replicaEpoch destinations i encoder) (fun '(elements', indices, i, encoder) =>
        Ok (inr (elements ++ elements', index :: indices, i, encoder)))))
    | _, _ => Ok (inl ThinClientErrorInvalidRequest)
    end
  end.

(** [n]: envelopes of earlier calls.  The elements, the rest and the indices. *)
Definition createCourierEnvelopesFromPayloads (n : nat) (req : CreateCourierEnvelopesFromPayloads C) (doc : option Document)
    : outcome (Z + list bytes * bytes * list MessageBoxIndex) :=
  match Destinations req with
  | [] => Ok (inl ThinClientErrorInvalidRequest)
  | _ =>
    g ← deref geo;
    if bool_decide (Z.of_nat (MaxPlaintextPayloadLength g) - 4 <= 0) then Ok (inl ThinClientErrorInternalError)
    else
      match doc with
      | None => Ok (inl ThinClientErrorInternalError)
      | Some doc =>
        let replicaEpoch := ConvertNormalToReplicaEpoch Period (doc_Epoch doc) in
        bindCode (destinationsLoop g doc replicaEpoch (Destinations req) n (startEncoder g (cfs_Buffer req) (cfs_IsStart req))) (fun '(elements, nextDestIndices, _, encoder) =>
        '(finalElements, buffer) ← endEncoder (cfs_IsLast req) encoder;
        Ok (inr (elements ++ finalElements, buffer, nextDestIndices)))
      end
  end.

(** ** Tombstones *)

Fixpoint tombstoneEnvelopes (doc : Document) (replicaEpoch : Z) (destWriteCap : bc_WriteCap) (i count : nat) (cur : MessageBoxIndex)
    : outcome (Z + list CourierEnvelope * MessageBoxIndex) :=
  match count with
  | O => Ok (inr ([], cur))
  | S count =>
    let '(boxID, sigraw) := SignBox cur destWriteCap PIGEONHOLE_CTX [] in
    orCode ThinClientErrorInternalError (buildCourierEnvelope i doc replicaEpoch boxID (writeInnerMessage boxID [] (copy_into (zeros 64) sigraw))) (fun envelope =>
    orCode ThinClientErrorInternalError (NextIndex cur) (fun nextIndex =>
    bindCode (tombstoneEnvelopes doc replicaEpoch destWriteCap (S i) count nextIndex) (fun '(envelopes, cur) => Ok (inr (envelope :: envelopes, cur)))))
  end.

Definition createCourierEnvelopesFromTombstoneRange (req : CreateCourierEnvelopesFromTombstoneRange C) (doc : option Document)
    : outcome (Z + list bytes * bytes * MessageBoxIndex) :=
  match ct_DestWriteCap req, ct_DestStartIndex req with
  | Some destWriteCap, Some destStartIndex =>
    if bool_decide (ct_MaxCount req = 0%nat) then Ok (inr ([], [], destStartIndex))
    else
      match geo, doc with
      | Some g, Some doc =>
        bindCode (tombstoneEnvelopes doc (ConvertNormalToReplicaEpoch Period (doc_Epoch doc)) destWriteCap 0 (ct_MaxCount req) destStartIndex) (fun '(envelopes, cur) =>
        orCode ThinClientErrorInternalError (addAll envelopes (startEncoder g (ct_Buffer req) (ct_IsStart req))) (fun '(elements, encoder) =>
        '(finalElements, buffer) ← endEncoder (ct_IsLast req) encoder;
        Ok (inr (elements ++ finalElements, buffer, cur))))
      | _, _ => Ok (inl ThinClientErrorInternalError)
      end
  | _, _ => Ok (inl ThinClientErrorInvalidRequest)
  end.

End Stream.

(** ** What is in a stream *)

Lemma splitLoop_concat fuel payload size : (0 < size)%nat -> (length payload < fuel)%nat ->
  concat (splitLoop fuel payload size) = payload /\ Forall (fun c => 0 < length c <= size)%nat (splitLoop fuel payload size).
Proof.
  intros Hs. revert payload. induction fuel as [|fuel IH]; intros payload Hf; [lia|]. destruct payload as [|b payload]; [done|]. cbn [splitLoop concat].
  destruct (IH (drop size (b :: payload))) as [-> Hc]; [rewrite length_drop; cbn [length] in *; lia|]. split; [apply take_drop|].
  constructor; [rewrite length_take; cbn [length]; lia|done].
Qed.

Section Carried.

Context {P : PigeonSizes} {N : Nike} {NL : NikeLaws N} {M : Mkem N} {ML : MkemLaws M} {B : BoxSign} {C : Bacap} {BL : BacapLaws C B}.
Context (Sum256 blake2b_Sum256 : bytes -> bytes) (Period : Z) (g : PigeonholeGeometry) (epoch : Z) (rands : nat -> list Z * bytes) (doc : Document).

Lemma dekArray_ok b : length b = 60%nat -> dekArray b = Ok b.
Proof. intros Hl. unfold dekArray. rewrite bool_decide_eq_false_2 by lia. f_equal. apply take_ge. lia. Qed.

(** Envelopes are requests to two replicas of the document, sealed for their keys. *)
Lemma buildCourierEnvelope_ok i replicaEpoch boxID msg r1 r2 ks padded :
  GetRandomIntermediateReplicas Sum256 blake2b_Sum256 epoch (Some doc) boxID (rands i).1 = Ok (r1, r2, ks) -> PadInnerMessageForEncryption msg (Some g) = Ok padded ->
  exists e k1 k2, buildCourierEnvelope Sum256 blake2b_Sum256 (Some g) epoch rands i doc replicaEpoch boxID msg = Ok e /\
    IntermediateReplicas e = [r1; r2] /\ replicaPubKey doc epoch r1 = Ok k1 /\ replicaPubKey doc epoch r2 = Ok k2 /\
    replicaMessage1 e = (requestOf (rands i).2 [k1; k2] 0 padded).1 /\ replicaMessage2 e = (requestOf (rands i).2 [k1; k2] 1 padded).1 /\ ce_Epoch e = replicaEpoch.
Proof.
  intros Hr Hp. destruct (GetRandomIntermediateReplicas_keys _ _ _ _ _ _ _ _ _ Hr) as (k1 & k2 & -> & Hk1 & Hk2).
  unfold buildCourierEnvelope. rewrite Hr. go. rewrite Hp. go.
  pose proof (mk_ephemeral (rands i).2 [k1; k2] padded) as He. pose proof (mk_deks (rands i).2 [k1; k2] padded) as Hd. pose proof (mk_dek_size (rands i).2 [k1; k2] padded) as Hs.
  unfold requestOf. destruct (mk_Encapsulate (rands i).2 [k1; k2] padded) as [eph ct] eqn:Hen. cbn [fst snd] in *.
  destruct (DEKCiphertexts ct) as [|d1 [|d2 [|? ?]]] eqn:Hdk; try done. apply Forall_cons in Hs as [Hs1 Hs]. apply Forall_cons in Hs as [Hs2 _].
  change (index [d1; d2] 0) with (Ok d1). change (index [d1; d2] 1) with (Ok d2). go. rewrite (dekArray_ok d1) by done. go. rewrite (dekArray_ok d2) by done. go.
  eexists _, k1, k2. split; [reflexivity|]. unfold replicaMessage1, replicaMessage2. cbn [SenderPubkey Dek1 Dek2 Ciphertext IntermediateReplicas ce_Epoch]. rewrite Hen, Hdk, He. done.
Qed.

(** The envelope asks its replicas to write the box of the index; the write is one
    that replicas accept, and a reader at the index finds the chunk in it. *)
Definition carries (wc : bc_WriteCap) (idx : MessageBoxIndex) (chunk : bytes) (e : CourierEnvelope) : Prop :=
  let rc := WriteCap_ReadCap wc in
  exists rnd r1 r2 k1 k2 w padded plain,
    IntermediateReplicas e = [r1; r2] /\ replicaPubKey doc epoch r1 = Ok k1 /\ replicaPubKey doc epoch r2 = Ok k2 /\
    PadInnerMessageForEncryption (mkReplicaInnerMessage 1 None (Some w)) (Some g) = Ok padded /\ ParseMessage padded = Ok (mkReplicaInnerMessage 1 None (Some w)) /\
    replicaMessage1 e = (requestOf rnd [k1; k2] 0 padded).1 /\ replicaMessage2 e = (requestOf rnd [k1; k2] 1 padded).1 /\
    signedWrite g w /\ rw_BoxID w = boxIDAt rc PIGEONHOLE_CTX idx /\
    (forall idx', NextIndex idx = Ok idx' ->
      DecryptNext PIGEONHOLE_CTX (rw_BoxID w) (rw_Payload w) (rw_Signature w) (readerAt rc PIGEONHOLE_CTX idx) = (Ok plain, readerAt rc PIGEONHOLE_CTX idx')) /\
    ExtractMessageFromPaddedPayload plain = Ok chunk.

(** Envelopes for consecutive boxes. *)
Inductive carried (wc : bc_WriteCap) : MessageBoxIndex -> list bytes -> list CourierEnvelope -> MessageBoxIndex -> Prop :=
| carried_nil idx : carried wc idx [] [] idx
| carried_cons idx idx' last chunk chunks e es :
    NextIndex idx = Ok idx' -> carries wc idx chunk e -> carried wc idx' chunks es last -> carried wc idx (chunk :: chunks) (e :: es) last.

Context (Hsizes : formatSizes P) (Hct : Z.of_nat (CalculateBoxCiphertextLength g) < 2 ^ 32).

(** The daemon finds replicas for the boxes of every capability. *)
Context (Hrep : forall wc i idx, exists r1 r2 ks,
  GetRandomIntermediateReplicas Sum256 blake2b_Sum256 epoch (Some doc) (boxIDAt (WriteCap_ReadCap wc) PIGEONHOLE_CTX idx) (rands i).1 = Ok (r1, r2, ks)).

Lemma chunk_carried wc idx chunk i replicaEpoch : Forall is_byte chunk -> (length chunk <= MaxPlaintextPayloadLength g)%nat ->
  exists boxID ct sigraw e padded, CreatePaddedPayload chunk (MaxPlaintextPayloadLength g + 4) = Ok padded /\
    (boxID, ct, sigraw) = (boxIDAt (WriteCap_ReadCap wc) PIGEONHOLE_CTX idx, (sealBox wc PIGEONHOLE_CTX idx padded).1, (sealBox wc PIGEONHOLE_CTX idx padded).2) /\
    buildCourierEnvelope Sum256 blake2b_Sum256 (Some g) epoch rands i doc replicaEpoch boxID (writeInnerMessage boxID ct (copy_into (zeros 64) sigraw)) = Ok e /\
    carries wc idx chunk e.
Proof.
  intros Hb Hl. assert (Hsz : Z.of_nat (PaddedPayloadLength g) < 2 ^ 32) by (unfold CalculateBoxCiphertextLength, PaddedPayloadLength in *; lia).
  assert (Hpl : (MaxPlaintextPayloadLength g + 4 = PaddedPayloadLength g)%nat) by (unfold PaddedPayloadLength, lengthPrefixSize; lia). rewrite Hpl.
  destruct (padded_payload_roundtrip chunk (PaddedPayloadLength g)) as (padded & Hp & _ & Hx); [lia|done|].
  pose proof (sealed_signedWrite g wc idx chunk padded Hct Hb Hp) as Hw. cbn zeta in Hw. destruct (bc_sizes wc PIGEONHOLE_CTX idx padded) as [_ Hsg].
  set (boxID := boxIDAt (WriteCap_ReadCap wc) PIGEONHOLE_CTX idx) in *. set (ct := (sealBox wc PIGEONHOLE_CTX idx padded).1) in *. set (w := mkReplicaWrite _ _ _ _) in Hw.
  assert (Hmsg : writeInnerMessage boxID ct (copy_into (zeros 64) (sealBox wc PIGEONHOLE_CTX idx padded).2) = mkReplicaInnerMessage 1 None (Some w)).
  { unfold writeInnerMessage. by rewrite copy_into_same by golen. }
  assert (Hwf : wf (mkReplicaInnerMessage 1 None (Some w))) by (pose proof (sw_wf _ _ Hw); right; eauto).
  assert (Hpad : exists pm, PadInnerMessageForEncryption (mkReplicaInnerMessage 1 None (Some w)) (Some g) = Ok pm).
  { eexists. unfold PadInnerMessageForEncryption. rewrite Bytes_ok by done. go. apply PadToSize_ok. apply inner_message_bound; [done|done|]. intros w' [= <-].
    by rewrite (sw_size _ _ Hw). }
  destruct Hpad as [pm Hpm]. destruct (Hrep wc i idx) as (r1 & r2 & ks & Hr).
  destruct (buildCourierEnvelope_ok i replicaEpoch boxID (mkReplicaInnerMessage 1 None (Some w)) r1 r2 ks pm Hr Hpm) as (e & k1 & k2 & He & Hir & Hk1 & Hk2 & Hm1 & Hm2 & _).
  exists boxID, ct, (sealBox wc PIGEONHOLE_CTX idx padded).2, e, padded. split_and!; [done|done|by rewrite Hmsg|].
  exists (rands i).2, r1, r2, k1, k2, w, pm, padded. split_and!; try done; [by destruct (PadToSize_parse _ _ _ Hwf Hpm)|]. intros idx' Hn. by apply bc_decrypt.
Qed.

(** The index [n] boxes on. *)
Fixpoint advances (n : nat) (idx : MessageBoxIndex) : outcome MessageBoxIndex :=
  match n with O => Ok idx | S n => idx ← NextIndex idx; advances n idx end.

Lemma envelopesLoop_carried wc replicaEpoch chunks : forall idx last i, advances (length chunks) idx = Ok last ->
  Forall (fun c => Forall is_byte c /\ (length c <= MaxPlaintextPayloadLength g)%nat) chunks ->
  exists es, envelopesLoop Sum256 blake2b_Sum256 (Some g) epoch rands g doc replicaEpoch i chunks (writerAt wc PIGEONHOLE_CTX idx) = Ok (inr (es, writerAt wc PIGEONHOLE_CTX last)) /\
    carried wc idx chunks es last.
Proof.
  induction chunks as [|chunk chunks IH]; intros idx last i Ha Hc; cbn [advances length] in Ha.
  - injection Ha as <-. exists []. split; [done|constructor].
  - go_inv Ha. apply Forall_cons in Hc as [[Hb Hl] Hc]. destruct (chunk_carried wc idx chunk i replicaEpoch Hb Hl) as (boxID & ct & sigraw & e & padded & Hp & [= -> -> ->] & He & Hcar).
    destruct (IH v last (S i) Ha Hc) as (es & Hes & Hcs). exists (e :: es). split; [|by econstructor].
    cbn [envelopesLoop]. unfold encryptWriteChunk. rewrite Hp. go. rewrite (bc_encrypt _ _ _ _ _ E). go. cbn [orCode]. rewrite He. cbn [orCode]. unfold bindCode. rewrite Hes. by go.
Qed.


End Carried.

(** ** Streams of several calls *)

Section Continued.

Context {P : PigeonSizes} {N : Nike} {M : Mkem N} {C : Bacap}.
Context (Sum256 blake2b_Sum256 : bytes -> bytes) (Period : Z) (g : PigeonholeGeometry) (epoch : Z) (rands : nat -> list Z * bytes).

(** An encoder that has given elements is no longer at the start of its stream. *)
Definition goesOn (e : CopyStreamEncoder) (elements : list bytes) (e' : CopyStreamEncoder) : Prop :=
  maxChunkSize e' = maxChunkSize e /\ (isFirstChunk e' = true -> elements = [] /\ isFirstChunk e = true).

Lemma goesOn_refl e : goesOn e [] e.
Proof. by split. Qed.

Lemma goesOn_app e els e1 els' e2 : goesOn e els e1 -> goesOn e1 els' e2 -> goesOn e (els ++ els') e2.
Proof. intros [H1 H2] [H3 H4]. split; [congruence|]. intros H. destruct (H4 H) as [-> H']. by destruct (H2 H') as [-> ?]. Qed.

Lemma extractLoop_goesOn fuel : forall e els e', extractLoop fuel e = Ok (els, e') -> goesOn e els e'.
Proof.
  induction fuel as [|fuel IH]; intros e els e' H; cbn [extractLoop] in H; case_bool_decide; try done; try by injection H as <- <-; apply goesOn_refl.
  go_inv H. destruct v as [els1 e1]. go_inv H. destruct v as [els2 e2]. injection H as <- <-. apply (goesOn_app _ _ e1); [|by apply IH].
  unfold takeChunk in E. case_bool_decide; [done|]. do 3 go_inv E. by injection E as <- <-.
Qed.

Lemma AddEnvelope_goesOn envelope e els e' : AddEnvelope envelope e = Ok (els, e') -> goesOn e els e'.
Proof. unfold AddEnvelope. destruct envelope; [|done]. intros H. go_inv H. by apply extractLoop_goesOn in H. Qed.

Lemma orCode_ok {A B} code (o : outcome A) (k : A -> outcome (Z + B)) b : orCode code o k = Ok (inr b) -> exists a, o = Ok a /\ k a = Ok (inr b).
Proof. destruct o; cbn; [eauto|done..]. Qed.

Lemma bindCode_ok {A B} (o : outcome (Z + A)) (k : A -> outcome (Z + B)) b : bindCode o k = Ok (inr b) -> exists a, o = Ok (inr a) /\ k a = Ok (inr b).
Proof. unfold bindCode. destruct o as [[?|?]| |]; cbn; [done|eauto|done..]. Qed.

Lemma chunksLoop_goesOn doc replicaEpoch chunks : forall writer idx i e els last n e',
  chunksLoop Sum256 blake2b_Sum256 (Some g) epoch rands g doc replicaEpoch chunks writer idx i e = Ok (inr (els, last, n, e')) -> goesOn e els e' /\ n = (i + length chunks)%nat.
Proof.
  induction chunks as [|chunk chunks IH]; intros writer idx i e els last n e' H; cbn [chunksLoop] in H.
  - injection H as <- <- <- <-. split; [apply goesOn_refl|cbn; lia].
  - apply orCode_ok in H as ([[[boxID ct] sig] writer'] & _ & H). apply orCode_ok in H as (envelope & _ & H). apply orCode_ok in H as ([new e1] & Hadd & H).
    apply orCode_ok in H as (idx' & _ & H). apply bindCode_ok in H as ([[[els1 last1] n1] e2] & Hl & H). injection H as <- <- <- <-. destruct (IH _ _ _ _ _ _ _ _ Hl) as [Hg ->].
    split; [|cbn; lia]. apply (goesOn_app _ _ e1); [by eapply AddEnvelope_goesOn|done].
Qed.

(** The number of envelopes of a call. *)
Definition envelopesFor (dests : list (Destination C)) : nat := sum_list_with (fun dest => length (chunkPayload (dest_Payload dest) (MaxPlaintextPayloadLength g - 4))) dests.

Abbreviation loop doc := (destinationsLoop Sum256 blake2b_Sum256 (Some g) epoch rands g doc (ConvertNormalToReplicaEpoch Period (doc_Epoch doc))).

Lemma destinationsLoop_goesOn doc dests : forall i e els idxs n e', loop doc dests i e = Ok (inr (els, idxs, n, e')) -> goesOn e els e' /\ n = (i + envelopesFor dests)%nat.
Proof.
  induction dests as [|dest dests IH]; intros i e els idxs n e' H; cbn [destinationsLoop] in H.
  - injection H as <- <- <- <-. split; [apply goesOn_refl|cbn; lia].
  - destruct (dest_WriteCap dest), (StartIndex dest); try done. case_bool_decide; [done|]. apply orCode_ok in H as (writer & _ & H).
    apply bindCode_ok in H as ([[[els1 idx1] n1] e1] & Hc & H). apply bindCode_ok in H as ([[[els2 idxs2] n2] e2] & Hd & H). injection H as <- <- <- <-.
    destruct (chunksLoop_goesOn _ _ _ _ _ _ _ _ _ _ _ Hc) as [Hg1 ->]. destruct (IH _ _ _ _ _ _ Hd) as [Hg2 ->]. split; [by eapply goesOn_app|]. unfold envelopesFor. cbn [sum_list_with]. lia.
Qed.

Lemma destinationsLoop_app doc dests1 dests2 : forall i e els1 idxs1 n1 e1 els2 idxs2 n2 e2,
  loop doc dests1 i e = Ok (inr (els1, idxs1, n1, e1)) -> loop doc dests2 n1 e1 = Ok (inr (els2, idxs2, n2, e2)) ->
  loop doc (dests1 ++ dests2) i e = Ok (inr (els1 ++ els2, idxs1 ++ idxs2, n2, e2)).
Proof.
  induction dests1 as [|dest dests1 IH]; intros i e els1 idxs1 n1 e1 els2 idxs2 n2 e2 H1 H2; cbn [destinationsLoop app] in *.
  - by injection H1 as <- <- <- <-.
  - destruct (dest_WriteCap dest), (StartIndex dest); try done. case_bool_decide; [done|]. apply orCode_ok in H1 as (writer & -> & H1).
    apply bindCode_ok in H1 as ([[[els idx] n] e'] & Hc & H1). apply bindCode_ok in H1 as ([[[els' idxs'] n'] e''] & Hd & H1). injection H1 as <- <- <- <-.
    cbn [orCode]. unfold bindCode at 1. rewrite Hc. go. unfold bindCode. rewrite (IH _ _ _ _ _ _ _ _ _ _ Hd H2). go. by rewrite <-app_assoc.
Qed.


End Continued.

(** ** Streams in a network of five replicas *)

Abbreviation toyRands := (fun _ : nat => ([0; 1; 2; 3; 4; 5; 6; 7; 8; 9], [9])).
Abbreviation toyPayload := (replicate 30 5).
Abbreviation toyFirst := (0 : @MessageBoxIndex toyBacap).
Abbreviation toyEnvelopes := (match envelopesLoop (C := toyBacap) toyBlake toyBlake (Some toySmall) 3 toyRands toySmall toyReplicas 3 0 (chunkPayload toyPayload 28) (0 : @StatefulWriter toyBacap)
  with Ok (inr (es, _)) => es | _ => [] end).

Lemma toyRands_find (wc : @bc_WriteCap toyBacap) (i : nat) (idx : @MessageBoxIndex toyBacap) : exists r1 r2 ks,
  GetRandomIntermediateReplicas toyBlake toyBlake 3 (Some toyReplicas) (boxIDAt (WriteCap_ReadCap wc) PIGEONHOLE_CTX idx) (toyRands i).1 = Ok (r1, r2, ks).
Proof.
  assert (Hall : forallb (fun x => match GetRandomIntermediateReplicas toyBlake toyBlake 3 (Some toyReplicas) (replicate 31 7 ++ [x]) (toyRands 0%nat).1 with Ok _ => true | _ => false end)
    (map Z.of_nat (seq 0 256)) = true) by (vm_compute; reflexivity).
  rewrite forallb_forall in Hall. specialize (Hall (idx mod 256)). cbn [fst] in *. change (boxIDAt _ _ idx) with (replicate 31 7 ++ [idx mod 256]).
  assert (Hin : In (idx mod 256) (map Z.of_nat (seq 0 256))).
  { apply in_map_iff. exists (Z.to_nat (idx mod 256)). pose proof (Z.mod_pos_bound idx 256). rewrite in_seq. lia. }
  specialize (Hall Hin). destruct (GetRandomIntermediateReplicas _ _ _ _ _ _) as [[[r1 r2] ks]| |]; [by exists r1, r2, ks|done..].
Qed.

Lemma toyEnvelopes_wf : Forall (fun e => wf e /\ (length (wire e) <= CourierQueryWriteLength toySmall)%nat) toyEnvelopes.
Proof.
  assert (Hes : toyEnvelopes = [nth 0 toyEnvelopes (toyEnvelope 8); nth 1 toyEnvelopes (toyEnvelope 8)]) by (vm_compute; reflexivity). rewrite Hes.
  repeat constructor; try (apply Nat.leb_le; vm_compute; reflexivity);
    first [split; [vm_compute; reflexivity|apply allBytes_ok; vm_compute; reflexivity]|apply (bool_decide_unpack _); vm_compute; exact I].
Qed.


Abbreviation toyDest1 := (mkDestination toyBacap (Some tt) (Some toyFirst) [5]).
Abbreviation toyDest2 := (mkDestination toyBacap (Some tt) (Some (9 : @MessageBoxIndex toyBacap)) toyPayload).
Abbreviation toyCall n dests rest isStart isLast := (createCourierEnvelopesFromPayloads toyBlake toyBlake toyPeriod (Some toySmall) 3 toyRands n
  (mkFromPayloads toyBacap dests rest isStart isLast) (Some toyReplicas)).
Abbreviation elementsOf r := (match r with Ok (inr (els, _, _)) => els | _ => [] end).
Abbreviation restOf r := (match r with Ok (inr (_, rest, _)) => rest | _ => [] end).

