(* ===== verification/ClientArq.v ===== *)
(** Resending on the client: [client/arq.go], the resending part of
    [client/pigeonhole.go] and of [client/daemon.go].

    A message is an object that the daemon and its handlers share: [heap] has the
    objects by address.  Each handler runs as one step.  What a handler gets from
    outside is an argument: the clock, random bytes, the packet that
    [ComposeSphinxPacketForQuery] makes, here its key and round trip time, and the
    plaintext of a reply.  Pointers to identifiers of reply blocks stand for the
    identifiers.  [resendCh] has the channels of all connections: the client of the
    connection and the identifier that waits. *)

From S2P Require Import Prelude Schemes SphinxGeo TimerQueue EpochTime PigeonGeo PigeonMessages PkiDocument ReplicaHandlers Bacap Courier CourierCopy ClientEnvelopes.
From Stdlib Require Import ZArith Lia.
From stdpp Require Import prelude list strings gmap.

Local Open Scope Z_scope.

Definition RoundTripTimeSlop : Z := 20 * second.
Definition CopyPollInterval : Z := 5 * second.
Definition arqComposeRetryBackoff : Z := 1 * second.
Definition resendQueueFullBackoff : Z := 100 * millisecond.

Inductive ARQState := ARQStateWaitingForACK | ARQStateACKReceived | ARQStatePayloadReceived.
Inductive ARQAction := ARQActionSendNewSURB | ARQActionComplete | ARQActionHandlePayload | ARQActionError | ARQActionIgnore.

Record ARQTransitionResult := mkTransition { NewState : ARQState; Action : ARQAction; ShouldRemove : bool; tr_ErrorCode : Z }.

Definition computeARQStateTransition (state : ARQState) (replyType errorCode : Z) (isRead noIdempotentBoxAlreadyExists : bool) : ARQTransitionResult :=
  if negb (Z.eqb errorCode 0) then mkTransition state ARQActionError true errorCode
  else
    match state with
    | ARQStateWaitingForACK =>
      if Z.eqb replyType 0 then
        if negb isRead && negb noIdempotentBoxAlreadyExists then mkTransition state ARQActionComplete true 0
        else mkTransition ARQStateACKReceived ARQActionSendNewSURB false 0
      else mkTransition ARQStatePayloadReceived ARQActionHandlePayload false 0
    | ARQStateACKReceived =>
      if Z.eqb replyType 1 then mkTransition ARQStatePayloadReceived ARQActionHandlePayload false 0
      else mkTransition ARQStateACKReceived ARQActionSendNewSURB false 0
    | ARQStatePayloadReceived => mkTransition ARQStatePayloadReceived ARQActionIgnore false 0
    end.

Inductive ARQMessageType := ARQMessageTypeEnvelope | ARQMessageTypeCopyCommand.

Record ARQMessage {C : Bacap} := mkARQMessage {
  MessageType : ARQMessageType;
  arq_AppID : bytes;
  arq_QueryID : bytes;
  arq_EnvelopeHash : option bytes;
  arq_Courier : bytes * bytes;
  arq_Payload : bytes;
  arq_SURBID : option bytes;
  SURBDecryptionKeys : bytes;
  Retransmissions : Z;
  SentAt : Z;
  ReplyETA : Z;
  arq_EnvelopeDescriptor : bytes;
  IsRead : bool;
  arq_State : ARQState;
  arq_ReadCap : option bc_ReadCap;
  arq_MessageBoxIndex : option bytes;
  NoRetryOnBoxIDNotFound : bool;
  NoIdempotentBoxAlreadyExists : bool;
}.
Arguments ARQMessage C : clear implicits.

(** What a thin client is told: the end of its query, or of its cancellation. *)
Inductive arqResponse :=
| ResendReply (AppID QueryID : bytes) (Plaintext : bytes) (ErrorCode : Z) (Courier : option (bytes * bytes))
| CopyReply (AppID QueryID : bytes) (ErrorCode ReplicaErrorCode FailedIndex : Z)
| CancelReply (copy : bool) (AppID QueryID : bytes) (ErrorCode : Z).

Record arqDaemon {C : Bacap} := mkArqDaemon {
  heap : gmap nat (ARQMessage C);
  arqSurbIDMap : gmap bytes nat;
  arqEnvelopeHashMap : gmap bytes bytes;
  arqTimerQueue : list (Z * bytes);
  resendCh : list (bytes * bytes);
  conns : gset bytes;
  clientTokens : gmap bytes bytes;
  disconnectedSessions : gmap bytes bytes;
  responses : list arqResponse;
}.
Arguments arqDaemon C : clear implicits.

Section Arq.

Context {P : PigeonSizes} {N : Nike} {M : Mkem N} {C : Bacap} {D : DescriptorCodec N}.
Context (Period : Z).

(** ** Parts of the state *)

Definition setHeap (p : nat) (m : ARQMessage C) (d : arqDaemon C) : arqDaemon C :=
  mkArqDaemon _ (<[p := m]> (heap d)) (arqSurbIDMap d) (arqEnvelopeHashMap d) (arqTimerQueue d) (resendCh d) (conns d) (clientTokens d) (disconnectedSessions d) (responses d).
Definition setMaps (surbs : gmap bytes nat) (hashes : gmap bytes bytes) (d : arqDaemon C) : arqDaemon C :=
  mkArqDaemon _ (heap d) surbs hashes (arqTimerQueue d) (resendCh d) (conns d) (clientTokens d) (disconnectedSessions d) (responses d).
Definition setTimers (timers : list (Z * bytes)) (d : arqDaemon C) : arqDaemon C :=
  mkArqDaemon _ (heap d) (arqSurbIDMap d) (arqEnvelopeHashMap d) timers (resendCh d) (conns d) (clientTokens d) (disconnectedSessions d) (responses d).
Definition setResend (q : list (bytes * bytes)) (d : arqDaemon C) : arqDaemon C :=
  mkArqDaemon _ (heap d) (arqSurbIDMap d) (arqEnvelopeHashMap d) (arqTimerQueue d) q (conns d) (clientTokens d) (disconnectedSessions d) (responses d).
Definition respond (r : arqResponse) (d : arqDaemon C) : arqDaemon C :=
  mkArqDaemon _ (heap d) (arqSurbIDMap d) (arqEnvelopeHashMap d) (arqTimerQueue d) (resendCh d) (conns d) (clientTokens d) (disconnectedSessions d) (responses d ++ [r]).

Definition push (at_ : Z) (s : bytes) (d : arqDaemon C) : arqDaemon C := setTimers ((at_, s) :: arqTimerQueue d) d.
Definition cancelTimer (s : bytes) (d : arqDaemon C) : arqDaemon C := setTimers (filter (fun e => e.2 <> s) (arqTimerQueue d)) d.

Definition deleteOpt {A} (k : option bytes) (m : gmap bytes A) : gmap bytes A := match k with Some k => delete k m | None => m end.
Definition insertOpt {A} (k : option bytes) (v : A) (m : gmap bytes A) : gmap bytes A := match k with Some k => <[k := v]> m | None => m end.

Definition withState (m : ARQMessage C) (st : ARQState) : ARQMessage C :=
  mkARQMessage _ (MessageType m) (arq_AppID m) (arq_QueryID m) (arq_EnvelopeHash m) (arq_Courier m) (arq_Payload m) (arq_SURBID m) (SURBDecryptionKeys m) (Retransmissions m)
    (SentAt m) (ReplyETA m) (arq_EnvelopeDescriptor m) (IsRead m) st (arq_ReadCap m) (arq_MessageBoxIndex m) (NoRetryOnBoxIDNotFound m) (NoIdempotentBoxAlreadyExists m).
Definition withSurb (m : ARQMessage C) (s : bytes) : ARQMessage C :=
  mkARQMessage _ (MessageType m) (arq_AppID m) (arq_QueryID m) (arq_EnvelopeHash m) (arq_Courier m) (arq_Payload m) (Some s) (SURBDecryptionKeys m) (Retransmissions m)
    (SentAt m) (ReplyETA m) (arq_EnvelopeDescriptor m) (IsRead m) (arq_State m) (arq_ReadCap m) (arq_MessageBoxIndex m) (NoRetryOnBoxIDNotFound m) (NoIdempotentBoxAlreadyExists m).
Definition withSend (m : ARQMessage C) (s key : bytes) (rtt now retransmissions : Z) : ARQMessage C :=
  mkARQMessage _ (MessageType m) (arq_AppID m) (arq_QueryID m) (arq_EnvelopeHash m) (arq_Courier m) (arq_Payload m) (Some s) key retransmissions
    now rtt (arq_EnvelopeDescriptor m) (IsRead m) (arq_State m) (arq_ReadCap m) (arq_MessageBoxIndex m) (NoRetryOnBoxIDNotFound m) (NoIdempotentBoxAlreadyExists m).

(** ** Helpers *)

(** Both entries of a message are deleted. *)
Definition dropARQMessage (m : ARQMessage C) (d : arqDaemon C) : arqDaemon C :=
  setMaps (deleteOpt (arq_SURBID m) (arqSurbIDMap d)) (deleteOpt (arq_EnvelopeHash m) (arqEnvelopeHashMap d)) d.

Definition rotateARQSurbIDLocked (p : nat) (m : ARQMessage C) (newSurbID surbKey : bytes) (rtt now : Z) (d : arqDaemon C) : arqDaemon C :=
  setHeap p (withSend m newSurbID surbKey rtt now (wrap 32 (Retransmissions m + 1)))
    (setMaps (<[newSurbID := p]> (deleteOpt (arq_SURBID m) (arqSurbIDMap d))) (insertOpt (arq_EnvelopeHash m) newSurbID (arqEnvelopeHashMap d)) d).

(** The same with a placeholder, and without a packet. *)
Definition placeARQMessage (p : nat) (m : ARQMessage C) (placeholder : bytes) (d : arqDaemon C) : arqDaemon C :=
  setHeap p (withSurb m placeholder)
    (setMaps (<[placeholder := p]> (deleteOpt (arq_SURBID m) (arqSurbIDMap d))) (insertOpt (arq_EnvelopeHash m) placeholder (arqEnvelopeHashMap d)) d).

Definition rescheduleARQAfterComposeFailure (p : nat) (m : ARQMessage C) (rand : outcome bytes) (now : Z) (d : arqDaemon C) : arqDaemon C :=
  match rand with
  | Ok placeholder => push (now + arqComposeRetryBackoff) placeholder (placeARQMessage p m placeholder d)
  | _ => d
  end.

(** The message is still the one its identifier leads to. *)
Definition tracked (p : nat) (m : ARQMessage C) (d : arqDaemon C) : bool :=
  match arq_SURBID m with
  | Some s => bool_decide (arqSurbIDMap d !! s = Some p)
  | None => false
  end.

Definition isConnected (appID : bytes) (d : arqDaemon C) : bool := bool_decide (appID ∈ conns d).

(** The random bytes for a new identifier and for a placeholder, the key and the
    round trip time of a new packet, and the clock. *)
Record resendInput := mkResendInput { ri_surb : outcome bytes; ri_placeholder : outcome bytes; ri_composed : outcome (bytes * Z); ri_now : Z }.

(** A new packet for the message, which goes on in the state [st]. *)
Definition resendNow (p : nat) (m : ARQMessage C) (s key : bytes) (rtt now : Z) (st : ARQState) (d : arqDaemon C) : arqDaemon C :=
  let d := rotateARQSurbIDLocked p m s key rtt now d in
  let d := setHeap p (withState (withSend m s key rtt now (wrap 32 (Retransmissions m + 1))) st) d in
  let d := match arq_SURBID m with Some old => cancelTimer old d | None => d end in
  push (now + rtt + RoundTripTimeSlop) s d.

(** ** Starting and cancelling *)

(** Nothing is stored when there is an error. *)
Definition arqSend (p : nat) (m : ARQMessage C) (envHashKey : bytes) (inp : resendInput) (d : arqDaemon C) : outcome (arqDaemon C) :=
  surbID ← ri_surb inp;
  '(surbKey, rtt) ← ri_composed inp;
  let m := withSend m surbID surbKey rtt (ri_now inp) 0 in
  let d := setHeap p m (setMaps (<[surbID := p]> (arqSurbIDMap d)) (<[envHashKey := surbID]> (arqEnvelopeHashMap d)) d) in
  Ok (push (ri_now inp + rtt + RoundTripTimeSlop) surbID d).

(** Errors of a request go to a client that is connected. *)
Definition sendError (appID : bytes) (r : arqResponse) (d : arqDaemon C) : arqDaemon C := if isConnected appID d then respond r d else d.

Record StartResendingEncryptedMessage := mkStartResending {
  sr_QueryID : option bytes;
  sr_EnvelopeHash : option bytes;
  sr_MessageCiphertext : bytes;
  sr_EnvelopeDescriptor : bytes;
  sr_ReadCap : option bc_ReadCap;
  sr_WriteCap : option bc_WriteCap;
  sr_MessageBoxIndex : option bytes;
  sr_NoRetryOnBoxIDNotFound : bool;
  sr_NoIdempotentBoxAlreadyExists : bool;
}.

(** The identifier and the hash of a request that can be served. *)
Definition validateStartResendingRequest (req : StartResendingEncryptedMessage) : outcome (bytes * bytes) :=
  match sr_QueryID req, sr_EnvelopeHash req with
  | None, _ => Err "QueryID is nil"
  | _, None => Err "EnvelopeHash is nil"
  | Some q, Some h =>
    if bool_decide (sr_MessageCiphertext req = []) then Err "MessageCiphertext is empty"
    else if bool_decide (sr_EnvelopeDescriptor req = []) then Err "EnvelopeDescriptor is empty"
    else
      match sr_ReadCap req, sr_WriteCap req with
      | None, None | Some _, Some _ => Err "exactly one of ReadCap or WriteCap must be set"
      | _, _ => Ok (q, h)
      end
  end.

(** [courier]: what [GetRandomCourier] gives for the document, if there is one. *)
Definition startResendingEncryptedMessage (p : nat) (appID : bytes) (req : StartResendingEncryptedMessage) (courier : option (outcome (bytes * bytes))) (inp : resendInput)
    (d : arqDaemon C) : arqDaemon C :=
  let fail code := sendError appID (ResendReply appID (default [] (sr_QueryID req)) [] code None) d in
  match validateStartResendingRequest req with
  | Ok (queryID, envelopeHash) =>
    match courier with
    | Some (Ok courier) =>
      let message := mkARQMessage _ ARQMessageTypeEnvelope appID queryID (Some envelopeHash) courier (sr_MessageCiphertext req) None [] 0 0 0
        (sr_EnvelopeDescriptor req) (bool_decide (is_Some (sr_ReadCap req))) ARQStateWaitingForACK (sr_ReadCap req) (sr_MessageBoxIndex req)
        (sr_NoRetryOnBoxIDNotFound req) (sr_NoIdempotentBoxAlreadyExists req) in
      match arqSend p message envelopeHash inp d with
      | Ok d => d
      | _ => fail ThinClientErrorInternalError
      end
    | _ => fail ThinClientErrorInternalError
    end
  | _ => fail ThinClientErrorInvalidRequest
  end.

(** [writeCapBytes]: the capability, if there is one, as it is marshalled;
    [courier]: the one of the request, or one for the document. *)
Definition startResendingCopyCommand (blake2b_Sum256 : bytes -> bytes) (p : nat) (appID : bytes) (queryID : option bytes) (writeCapBytes : option (outcome bytes))
    (courier : outcome (bytes * bytes)) (inp : resendInput) (d : arqDaemon C) : arqDaemon C :=
  let fail code := sendError appID (CopyReply appID (default [] queryID) code 0 0) d in
  match queryID, writeCapBytes with
  | Some queryID, Some (Ok writeCapBytes) =>
    match MarshalBinary (mkCourierQuery 1 None (Some (mkCopyCommand (wrap 32 (Z.of_nat (length writeCapBytes))) writeCapBytes))), courier with
    | Ok payload, Ok courier =>
      let writeCapHash := blake2b_Sum256 writeCapBytes in
      let message := mkARQMessage _ ARQMessageTypeCopyCommand appID queryID (Some writeCapHash) courier payload None [] 0 0 0 [] false ARQStateWaitingForACK None None false false in
      match arqSend p message writeCapHash inp d with
      | Ok d => d
      | _ => fail ThinClientErrorInternalError
      end
    | _, _ => fail ThinClientErrorInternalError
    end
  | Some _, Some _ => fail ThinClientErrorInternalError
  | _, _ => fail ThinClientErrorInvalidRequest
  end.

Definition cancelled (copy : bool) (appID : bytes) (m : ARQMessage C) : arqResponse :=
  if copy then CopyReply appID (arq_QueryID m) ThinClientErrorStartResendingCancelled 0 0
  else ResendReply appID (arq_QueryID m) [] ThinClientErrorStartResendingCancelled (Some (arq_Courier m)).

(** The common part of [cancelResendingEncryptedMessage] and
    [cancelResendingCopyCommand]: the request that is cancelled and the one that
    cancels it are answered. *)
Definition cancelResending (copy : bool) (appID queryID envHash : bytes) (d : arqDaemon C) : arqDaemon C :=
  let ok := CancelReply copy appID queryID ThinClientSuccess in
  match arqEnvelopeHashMap d !! envHash with
  | None => respond ok d
  | Some surbID =>
    let found := arqSurbIDMap d !! surbID ≫= fun p => heap d !! p in
    let d := setMaps (delete surbID (arqSurbIDMap d)) (delete envHash (arqEnvelopeHashMap d)) d in
    match found with
    | None => respond ok d
    | Some m =>
      let d := match arq_SURBID m with Some s => cancelTimer s d | None => d end in
      respond ok (respond (cancelled copy appID m) d)
    end
  end.

Definition cancelResendingMessage (copy : bool) (appID : bytes) (queryID envHash : option bytes) (d : arqDaemon C) : arqDaemon C :=
  if negb (isConnected appID d) then d
  else
    match queryID, envHash with
    | Some queryID, Some envHash => cancelResending copy appID queryID envHash d
    | _, _ => sendError appID (CancelReply copy appID (default [] queryID) ThinClientErrorInvalidRequest) d
    end.

Definition cancelResendingEncryptedMessage := cancelResendingMessage false.
Definition cancelResendingCopyCommand := cancelResendingMessage true.

(** A client has gone. *)
Definition ofApp (d : arqDaemon C) (appID : bytes) (p : nat) : bool :=
  match heap d !! p with Some m => bool_decide (arq_AppID m = appID) | None => false end.

Definition messagesOf (d : arqDaemon C) (appID : bytes) : list (ARQMessage C) :=
  omap (fun '(_, p) => if ofApp d appID p then heap d !! p else None) (map_to_list (arqSurbIDMap d)).

Definition cleanupForAppID (appID : bytes) (d : arqDaemon C) : arqDaemon C :=
  let ms := messagesOf d appID in
  let surbs := filter (fun '(_, p) => ofApp d appID p = false) (arqSurbIDMap d) in
  let hashes := foldl (fun hashes m => deleteOpt (arq_EnvelopeHash m) hashes) (arqEnvelopeHashMap d) ms in
  let d := foldl (fun d m => match arq_SURBID m with Some s => cancelTimer s d | None => d end) d ms in
  setMaps surbs hashes d.

(** ** Connections *)

Definition setConns (cs : gset bytes) (q : list (bytes * bytes)) (d : arqDaemon C) : arqDaemon C :=
  mkArqDaemon _ (heap d) (arqSurbIDMap d) (arqEnvelopeHashMap d) (arqTimerQueue d) q cs (clientTokens d) (disconnectedSessions d) (responses d).
Definition setSessions (tokens sessions : gmap bytes bytes) (d : arqDaemon C) : arqDaemon C :=
  mkArqDaemon _ (heap d) (arqSurbIDMap d) (arqEnvelopeHashMap d) (arqTimerQueue d) (resendCh d) (conns d) tokens sessions (responses d).

Definition registerConn (appID : bytes) (d : arqDaemon C) : arqDaemon C := setConns ({[appID]} ∪ conns d) (resendCh d) d.

(** What waits in the channel of the connection is lost with it. *)
Definition unregisterConn (appID : bytes) (d : arqDaemon C) : arqDaemon C := setConns (conns d ∖ {[appID]}) (filter (fun e => e.1 <> appID) (resendCh d)) d.

(** A connection with the token [clientToken] has been closed. *)
Definition onClosedConn (explicitClose : bool) (clientToken : option bytes) (appID : bytes) (d : arqDaemon C) : arqDaemon C :=
  let d := unregisterConn appID d in
  if explicitClose then
    let d := cleanupForAppID appID d in
    setSessions (deleteOpt clientToken (clientTokens d)) (disconnectedSessions d) d
  else
    match clientToken with
    | Some token => setSessions (clientTokens d) (<[appID := token]> (disconnectedSessions d)) d
    | None => cleanupForAppID appID d
    end.

(** The grace period of a session is over. *)
Definition expireSession (appID : bytes) (d : arqDaemon C) : arqDaemon C :=
  match disconnectedSessions d !! appID with
  | None => d
  | Some token => cleanupForAppID appID (setSessions (delete token (clientTokens d)) (delete appID (disconnectedSessions d)) d)
  end.

(** The connection of [appID] gives a token: it goes on, with its channel,
    as the client that had it. *)
Definition handleSessionToken (appID token : bytes) (d : arqDaemon C) : arqDaemon C :=
  match clientTokens d !! token with
  | Some existingAppID =>
    let q := map (fun e => if bool_decide (e.1 = appID) then (existingAppID, e.2) else e) (filter (fun e => e.1 = appID \/ e.1 <> existingAppID) (resendCh d)) in
    let d := setConns ({[existingAppID]} ∪ (conns d ∖ {[appID]})) q d in
    setSessions (clientTokens d) (delete existingAppID (disconnectedSessions d)) d
  | None => setSessions (<[token := appID]> (clientTokens d)) (disconnectedSessions d) d
  end.

(** ** Replies *)

Definition resendReply (m : ARQMessage C) (plaintext : bytes) (code : Z) : arqResponse := ResendReply (arq_AppID m) (arq_QueryID m) plaintext code (Some (arq_Courier m)).

(** The message is done. *)
Definition finish (m : ARQMessage C) (r : arqResponse) (d : arqDaemon C) : arqDaemon C := respond r (dropARQMessage m d).

Definition sentOf (m : ARQMessage C) : sentMessage := mkSentMessage (arq_EnvelopeDescriptor m) (IsRead m) (arq_ReadCap m) (arq_MessageBoxIndex m).

Definition handlePayloadReply (doc : option Document) (p : nat) (m : ARQMessage C) (payload : bytes) (inp : resendInput) (d : arqDaemon C) : arqDaemon C :=
  match decryptPigeonholeReply doc (sentOf m) payload with
  | inl err =>
    let fail := finish m (resendReply m [] (mapDecryptionErrorToCode err)) d in
    match determinePayloadErrorAction err (IsRead m) (NoRetryOnBoxIDNotFound m) (NoIdempotentBoxAlreadyExists m) with
    | payloadActionRetry =>
      match ri_surb inp with
      | Ok newSurbID =>
        match ri_composed inp with
        | Ok (surbKey, rtt) => if tracked p m d then resendNow p m newSurbID surbKey rtt (ri_now inp) ARQStateWaitingForACK d else d
        | _ => rescheduleARQAfterComposeFailure p m (ri_placeholder inp) (ri_now inp) d
        end
      | _ => fail
      end
    | payloadActionIdempotentSuccess => finish m (resendReply m [] ThinClientSuccess) d
    | payloadActionReturnError => fail
    end
  | inr plaintext =>
    if negb (IsRead m) then finish m (resendReply m [] ThinClientSuccess) d
    else if bool_decide (plaintext = []) then finish m (resendReply m [] ReplicaErrorTombstone) d
    else
      match ExtractMessageFromPaddedPayload plaintext with
      | Ok unpadded => finish m (resendReply m unpadded ThinClientSuccess) d
      | _ => finish m (resendReply m [] ThinClientErrorInternalError) d
      end
  end.

Definition scheduleCopyCommandPoll (p : nat) (m : ARQMessage C) (inp : resendInput) (d : arqDaemon C) : arqDaemon C :=
  match ri_placeholder inp with
  | Ok placeholder => if tracked p m d then push (ri_now inp + CopyPollInterval) placeholder (placeARQMessage p m placeholder d) else d
  | _ => d
  end.

Definition handleCopyCommandARQReply (p : nat) (m : ARQMessage C) (reply : CourierQueryReply) (inp : resendInput) (d : arqDaemon C) : arqDaemon C :=
  match cqr_CopyCommandReply reply with
  | Some r =>
    if negb (Z.eqb (cqr_ReplyType reply) 1) then d
    else if Z.eqb (ccr_Status r) CopyStatusInProgress then scheduleCopyCommandPoll p m inp d
    else if Z.eqb (ccr_Status r) CopyStatusSucceeded then finish m (CopyReply (arq_AppID m) (arq_QueryID m) ThinClientSuccess 0 0) d
    else if Z.eqb (ccr_Status r) CopyStatusFailed then
      finish m (CopyReply (arq_AppID m) (arq_QueryID m) ThinClientErrorCopyCommandFailed (ccr_ErrorCode r) (FailedEnvelopeIndex r)) d
    else finish m (CopyReply (arq_AppID m) (arq_QueryID m) ThinClientErrorInternalError 0 0) d
  | None => d
  end.

Definition handleEnvelopeReply (doc : option Document) (p : nat) (m : ARQMessage C) (r : CourierEnvelopeReply) (inp : resendInput) (d : arqDaemon C) : arqDaemon C :=
  let transition := computeARQStateTransition (arq_State m) (cer_ReplyType r) (cer_ErrorCode r) (IsRead m) (NoIdempotentBoxAlreadyExists m) in
  match Action transition with
  | ARQActionError => finish m (resendReply m [] (tr_ErrorCode transition)) d
  | ARQActionComplete => finish m (resendReply m [] ThinClientSuccess) d
  | ARQActionHandlePayload =>
    let m := withState m (NewState transition) in
    handlePayloadReply doc p m (cer_Payload r) inp (setHeap p m d)
  | ARQActionSendNewSURB =>
    let m := withState m (NewState transition) in
    let d := setHeap p m d in
    match ri_surb inp with
    | Ok newSurbID =>
      match ri_composed inp with
      | Ok (surbKey, rtt) =>
        if tracked p m d && isConnected (arq_AppID m) d then resendNow p m newSurbID surbKey rtt (ri_now inp) (NewState transition) d else d
      | _ => rescheduleARQAfterComposeFailure p m (ri_placeholder inp) (ri_now inp) d
      end
    | _ => d
    end
  | ARQActionIgnore => d
  end.

(** [reply]: what the reply block decrypts to and parses as. *)
Definition handlePigeonholeARQReply (doc : option Document) (p : nat) (m : ARQMessage C) (reply : outcome CourierQueryReply) (inp : resendInput) (d : arqDaemon C) : arqDaemon C :=
  if negb (isConnected (arq_AppID m) d) then d
  else
    match reply with
    | Ok reply =>
      match MessageType m with
      | ARQMessageTypeCopyCommand => handleCopyCommandARQReply p m reply inp d
      | ARQMessageTypeEnvelope =>
        match EnvelopeReply reply with
        | Some r => if negb (Z.eqb (cqr_ReplyType reply) 0) then dropARQMessage m d else handleEnvelopeReply doc p m r inp d
        | None => dropARQMessage m d
        end
      end
    | _ => dropARQMessage m d
    end.

(** The part of [handleReply] for messages that are resent. *)
Definition handleReply (doc : option Document) (surbID : bytes) (reply : outcome CourierQueryReply) (inp : resendInput) (d : arqDaemon C) : arqDaemon C :=
  match arqSurbIDMap d !! surbID with
  | None => d
  | Some p =>
    match heap d !! p with
    | None => d
    | Some m =>
      let d := match arq_SURBID m with Some s => cancelTimer s d | None => d end in
      handlePigeonholeARQReply doc p m reply inp d
    end
  end.

(** ** Timers *)

(** A timer has fired: the message waits for its turn, or for another timer. *)
Definition enqueueResend (surbID : bytes) (full : bool) (now : Z) (d : arqDaemon C) : arqDaemon C :=
  match arqSurbIDMap d !! surbID ≫= fun p => heap d !! p with
  | None => d
  | Some m =>
    if negb (isConnected (arq_AppID m) d) then d
    else if full then push (now + resendQueueFullBackoff) surbID d
    else setResend (resendCh d ++ [(arq_AppID m, surbID)]) d
  end.

Definition arqDoResend (surbID : bytes) (inp : resendInput) (d : arqDaemon C) : outcome (arqDaemon C) :=
  match arqSurbIDMap d !! surbID with
  | None => Ok d
  | Some p =>
    match heap d !! p with
    | None => Ok d
    | Some m =>
      if negb (isConnected (arq_AppID m) d) then Ok (setMaps (delete surbID (arqSurbIDMap d)) (deleteOpt (arq_EnvelopeHash m) (arqEnvelopeHashMap d)) d)
      else
        match ri_surb inp with
        | Ok newsurbID =>
          match ri_composed inp with
          | Ok (k, rtt) => Ok (push (ri_now inp + rtt + RoundTripTimeSlop) newsurbID (rotateARQSurbIDLocked p m newsurbID k rtt (ri_now inp) d))
          | _ => Ok (rescheduleARQAfterComposeFailure p m (ri_placeholder inp) (ri_now inp) d)
          end
        | _ => Panic
        end
    end
  end.

End Arq.
