(* ===== verification/ArqInvariant.v ===== *)
(** The invariant of the resending of [ClientArq]: the maps of identifiers and of
    hashes lead to each other, and, in strict runs, every message is alive.  Each
    handler preserves it. *)

From S2P Require Import Prelude Schemes ToySchemes SphinxGeo TimerQueue EpochTime PigeonGeo PigeonMessages PkiDocument Sharding ReplicaHandlers Bacap Courier CourierCopy ClientEnvelopes ClientArq.
From Stdlib Require Import ZArith Lia.
From stdpp Require Import prelude list strings gmap relations.

Local Open Scope Z_scope.

Section Maps.

Context {C : Bacap}.

(** The two maps lead to each other: what an identifier leads to carries it, and the
    hash of it leads to the identifier. *)
Record mapsOk (hp : gmap nat (ARQMessage C)) (surbs : gmap bytes nat) (hashes : gmap bytes bytes) : Prop := {
  mo_surb s p : surbs !! s = Some p -> exists m h, hp !! p = Some m /\ arq_SURBID m = Some s /\ arq_EnvelopeHash m = Some h /\ hashes !! h = Some s;
  mo_hash h s : hashes !! h = Some s -> exists p m, surbs !! s = Some p /\ hp !! p = Some m /\ arq_EnvelopeHash m = Some h;
}.

(** A message and where it is tracked. *)
Record trackedAt (hp : gmap nat (ARQMessage C)) (surbs : gmap bytes nat) (p : nat) (m : ARQMessage C) (s h : bytes) : Prop := {
  ta_heap : hp !! p = Some m;
  ta_surb : arq_SURBID m = Some s;
  ta_hash : arq_EnvelopeHash m = Some h;
  ta_map : surbs !! s = Some p;
}.

Lemma maps_tracked hp surbs hashes s p : mapsOk hp surbs hashes -> surbs !! s = Some p ->
  exists m h, trackedAt hp surbs p m s h /\ hashes !! h = Some s.
Proof. intros Ho Hs. destruct (mo_surb _ _ _ Ho s p Hs) as (m & h & Hp & Hm & Hh & Hhs). exists m, h. by split. Qed.

(** One object is tracked under one identifier, and one hash by one object. *)
Lemma tracked_hash hp surbs hashes p m s h : mapsOk hp surbs hashes -> trackedAt hp surbs p m s h -> hashes !! h = Some s.
Proof. intros Ho [Hp Hm Hh Hs]. destruct (mo_surb _ _ _ Ho s p Hs) as (m' & h' & Hp' & _ & Hh' & Hx). congruence. Qed.

Lemma maps_update hp surbs hashes p m m' s h : mapsOk hp surbs hashes -> trackedAt hp surbs p m s h ->
  arq_SURBID m' = Some s -> arq_EnvelopeHash m' = Some h -> mapsOk (<[p := m']> hp) surbs hashes /\ trackedAt (<[p := m']> hp) surbs p m' s h.
Proof.
  intros Ho Ht Hs Hh. pose proof (tracked_hash _ _ _ _ _ _ _ Ho Ht) as Hhs. destruct Ht as [Hp Hm Hmh Hsp].
  split; [|by split; [apply lookup_insert_eq|..]]. split.
  - intros s1 p1 H1. destruct (mo_surb _ _ _ Ho s1 p1 H1) as (m1 & h1 & Hp1 & Hm1 & Hh1 & Hs1).
    destruct (decide (p1 = p)) as [->|Hne]; [exists m', h; rewrite lookup_insert_eq; split_and!; congruence|exists m1, h1; by rewrite lookup_insert_ne].
  - intros h1 s1 H1. destruct (mo_hash _ _ _ Ho h1 s1 H1) as (p1 & m1 & H2 & H3 & H4). exists p1.
    destruct (decide (p1 = p)) as [->|Hne]; [exists m'; rewrite lookup_insert_eq; split_and!; congruence|exists m1; by rewrite lookup_insert_ne].
Qed.

(** A message moves to another identifier. *)
Lemma maps_move hp surbs hashes p m m' s s' h : mapsOk hp surbs hashes -> trackedAt hp surbs p m s h -> surbs !! s' = None ->
  arq_SURBID m' = Some s' -> arq_EnvelopeHash m' = Some h -> mapsOk (<[p := m']> hp) (<[s' := p]> (delete s surbs)) (<[h := s']> hashes).
Proof.
  intros Ho Ht Hf Hs' Hh'. pose proof (tracked_hash _ _ _ _ _ _ _ Ho Ht) as Hhs. destruct Ht as [Hp Hm Hmh Hsp]. split.
  - intros s1 p1. rewrite lookup_insert_Some, lookup_delete_Some. intros [[<- <-]|(Hne & Hne' & H1)].
    + exists m', h. rewrite !lookup_insert_eq. by split_and!.
    + destruct (mo_surb _ _ _ Ho s1 p1 H1) as (m1 & h1 & Hp1 & Hm1 & Hh1 & Hs1). exists m1, h1.
      rewrite lookup_insert_ne by congruence. rewrite lookup_insert_ne by congruence. by split_and!.
  - intros h1 s1. rewrite lookup_insert_Some. intros [[<- <-]|[Hne H1]].
    + exists p, m'. rewrite !lookup_insert_eq. by split_and!.
    + destruct (mo_hash _ _ _ Ho h1 s1 H1) as (p1 & m1 & H2 & H3 & H4). exists p1, m1.
      rewrite lookup_insert_ne by congruence. rewrite lookup_delete_ne by congruence. rewrite lookup_insert_ne by congruence. by split_and!.
Qed.

(** A message is no longer tracked. *)
Lemma maps_remove hp surbs hashes p m s h : mapsOk hp surbs hashes -> trackedAt hp surbs p m s h -> mapsOk hp (delete s surbs) (delete h hashes).
Proof.
  intros Ho Ht. pose proof (tracked_hash _ _ _ _ _ _ _ Ho Ht) as Hhs. destruct Ht as [Hp Hm Hmh Hsp]. split.
  - intros s1 p1. rewrite lookup_delete_Some. intros [Hne H1]. destruct (mo_surb _ _ _ Ho s1 p1 H1) as (m1 & h1 & Hp1 & Hm1 & Hh1 & Hs1).
    exists m1, h1. rewrite lookup_delete_ne by congruence. by split_and!.
  - intros h1 s1. rewrite lookup_delete_Some. intros [Hne H1]. destruct (mo_hash _ _ _ Ho h1 s1 H1) as (p1 & m1 & H2 & H3 & H4).
    exists p1, m1. rewrite lookup_delete_ne by congruence. by split_and!.
Qed.

(** A new message. *)
Lemma maps_add hp surbs hashes p m s h : mapsOk hp surbs hashes -> hp !! p = None -> surbs !! s = None -> hashes !! h = None ->
  arq_SURBID m = Some s -> arq_EnvelopeHash m = Some h -> mapsOk (<[p := m]> hp) (<[s := p]> surbs) (<[h := s]> hashes).
Proof.
  intros Ho Hp Hs Hh Hm Hmh. split.
  - intros s1 p1. rewrite lookup_insert_Some. intros [[<- <-]|[Hne H1]].
    + exists m, h. rewrite !lookup_insert_eq. by split_and!.
    + destruct (mo_surb _ _ _ Ho s1 p1 H1) as (m1 & h1 & Hp1 & Hm1 & Hh1 & Hs1). exists m1, h1.
      rewrite lookup_insert_ne by congruence. rewrite lookup_insert_ne by congruence. by split_and!.
  - intros h1 s1. rewrite lookup_insert_Some. intros [[<- <-]|[Hne H1]].
    + exists p, m. rewrite !lookup_insert_eq. by split_and!.
    + destruct (mo_hash _ _ _ Ho h1 s1 H1) as (p1 & m1 & H2 & H3 & H4). exists p1, m1.
      rewrite lookup_insert_ne by congruence. rewrite lookup_insert_ne by congruence. by split_and!.
Qed.

End Maps.

Section Invariant.

Context {P : PigeonSizes} {N : Nike} {M : Mkem N} {C : Bacap} {D : DescriptorCodec N} (strict : bool).

(** A timer will fire for [s], or has fired and [s] waits for its turn in the channel
    of the client. *)
Definition scheduled (d : arqDaemon C) (appID s : bytes) : Prop := s ∈ (arqTimerQueue d).*2 \/ (appID, s) ∈ resendCh d.

(** What an identifier leads to belongs to a client that is connected, waits for a
    reply that will not be ignored, and is scheduled to be sent again. *)
Definition alive (d : arqDaemon C) (s : bytes) (p : nat) : Prop :=
  exists m, heap d !! p = Some m /\ arq_AppID m ∈ conns d /\ arq_State m <> ARQStatePayloadReceived /\ scheduled d (arq_AppID m) s.

(** The invariant; the message at the identifier [except] is being handled. *)
Record arqOk (d : arqDaemon C) (except : option bytes) : Prop := {
  ok_maps : mapsOk (heap d) (arqSurbIDMap d) (arqEnvelopeHashMap d);
  ok_alive : strict = true -> forall s p, Some s <> except -> arqSurbIDMap d !! s = Some p -> alive d s p;
}.

Abbreviation trackedIn d := (trackedAt (heap d) (arqSurbIDMap d)).

(** Nothing but schedules has changed, and these only for one identifier. *)
Lemma ok_unschedule d d' s : arqOk d None -> heap d' = heap d -> arqSurbIDMap d' = arqSurbIDMap d -> arqEnvelopeHashMap d' = arqEnvelopeHashMap d -> conns d' = conns d ->
  (forall a s1, s1 <> s -> scheduled d a s1 -> scheduled d' a s1) -> arqOk d' (Some s).
Proof.
  intros [Hm Ha] H1 H2 H3 H4 Hs. split; [by rewrite H1, H2, H3|]. intros Hst s1 p1 Hne. rewrite H2. intros Hp.
  destruct (Ha Hst s1 p1) as (m & ? & ? & ? & ?); [done..|]. exists m. rewrite H1, H4. split_and!; try done. apply Hs; [congruence|done].
Qed.

Lemma ok_same d d' o : arqOk d o -> heap d' = heap d -> arqSurbIDMap d' = arqSurbIDMap d -> arqEnvelopeHashMap d' = arqEnvelopeHashMap d -> conns d' = conns d ->
  (forall a s1, scheduled d a s1 -> scheduled d' a s1) -> arqOk d' o.
Proof.
  intros [Hm Ha] H1 H2 H3 H4 Hs. split; [by rewrite H1, H2, H3|]. intros Hst s1 p1 Hne. rewrite H2. intros Hp.
  destruct (Ha Hst s1 p1) as (m & ? & ? & ? & ?); [done..|]. exists m. rewrite H1, H4. split_and!; auto.
Qed.

Lemma ok_respond r d o : arqOk d o -> arqOk (respond r d) o.
Proof. intros Ho. by apply (ok_same d). Qed.

Lemma scheduled_cancel d s a s1 : s1 <> s -> scheduled d a s1 -> scheduled (cancelTimer s d) a s1.
Proof.
  intros Hne [Ht|Hr]; [left|by right]. apply list_elem_of_fmap in Ht as ([t s2] & -> & Ht). apply list_elem_of_fmap. exists (t, s2). split; [done|].
  by apply list_elem_of_filter.
Qed.

Lemma ok_cancelTimer d s : arqOk d None -> arqOk (cancelTimer s d) (Some s).
Proof. intros Ho. apply (ok_unschedule d); try done. intros a s1. apply scheduled_cancel. Qed.

(** The message is done. *)
Lemma ok_drop d p m s h : arqOk d (Some s) -> trackedIn d p m s h -> arqOk (dropARQMessage m d) None.
Proof.
  intros [Hm Ha] Ht. split.
  - pose proof (maps_remove _ _ _ _ _ _ _ Hm Ht) as Hr. destruct Ht as [_ Hs Hh _]. unfold dropARQMessage. cbn. rewrite Hs, Hh. exact Hr.
  - intros Hst s1 p1 _. destruct Ht as [_ Hs _ _]. cbn. rewrite Hs. cbn. rewrite lookup_delete_Some. intros [Hne H1].
    apply Ha; [done|congruence|done].
Qed.

Lemma ok_finish d p m s h r : arqOk d (Some s) -> trackedIn d p m s h -> arqOk (finish m r d) None.
Proof. intros Ho Ht. apply ok_respond. by eapply ok_drop. Qed.

(** It goes to another state, *)
Lemma ok_setState d p m s h st : arqOk d (Some s) -> trackedIn d p m s h ->
  arqOk (setHeap p (withState m st) d) (Some s) /\ trackedIn (setHeap p (withState m st) d) p (withState m st) s h.
Proof.
  intros [Hm Ha] Ht. destruct (maps_update _ _ _ p m (withState m st) s h Hm Ht) as [Hm' Ht']; [apply Ht|apply Ht|]. split; [|exact Ht']. split; [exact Hm'|].
  intros Hst s1 p1 Hne H1. destruct (Ha Hst s1 p1 Hne H1) as (m1 & H2 & H3 & H4 & H5). exists m1. split_and!; try done. cbn.
  rewrite lookup_insert_ne; [done|]. intros <-. destruct (mo_surb _ _ _ Hm s1 p H1) as (m2 & h2 & H6 & H7 & _). destruct Ht as [Hp Hs _ _]. congruence.
Qed.

(** or to another identifier, with which it is scheduled. *)
Lemma ok_move d d' p m m' s s' h : arqOk d (Some s) -> trackedIn d p m s h -> arqSurbIDMap d !! s' = None ->
  arq_SURBID m' = Some s' -> arq_EnvelopeHash m' = Some h ->
  heap d' = <[p := m']> (heap d) -> arqSurbIDMap d' = <[s' := p]> (delete s (arqSurbIDMap d)) -> arqEnvelopeHashMap d' = <[h := s']> (arqEnvelopeHashMap d) ->
  conns d' = conns d -> scheduled d' (arq_AppID m') s' -> (forall a s1, s1 <> s -> scheduled d a s1 -> scheduled d' a s1) ->
  (strict = true -> arq_AppID m' ∈ conns d /\ arq_State m' <> ARQStatePayloadReceived) -> arqOk d' None.
Proof.
  intros [Hm Ha] Ht Hf Hs' Hh' H1 H2 H3 H4 Hsch Hoth Hal. split.
  - rewrite H1, H2, H3. by eapply maps_move.
  - intros Hst s1 p1 _. rewrite H2, lookup_insert_Some, lookup_delete_Some. intros [[<- <-]|(Hne & Hne' & Hs1)].
    + destruct (Hal Hst). exists m'. rewrite H1, H4, lookup_insert_eq. by split_and!.
    + destruct (Ha Hst s1 p1) as (m1 & G1 & G2 & G3 & G4); [congruence|done|]. exists m1. rewrite H1, H4. split_and!; auto.
      rewrite lookup_insert_ne; [done|]. intros <-. destruct (mo_surb _ _ _ Hm s1 p Hs1) as (m2 & h2 & H6 & H7 & _). destruct Ht as [Hp Hs _ _]. congruence.
Qed.

Lemma scheduled_push t s d a s1 : scheduled d a s1 -> scheduled (push t s d) a s1.
Proof. intros [H|H]; [left; by apply list_elem_of_further|by right]. Qed.

Lemma push_scheduled t s d a : scheduled (push t s d) a s.
Proof. left. apply list_elem_of_here. Qed.

(** New identifiers are not in use. *)
Definition freshInput (inp : resendInput) (d : arqDaemon C) : Prop :=
  forall s, ri_surb inp = Ok s \/ ri_placeholder inp = Ok s -> arqSurbIDMap d !! s = None.

(** A placeholder, or a new packet. *)
Lemma ok_place d p m s h t s' : arqOk d (Some s) -> trackedIn d p m s h -> arqSurbIDMap d !! s' = None ->
  (strict = true -> arq_AppID m ∈ conns d /\ arq_State m <> ARQStatePayloadReceived) -> arqOk (push t s' (placeARQMessage p m s' d)) None.
Proof.
  intros Ho Ht Hf Hal. pose proof Ht as [Hp Hs Hh _]. eapply (ok_move d _ p m (withSurb m s') s s' h); try done.
  - cbn. by rewrite Hs.
  - cbn. by rewrite Hh.
  - apply push_scheduled.
  - intros a s1 _ H1. by apply scheduled_push.
Qed.

Lemma ok_reschedule d p m s h rand now : arqOk d (Some s) -> trackedIn d p m s h -> (forall s', rand = Ok s' -> arqSurbIDMap d !! s' = None) ->
  (strict = true -> exists s', rand = Ok s') -> (strict = true -> arq_AppID m ∈ conns d /\ arq_State m <> ARQStatePayloadReceived) ->
  arqOk (rescheduleARQAfterComposeFailure p m rand now d) None.
Proof.
  intros Ho Ht Hf Hr Hal. unfold rescheduleARQAfterComposeFailure. destruct rand as [s'| |]; [eapply ok_place; eauto|..].
  all: split; [apply Ho|]; intros Hst; destruct (Hr Hst) as [? [=]].
Qed.

Lemma ok_rotate d p m s h s' key rtt now t : arqOk d (Some s) -> trackedIn d p m s h -> arqSurbIDMap d !! s' = None ->
  (strict = true -> arq_AppID m ∈ conns d /\ arq_State m <> ARQStatePayloadReceived) -> arqOk (push t s' (rotateARQSurbIDLocked p m s' key rtt now d)) None.
Proof.
  intros Ho Ht Hf Hal. pose proof Ht as [Hp Hs Hh _]. eapply (ok_move d _ p m (withSend m s' key rtt now (wrap 32 (Retransmissions m + 1))) s s' h); try done.
  - cbn. by rewrite Hs.
  - cbn. by rewrite Hh.
  - apply push_scheduled.
  - intros a s1 _ H1. by apply scheduled_push.
Qed.

Lemma ok_resendNow d p m s h s' key rtt now st : arqOk d (Some s) -> trackedIn d p m s h -> arqSurbIDMap d !! s' = None ->
  (strict = true -> arq_AppID m ∈ conns d /\ st <> ARQStatePayloadReceived) -> arqOk (resendNow p m s' key rtt now st d) None.
Proof.
  intros Ho Ht Hf Hal. pose proof Ht as [Hp Hs Hh _]. unfold resendNow. rewrite Hs.
  eapply (ok_move d _ p m (withState (withSend m s' key rtt now (wrap 32 (Retransmissions m + 1))) st) s s' h); try done.
  - cbn. by rewrite insert_insert_eq.
  - cbn. by rewrite Hs.
  - cbn. by rewrite Hh.
  - apply push_scheduled.
  - intros a s1 Hne H1. apply scheduled_push. by apply scheduled_cancel.
Qed.

Lemma ok_lax d o : strict = false -> arqOk d o -> arqOk d None.
Proof. intros Hs [Hm _]. split; [done|]. by rewrite Hs. Qed.

(** Random bytes and packets were there. *)
Definition goodInput (inp : resendInput) : Prop :=
  (exists s, ri_surb inp = Ok s) /\ (exists s, ri_placeholder inp = Ok s) /\ (exists kr, ri_composed inp = Ok kr).

Lemma tracked_true d p m s h : trackedIn d p m s h -> tracked p m d = true.
Proof. intros [_ Hs _ Hp]. unfold tracked. rewrite Hs. by apply bool_decide_eq_true_2. Qed.

Lemma ok_payload doc d p m s h payload inp : arqOk d (Some s) -> trackedIn d p m s h -> freshInput inp d -> (strict = true -> goodInput inp /\ arq_AppID m ∈ conns d) ->
  arqOk (handlePayloadReply doc p m payload inp d) None.
Proof.
  intros Ho Ht Hf Hg. assert (Hfin : forall r, arqOk (finish m r d) None) by (intros r; by eapply ok_finish).
  unfold handlePayloadReply. destruct (decryptPigeonholeReply _ _ _) as [err|plain].
  - destruct (determinePayloadErrorAction _ _ _ _); [apply Hfin| |apply Hfin]. destruct (ri_surb inp) as [s'| |] eqn:Hs; [|apply Hfin..].
    assert (Hfr : arqSurbIDMap d !! s' = None) by (apply Hf; by left).
    destruct (ri_composed inp) as [[k rtt]| |] eqn:Hk.
    + rewrite (tracked_true _ _ _ _ _ Ht). eapply ok_resendNow; [done..|]. intros Hst. destruct (Hg Hst). by split.
    + eapply ok_reschedule; [done..|intros s2 H2; apply Hf; by right| |]; intros Hst; destruct (Hg Hst) as [(_ & _ & ? & [=]) _]; congruence.
    + eapply ok_reschedule; [done..|intros s2 H2; apply Hf; by right| |]; intros Hst; destruct (Hg Hst) as [(_ & _ & ? & [=]) _]; congruence.
  - destruct (negb (IsRead m)); [apply Hfin|]. case_bool_decide; [apply Hfin|]. destruct (ExtractMessageFromPaddedPayload plain); apply Hfin.
Qed.

Lemma ok_envelope doc d p m s h r inp : arqOk d (Some s) -> trackedIn d p m s h -> freshInput inp d ->
  (strict = true -> goodInput inp /\ arq_AppID m ∈ conns d /\ arq_State m <> ARQStatePayloadReceived) -> arqOk (handleEnvelopeReply doc p m r inp d) None.
Proof.
  intros Ho Ht Hf Hg. assert (Hfin : forall r, arqOk (finish m r d) None) by (intros r0; by eapply ok_finish). unfold handleEnvelopeReply.
  set (tr := computeARQStateTransition _ _ _ _ _). destruct (ok_setState d p m s h (NewState tr) Ho Ht) as [Ho' Ht'].
  assert (Htr : Action tr = ARQActionSendNewSURB -> NewState tr = ARQStateACKReceived).
  { unfold tr, computeARQStateTransition. by repeat case_match. }
  assert (Hti : Action tr = ARQActionIgnore -> arq_State m = ARQStatePayloadReceived).
  { unfold tr, computeARQStateTransition. by repeat case_match. }
  destruct (Action tr) eqn:Hact; [|apply Hfin| |apply Hfin|].
  - destruct (ri_surb inp) as [s'| |] eqn:Hs.
    + assert (Hfr : arqSurbIDMap d !! s' = None) by (apply Hf; by left). destruct (ri_composed inp) as [[k rtt]| |] eqn:Hk.
      * rewrite (tracked_true _ _ _ _ _ Ht'). cbn [andb]. destruct (isConnected _ _) eqn:Hc.
        -- eapply ok_resendNow; [done..|]. intros Hst. destruct (Hg Hst) as (_ & Happ & _). by rewrite (Htr eq_refl).
        -- destruct strict eqn:Hst; [|by eapply ok_lax]. exfalso. destruct (Hg eq_refl) as (_ & Happ & _). by apply bool_decide_eq_false in Hc.
      * eapply ok_reschedule; [done..|intros s2 H2; apply Hf; by right| |]; intros Hst; destruct (Hg Hst) as ((_ & _ & ? & [=]) & _); congruence.
      * eapply ok_reschedule; [done..|intros s2 H2; apply Hf; by right| |]; intros Hst; destruct (Hg Hst) as ((_ & _ & ? & [=]) & _); congruence.
    + destruct strict eqn:Hst; [|by eapply ok_lax]. destruct (Hg eq_refl) as (((? & [=]) & _) & _). congruence.
    + destruct strict eqn:Hst; [|by eapply ok_lax]. destruct (Hg eq_refl) as (((? & [=]) & _) & _). congruence.
  - eapply ok_payload; [done..|]. intros Hst. destruct (Hg Hst) as (? & ? & _). by split.
  - destruct strict eqn:Hst; [|by eapply ok_lax]. destruct (Hg eq_refl) as (_ & _ & Hne). by destruct Hne, (Hti eq_refl).
Qed.

Lemma ok_copy d p m s h reply inp : arqOk d (Some s) -> trackedIn d p m s h -> freshInput inp d ->
  (strict = true -> goodInput inp /\ arq_AppID m ∈ conns d /\ arq_State m <> ARQStatePayloadReceived /\ cqr_ReplyType reply = 1 /\ is_Some (cqr_CopyCommandReply reply)) ->
  arqOk (handleCopyCommandARQReply p m reply inp d) None.
Proof.
  intros Ho Ht Hf Hg. assert (Hfin : forall r, arqOk (finish m r d) None) by (intros r0; by eapply ok_finish).
  assert (Hlax : (strict = true -> False) -> arqOk d None) by (intros Hn; destruct strict eqn:Hst; [by destruct Hn|by eapply ok_lax]).
  unfold handleCopyCommandARQReply. destruct (cqr_CopyCommandReply reply) as [r|] eqn:Hr.
  - destruct (Z.eqb_spec (cqr_ReplyType reply) 1) as [_|Hne]; cbn [negb].
    + destruct (Z.eqb (ccr_Status r) CopyStatusInProgress); [|by repeat case_match].
      unfold scheduleCopyCommandPoll. destruct (ri_placeholder inp) as [s'| |] eqn:Hs.
      * rewrite (tracked_true _ _ _ _ _ Ht). eapply ok_place; [done..|apply Hf; by right|]. intros Hst. by destruct (Hg Hst) as (_ & ? & ? & _).
      * apply Hlax. intros Hst. destruct (Hg Hst) as ((_ & (? & [=]) & _) & _); congruence.
      * apply Hlax. intros Hst. destruct (Hg Hst) as ((_ & (? & [=]) & _) & _); congruence.
    + apply Hlax. intros Hst. by destruct (Hg Hst) as (_ & _ & _ & ? & _).
  - apply Hlax. intros Hst. by destruct (Hg Hst) as (_ & _ & _ & _ & [? [=]]).
Qed.

(** Replies to copy commands are of their type. *)
Definition goodReply (d : arqDaemon C) (surbID : bytes) (reply : outcome CourierQueryReply) : Prop :=
  forall p m r, arqSurbIDMap d !! surbID = Some p -> heap d !! p = Some m -> MessageType m = ARQMessageTypeCopyCommand -> reply = Ok r ->
    cqr_ReplyType r = 1 /\ is_Some (cqr_CopyCommandReply r).

Lemma ok_reply doc d s reply inp : arqOk d None -> freshInput inp d -> (strict = true -> goodInput inp /\ goodReply d s reply) ->
  arqOk (handleReply doc s reply inp d) None.
Proof.
  intros Ho Hf Hg. unfold handleReply. destruct (arqSurbIDMap d !! s) as [p|] eqn:Hs; [|done].
  destruct (maps_tracked _ _ _ _ _ (ok_maps _ _ Ho) Hs) as (m & h & Ht & _). pose proof Ht as [Hp Hms _ _]. rewrite Hp, Hms.
  pose proof (ok_cancelTimer d s Ho) as Ho'. assert (Ht' : trackedIn (cancelTimer s d) p m s h) by exact Ht.
  assert (Hal : strict = true -> arq_AppID m ∈ conns d /\ arq_State m <> ARQStatePayloadReceived).
  { intros Hst. destruct (ok_alive _ _ Ho Hst s p) as (m' & H1 & H2 & H3 & _); [done..|]. assert (m' = m) as -> by congruence. done. }
  assert (Hdrop : arqOk (dropARQMessage m (cancelTimer s d)) None) by by eapply ok_drop.
  unfold handlePigeonholeARQReply. destruct (isConnected _ _) eqn:Hc; cbn [negb].
  - destruct reply as [reply| |]; [|done..]. destruct (MessageType m) eqn:Hty.
    + destruct (EnvelopeReply reply) as [r|]; [|done]. destruct (negb _); [done|]. eapply ok_envelope; [done..|]. intros Hst. destruct (Hg Hst), (Hal Hst). by split_and!.
    + eapply ok_copy; [done..|]. intros Hst. destruct (Hg Hst) as [Hgi Hgr], (Hal Hst). destruct (Hgr p m reply) as [? ?]; [done..|]. by split_and!.
  - destruct strict eqn:Hst; [|by eapply ok_lax]. destruct (Hal eq_refl) as [Happ _]. by apply bool_decide_eq_false in Hc.
Qed.

(** A new message. *)
Lemma ok_start d p m envHashKey inp : arqOk d None -> heap d !! p = None -> freshInput inp d -> arqEnvelopeHashMap d !! envHashKey = None ->
  arq_EnvelopeHash m = Some envHashKey -> (strict = true -> arq_AppID m ∈ conns d /\ arq_State m <> ARQStatePayloadReceived) ->
  match arqSend p m envHashKey inp d with Ok d' => arqOk d' None | _ => True end.
Proof.
  intros [Hm Ha] Hp Hf Hh Hmh Hal. unfold arqSend. destruct (ri_surb inp) as [s| |] eqn:Hs; [|done..]. destruct (ri_composed inp) as [[k rtt]| |]; [|done..].
  assert (Hsf : arqSurbIDMap d !! s = None) by (apply Hf; by left). cbn. split; [by apply maps_add|].
  intros Hst s1 p1 _. cbn. rewrite lookup_insert_Some. intros [[<- <-]|[Hne H1]].
  - destruct (Hal Hst). eexists. cbn. rewrite lookup_insert_eq. split_and!; try done. apply push_scheduled.
  - destruct (Ha Hst s1 p1) as (m1 & G1 & G2 & G3 & G4); [done..|]. exists m1. cbn. rewrite lookup_insert_ne by congruence. split_and!; try done.
    by apply scheduled_push.
Qed.

(** The message that was excepted is alive after all. *)
Lemma ok_restore d s : arqOk d (Some s) -> (strict = true -> forall p, arqSurbIDMap d !! s = Some p -> alive d s p) -> arqOk d None.
Proof.
  intros [Hm Ha] Hs. split; [done|]. intros Hst s1 p1 _ H1. destruct (decide (s1 = s)) as [->|]; [by apply Hs|]. apply Ha; [done|congruence|done].
Qed.

Lemma ok_cancel copy d appID queryID envHash : arqOk d None -> arqOk (cancelResending copy appID queryID envHash d) None.
Proof.
  intros Ho. unfold cancelResending. destruct (arqEnvelopeHashMap d !! envHash) as [s|] eqn:Hh; [|by apply ok_respond].
  destruct (mo_hash _ _ _ (ok_maps _ _ Ho) _ _ Hh) as (p & m & Hs & Hp & Hmh). rewrite Hs. cbn [mbind option_bind]. rewrite Hp.
  destruct (maps_tracked _ _ _ _ _ (ok_maps _ _ Ho) Hs) as (m' & h' & Ht & _). assert (m' = m) as -> by (destruct Ht; congruence).
  assert (h' = envHash) as -> by (destruct Ht; congruence). pose proof Ht as [_ Hms _ _]. rewrite Hms. apply ok_respond, ok_respond.
  pose proof (ok_drop (cancelTimer s d) p m s envHash (ok_cancelTimer d s Ho) Ht) as Hd. unfold dropARQMessage in Hd. by rewrite Hms, Hmh in Hd.
Qed.

(** A timer that fires is removed. *)
Lemma ok_fire d l1 t s l2 full now : arqOk d None -> arqTimerQueue d = l1 ++ (t, s) :: l2 -> arqOk (enqueueResend s full now (setTimers (l1 ++ l2) d)) None.
Proof.
  intros Ho Hq. assert (Hoth : forall a s1, s1 <> s -> scheduled d a s1 -> scheduled (setTimers (l1 ++ l2) d) a s1).
  { intros a s1 Hne [H|H]; [left|by right]. cbn. rewrite Hq, fmap_app, fmap_cons in H. rewrite fmap_app. set_solver. }
  assert (Ho' : arqOk (setTimers (l1 ++ l2) d) (Some s)) by by apply (ok_unschedule d).
  unfold enqueueResend. cbn. destruct (arqSurbIDMap d !! s) as [p|] eqn:Hs; cbn; [|apply (ok_restore _ s); cbn; [done|congruence]].
  destruct (maps_tracked _ _ _ _ _ (ok_maps _ _ Ho) Hs) as (m & h & [Hp Hms _ _] & _). rewrite Hp.
  destruct (isConnected (arq_AppID m) _) eqn:Hc; cbn [negb].
  - assert (Hadd : forall d', heap d' = heap d -> arqSurbIDMap d' = arqSurbIDMap d -> arqEnvelopeHashMap d' = arqEnvelopeHashMap d -> conns d' = conns d ->
      (forall a s1, s1 <> s -> scheduled d a s1 -> scheduled d' a s1) -> scheduled d' (arq_AppID m) s -> arqOk d' None).
    { intros d' H1 H2 H3 H4 H5 H6. apply (ok_restore _ s); [by apply (ok_unschedule d)|]. intros Hst p1. rewrite H2. intros Hp1. assert (p1 = p) as -> by congruence.
      destruct (ok_alive _ _ Ho Hst s p) as (m' & G1 & G2 & G3 & _); [done..|]. exists m'. assert (m' = m) as -> by congruence. rewrite H1, H4. by split_and!. }
    destruct full; apply Hadd; try done.
    + intros a s1 Hne H1. by apply scheduled_push, Hoth.
    + apply push_scheduled.
    + intros a s1 Hne H1. destruct (Hoth a s1 Hne H1) as [H|H]; [by left|right; cbn in *; set_solver].
    + right. cbn. set_solver.
  - destruct strict eqn:Hst; [|by eapply ok_lax]. exfalso. destruct (ok_alive _ _ Ho Hst s p) as (m' & G1 & G2 & _); [done..|].
    assert (m' = m) as -> by congruence. by apply bool_decide_eq_false in Hc.
Qed.

(** The turn of a message that waits. *)
Lemma ok_resend d q1 a s q2 inp d' : arqOk d None -> resendCh d = q1 ++ (a, s) :: q2 -> freshInput inp d -> (strict = true -> exists s', ri_placeholder inp = Ok s') ->
  arqDoResend s inp (setResend (q1 ++ q2) d) = Ok d' -> arqOk d' None.
Proof.
  intros Ho Hq Hf Hg. assert (Ho' : arqOk (setResend (q1 ++ q2) d) (Some s)).
  { apply (ok_unschedule d); try done. intros a1 s1 Hne [H|H]; [by left|right]. cbn. rewrite Hq in H. set_solver. }
  unfold arqDoResend. cbn. destruct (arqSurbIDMap d !! s) as [p|] eqn:Hs; [|intros [= <-]; apply (ok_restore _ s); cbn; [done|congruence]].
  destruct (maps_tracked _ _ _ _ _ (ok_maps _ _ Ho) Hs) as (m & h & Ht & _). pose proof Ht as [Hp Hms Hmh _]. rewrite Hp.
  assert (Hal : strict = true -> arq_AppID m ∈ conns d /\ arq_State m <> ARQStatePayloadReceived).
  { intros Hst. destruct (ok_alive _ _ Ho Hst s p) as (m' & H1 & H2 & H3 & _); [done..|]. assert (m' = m) as -> by congruence. done. }
  destruct (negb _).
  { intros [= <-]. pose proof (ok_drop _ p m s h Ho' Ht) as Hd. unfold dropARQMessage in Hd. by rewrite Hms in Hd. }
  destruct (ri_surb inp) as [s'| |] eqn:Hsi; [|done..]. destruct (ri_composed inp) as [[k rtt]| |]; intros [= <-].
  - eapply ok_rotate; [done..| |done]. apply Hf. by left.
  - eapply ok_reschedule; [done..| |done|done]. intros s2 H2. apply Hf. by right.
  - eapply ok_reschedule; [done..| |done|done]. intros s2 H2. apply Hf. by right.
Qed.

(** ** A client that has gone *)

Lemma cancelAll_same (ms : list (ARQMessage C)) d : let d' := foldl (fun d m => match arq_SURBID m with Some s => cancelTimer s d | None => d end) d ms in
  heap d' = heap d /\ arqSurbIDMap d' = arqSurbIDMap d /\ arqEnvelopeHashMap d' = arqEnvelopeHashMap d /\ conns d' = conns d /\
  forall a s, Forall (fun m => arq_SURBID m <> Some s) ms -> scheduled d a s -> scheduled d' a s.
Proof.
  revert d. induction ms as [|m ms IH]; intros d; [done|]. cbn [foldl].
  destruct (IH (match arq_SURBID m with Some s => cancelTimer s d | None => d end)) as (-> & -> & -> & -> & Hsch). split_and!; try by destruct (arq_SURBID m).
  intros a s Hf Hs. apply Forall_cons in Hf as [Hm Hf]. apply Hsch; [done|]. destruct (arq_SURBID m) as [s'|]; [|done]. apply scheduled_cancel; [congruence|done].
Qed.

Lemma dropHashes_lookup (ms : list (ARQMessage C)) hashes h (s : bytes) :
  foldl (fun hashes m => deleteOpt (arq_EnvelopeHash m) hashes) hashes ms !! h = Some s <-> hashes !! h = Some s /\ Forall (fun m => arq_EnvelopeHash m <> Some h) ms.
Proof.
  revert hashes. induction ms as [|m ms IH]; intros hashes; cbn [foldl]; [naive_solver|]. rewrite IH, Forall_cons.
  destruct (arq_EnvelopeHash m) as [h'|]; cbn; [rewrite lookup_delete_Some; split|naive_solver]; [intros [[? ?] ?]|intros (? & ? & ?)]; split_and!; try done; congruence.
Qed.

Lemma messagesOf_spec d appID m : m ∈ messagesOf d appID <-> exists s p, arqSurbIDMap d !! s = Some p /\ heap d !! p = Some m /\ arq_AppID m = appID.
Proof.
  unfold messagesOf. rewrite list_elem_of_omap. setoid_rewrite elem_of_map_to_list'. unfold ofApp. split.
  - intros ([s p] & Hs & Hm). exists s, p. cbn in *. destruct (heap d !! p) as [m'|] eqn:Hp; [|done]. case_bool_decide; naive_solver.
  - intros (s & p & Hs & Hp & Ha). exists (s, p). split; [done|]. rewrite Hp. by rewrite bool_decide_eq_true_2.
Qed.

Lemma ofApp_false d appID p m : heap d !! p = Some m -> ofApp d appID p = false <-> arq_AppID m <> appID.
Proof. intros Hp. unfold ofApp. rewrite Hp. apply bool_decide_eq_false. Qed.

(** Its messages are removed, and the others are as they were, when all that was lost
    before was its connection. *)
Lemma ok_cleanup d0 d appID : arqOk d0 None -> heap d = heap d0 -> arqSurbIDMap d = arqSurbIDMap d0 -> arqEnvelopeHashMap d = arqEnvelopeHashMap d0 ->
  (forall a, a <> appID -> a ∈ conns d0 -> a ∈ conns d) -> (forall a s, a <> appID -> scheduled d0 a s -> scheduled d a s) -> arqOk (cleanupForAppID appID d) None.
Proof.
  intros [Hm Ha] H1 H2 H3 H4 H5. rewrite <-H1, <-H2, <-H3 in Hm.
  destruct (cancelAll_same (messagesOf d appID) d) as (E1 & E2 & E3 & E4 & Hsch). unfold cleanupForAppID.
  set (d' := foldl (fun d m => match arq_SURBID m with Some s => cancelTimer s d | None => d end) d _) in *.
  assert (Huniq : forall s p m m', arqSurbIDMap d !! s = Some p -> heap d !! p = Some m -> ofApp d appID p = false -> m' ∈ messagesOf d appID ->
    arq_SURBID m' <> Some s /\ forall h, arqEnvelopeHashMap d !! h = Some s -> arq_EnvelopeHash m' <> Some h).
  { intros s p m m' Hs Hp Hof (s' & p' & Hs' & Hp' & Happ)%messagesOf_spec. apply (ofApp_false d appID p m Hp) in Hof.
    destruct (mo_surb _ _ _ Hm s' p' Hs') as (m2 & h2 & G1 & G2 & G3 & G4). assert (m2 = m') as -> by congruence. assert (Hne : s' <> s) by congruence.
    split; [congruence|]. intros h Hh. congruence. }
  split; cbn.
  - rewrite E1. split.
    + intros s p [Hs Hof]%map_lookup_filter_Some. destruct (mo_surb _ _ _ Hm s p Hs) as (m & h & G1 & G2 & G3 & G4). exists m, h. split_and!; try done.
      apply dropHashes_lookup. split; [done|]. apply Forall_forall. intros m' Hm'. by eapply Huniq.
    + intros h s [Hh Hf]%dropHashes_lookup. destruct (mo_hash _ _ _ Hm h s Hh) as (p & m & G1 & G2 & G3). exists p, m. split_and!; try done.
      apply map_lookup_filter_Some. split; [done|]. apply (ofApp_false d appID p m G2). intros Happ. rewrite Forall_forall in Hf. apply (Hf m); [|done].
      apply messagesOf_spec. by exists s, p.
  - intros Hst s p _ [Hs Hof]%map_lookup_filter_Some. rewrite H2 in Hs. destruct (Ha Hst s p) as (m & G1 & G2 & G3 & G4); [done..|]. rewrite <-H1 in G1.
    pose proof (proj1 (ofApp_false d appID p m G1) Hof) as Happ. exists m. cbn. rewrite E1, E4. split_and!; [done|by apply H4|done|].
    apply (Hsch (arq_AppID m) s); [|by apply H5]. apply Forall_forall. intros m' Hm'. rewrite <-H2 in Hs. by eapply Huniq.
Qed.

Lemma ok_unregister appID d : arqOk d None -> arqOk (cleanupForAppID appID (unregisterConn appID d)) None.
Proof.
  intros Ho. apply (ok_cleanup d); try done; cbn.
  - set_solver.
  - intros a s Hne [H|H]; [by left|right]. cbn. apply list_elem_of_filter. by split.
Qed.

End Invariant.

