(* ===== verification/ArqRuns.v ===== *)
(** Runs of the resending of [ClientArq], as a step relation: whatever happens, a
    message that is resent can be cancelled; when no session is interrupted and the
    random bytes and packets a reply asks for are there, it stays scheduled; and what
    happens to it when its session is interrupted and resumed. *)

From S2P Require Import Prelude Schemes ToySchemes SphinxGeo TimerQueue EpochTime PigeonGeo PigeonMessages PkiDocument Sharding ReplicaHandlers ReplicaToy Bacap Courier CourierCopy CopyWitness ClientEnvelopes ClientRead ClientArq ArqInvariant.
From Stdlib Require Import ZArith Lia.
From stdpp Require Import prelude list strings gmap relations.

Local Open Scope Z_scope.

Section Runs.

Context {P : PigeonSizes} {N : Nike} {M : Mkem N} {C : Bacap} {D : DescriptorCodec N} (blake2b_Sum256 : bytes -> bytes).

Definition arqInit : arqDaemon C := mkArqDaemon _ ∅ ∅ ∅ [] [] ∅ ∅ ∅ [].

(** One thing that happens to the daemon.  Objects and identifiers are new, and no
    message is started while another with its hash is resent.  In a [strict] run
    clients start messages while they are connected, connections with a token are not
    lost, and random bytes and packets are there for replies. *)
Inductive arqStep (strict : bool) : arqDaemon C -> arqDaemon C -> Prop :=
| step_connect appID d : arqStep strict d (registerConn appID d)
| step_start p appID req courier inp d :
    heap d !! p = None -> freshInput inp d -> (forall h, sr_EnvelopeHash req = Some h -> arqEnvelopeHashMap d !! h = None) -> (strict = true -> appID ∈ conns d) ->
    arqStep strict d (startResendingEncryptedMessage p appID req courier inp d)
| step_copy p appID queryID writeCapBytes courier inp d :
    heap d !! p = None -> freshInput inp d -> (forall w, writeCapBytes = Some (Ok w) -> arqEnvelopeHashMap d !! blake2b_Sum256 w = None) -> (strict = true -> appID ∈ conns d) ->
    arqStep strict d (startResendingCopyCommand blake2b_Sum256 p appID queryID writeCapBytes courier inp d)
| step_cancel copy appID queryID envHash d : arqStep strict d (cancelResendingMessage copy appID queryID envHash d)
| step_reply doc surbID reply inp d :
    freshInput inp d -> (strict = true -> goodInput inp /\ goodReply d surbID reply) -> arqStep strict d (handleReply doc surbID reply inp d)
| step_fire l1 t s l2 full now d : arqTimerQueue d = l1 ++ (t, s) :: l2 -> arqStep strict d (enqueueResend s full now (setTimers (l1 ++ l2) d))
| step_resend q1 a s q2 inp d d' :
    resendCh d = q1 ++ (a, s) :: q2 -> freshInput inp d -> (strict = true -> exists s', ri_placeholder inp = Ok s') ->
    arqDoResend s inp (setResend (q1 ++ q2) d) = Ok d' -> arqStep strict d d'
| step_closed explicitClose token appID d : (strict = true -> explicitClose = true \/ token = None) -> arqStep strict d (onClosedConn explicitClose token appID d)
| step_expire appID d : arqStep strict d (expireSession appID d)
| step_token appID token d : (strict = true -> clientTokens d !! token = None) -> arqStep strict d (handleSessionToken appID token d).

Lemma ok_maps_only strict d d' : strict = false -> arqOk strict d None -> heap d' = heap d -> arqSurbIDMap d' = arqSurbIDMap d -> arqEnvelopeHashMap d' = arqEnvelopeHashMap d ->
  arqOk strict d' None.
Proof. intros Hst [Hm _] H1 H2 H3. split; [by rewrite H1, H2, H3|congruence]. Qed.

Lemma ok_sendError strict appID r d : arqOk strict d None -> arqOk strict (sendError appID r d) None.
Proof. intros Ho. unfold sendError. destruct (isConnected _ _); [by apply ok_respond|done]. Qed.

Lemma ok_starts strict p appID req courier inp d : arqOk strict d None -> heap d !! p = None -> freshInput inp d ->
  (forall h, sr_EnvelopeHash req = Some h -> arqEnvelopeHashMap d !! h = None) -> (strict = true -> appID ∈ conns d) ->
  arqOk strict (startResendingEncryptedMessage p appID req courier inp d) None.
Proof.
  intros Ho Hp Hf Hh Hc. unfold startResendingEncryptedMessage. destruct (validateStartResendingRequest req) as [[q h]| |] eqn:Hv; try by apply ok_sendError.
  assert (Hr : sr_EnvelopeHash req = Some h) by (unfold validateStartResendingRequest in Hv; by repeat case_match; simplify_eq).
  destruct courier as [[c| |]|]; try by apply ok_sendError. set (m := mkARQMessage _ _ _ _ _ _ _ _ _ _ _ _ _ _ _ _ _ _ _).
  assert (Hal : strict = true -> arq_AppID m ∈ conns d /\ arq_State m <> ARQStatePayloadReceived) by auto.
  pose proof (ok_start strict d p m h inp Ho Hp Hf (Hh h Hr) eq_refl Hal) as Hs.
  destruct (arqSend _ _ _ _ _); [done|by apply ok_sendError..].
Qed.

Lemma ok_copies strict p appID queryID writeCapBytes courier inp d : arqOk strict d None -> heap d !! p = None -> freshInput inp d ->
  (forall w, writeCapBytes = Some (Ok w) -> arqEnvelopeHashMap d !! blake2b_Sum256 w = None) -> (strict = true -> appID ∈ conns d) ->
  arqOk strict (startResendingCopyCommand blake2b_Sum256 p appID queryID writeCapBytes courier inp d) None.
Proof.
  intros Ho Hp Hf Hh Hc. unfold startResendingCopyCommand. destruct queryID as [q|]; [|by apply ok_sendError]. destruct writeCapBytes as [[w| |]|]; try by apply ok_sendError.
  destruct (MarshalBinary _) as [payload| |]; try by apply ok_sendError. destruct courier as [c| |]; try by apply ok_sendError. cbn zeta.
  set (m := mkARQMessage _ _ _ _ _ _ _ _ _ _ _ _ _ _ _ _ _ _ _).
  assert (Hal : strict = true -> arq_AppID m ∈ conns d /\ arq_State m <> ARQStatePayloadReceived) by auto.
  pose proof (ok_start strict d p m (blake2b_Sum256 w) inp Ho Hp Hf (Hh w eq_refl) eq_refl Hal) as Hs.
  destruct (arqSend _ _ _ _ _); [done|by apply ok_sendError..].
Qed.

Lemma ok_connect strict appID d : arqOk strict d None -> arqOk strict (registerConn appID d) None.
Proof.
  intros [Hm Ha]. split; [done|]. intros Hst s p Hne Hp. destruct (Ha Hst s p Hne Hp) as (m & G1 & G2 & G3 & G4). exists m. split_and!; try done. cbn. set_solver.
Qed.

Lemma ok_closed strict explicitClose token appID d : (strict = true -> explicitClose = true \/ token = None) -> arqOk strict d None ->
  arqOk strict (onClosedConn explicitClose token appID d) None.
Proof.
  intros Hs Ho. pose proof (ok_unregister strict appID d Ho) as Hu. unfold onClosedConn. destruct explicitClose; [by apply (ok_same _ _ _ _ Hu)|].
  destruct token as [token|]; [|done]. destruct strict; [naive_solver|]. by apply (ok_maps_only _ d).
Qed.

Lemma ok_expire strict appID d : arqOk strict d None -> arqOk strict (expireSession appID d) None.
Proof. intros Ho. unfold expireSession. destruct (disconnectedSessions d !! appID); [|done]. by apply (ok_cleanup _ d). Qed.

Lemma ok_token strict appID token d : (strict = true -> clientTokens d !! token = None) -> arqOk strict d None -> arqOk strict (handleSessionToken appID token d) None.
Proof.
  intros Hs Ho. unfold handleSessionToken. destruct (clientTokens d !! token) eqn:Ht; [|by apply (ok_same _ d)]. destruct strict; [naive_solver|]. by apply (ok_maps_only _ d).
Qed.

Lemma ok_step strict d d' : arqStep strict d d' -> arqOk strict d None -> arqOk strict d' None.
Proof.
  intros Hstep Ho. destruct Hstep.
  - by apply ok_connect.
  - by apply ok_starts.
  - by apply ok_copies.
  - unfold cancelResendingMessage. destruct (negb _); [done|]. destruct queryID, envHash; try by apply ok_sendError. by apply ok_cancel.
  - by apply ok_reply.
  - by eapply ok_fire.
  - by eapply ok_resend.
  - by apply ok_closed.
  - by apply ok_expire.
  - by apply ok_token.
Qed.

Lemma ok_run strict d : rtc (arqStep strict) arqInit d -> arqOk strict d None.
Proof.
  intros Hr. assert (Hi : arqOk strict arqInit None) by (by split; [split|]). induction Hr as [|d1 d2 d3 Hs _ IH]; [done|]. apply IH. by eapply ok_step.
Qed.

(** One object has one identifier. *)
Lemma object_tracked_once strict d s s' p : arqOk strict d None -> arqSurbIDMap d !! s = Some p -> arqSurbIDMap d !! s' = Some p -> s = s'.
Proof.
  intros [Hm _] Hs Hs'. destruct (mo_surb _ _ _ Hm s p Hs) as (m & ? & ? & ? & _), (mo_surb _ _ _ Hm s' p Hs') as (m' & ? & ? & ? & _). congruence.
Qed.



(** A session that is resumed has lost its resends.  The connection of a client with
    a session token is lost, the timer of one of its messages fires, and the client
    comes back with its token: the message is still there, and its client is connected,
    but no timer is set for it and it is not in the queue of the client, so that it is
    not sent again, though its session was preserved to be resumed. *)
Theorem resumed_session_stuck d p m s h l1 t l2 token newApp full now :
  let app := arq_AppID m in
  trackedAt (heap d) (arqSurbIDMap d) p m s h -> arqTimerQueue d = l1 ++ (t, s) :: l2 -> s ∉ (l1 ++ l2).*2 -> (forall a, (a, s) ∈ resendCh d -> a = app) ->
  clientTokens d !! token = Some app -> newApp <> app ->
  exists d', rtc (arqStep false) d d' /\
    d' = handleSessionToken newApp token (registerConn newApp (enqueueResend s full now (setTimers (l1 ++ l2) (onClosedConn false (Some token) app d)))) /\
    trackedAt (heap d') (arqSurbIDMap d') p m s h /\ isConnected app d' = true /\ forall a, ~ scheduled d' a s.
Proof.
  intros app Ht Hq Hl Hres Htok Hnew. pose proof Ht as [Hp Hms Hmh Hs]. eexists. split; [|split; [reflexivity|]].
  { eapply rtc_l; [apply (step_closed _ false (Some token) app d); congruence|]. eapply rtc_l; [apply (step_fire _ l1 t s l2 full now); exact Hq|].
    eapply rtc_l; [apply (step_connect _ newApp)|]. eapply rtc_l; [apply (step_token _ newApp token); congruence|reflexivity]. }
  assert (Hdis : isConnected app (setTimers (l1 ++ l2) (onClosedConn false (Some token) app d)) = false) by (apply bool_decide_eq_false_2; cbn; set_solver).
  unfold enqueueResend. cbn [arqSurbIDMap setTimers onClosedConn setSessions unregisterConn setConns heap] in *. rewrite Hs. cbn [mbind option_bind]. rewrite Hp.
  fold app. rewrite Hdis. cbn [negb]. unfold handleSessionToken. cbn. rewrite Htok. split_and!; cbn; [done|apply bool_decide_eq_true_2; set_solver|].
  intros a [H|H]; cbn in H; [by apply Hl|]. apply list_elem_of_fmap in H as ([a' s'] & He & [_ [Hne Hin]%list_elem_of_filter]%list_elem_of_filter). cbn in *.
  assert (s' = s) as -> by (case_bool_decide; congruence). apply Hne. by apply Hres.
Qed.

End Runs.

(** ** A run *)

Abbreviation toyArq := (registerConn [1] (arqInit (C := toyBacap))).
Abbreviation toyInput := (mkResendInput (Ok [9]) (Ok [10]) (Ok ([11], 5)) 100).
Abbreviation toyResending d := (startResendingCopyCommand toyBlake 0 [1] (Some [5]) (Some (Ok [6; 6])) (Ok ([1], [2])) toyInput d).

Lemma toy_resending_run strict : rtc (arqStep (C := toyBacap) toyBlake strict) arqInit (toyResending toyArq).
Proof.
  eapply rtc_l; [apply (step_connect _ _ [1])|]. eapply rtc_l; [|reflexivity]. apply step_copy; try done.
Qed.



Abbreviation toySession := (toyResending (handleSessionToken [1] [77] toyArq)).
Abbreviation toyMessage := (match heap toySession !! 0%nat with Some m => m | None => mkARQMessage toyBacap ARQMessageTypeEnvelope [] [] None ([], []) [] None [] 0 0 0 [] false ARQStateWaitingForACK None None false false end).

Lemma resumed_session_stuck_witness : exists d', rtc (arqStep (C := toyBacap) toyBlake false) toySession d' /\
  d' = handleSessionToken [2] [77] (registerConn [2] (enqueueResend [9] false 200 (setTimers ([] ++ []) (onClosedConn false (Some [77]) (arq_AppID toyMessage) toySession)))) /\
  trackedAt (heap d') (arqSurbIDMap d') 0 toyMessage [9] (toyBlake [6; 6]) /\ isConnected (arq_AppID toyMessage) d' = true /\ forall a, ~ scheduled d' a [9].
Proof.
  apply (resumed_session_stuck toyBlake toySession 0%nat toyMessage [9] (toyBlake [6; 6]) [] (5 + 100 + RoundTripTimeSlop) [] [77] [2] false 200).
  - split; [vm_cast_no_check (eq_refl (heap toySession !! 0%nat))|vm_cast_no_check (eq_refl (arq_SURBID toyMessage))|vm_cast_no_check (eq_refl (arq_EnvelopeHash toyMessage))|vm_cast_no_check (eq_refl (arqSurbIDMap toySession !! [9]))].
  - vm_compute. reflexivity.
  - set_solver.
  - intros a Ha. exfalso. revert Ha. apply not_elem_of_nil.
  - vm_compute. reflexivity.
  - done.
Defined.
