(* ===== verification/PathSelect.v ===== *)
(** Path selection: [core/sphinx/path/path.go].

    [New] picks a node per layer and turns the nodes into the hops of a Sphinx
    packet.  The random number generator is its sequence of draws: [Intn k n] is
    the [k]-th call with bound [n], [Exp k] the [k]-th delay in milliseconds,
    converted to [uint64]; the functions thread the number of draws made.  Times
    are nanoseconds. *)

From S2P Require Import Prelude Schemes ToySchemes SphinxGeo SphinxCommands SphinxCrypto SphinxPacket SphinxLayers SphinxJourney SphinxDelivery SphinxNike SphinxKem SphinxRobust SphinxWitness TimerQueue EpochTime PkiDocument.
From Stdlib Require Import ZArith Lia.
From stdpp Require Import prelude list strings gmap.

Definition maxAttempts : nat := 3.
Definition errMaxAttempts : string := "path: max path selection attempts exceeded".

Section Path.

Context {N : Nike} {K : Kem}.
Context (Sum256 : bytes -> bytes) (Period : Z).
Context (Intn : nat -> nat -> nat) (Exp : nat -> Z).

(** The scheme registries and the KEM's key decoder. *)
Context (nikeKnown kemKnown : string -> bool) (kemUnmarshal : bytes -> outcome kem_PublicKey).

Definition UnmarshalMixKeyAsNike (d : MixDescriptor) (epoch : Z) (g : Geometry)
    : outcome nike_PublicKey :=
  if negb (nikeKnown (NIKEName g)) then Panic
  else nike_UnmarshalBinaryPublicKey (default [] (default None (MixKeys d !! epoch))).

Definition UnmarshalMixKeyAsKEM (d : MixDescriptor) (epoch : Z) (g : Geometry)
    : outcome kem_PublicKey :=
  if negb (kemKnown (KEMName g)) then Panic
  else kemUnmarshal (default [] (default None (MixKeys d !! epoch))).

(** ** [selectHops] *)

(** The loop over the layers past the start, up to the destination's layer. *)
Fixpoint selectLayers (layers : list (list MixDescriptor)) (i dstLayer : Z) (k : nat)
    : outcome (list MixDescriptor * nat) :=
  match layers with
  | [] => Ok ([], k)
  | nodes :: layers =>
    if bool_decide (i = dstLayer) then Ok ([], k)
    else if bool_decide (length nodes = 0) then Err "path: layer has no nodes"
    else
      n ← index nodes (Intn k (length nodes));
      '(rest, k) ← selectLayers layers (i + 1) dstLayer (k + 1);
      Ok (n :: rest, k)
  end.

(** Where the loop starts; [None] when the destination is the only hop.  The
    switch tests the cases in order. *)
Definition startLayer (doc : Document) (src dst : MixDescriptor) (srcLayer dstLayer : Z)
    (isFromClient isForward : bool) : outcome (option Z) :=
  let n := Z.of_nat (length (Topology doc)) in
  if isForward then
    if negb (IsServiceNode dst) then Err "path: invalid destination (non service node)"
    else if isFromClient then
      if negb (IsGatewayNode src) then Err "path: invalid source from client (non gateway node)"
      else Ok (Some 0%Z)
    else if Z.eqb srcLayer LayerGateway || Z.eqb srcLayer LayerService then Ok (Some 0%Z)
    else if Z.eqb srcLayer (n - 1) then Ok None
    else Ok (Some (srcLayer + 1)%Z)
  else
    if negb (Z.eqb srcLayer LayerService) then Err "path: invalid source layer"
    else if Z.eqb dstLayer LayerGateway || Z.eqb dstLayer LayerService then Ok (Some 0%Z)
    else if Z.eqb dstLayer 0 then Ok None
    else Ok (Some 0%Z).

Definition selectHops (doc : Document) (src dst : MixDescriptor) (isFromClient isForward : bool)
    (k : nat) : outcome (list MixDescriptor * nat) :=
  srcLayer ← GetMixLayer Sum256 doc (idHash Sum256 (IdentityKey src));
  dstLayer ← GetMixLayer Sum256 doc (idHash Sum256 (IdentityKey dst));
  start ← startLayer doc src dst srcLayer dstLayer isFromClient isForward;
  match start with
  | None => Ok ([dst], k)
  | Some start =>
    if bool_decide (Z.of_nat (length (Topology doc)) < start)%Z then Panic
    else
      '(mixes, k) ← selectLayers (drop (Z.to_nat start) (Topology doc)) 0 dstLayer k;
      Ok ((if isForward && isFromClient then [src] else []) ++ mixes ++ [dst], k)
  end.

(** ** [New] *)

Definition hopDelay (doc : Document) (k : nat) : Z :=
  let delay := wrap 64 (Exp k + 1) in
  if bool_decide (0 < MuMaxDelay doc /\ MuMaxDelay doc < delay)%Z then MuMaxDelay doc else delay.

(** The key of a hop: KEM geometries have no NIKE name. *)
Definition hopKey (g : Geometry) (desc : MixDescriptor) (epoch : Z)
    : outcome (option nike_PublicKey * option kem_PublicKey) :=
  if bool_decide (NIKEName g = "") then
    p ← UnmarshalMixKeyAsKEM desc epoch g; Ok (None, Some p)
  else p ← UnmarshalMixKeyAsNike desc epoch g; Ok (Some p, None).

(** The loop over the descriptors.  [None] is [continue selectLoop]: a node has
    no key for the epoch in which the packet reaches it. *)
Fixpoint buildHops (g : Geometry) (doc : Document) (recipient : bytes) (surbID : option bytes)
    (isForward : bool) (descs : list MixDescriptor) (then_ : Z) (k : nat)
    : outcome (option (list (@PathHop N K) * Z) * nat) :=
  match descs with
  | [] => Ok (Some ([], then_), k)
  | desc :: descs =>
    let id := copy_into (zeros NodeIDLength) (idHash Sum256 (IdentityKey desc)) in
    '(epoch, _, _) ← FromUnix Period (then_ / second);
    match MixKeys desc !! epoch with
    | None => Ok (None, k)
    | Some _ =>
      '(nikeKey, kemKey) ←
        hopKey g desc epoch;
      let isLast := match descs with [] => true | _ => false end in
      let delayed := negb isLast || (bool_decide (is_Some surbID) && isForward) in
      let delay := hopDelay doc k in
      let then_ := if delayed then EpochTime.Add then_ (mulDuration delay millisecond) else then_ in
      let cmds := if delayed then [NodeDelay (wrap 32 delay)] else [] in
      let cmds := if isLast then cmds ++ [Recipient (copy_into (zeros RecipientIDLength) recipient)]
                  else cmds in
      let cmds := match surbID with
                  | Some s => if isLast && negb isForward
                              then cmds ++ [SURBReply (copy_into (zeros SURBIDLength) s)] else cmds
                  | None => cmds
                  end in
      '(rest, k) ← buildHops g doc recipient surbID isForward descs then_
                     (if delayed then k + 1 else k);
      match rest with
      | None => Ok (None, k)
      | Some (path, then_) => Ok (Some (mkPathHop id nikeKey kemKey cmds :: path, then_), k)
      end
    end
  end.

Fixpoint selectLoop (attempts : nat) (g : Geometry) (doc : Document) (recipient : bytes)
    (src dst : MixDescriptor) (surbID : option bytes) (baseTime : Z) (isFromClient isForward : bool)
    (k : nat) : outcome (list (@PathHop N K) * Z) :=
  match attempts with
  | O => Err errMaxAttempts
  | S attempts =>
    '(descs, k) ← selectHops doc src dst isFromClient isForward k;
    '(r, k) ← buildHops g doc recipient surbID isForward descs baseTime k;
    match r with
    | Some p => Ok p
    | None => selectLoop attempts g doc recipient src dst surbID baseTime isFromClient isForward k
    end
  end.

Definition New (g : Geometry) (doc : Document) (recipient : bytes) (src dst : MixDescriptor)
    (surbID : option bytes) (baseTime : Z) (isFromClient isForward : bool)
    : outcome (list (@PathHop N K) * Z) :=
  selectLoop maxAttempts g doc recipient src dst surbID baseTime isFromClient isForward 0.

(** ** What a path promises *)

(** The second [t] lies in belongs to epoch [e]. *)
Definition in_epoch (e t : Z) : Prop :=
  (Epoch + e * Period <= t / second * second < Epoch + (e + 1) * Period)%Z.

(** The commands a hop gets: every hop but the last delays the packet, and so
    does the last one when a reply block comes with the packet. *)
Definition hopCommands (recipient : bytes) (surbID : option bytes) (isForward isLast : bool)
    (delay : Z) : list RoutingCommand :=
  (if isLast then
     match surbID with Some _ => if isForward then [NodeDelay delay] else [] | None => [] end
   else [NodeDelay delay]) ++
  (if isLast then
     Recipient recipient ::
     match surbID with Some s => if isForward then [] else [SURBReply s] | None => [] end
   else []).

(** The hops of [path] are the nodes [descs], each with its key for the epoch in
    which the packet reaches it when it leaves at [now] and every node holds it
    for the delay in its commands; the packet arrives at [finish]. *)
Fixpoint scheduled (g : Geometry) (maxDelay : Z) (recipient : bytes) (surbID : option bytes)
    (isForward : bool) (descs : list MixDescriptor) (path : list (@PathHop N K)) (now finish : Z)
    : Prop :=
  match descs, path with
  | [], [] => finish = now
  | v :: descs, h :: path =>
    let isLast := match descs with [] => true | _ => false end in
    exists e delay, in_epoch e now /\ (0 <= delay <= maxDelay)%Z /\
      ID h = idHash Sum256 (IdentityKey v) /\
      hopKey g v e = Ok (NIKEPublicKey h, KEMPublicKey h) /\
      Commands h = hopCommands recipient surbID isForward isLast delay /\
      scheduled g maxDelay recipient surbID isForward descs path
        (now + (if isLast && negb (bool_decide (is_Some surbID) && isForward) then 0
                else delay * millisecond)) finish
  | _, _ => False
  end.

(** A node whose keys cover the times from [lo] to [hi]. *)
Definition covers (g : Geometry) (lo hi : Z) (v : MixDescriptor) : Prop :=
  forall t e, (lo <= t <= hi)%Z -> in_epoch e t ->
    is_Some (MixKeys v !! e) /\ exists r, hopKey g v e = Ok r.

Context (Hsum : forall b, length (Sum256 b) = 32) (HP : (0 < Period)%Z).

Lemma FromUnix_in_epoch t :
  representable Period t ->
  exists e el till, FromUnix Period (t / second) = Ok (e, el, till) /\ in_epoch e t.
Proof.
  intros [Hlo Hhi]. assert (Hs : (t / second * second <= t)%Z)
    by (rewrite Z.mul_comm; apply Z.mul_div_le; reflexivity).
  assert (Hl : (Epoch <= t / second * second)%Z).
  { apply (Z.div_le_mono _ _ second) in Hlo; [|reflexivity].
    change (Epoch / second)%Z with 1496275200%Z in Hlo. unfold Epoch, second in *. lia. }
  destruct (getEpoch_ok Period (t / second * second) HP) as (e & el & till & H & _ & _ & H2 & H3 & _).
  { unfold representable in *. lia. }
  exists e, el, till. split; [done|]. unfold in_epoch. lia.
Qed.

Lemma hopDelay_bound doc k :
  (0 < MuMaxDelay doc)%Z -> (0 <= hopDelay doc k <= MuMaxDelay doc)%Z.
Proof.
  intros. unfold hopDelay. pose proof (Z.mod_pos_bound (Exp k + 1) (2 ^ 64) ltac:(lia)).
  fold (wrap 64 (Exp k + 1)) in *. case_bool_decide; lia.
Qed.

(** The delay of one hop stays below 2^32 ms, so nothing wraps. *)
Lemma delay_ns d : (0 <= d < 2 ^ 32)%Z -> mulDuration d millisecond = (d * millisecond)%Z.
Proof. intros. apply mulDuration_small; unfold millisecond; lia. Qed.

Section Building.

Context (g : Geometry) (doc : Document) (recipient : bytes) (surbID : option bytes) (isForward : bool).
Context (HM : (0 < MuMaxDelay doc < 2 ^ 32)%Z) (Hrec : length recipient = RecipientIDLength).
Context (Hsid : forall s, surbID = Some s -> length s = SURBIDLength).

Lemma buildHops_scheduled descs now hi k :
  Forall (covers g now hi) descs -> representable Period now -> representable Period hi ->
  (now + Z.of_nat (length descs) * MuMaxDelay doc * millisecond <= hi)%Z ->
  exists path finish k', buildHops g doc recipient surbID isForward descs now k
      = Ok (Some (path, finish), k') /\
    scheduled g (MuMaxDelay doc) recipient surbID isForward descs path now finish.
Proof.
  revert now k. induction descs as [|v descs IH]; intros now k Hc Hn Hhi Hle.
  - eexists _, _, _. split; [reflexivity|]. reflexivity.
  - inversion Hc as [|? ? Hv Hvs]; subst. cbn [buildHops]. cbv zeta.
    destruct (FromUnix_in_epoch now Hn) as (e & el & till & -> & He). go.
    pose proof (hopDelay_bound doc k (proj1 HM)) as Hd. set (d := hopDelay doc k) in *.
    assert (Hcost : (0 <= d * millisecond <= MuMaxDelay doc * millisecond)%Z)
      by (unfold millisecond; nia).
    assert (Hnow : (now <= hi)%Z) by (unfold millisecond in *; nia).
    destruct (Hv now e) as [[mk ->] [r Hr]]; [lia|done|]. rewrite Hr. destruct r as [nk kk]. go.
    rewrite delay_ns by lia. unfold EpochTime.Add.
    set (now' := if _ || _ then (now + d * millisecond)%Z else now).
    assert (Hnow' : (now <= now' <= now + MuMaxDelay doc * millisecond)%Z)
      by (subst now'; destruct (_ || _); lia).
    assert (Hrest : (now' + Z.of_nat (length descs) * MuMaxDelay doc * millisecond <= hi)%Z).
    { replace (Z.of_nat (length (v :: descs))) with (Z.of_nat (length descs) + 1)%Z in Hle
        by (simpl; lia). lia. }
    assert (Hrep : representable Period now').
    { unfold representable in *. assert (0 <= Z.of_nat (length descs) * MuMaxDelay doc * millisecond)%Z
        by (unfold millisecond; nia). lia. }
    destruct (IH now' (if negb match descs with [] => true | _ => false end ||
        bool_decide (is_Some surbID) && isForward then k + 1 else k))
      as (path & finish & k' & -> & Hs); [|done..|].
    { eapply Forall_impl; [exact Hvs|]. intros w Hw t e' Ht. apply Hw. lia. }
    go. eexists _, _, _. split; [reflexivity|]. cbn [scheduled].
    exists e, d. split_and!; try (done || lia).
    + cbn [ID]. rewrite copy_zeros; [done|]. apply Hsum.
    + cbn [Commands]. unfold hopCommands, wrap. rewrite (Z.mod_small d), !copy_zeros by (done || lia).
      clear IH Hs.
      destruct descs, surbID as [s|], isForward; cbn -[copy_into]; try done.
      all: try (rewrite copy_zeros by (by apply Hsid); done).
    + replace (now + _)%Z with now'; [done|]. subst now'.
      destruct descs, (bool_decide (is_Some surbID) && isForward); cbn; lia.
Qed.

Lemma hopCommands_valid isLast d :
  u32 d -> valid_commands (hopCommands recipient surbID isForward isLast d) /\
  length (SphinxLayers.encode (hopCommands recipient surbID isForward isLast d)) +
    (if isLast then 0 else nextNodeHopSize) <= nextNodeHopSize + surbReplyLength.
Proof.
  intros Hd. assert (Hwf : Forall (fun c => wf_command c /\ isNextNodeHop c = false)
    (hopCommands recipient surbID isForward isLast d)).
  { unfold hopCommands. destruct isLast, surbID as [s|], isForward; cbn [app];
      repeat (apply Forall_cons; split; [split; [first [exact Hd|exact Hrec|by apply Hsid]|done]|]); apply Forall_nil; done. }
  split.
  - split; [done|]. unfold hopCommands. by destruct isLast, surbID, isForward.
  - unfold hopCommands in *. destruct isLast, surbID, isForward; cbn [app] in *;
      rewrite ?encode_cons, ?length_app;
      repeat match goal with H : Forall _ (_ :: _) |- _ => inversion H as [|? ? [? _] ?]; subst; clear H end;
      rewrite !length_ToBytes by done; cbv; lia.
Qed.

Lemma scheduled_valid ext descs path now finish :
  PerHopRoutingInfoLength g = nextNodeHopSize + surbReplyLength + ext ->
  scheduled g (MuMaxDelay doc) recipient surbID isForward descs path now finish ->
  valid_path g ext path.
Proof.
  intros Hg. revert path now. induction descs as [|v descs IH]; intros [|h path] now; try done.
  intros (e & d & _ & Hd & Hid & _ & Hc & Hs). split; [|by eapply IH].
  assert (Hl : match path with [] => true | _ => false end = match descs with [] => true | _ => false end)
    by (by destruct path, descs).
  destruct (hopCommands_valid (match descs with [] => true | _ => false end) d) as [Hv Hr];
    [unfold u32; lia|]. split; [by rewrite Hid; apply Hsum|by rewrite Hc|].
  rewrite Hl, Hc, Hg. lia.
Qed.

Lemma scheduled_ids descs path now finish :
  scheduled g (MuMaxDelay doc) recipient surbID isForward descs path now finish ->
  map ID path = map (fun v => idHash Sum256 (IdentityKey v)) descs.
Proof.
  revert path now. induction descs as [|v descs IH]; intros [|h path] now; try done.
  intros (e & d & _ & _ & Hid & _ & _ & Hs). cbn [map]. by rewrite Hid, (IH _ _ Hs).
Qed.

(** The last hop carries a reply identifier exactly on a reply path. *)
Lemma scheduled_hasSURB descs path now finish :
  descs <> [] -> scheduled g (MuMaxDelay doc) recipient surbID isForward descs path now finish ->
  hasSURB (lastCommands path) = bool_decide (is_Some surbID) && negb isForward.
Proof.
  revert path now. induction descs as [|v descs IH]; intros [|h path] now Hn; try done.
  intros (e & d & _ & _ & _ & _ & Hc & Hs). destruct descs as [|v' descs].
  - destruct path; [|done]. unfold lastCommands. cbn [last]. rewrite Hc.
    by destruct surbID, isForward.
  - destruct path as [|h' path]; [done|]. by apply (IH (h' :: path) _ ltac:(done) Hs).
Qed.

End Building.

(** ** Selection *)

Context (HI : forall k n, 0 < n -> Intn k n < n).

Lemma selectLayers_ok layers i dstLayer k :
  Forall (fun l => l <> []) layers -> (0 <= i)%Z -> (i + Z.of_nat (length layers) <= dstLayer)%Z ->
  exists mixes k', selectLayers layers i dstLayer k = Ok (mixes, k') /\
    Forall2 (fun v l => v ∈ l) mixes layers.
Proof.
  intros Hl. revert i k. induction Hl as [|l layers Hne _ IH]; intros i k Hi Hd.
  { eexists _, _. split; [reflexivity|constructor]. }
  simpl length in Hd. cbn [selectLayers]. rewrite bool_decide_eq_false_2 by lia.
  assert (Hlen : 0 < length l) by (destruct l; [done|simpl; lia]).
  rewrite bool_decide_eq_false_2 by lia.
  destruct (lookup_lt_is_Some_2 l (Intn k (length l)) (HI k _ Hlen)) as [v Hv].
  unfold index. rewrite Hv. cbn [deref]. go.
  destruct (IH (i + 1)%Z (k + 1)) as (mixes & k' & -> & Hm); [lia..|]. go.
  eexists _, _. split; [reflexivity|]. constructor; [by eapply list_elem_of_lookup_2|done].
Qed.

(** The nodes of a client's path between a gateway and a service node: forward
    it includes the gateway, backward it ends there. *)
Definition fullPath (doc : Document) (isForward : bool) (src dst : MixDescriptor)
    (descs : list MixDescriptor) : Prop :=
  exists mixes, Forall2 (fun v l => v ∈ l) mixes (Topology doc) /\
    descs = (if isForward then [src] else []) ++ mixes ++ [dst].

(** The end points: gateway to service node forward, service node to gateway
    backward. *)
Definition endPoints (doc : Document) (isForward : bool) (src dst : MixDescriptor) : Prop :=
  if isForward
  then src ∈ GatewayNodes doc /\ IsGatewayNode src = true /\
       dst ∈ ServiceNodes doc /\ IsServiceNode dst = true
  else src ∈ ServiceNodes doc /\ dst ∈ GatewayNodes doc.

Lemma selectHops_ok doc src dst isForward k :
  distinct_keys Sum256 doc -> endPoints doc isForward src dst ->
  Forall (fun l => l <> []) (Topology doc) -> length (Topology doc) <= 254 ->
  exists descs k', selectHops doc src dst true isForward k = Ok (descs, k') /\
    fullPath doc isForward src dst descs.
Proof.
  intros Hd He Hl Hn. unfold selectHops, startLayer, fullPath.
  destruct isForward; cbn [endPoints] in He.
  - destruct He as (Hsrc & Hgw & Hdst & Hsv).
    rewrite (GetMixLayer_gateway _ _ src), (GetMixLayer_service _ _ dst) by done. go. rewrite Hgw, Hsv. cbn [negb]. go.
    rewrite bool_decide_eq_false_2 by lia. rewrite drop_0.
    destruct (selectLayers_ok (Topology doc) 0 LayerService k) as (mixes & k' & -> & Hm);
      [done|lia|unfold LayerService; lia|]. go.
    eexists _, _. split; [reflexivity|]. by exists mixes.
  - destruct He as (Hsrc & Hdst).
    rewrite (GetMixLayer_gateway _ _ dst), (GetMixLayer_service _ _ src) by done. go.
    rewrite !Z.eqb_refl. cbn [negb orb]. go.
    rewrite bool_decide_eq_false_2 by lia. rewrite drop_0.
    destruct (selectLayers_ok (Topology doc) 0 LayerGateway k) as (mixes & k' & -> & Hm);
      [done|lia|unfold LayerGateway; lia|]. go.
    eexists _, _. split; [reflexivity|]. by exists mixes.
Qed.

(** Every node of a full path is a node of the document. *)
Lemma fullPath_nodes doc isForward src dst descs :
  endPoints doc isForward src dst -> fullPath doc isForward src dst descs ->
  Forall (fun v => v ∈ allNodes doc) descs /\
  length descs = length (Topology doc) + (if isForward then 2 else 1).
Proof.
  intros He (mixes & Hm & ->). split.
  - destruct (parts_nodes doc) as (Ht & Hg & Hs). rewrite Forall_forall in Ht, Hg, Hs.
    assert (Hmix : Forall (fun v => v ∈ allNodes doc) mixes).
    { apply Forall_forall. intros v Hv. apply list_elem_of_lookup in Hv as [i Hi].
      destruct (Forall2_lookup_l _ _ _ _ _ Hm Hi) as (l & Hl & Hvl).
      apply Ht. by eapply elem_of_layer. }
    destruct isForward; cbn in He; rewrite ?Forall_app; split_and!; repeat constructor; (done || by apply Hg, He || by apply Hs, He).
  - apply Forall2_length in Hm. rewrite !length_app, Hm. destruct isForward; simpl; lia.
Qed.

(** The latest arrival of a packet that leaves at [base]: every hop holds it for
    at most the document's maximal delay. *)
Definition deadline (doc : Document) (base : Z) : Z :=
  base + (Z.of_nat (length (Topology doc)) + 2) * MuMaxDelay doc * millisecond.

(** What path selection needs: a document with distinct keys, no empty layer,
    few enough layers to tell them from the gateway and service layers, a
    maximal delay of less than 2^32 ms, and times the clock can represent. *)
Record ready (doc : Document) (recipient : bytes) (surbID : option bytes)
    (src dst : MixDescriptor) (base : Z) (isForward : bool) : Prop := {
  rd_keys : distinct_keys Sum256 doc;
  rd_ends : endPoints doc isForward src dst;
  rd_layers : Forall (fun l => l <> []) (Topology doc) /\ length (Topology doc) <= 254;
  rd_delay : (0 < MuMaxDelay doc < 2 ^ 32)%Z;
  rd_recipient : length recipient = RecipientIDLength;
  rd_surbID s : surbID = Some s -> length s = SURBIDLength;
  rd_clock : representable Period base /\ representable Period (deadline doc base);
}.

Lemma New_ok g doc recipient src dst surbID base isForward :
  ready doc recipient surbID src dst base isForward ->
  Forall (covers g base (deadline doc base)) (allNodes doc) ->
  exists path finish descs,
    New g doc recipient src dst surbID base true isForward = Ok (path, finish) /\
    fullPath doc isForward src dst descs /\
    scheduled g (MuMaxDelay doc) recipient surbID isForward descs path base finish.
Proof.
  intros [Hd He [Hl Hn] HM Hr Hs [Hb Hhi]] Hc. unfold New, maxAttempts. cbn [selectLoop].
  destruct (selectHops_ok doc src dst isForward 0) as (descs & k & -> & Hf); [done..|]. go.
  destruct (fullPath_nodes _ _ _ _ _ He Hf) as [Hin Hlen].
  destruct (buildHops_scheduled g doc recipient surbID isForward HM Hr Hs descs base
    (deadline doc base) k) as (path & finish & k' & -> & Hsch).
  - rewrite Forall_forall in *. auto.
  - done.
  - done.
  - rewrite Hlen. unfold deadline, millisecond. destruct isForward; nia.
  - go. by exists path, finish, descs.
Qed.

(** ** Nodes that publish NIKE keys *)

(** The node publishes, for every epoch between [lo] and [hi], the public key of
    its private key for that epoch. *)
Definition publishes (keyOf : MixDescriptor -> Z -> nike_PrivateKey) (lo hi : Z)
    (v : MixDescriptor) : Prop :=
  forall t e, (lo <= t <= hi)%Z -> in_epoch e t ->
    MixKeys v !! e = Some (Some (nike_Bytes (nike_Public (keyOf v e)))).

(** The private keys with which the nodes unwrap the packet. *)
Definition epochKeys (keyOf : MixDescriptor -> Z -> nike_PrivateKey) (lo hi : Z)
    (descs : list MixDescriptor) (sks : list nike_PrivateKey) : Prop :=
  Forall2 (fun v sk => exists t e, (lo <= t <= hi)%Z /\ in_epoch e t /\ sk = keyOf v e) descs sks.

Context {NL : NikeLaws N}.

Lemma publishes_hopKey g keyOf lo hi v t e :
  NIKEName g <> "" -> nikeKnown (NIKEName g) = true ->
  publishes keyOf lo hi v -> (lo <= t <= hi)%Z -> in_epoch e t ->
  is_Some (MixKeys v !! e) /\ hopKey g v e = Ok (Some (nike_Public (keyOf v e)), None).
Proof.
  intros Hn Hk Hp Ht He. unfold hopKey, UnmarshalMixKeyAsNike. rewrite (Hp t e) by done.
  split; [by eexists|]. rewrite bool_decide_eq_false_2, Hk by done. cbn [negb default].
  cbn. by rewrite nike_unmarshal_bytes.
Qed.

Lemma scheduled_keys g keyOf M recipient surbID isForward hi descs path now finish :
  NIKEName g <> "" -> nikeKnown (NIKEName g) = true ->
  Forall (publishes keyOf now hi) descs -> (0 <= M)%Z ->
  (now + Z.of_nat (length descs) * M * millisecond <= hi)%Z ->
  scheduled g M recipient surbID isForward descs path now finish ->
  exists sks, epochKeys keyOf now hi descs sks /\ path_keys path sks.
Proof.
  intros Hn Hk. revert path now. induction descs as [|v descs IH]; intros [|h path] now Hp HM Hle; try done.
  { intros _. exists []. split; constructor. }
  intros (e & d & He & Hd & _ & Hkey & _ & Hs). inversion Hp as [|? ? Hv Hvs]; subst.
  simpl length in Hle. rewrite Nat2Z.inj_succ in Hle.
  set (now' := (now + _)%Z) in Hs.
  assert (Hnow : (now <= now' <= now + M * millisecond)%Z)
    by (subst now'; destruct (_ && _); unfold millisecond; nia).
  assert (0 <= Z.of_nat (length descs) * M * millisecond)%Z by (unfold millisecond; nia).
  destruct (IH path now') as (sks & Hek & Hpk); [|done|lia|done|].
  { eapply Forall_impl; [exact Hvs|]. intros w Hw t e' Ht. apply Hw. lia. }
  destruct (publishes_hopKey g keyOf now hi v now e) as [_ Hkey']; [done..|unfold millisecond in *; nia|done|].
  rewrite Hkey in Hkey'.
  exists (keyOf v e :: sks). split.
  - constructor; [exists now, e; split_and!; try done; unfold millisecond in *; nia|].
    eapply Forall2_impl; [exact Hek|]. intros w sk (t & e' & Ht & ?). exists t, e'. split; [lia|done].
  - constructor; [congruence|done].
Qed.

Lemma publishes_covers g keyOf lo hi l :
  NIKEName g <> "" -> nikeKnown (NIKEName g) = true ->
  Forall (publishes keyOf lo hi) l -> Forall (covers g lo hi) l.
Proof.
  intros Hn Hk Hp. eapply Forall_impl; [exact Hp|]. intros v Hv t e Ht He.
  destruct (publishes_hopKey g keyOf lo hi v t e) as [? ?]; eauto.
Qed.

(** A path over nodes that publish their keys: valid, and its hops hold the
    private keys for the epochs in which the packet reaches them. *)
Lemma New_nike user withSURB nrHops g keyOf doc recipient src dst surbID base isForward :
  GeometryFromUserForwardPayloadLength N user withSURB nrHops = Ok g ->
  nike_Name <> "" -> nikeKnown nike_Name = true ->
  ready doc recipient surbID src dst base isForward ->
  Forall (publishes keyOf base (deadline doc base)) (allNodes doc) ->
  exists path finish descs sks,
    New g doc recipient src dst surbID base true isForward = Ok (path, finish) /\
    fullPath doc isForward src dst descs /\
    scheduled g (MuMaxDelay doc) recipient surbID isForward descs path base finish /\
    epochKeys keyOf base (deadline doc base) descs sks /\ path_keys path sks /\
    valid_path g 0 path /\ length path = length (Topology doc) + (if isForward then 2 else 1) /\
    hasSURB (lastCommands path) = bool_decide (is_Some surbID) && negb isForward.
Proof.
  intros Hgeo Hn Hk Hr Hp.
  destruct (GeometryFromUserForwardPayloadLength_ok N user withSURB nrHops)
    as (g' & Hg & _ & Hper & _ & _ & _ & _ & _ & _ & _ & _ & _ & Hname & _).
  assert (g' = g) as -> by congruence. rewrite <- Hname in Hn, Hk.
  destruct (New_ok g doc recipient src dst surbID base isForward Hr) as (path & finish & descs & Hnew & Hf & Hs).
  { by eapply publishes_covers. }
  destruct Hr as [Hd He [Hl Hle] HM Hrec Hsid [Hb Hhi]].
  destruct (fullPath_nodes _ _ _ _ _ He Hf) as [Hin Hlen].
  assert (Hpl : length path = length descs).
  { apply scheduled_ids in Hs. apply (f_equal length) in Hs. by rewrite !length_map in Hs. }
  destruct (scheduled_keys g keyOf (MuMaxDelay doc) recipient surbID isForward (deadline doc base)
    descs path base finish Hn Hk) as (sks & Hek & Hpk); [|lia| |done|].
  { rewrite Forall_forall in *. auto. }
  { rewrite Hlen. unfold deadline, millisecond. destruct isForward; nia. }
  exists path, finish, descs, sks. split_and!; try done.
  - eapply (scheduled_valid g doc recipient surbID isForward); [done..| |exact Hs]. rewrite Hper. cbv. lia.
  - by rewrite Hpl, Hlen.
  - eapply (scheduled_hasSURB g doc recipient surbID isForward Hsid descs); [|exact Hs]. destruct Hf as (mixes & _ & ->).
    by destruct isForward, mixes.
Qed.

End Path.

(** ** Client traffic over the modelled network *)

(** C26. Path selection succeeds on the first attempt, whatever the random
    draws: between a gateway and a service node it yields one node of each
    layer, in order, with the gateway itself first on a client's path; each hop
    has the node's identifier, its key for the epoch in which the packet reaches
    it, a delay within the document's bound and the commands of its position;
    and the returned time is the departure plus the delays. *)
Theorem path_selected {N : Nike} {K : Kem} Sum256 Period Intn Exp nikeKnown kemKnown
    (kemUnmarshal : bytes -> outcome kem_PublicKey) g doc recipient src dst surbID base isForward ext :
  (forall b, length (Sum256 b) = 32) -> (0 < Period)%Z -> (forall k n, 0 < n -> Intn k n < n) ->
  ready Sum256 Period doc recipient surbID src dst base isForward ->
  Forall (covers Period nikeKnown kemKnown kemUnmarshal g base (deadline doc base)) (allNodes doc) ->
  PerHopRoutingInfoLength g = nextNodeHopSize + surbReplyLength + ext ->
  exists path finish descs,
    New Sum256 Period Intn Exp nikeKnown kemKnown kemUnmarshal g doc recipient src dst surbID base
      true isForward = Ok (path, finish) /\
    fullPath doc isForward src dst descs /\
    map ID path = map (fun v => idHash Sum256 (IdentityKey v)) descs /\
    scheduled Sum256 Period nikeKnown kemKnown kemUnmarshal g (MuMaxDelay doc) recipient surbID
      isForward descs path base finish /\
    valid_path g ext path.
Proof.
  intros Hsum HP HI Hr Hc Hg. pose proof Hr as [_ _ _ HM Hrec Hsid _].
  destruct (New_ok Sum256 Period Intn Exp nikeKnown kemKnown kemUnmarshal Hsum HP HI
    g doc recipient src dst surbID base isForward Hr Hc) as (path & finish & descs & Hn & Hf & Hs).
  exists path, finish, descs. split_and!; try done.
  - by eapply scheduled_ids.
  - by eapply scheduled_valid.
Qed.

(** A client's packet reaches the service.  Over nodes that publish their
    keys for the epochs the packet can meet, a client that selects a path with
    [New] and builds a packet with [newNikePacket] gets one that the nodes of the
    path, each with its private key for the epoch of arrival, unwrap to the
    commands of the path and, at the service node, the payload. *)
Theorem client_message_delivered {N : Nike} {NL : NikeLaws N} {K : Kem} {S : SymPrims}
    {SL : SymPrimsLaws S} Sum256 Period Intn Exp nikeKnown kemKnown
    (kemUnmarshal : bytes -> outcome kem_PublicKey) user withSURB nrHops g keyOf doc recipient
    gateway service surbID base rnd payload :
  (forall b, length (Sum256 b) = 32) -> (0 < Period)%Z -> (forall k n, 0 < n -> Intn k n < n) ->
  GeometryFromUserForwardPayloadLength N user withSURB nrHops = Ok g ->
  nike_Name <> "" -> nikeKnown nike_Name = true ->
  ready Sum256 Period doc recipient surbID gateway service base true ->
  Forall (publishes Period keyOf base (deadline doc base)) (allNodes doc) ->
  length (Topology doc) + 2 <= nrHops -> good_randomness rnd ->
  length payload = ForwardPayloadLength g ->
  exists path finish descs sks pkt,
    New Sum256 Period Intn Exp nikeKnown kemKnown kemUnmarshal g doc recipient gateway service surbID
      base true true = Ok (path, finish) /\
    fullPath doc true gateway service descs /\
    epochKeys Period keyOf base (deadline doc base) descs sks /\
    newNikePacket g rnd path payload = Ok pkt /\ length pkt = PacketLength g /\
    travel (unwrapNike g) sks pkt = Ok (route path, payload).
Proof.
  intros Hsum HP HI Hgeo Hn Hk Hr Hp Hhops Hrnd Hpl.
  destruct (New_nike Sum256 Period Intn Exp nikeKnown kemKnown kemUnmarshal Hsum HP HI _ _ _ _ _ _ _ _ _ _ _ _
    Hgeo Hn Hk Hr Hp) as (path & finish & descs & sks & Hnew & Hf & _ & Hek & Hpk & Hv & Hlen & Hsurb).
  rewrite andb_false_r in Hsurb.
  destruct (nike_geometry_consistent _ _ _ _ _ Hgeo) as (Hg & <- & Hpkt).
  destruct (createHeader_good g rnd path sks) as (hdr & keys & Hc & Hh); [done..|lia|].
  destruct (assemblePacket_travels g _ Hg _ _ _ _ _ Hh payload Hsurb) as (pkt & Ha & Hl & Ht).
  exists path, finish, descs, sks, pkt. split_and!; try done; [|by rewrite Hl, Hpl, Hpkt].
  unfold newNikePacket. rewrite bool_decide_eq_true_2 by done. cbn [negb]. rewrite Hc. go. done.
Qed.

(** A reply finds its way back.  A path selected from the service node to
    the client's gateway, with a reply identifier, makes a reply block; any
    payload the service puts in a packet made from it starts at the block's
    first hop, is unwrapped by the nodes of the path, and is recovered from the
    block's keys. *)
Theorem reply_delivered {N : Nike} {NL : NikeLaws N} {K : Kem} {S : SymPrims}
    {SL : SymPrimsLaws S} Sum256 Period Intn Exp nikeKnown kemKnown
    (kemUnmarshal : bytes -> outcome kem_PublicKey) user withSURB nrHops g keyOf doc recipient
    service gateway surbID base rnd :
  (forall b, length (Sum256 b) = 32) -> (0 < Period)%Z -> (forall k n, 0 < n -> Intn k n < n) ->
  GeometryFromUserForwardPayloadLength N user withSURB nrHops = Ok g ->
  nike_Name <> "" -> nikeKnown nike_Name = true ->
  ready Sum256 Period doc recipient (Some surbID) service gateway base false ->
  Forall (publishes Period keyOf base (deadline doc base)) (allNodes doc) ->
  length (Topology doc) + 1 <= nrHops -> good_randomness rnd ->
  exists path finish descs sks surb k,
    New Sum256 Period Intn Exp nikeKnown kemKnown kemUnmarshal g doc recipient service gateway
      (Some surbID) base true false = Ok (path, finish) /\
    fullPath doc false service gateway descs /\
    epochKeys Period keyOf base (deadline doc base) descs sks /\
    newNikeSURB g rnd path = Ok (surb, k) /\ length surb = SURBLength g /\
    forall payload, exists pkt b first,
      head descs = Some first /\
      NewPacketFromSURB g surb payload = Ok (pkt, idHash Sum256 (IdentityKey first)) /\
      travel (unwrapNike g) sks pkt = Ok (route path, b) /\
      fst (DecryptSURBPayload g b k) = Ok payload.
Proof.
  intros Hsum HP HI Hgeo Hn Hk Hr Hp Hhops Hrnd.
  destruct (New_nike Sum256 Period Intn Exp nikeKnown kemKnown kemUnmarshal Hsum HP HI _ _ _ _ _ _ _ _ _ _ _ _
    Hgeo Hn Hk Hr Hp) as (path & finish & descs & sks & Hnew & Hf & Hs & Hek & Hpk & Hv & Hlen & Hsurb).
  cbn [negb] in Hsurb. rewrite bool_decide_eq_true_2 in Hsurb by eauto.
  destruct (nike_geometry_consistent _ _ _ _ _ Hgeo) as (Hg & <- & Hpkt).
  destruct (createHeader_good g rnd path sks) as (hdr & keys & Hc & Hh); [done..|lia|].
  destruct (gr_r _ Hrnd sprpKeyMaterialLength) as (kp & Hkp & Hkl).
  apply scheduled_ids in Hs. destruct path as [|hop0 path]; [simpl in Hlen; lia|].
  destruct descs as [|first descs]; [done|]. cbn [map] in Hs. injection Hs as Hid _.
  assert (Hidl : length (ID hop0) = NodeIDLength) by apply Hv.
  exists (hop0 :: path), finish, (first :: descs), sks, (hdr ++ ID hop0 ++ kp), (surbKeys keys kp).
  split_and!; try done.
  - unfold newNikeSURB. rewrite Hkp. go. rewrite Hc. go. done.
  - rewrite (cg_surb _ _ Hg), <- (gh_length _ _ _ _ _ _ Hh). golen.
  - intros payload. destruct (surb_reply_travels g _ Hg _ _ _ _ _ Hh (ID hop0) kp payload Hidl Hkl Hsurb)
      as (pkt & b & H1 & H2 & H3). exists pkt, b, first. by rewrite <- Hid.
Qed.

(** ** A concrete network *)

(** One epoch of 20 minutes, two layers, delays of at most a second. *)
Definition netBase : Z := 1735689600 * second.
Definition netNode (name : string) (k : Z) (gw sv : bool) : MixDescriptor :=
  bareDescriptor name (Some [k])
    {[ 199512%Z := Some (nike_Bytes (Nike := toyNike) (nike_Public (Nike := toyNike) k)) ]} gw sv.
Definition netGateway : MixDescriptor := netNode "gateway" 11 true false.
Definition netService : MixDescriptor := netNode "service" 13 false true.
Definition netDocument : Document :=
  bareDocument 199512 [[netNode "mix1" 3 false false; netNode "mix2" 5 false false];
                     [netNode "mix3" 7 false false]] [netGateway] [netService] [] 1000.
Definition netKey (v : MixDescriptor) (e : Z) : Z :=
  match IdentityKey v with Some [k] => k | _ => 0%Z end.
Definition netIntn (k n : nat) : nat := k mod n.
Definition netExp (k : nat) : Z := Z.of_nat (300 * (k + 1)).
Definition anyName (_ : string) : bool := true.
Definition noKemKeys (_ : bytes) : outcome (kem_PublicKey (Kem := toyKem)) := Err "kem: invalid key".

Lemma toySum_length b : length (toySum b) = 32.
Proof. unfold toySum. rewrite length_take, length_app, length_zeros. lia. Qed.

Lemma netIntn_lt k n : 0 < n -> netIntn k n < n.
Proof. intros. apply Nat.mod_upper_bound. lia. Qed.

Lemma netDocument_distinct : distinct_keys toySum netDocument.
Proof.
  split; [repeat constructor; by eexists|].
  apply (bool_decide_unpack _). vm_compute. exact I.
Qed.

Lemma net_clock :
  representable defaultPeriod netBase /\ representable defaultPeriod (deadline netDocument netBase).
Proof. split; split; vm_compute; [discriminate|reflexivity|discriminate|reflexivity]. Qed.

Lemma net_epoch t e :
  (netBase <= t <= deadline netDocument netBase)%Z -> in_epoch defaultPeriod e t -> e = 199512%Z.
Proof.
  intros Ht He. unfold in_epoch in He.
  assert (D : (1735689600 <= t / second <= 1735689604)%Z).
  { split; [apply Z.div_le_lower_bound|apply Z.lt_succ_r, Z.div_lt_upper_bound];
      try reflexivity; revert Ht; cbv [netBase deadline netDocument bareDocument Topology MuMaxDelay length
      millisecond second Z.of_nat]; lia. }
  revert He. cbv [Epoch defaultPeriod second minute]. unfold second in D. lia.
Qed.

Lemma net_publishes :
  Forall (publishes (N := toyNike) defaultPeriod netKey netBase (deadline netDocument netBase))
    (allNodes netDocument).
Proof.
  repeat (constructor; [intros t e Ht He; rewrite (net_epoch t e Ht He); reflexivity|]). constructor.
Qed.

Lemma net_ready_forward :
  ready toySum defaultPeriod netDocument (replicate 32 8%Z) None netGateway netService netBase true.
Proof.
  split; try done; try (by apply net_clock).
  - apply netDocument_distinct.
  - split_and!; [by left|done|by left|done].
  - split; [by repeat constructor|simpl; lia].
Qed.

Lemma net_ready_reply :
  ready toySum defaultPeriod netDocument (replicate 32 8%Z) (Some (replicate 16 6%Z)) netService netGateway
    netBase false.
Proof.
  split; try done; try (by apply net_clock).
  - apply netDocument_distinct.
  - by split; left.
  - split; [by repeat constructor|simpl; lia].
  - by intros s [= <-].
Qed.

Lemma path_selected_witness :
  exists path finish descs,
    New (N := toyNike) (K := toyKem) toySum defaultPeriod netIntn netExp anyName anyName noKemKeys toyGeo
      netDocument (replicate 32 8%Z) netGateway netService None netBase true true = Ok (path, finish) /\
    fullPath netDocument true netGateway netService descs /\
    map ID path = map (fun v => idHash toySum (IdentityKey v)) descs /\
    scheduled (N := toyNike) (K := toyKem) toySum defaultPeriod anyName anyName noKemKeys toyGeo 1000 (replicate 32 8%Z) None true
      descs path netBase finish /\ valid_path toyGeo 0 path.
Proof.
  apply (path_selected (N := toyNike) (K := toyKem) toySum defaultPeriod netIntn netExp anyName anyName
    noKemKeys toyGeo netDocument (replicate 32 8%Z) netGateway netService None netBase true 0).
  - apply toySum_length.
  - reflexivity.
  - apply netIntn_lt.
  - apply net_ready_forward.
  - apply (publishes_covers (N := toyNike) (K := toyKem) defaultPeriod anyName anyName noKemKeys toyGeo netKey);
      [done|reflexivity|apply net_publishes].
  - reflexivity.
Defined.

Lemma client_message_delivered_witness :
  exists path finish descs sks pkt,
    New (N := toyNike) (K := toyKem) toySum defaultPeriod netIntn netExp anyName anyName noKemKeys toyGeo
      netDocument (replicate 32 8%Z) netGateway netService None netBase true true = Ok (path, finish) /\
    fullPath netDocument true netGateway netService descs /\
    epochKeys (N := toyNike) defaultPeriod netKey netBase (deadline netDocument netBase) descs sks /\
    newNikePacket toyGeo toyRnd path (toyPayload toyGeo) = Ok pkt /\ length pkt = PacketLength toyGeo /\
    travel (unwrapNike toyGeo) sks pkt = Ok (route path, toyPayload toyGeo).
Proof.
  apply (client_message_delivered (N := toyNike) (K := toyKem) toySum defaultPeriod netIntn netExp
    anyName anyName noKemKeys 10 true 4); try reflexivity; try done.
  - apply toySum_length.
  - apply netIntn_lt.
  - apply net_ready_forward.
  - apply net_publishes.
  - apply toyRnd_good.
Defined.

Lemma reply_delivered_witness :
  exists path finish descs sks surb k,
    New (N := toyNike) (K := toyKem) toySum defaultPeriod netIntn netExp anyName anyName noKemKeys toyGeo
      netDocument (replicate 32 8%Z) netService netGateway (Some (replicate 16 6%Z)) netBase true false
      = Ok (path, finish) /\
    fullPath netDocument false netService netGateway descs /\
    epochKeys (N := toyNike) defaultPeriod netKey netBase (deadline netDocument netBase) descs sks /\
    newNikeSURB toyGeo toyRnd path = Ok (surb, k) /\ length surb = SURBLength toyGeo /\
    forall payload, exists pkt b first,
      head descs = Some first /\
      NewPacketFromSURB toyGeo surb payload = Ok (pkt, idHash toySum (IdentityKey first)) /\
      travel (unwrapNike toyGeo) sks pkt = Ok (route path, b) /\
      fst (DecryptSURBPayload toyGeo b k) = Ok payload.
Proof.
  apply (reply_delivered (N := toyNike) (K := toyKem) toySum defaultPeriod netIntn netExp
    anyName anyName noKemKeys 10 true 4); try reflexivity; try done.
  - apply toySum_length.
  - apply netIntn_lt.
  - apply net_ready_reply.
  - apply net_publishes.
  - simpl. lia.
  - apply toyRnd_good.
Defined.
