(* ===== verification/MixPacket.v ===== *)
(** The packet structure of the mix server: [server/internal/packet/packet.go].

    A packet comes from an allocation pool, so [NewWithID] takes the structure
    the pool handed out; [Dispose] returns the structure as it goes back to the
    pool.  The raw packet pool is replaced by every allocation, hence always
    yields a fresh buffer.  Times and durations are nanoseconds. *)

From S2P Require Import Prelude Schemes SphinxGeo SphinxCommands SphinxCrypto SphinxPacket TimerQueue EpochTime.
From Stdlib Require Import ZArith Lia.
From stdpp Require Import prelude list strings.

(** [time.Time{}], the first instant of year 1. *)
Definition zeroTime : Z := -62135596800 * second.

(** [type Packet struct]; a nil pointer or slice is [None], a nil [Raw] is
    empty. *)
Record Packet := mkPacket {
  pk_Geometry : option Geometry;
  Raw : bytes;
  Payload : option bytes;
  pk_NextNodeHop : option (bytes * bytes);
  pk_NodeDelay : option Z;
  pk_Recipient : option bytes;
  pk_SurbReply : option bytes;
  pk_ID : Z;
  Delay : Z;
  RecvAt : Z;
  DispatchAt : Z;
  MustForward : bool;
  MustTerminate : bool;
}.

(** [new(Packet)]. *)
Definition newPacket : Packet :=
  mkPacket None [] None None None None None 0 0 zeroTime zeroTime false false.

(** Assignments to single fields. *)
Definition set_Raw (r : bytes) (p : Packet) : Packet :=
  mkPacket (pk_Geometry p) r (Payload p) (pk_NextNodeHop p) (pk_NodeDelay p) (pk_Recipient p)
    (pk_SurbReply p) (pk_ID p) (Delay p) (RecvAt p) (DispatchAt p) (MustForward p) (MustTerminate p).
Definition set_Payload (x : option bytes) (p : Packet) : Packet :=
  mkPacket (pk_Geometry p) (Raw p) x (pk_NextNodeHop p) (pk_NodeDelay p) (pk_Recipient p)
    (pk_SurbReply p) (pk_ID p) (Delay p) (RecvAt p) (DispatchAt p) (MustForward p) (MustTerminate p).
Definition set_cmds (n : option (bytes * bytes)) (d : option Z) (r s : option bytes) (p : Packet) : Packet :=
  mkPacket (pk_Geometry p) (Raw p) (Payload p) n d r s
    (pk_ID p) (Delay p) (RecvAt p) (DispatchAt p) (MustForward p) (MustTerminate p).
Definition set_Delay (x : Z) (p : Packet) : Packet :=
  mkPacket (pk_Geometry p) (Raw p) (Payload p) (pk_NextNodeHop p) (pk_NodeDelay p) (pk_Recipient p)
    (pk_SurbReply p) (pk_ID p) x (RecvAt p) (DispatchAt p) (MustForward p) (MustTerminate p).
Definition set_RecvAt (x : Z) (p : Packet) : Packet :=
  mkPacket (pk_Geometry p) (Raw p) (Payload p) (pk_NextNodeHop p) (pk_NodeDelay p) (pk_Recipient p)
    (pk_SurbReply p) (pk_ID p) (Delay p) x (DispatchAt p) (MustForward p) (MustTerminate p).
Definition set_DispatchAt (x : Z) (p : Packet) : Packet :=
  mkPacket (pk_Geometry p) (Raw p) (Payload p) (pk_NextNodeHop p) (pk_NodeDelay p) (pk_Recipient p)
    (pk_SurbReply p) (pk_ID p) (Delay p) (RecvAt p) x (MustForward p) (MustTerminate p).
Definition set_flags (f t : bool) (p : Packet) : Packet :=
  mkPacket (pk_Geometry p) (Raw p) (Payload p) (pk_NextNodeHop p) (pk_NodeDelay p) (pk_Recipient p)
    (pk_SurbReply p) (pk_ID p) (Delay p) (RecvAt p) (DispatchAt p) f t.

(** [NewDelay], at the time [now] of its clock reading. *)
Definition NewDelay (now : Z) (p : Packet) : Z :=
  let delay := int64 (Delay p - Sub now (RecvAt p)) in
  if bool_decide (delay < 0)%Z then 0%Z else delay.

(** ** Routing commands *)

Definition errRedundant : string := "redundant command".

(** [splitCommands]: the packet as far as it got, and the error. *)
Fixpoint splitCommands (cmds : list RoutingCommand) (p : Packet) : Packet * option string :=
  match cmds with
  | [] => (p, None)
  | NextNodeHop id mac :: cmds =>
    match pk_NextNodeHop p with
    | Some _ => (p, Some errRedundant)
    | None => splitCommands cmds
        (set_cmds (Some (id, mac)) (pk_NodeDelay p) (pk_Recipient p) (pk_SurbReply p) p)
    end
  | NodeDelay d :: cmds =>
    match pk_NodeDelay p with
    | Some _ => (p, Some errRedundant)
    | None => splitCommands cmds
        (set_cmds (pk_NextNodeHop p) (Some d) (pk_Recipient p) (pk_SurbReply p) p)
    end
  | Recipient id :: cmds =>
    match pk_Recipient p with
    | Some _ => (p, Some errRedundant)
    | None => splitCommands cmds
        (set_cmds (pk_NextNodeHop p) (pk_NodeDelay p) (Some id) (pk_SurbReply p) p)
    end
  | SURBReply id :: cmds =>
    match pk_SurbReply p with
    | Some _ => (p, Some errRedundant)
    | None => splitCommands cmds
        (set_cmds (pk_NextNodeHop p) (pk_NodeDelay p) (pk_Recipient p) (Some id) p)
    end
  end.

Definition Packet_Set (payload : option bytes) (cmds : list RoutingCommand) (p : Packet)
    : Packet * option string :=
  splitCommands cmds (set_Payload payload p).

Definition isNil {A} (o : option A) : bool := match o with None => true | Some _ => false end.

Definition IsForward (p : Packet) : bool :=
  negb (isNil (pk_NextNodeHop p)) && negb (isNil (pk_NodeDelay p)) && isNil (pk_Recipient p) &&
  isNil (pk_SurbReply p).
Definition IsToUser (p : Packet) : bool :=
  isNil (pk_NextNodeHop p) && negb (isNil (pk_NodeDelay p)) && negb (isNil (pk_Recipient p)) &&
  isNil (pk_SurbReply p).
Definition IsSURBReply (p : Packet) : bool :=
  isNil (pk_NextNodeHop p) && isNil (pk_NodeDelay p) && negb (isNil (pk_Recipient p)) &&
  negb (isNil (pk_SurbReply p)).

(** ** Allocation *)

(** [Dispose]: the structure that goes back to the pool. *)
Definition disposeRaw (p : Packet) : outcome Packet :=
  _ ← deref (pk_Geometry p); Ok (set_Raw [] p).

Definition Dispose (p : Packet) : outcome Packet :=
  p ← disposeRaw p;
  Ok (mkPacket (pk_Geometry p) (Raw p) None None None None None 0 0 zeroTime zeroTime false false).

Definition copyToRaw (b : bytes) (p : Packet) : outcome Packet :=
  g ← deref (pk_Geometry p);
  if negb (bool_decide (length b = PacketLength g)) then Err "invalid Sphinx packet size"
  else
    let raw := zeros (PacketLength g) in
    if negb (bool_decide (length raw = length b)) then Panic
    else Ok (set_Raw (copy_into raw b) p).

Definition NewWithID (pooled : Packet) (raw : bytes) (id : Z) (g : Geometry) : outcome Packet :=
  let p := mkPacket (Some g) (Raw pooled) (Payload pooled) (pk_NextNodeHop pooled)
             (pk_NodeDelay pooled) (pk_Recipient pooled) (pk_SurbReply pooled) id (Delay pooled)
             (RecvAt pooled) (DispatchAt pooled) (MustForward pooled) (MustTerminate pooled) in
  match copyToRaw raw p with
  | Err e => _ ← Dispose p; Err e
  | r => r
  end.

(** A structure the pool can hold: a new one or a disposed one. *)
Definition pooled (p : Packet) : Prop :=
  p = newPacket \/ exists q, Dispose q = Ok p.

(** ** Payloads *)

Definition flagsPadding : Z := 0.
Definition flagsSURB : Z := 1.

(** [ParseForwardPacket]: the user payload and the reply block, if any. *)
Definition ParseForwardPacket (p : Packet) : outcome (bytes * option bytes) :=
  g ← deref (pk_Geometry p);
  let hdrLength := SphinxPlaintextHeaderLength g + SURBLength g in
  let b := default [] (Payload p) in
  if negb (bool_decide (length b = ForwardPayloadLength g)) then Err "invalid payload length"
  else if bool_decide (length b < hdrLength) then Err "truncated message block"
  else
    b1 ← index b 1;
    if negb (Z.eqb b1 0) then Err "invalid message reserved"
    else
      ct ← slice_from b hdrLength;
      b0 ← index b 0;
      surb ← (if Z.eqb b0 flagsPadding then Ok None
              else if Z.eqb b0 flagsSURB then
                s ← slice b (SphinxPlaintextHeaderLength g) hdrLength; Ok (Some s)
              else Err "invalid message flags");
      if negb (bool_decide (length ct = UserForwardPayloadLength g)) then Err "mis-sized user payload"
      else Ok (ct, surb).

Section SURB.

Context {S : SymPrims} (nikeKnown kemKnown : string -> bool).

(** [NewPacketFromSURB] with the structure and the identifier of [New]. *)
Definition NewPacketFromSURB (fromPool : Packet) (id : Z) (surb payload : bytes) (g : Geometry)
    : outcome Packet :=
  let respPayload := zeros (ForwardPayloadLength g) in
  respPayload ← (if bool_decide (length payload = 0) then Ok respPayload
                 else if bool_decide (ForwardPayloadLength g < length payload)
                 then Err "oversized response payload"
                 else Ok (copy_into respPayload payload));
  s ← FromGeometry nikeKnown kemKnown g;
  '(rawRespPkt, firstHop) ← SphinxPacket.NewPacketFromSURB (geometry s) surb respPayload;
  let cmds := [NextNodeHop (copy_into (zeros NodeIDLength) firstHop) (zeros MACLength); NodeDelay 0] in
  respPkt ← NewWithID fromPool rawRespPkt id g;
  match Packet_Set None cmds respPkt with
  | (_, Some e) => Err e
  | (respPkt, None) => Ok (set_flags true (MustTerminate respPkt) respPkt)
  end.

End SURB.
