(* ===== verification/MixKeys.v ===== *)
(** Mix keys and the mix key store: [server/internal/mixkey/mixkey.go] and
    [server/internal/mixkeys/mixkeys.go], with the key handling of
    [server/internal/cryptoworker/crypto_worker.go].

    The keys of a node are shared objects: the store and every crypto worker
    hold maps from epochs to pointers, and a reference count says when a key is
    wiped.  The objects live in [heap]; a pointer is an index.  The bloom filter
    and the generation and wiping of key pairs are parameters. *)

From S2P Require Import Prelude Schemes ToySchemes SphinxGeo SphinxPacket.
From Stdlib Require Import ZArith Lia.
From stdpp Require Import prelude list strings gmap.

Definition NumMixKeys : Z := 3.
Definition TagLength : nat := 32.

(** The bloom filter the replay check uses ([github.com/yawning/bloom]). *)
Class Bloom := {
  Filter : Type;
  Entries : Filter -> Z;
  MaxEntries : Filter -> Z;
  (** [TestAndSet]: whether the value was in the filter, and the filter with it. *)
  TestAndSet : Filter -> bytes -> bool * Filter;
}.

(** A bloom filter has no false negatives: a value that was set tests positive,
    then and later. *)
Class BloomLaws (B : Bloom) : Prop := {
  bloom_set f b : fst (TestAndSet (snd (TestAndSet f b)) b) = true;
  bloom_mono f b c : fst (TestAndSet f b) = true -> fst (TestAndSet (snd (TestAndSet f c)) b) = true;
}.

(** Conversion of an [int] to [int32]. *)
Definition int32 (z : Z) : Z := (z + 2 ^ 31) mod 2 ^ 32 - 2 ^ 31.

Section MixKeys.

Context {N : Nike} {K : Kem} {B : Bloom}.

(** [type MixKey struct]. *)
Record MixKey := mkMixKey {
  nikeKeypair : option nike_PrivateKey;
  nikePubKey : option nike_PublicKey;
  kemKeypair : option kem_PrivateKey;
  mk_epoch : Z;
  mk_filter : Filter;
  refCount : Z;
  unlinkIfExpired : bool;
}.

(** [bloom.New], [GenerateKeyPair] of the two schemes at the [k]-th call, and
    the [Reset] methods. *)
Context (bloomNew : nat -> outcome Filter)
        (nikeGenerate : nat -> outcome (nike_PublicKey * nike_PrivateKey))
        (kemGenerate : nat -> outcome kem_PrivateKey)
        (nikeResetPriv : nike_PrivateKey -> nike_PrivateKey)
        (nikeResetPub : nike_PublicKey -> nike_PublicKey)
        (kemMarshal : kem_PublicKey -> outcome bytes).

(** ** [MixKey] *)

Definition set_ref (k : MixKey) (n : Z) : MixKey :=
  mkMixKey (nikeKeypair k) (nikePubKey k) (kemKeypair k) (mk_epoch k) (mk_filter k) n (unlinkIfExpired k).
Definition set_bloom (k : MixKey) (f : Filter) : MixKey :=
  mkMixKey (nikeKeypair k) (nikePubKey k) (kemKeypair k) (mk_epoch k) f (refCount k) (unlinkIfExpired k).

Definition SetUnlinkIfExpired (b : bool) (k : MixKey) : MixKey :=
  mkMixKey (nikeKeypair k) (nikePubKey k) (kemKeypair k) (mk_epoch k) (mk_filter k) (refCount k) b.

Definition PublicBytes (k : MixKey) : outcome bytes :=
  match nikePubKey k with
  | None => sk ← deref (kemKeypair k); panic_on_err (kemMarshal (kem_Public sk))
  | Some pk => Ok (nike_Bytes pk)
  end.

(** [PrivateKey()]; [None] is a nil KEM key in the interface. *)
Definition PrivateKey (k : MixKey) : option AnyPrivateKey :=
  match nikeKeypair k with
  | None => KemKey <$> kemKeypair k
  | Some sk => Some (NikeKey sk)
  end.

(** [IsReplay]: test and set. *)
Definition IsReplay (k : MixKey) (rawTag : bytes) : outcome (bool * MixKey) :=
  if negb (bool_decide (length rawTag = TagLength)) then Ok (true, k)
  else if bool_decide (MaxEntries (mk_filter k) <= Entries (mk_filter k))%Z then Panic
  else
    let '(seen, f) := TestAndSet (mk_filter k) rawTag in
    Ok (seen, set_bloom k f).

Definition forceClose (k : MixKey) : MixKey :=
  mkMixKey (nikeResetPriv <$> nikeKeypair k)
    (match nikeKeypair k with Some _ => nikeResetPub <$> nikePubKey k | None => nikePubKey k end)
    None (mk_epoch k) (mk_filter k) (refCount k) (unlinkIfExpired k).

(** [mixkey.New], with the scheme [g.Scheme()] names. *)
Definition newMixKey (calls : nat) (epoch : Z) (isNike : bool) : outcome MixKey :=
  f ← bloomNew calls;
  if isNike then
    '(pk, sk) ← nikeGenerate calls;
    Ok (mkMixKey (Some sk) (Some pk) None epoch f 1 false)
  else
    sk ← kemGenerate calls;
    Ok (mkMixKey None None (Some sk) epoch f 1 false).

(** ** The heap of keys *)

Abbreviation Heap := (list MixKey).
Abbreviation KeyMap := (gmap Z nat).

Definition Deref (h : Heap) (l : nat) : outcome Heap :=
  k ← index h l;
  let i := int32 (refCount k - 1) in
  let k := set_ref k i in
  if bool_decide (i = 0%Z) then Ok (<[l := forceClose k]> h)
  else if bool_decide (i < 0)%Z then Panic
  else Ok (<[l := k]> h).

Definition Ref (h : Heap) (l : nat) : outcome Heap :=
  k ← index h l;
  let i := int32 (refCount k + 1) in
  if bool_decide (i <= 1)%Z then Panic else Ok (<[l := set_ref k i]> h).

(** ** The store and the workers' maps *)

(** [v.Deref(); delete(m, e)] for the entry of epoch [e]. *)
Definition dropKey (h : Heap) (m : KeyMap) (e : Z) : outcome (Heap * KeyMap) :=
  match m !! e with
  | None => Ok (h, m)
  | Some l => h ← Deref h l; Ok (h, delete e m)
  end.

Fixpoint dropKeys (h : Heap) (m : KeyMap) (es : list Z) : outcome (Heap * KeyMap) :=
  match es with
  | [] => Ok (h, m)
  | e :: es => '(h, m) ← dropKey h m e; dropKeys h m es
  end.

(** The epochs of the loop in [Generate]; near the end of the range the bound
    wraps and the loop does not run. *)
Definition generateEpochs (baseEpoch : Z) : list Z :=
  if bool_decide (baseEpoch < wrap 64 (baseEpoch + NumMixKeys))%Z
  then [baseEpoch; baseEpoch + 1; baseEpoch + 2]%Z else [].

(** The loop over the epochs; the result is [didGenerate] or the error, with the
    store as it is then. *)
Fixpoint generateLoop (isNike : bool) (calls : nat) (base : Z) (h : Heap) (m : KeyMap) (did : bool)
    (es : list Z) : outcome (Heap * KeyMap * (bool + string)) :=
  match es with
  | [] => Ok (h, m, inl did)
  | e :: es =>
    match m !! e with
    | Some _ => generateLoop isNike calls base h m did es
    | None =>
      match newMixKey calls e isNike with
      | Panic => Panic
      | Err err =>
        '(h, m) ← dropKeys h m (generateEpochs base);
        Ok (h, m, inr err)
      | Ok k =>
        generateLoop isNike (calls + 1) base (h ++ [SetUnlinkIfExpired true k])
          (<[e := length h]> m) true es
      end
    end
  end.

Definition Generate (isNike : bool) (calls : nat) (baseEpoch : Z) (h : Heap) (m : KeyMap)
    : outcome (Heap * KeyMap * (bool + string)) :=
  generateLoop isNike calls baseEpoch h m false (generateEpochs baseEpoch).

(** The epochs a map lists, in some order. *)
Definition epochs (m : KeyMap) : list Z := (map_to_list m).*1.

Definition Prune (epoch : Z) (h : Heap) (m : KeyMap) : outcome (Heap * KeyMap * bool) :=
  let old := List.filter (fun e => Z.ltb e (wrap 64 (epoch - 1))) (epochs m) in
  '(h, m) ← dropKeys h m old;
  Ok (h, m, negb (bool_decide (old = []))).

Definition Get (h : Heap) (m : KeyMap) (epoch : Z) : outcome (option bytes) :=
  match m !! epoch with
  | None => Ok None
  | Some l => k ← index h l; b ← PublicBytes k; Ok (Some b)
  end.

(** The second loop of [Shadow]: reference and copy the keys not yet listed. *)
Fixpoint addKeys (h : Heap) (dst : KeyMap) (kvs : list (Z * nat)) : outcome (Heap * KeyMap) :=
  match kvs with
  | [] => Ok (h, dst)
  | (e, l) :: kvs =>
    match dst !! e with
    | Some _ => addKeys h dst kvs
    | None => h ← Ref h l; addKeys h (<[e := l]> dst) kvs
    end
  end.

Definition Shadow (h : Heap) (m dst : KeyMap) : outcome (Heap * KeyMap) :=
  '(h, dst) ← dropKeys h dst (List.filter (fun e => bool_decide (m !! e = None)) (epochs dst));
  addKeys h dst (map_to_list m).

Definition Halt (h : Heap) (m : KeyMap) : outcome (Heap * KeyMap) := dropKeys h m (epochs m).

(** [derefKeys] of a worker that ends; its map is not used again. *)
Fixpoint derefKeys (h : Heap) (ls : list nat) : outcome Heap :=
  match ls with
  | [] => Ok h
  | l :: ls => h ← Deref h l; derefKeys h ls
  end.

(** ** A node: the store and its crypto workers *)

Record Node := mkNode { nd_heap : Heap; nd_keys : KeyMap; nd_workers : list KeyMap }.

Definition node0 : Node := mkNode [] ∅ [].

(** What happens to the keys of a node: the rotation and the initial generation,
    a worker that starts, updates its map or ends, and the halt of the store. *)
Inductive keyOp :=
  | OpGenerate (calls : nat) (baseEpoch : Z)
  | OpPrune (epoch : Z)
  | OpNewWorker
  | OpUpdateWorker (i : nat)
  | OpEndWorker (i : nat)
  | OpHalt.

Definition runOp (isNike : bool) (s : Node) (o : keyOp) : outcome Node :=
  let h := nd_heap s in let m := nd_keys s in let ws := nd_workers s in
  match o with
  | OpGenerate c e => '(h, m, _) ← Generate isNike c e h m; Ok (mkNode h m ws)
  | OpPrune e => '(h, m, _) ← Prune e h m; Ok (mkNode h m ws)
  | OpNewWorker => '(h, w) ← Shadow h m ∅; Ok (mkNode h m (ws ++ [w]))
  | OpUpdateWorker i =>
    match ws !! i with
    | None => Ok s
    | Some w => '(h, w) ← Shadow h m w; Ok (mkNode h m (<[i := w]> ws))
    end
  | OpEndWorker i =>
    match ws !! i with
    | None => Ok s
    | Some w => h ← derefKeys h (map_to_list w).*2; Ok (mkNode h m (delete i ws))
    end
  | OpHalt => '(h, m) ← Halt h m; Ok (mkNode h m ws)
  end.

Fixpoint runOps (isNike : bool) (s : Node) (os : list keyOp) : outcome Node :=
  match os with
  | [] => Ok s
  | o :: os => s ← runOp isNike s o; runOps isNike s os
  end.

(** ** Publication *)

(** The loop that fills the descriptor; [None] when a key is missing. *)
Fixpoint descriptorKeys (h : Heap) (m : KeyMap) (es : list Z) (desc : gmap Z bytes)
    : outcome (option (gmap Z bytes)) :=
  match es with
  | [] => Ok (Some desc)
  | e :: es =>
    k ← Get h m e;
    match k with
    | None => Ok None
    | Some b => descriptorKeys h m es (<[e := b]> desc)
    end
  end.

(** [reshadowCryptoWorkers]. *)
Fixpoint reshadow (h : Heap) (m : KeyMap) (ws : list KeyMap) : outcome (Heap * list KeyMap) :=
  match ws with
  | [] => Ok (h, [])
  | w :: ws =>
    '(h, w) ← Shadow h m w;
    '(h, ws) ← reshadow h m ws;
    Ok (h, w :: ws)
  end.

(** The key part of [publishDescriptorIfNeeded], for the epoch to publish and the
    current epoch. *)
Definition rotateKeys (isNike : bool) (calls : nat) (doPublishEpoch now : Z) (s : Node)
    : outcome (Node * (gmap Z bytes + string)) :=
  '(h, m, r) ← Generate isNike calls doPublishEpoch (nd_heap s) (nd_keys s);
  match r with
  | inr err => Ok (mkNode h m (nd_workers s), inr err)
  | inl didGen =>
    '(h, m, didPrune) ← Prune now h m;
    desc ← descriptorKeys h m (generateEpochs doPublishEpoch) ∅;
    match desc with
    | None => Ok (mkNode h m (nd_workers s), inr "key that was scheduled for publication got pruned"%string)
    | Some desc =>
      '(h, ws) ← (if didGen || didPrune then reshadow h m (nd_workers s) else Ok (h, nd_workers s));
      Ok (mkNode h m ws, inl desc)
    end
  end.

(** ** Reference counts *)

(** How many of the maps hold the pointer [l] to a key of epoch [e]. *)
Definition holds (e : Z) (l : nat) (m : KeyMap) : bool := bool_decide (m !! e = Some l).
Fixpoint holders (ms : list KeyMap) (e : Z) (l : nat) : Z :=
  match ms with
  | [] => 0
  | m :: ms => (if holds e l m then 1 else 0) + holders ms e l
  end.

(** A key pair as generated, and one that was wiped. *)
Definition genuine (k : MixKey) : Prop :=
  (exists c pk sk, nikeGenerate c = Ok (pk, sk) /\ nikeKeypair k = Some sk /\ nikePubKey k = Some pk) \/
  (exists c sk, kemGenerate c = Ok sk /\ nikeKeypair k = None /\ nikePubKey k = None /\ kemKeypair k = Some sk).
Definition wiped (k : MixKey) : Prop :=
  kemKeypair k = None /\ forall sk, nikeKeypair k = Some sk -> exists sk0, sk = nikeResetPriv sk0.

Definition same_keys (k k' : MixKey) : Prop :=
  nikeKeypair k' = nikeKeypair k /\ nikePubKey k' = nikePubKey k /\ kemKeypair k' = kemKeypair k.

(** The key at [l] still is the one generated for it; [gs] are the keys as they
    were generated. *)
Definition live (gs : list MixKey) (l : nat) (k : MixKey) : Prop :=
  exists g, gs !! l = Some g /\ genuine g /\ same_keys g k.

(** Maps point to keys of their epoch; the count of a key is the number of maps
    that hold it; a held key is live and any other is wiped. *)
Record counted (gs : list MixKey) (h : Heap) (ms : list KeyMap) : Prop := {
  ct_length : length gs = length h;
  ct_points m e l : m ∈ ms -> m !! e = Some l -> exists k, h !! l = Some k /\ mk_epoch k = e;
  ct_count l k : h !! l = Some k -> refCount k = holders ms (mk_epoch k) l;
  ct_state l k : h !! l = Some k -> if bool_decide (0 < refCount k)%Z then live gs l k else wiped k;
}.

Lemma holders_bound ms e l : (0 <= holders ms e l <= Z.of_nat (length ms))%Z.
Proof. induction ms as [|m ms IH]; cbn [holders length]; [lia|]. destruct (holds e l m); lia. Qed.

Lemma holders_perm ms ms' e l : ms ≡ₚ ms' -> holders ms e l = holders ms' e l.
Proof. induction 1; cbn [holders]; lia. Qed.

#[local] Instance counted_proper gs h : Proper ((≡ₚ) ==> iff) (counted gs h).
Proof.
  assert (Hi : forall ms ms', ms ≡ₚ ms' -> counted gs h ms -> counted gs h ms').
  { intros ms ms' Hp [H0 H1 H2 H3]. split; [done| |intros; rewrite <- (holders_perm _ _ _ _ Hp); auto|done].
    intros m e l Hm. apply H1. by rewrite Hp. }
  intros ms ms' Hp. split; apply Hi; [done|by symmetry].
Qed.

Lemma holders_pos ms m e l : m ∈ ms -> m !! e = Some l -> (0 < holders ms e l)%Z.
Proof.
  intros Hm He. induction ms as [|m' ms IH]; [by apply not_elem_of_nil in Hm|]. cbn [holders].
  apply elem_of_cons in Hm as [<-|Hm].
  - unfold holds. rewrite bool_decide_eq_true_2 by done. pose proof (holders_bound ms e l). lia.
  - specialize (IH Hm). destruct (holds e l m'); lia.
Qed.

Lemma int32_small z : (0 <= z < 2 ^ 31)%Z -> int32 z = z.
Proof. intros. unfold int32. rewrite Z.mod_small; lia. Qed.

(** One map changes at the epoch of one key, and so does that key. *)
Lemma counted_set gs h (m m' : KeyMap) ms l k k' :
  counted gs h (m :: ms) -> h !! l = Some k -> mk_epoch k' = mk_epoch k ->
  (forall e, e <> mk_epoch k -> m' !! e = m !! e) ->
  (m' !! mk_epoch k = Some l \/ m' !! mk_epoch k = None /\ forall l', m !! mk_epoch k = Some l' -> l' = l) ->
  (m !! mk_epoch k = Some l \/ m !! mk_epoch k = None) ->
  refCount k' = holders (m' :: ms) (mk_epoch k) l ->
  (if bool_decide (0 < refCount k')%Z then live gs l k' else wiped k') ->
  counted gs (<[l := k']> h) (m' :: ms).
Proof.
  intros [H0 H1 H2 H3] Hk He Hm' Hl' Hl Hcnt Hst.
  assert (Hlt : l < length h) by (by eapply lookup_lt_Some).
  assert (Hsame : forall l' e, l' <> l -> holders (m' :: ms) e l' = holders (m :: ms) e l').
  { intros l' e Hne. cbn [holders]. unfold holds. destruct (decide (e = mk_epoch k)) as [->|He'].
    - rewrite !bool_decide_eq_false_2; [done| |]; intros Hx;
        destruct Hl as [Hl|Hl], Hl' as [Hl'|[Hl' _]]; congruence.
    - by rewrite Hm'. }
  split; [by rewrite length_insert|..].
  - intros m0 e l' Hm0 He'. destruct (decide (l' = l)) as [->|Hne].
    + rewrite list_lookup_insert_eq by done. exists k'. split; [done|]. rewrite He.
      apply elem_of_cons in Hm0 as [->|Hm0].
      * destruct (decide (e = mk_epoch k)) as [|Hne]; [done|]. rewrite Hm' in He' by done.
        destruct (H1 m e l) as (k0 & Hk0 & <-); [by left|done|congruence].
      * destruct (H1 m0 e l) as (k0 & Hk0 & <-); [by right|done|congruence].
    + rewrite list_lookup_insert_ne by done. apply elem_of_cons in Hm0 as [->|Hm0].
      * apply (H1 m); [by left|]. destruct (decide (e = mk_epoch k)) as [->|]; [|by rewrite <- Hm'].
        destruct Hl' as [Hl'|[Hl' _]]; congruence.
      * apply (H1 m0); [by right|done].
  - intros l' k0 Hk0. destruct (decide (l' = l)) as [->|Hne].
    + rewrite list_lookup_insert_eq in Hk0 by done. assert (k0 = k') as -> by congruence. by rewrite He.
    + rewrite list_lookup_insert_ne in Hk0 by done. rewrite Hsame by done. by apply H2.
  - intros l' k0 Hk0. destruct (decide (l' = l)) as [->|Hne].
    + rewrite list_lookup_insert_eq in Hk0 by done. assert (k0 = k') as -> by congruence. done.
    + rewrite list_lookup_insert_ne in Hk0 by done. by apply (H3 l').
Qed.

Abbreviation few ms := ((Z.of_nat (length ms) < 2 ^ 31)%Z).

Lemma dropKey_counted gs h m ms e :
  few (m :: ms) -> counted gs h (m :: ms) ->
  exists h', dropKey h m e = Ok (h', delete e m) /\ counted gs h' (delete e m :: ms).
Proof.
  intros Hlen Hc. unfold dropKey. destruct (m !! e) as [l|] eqn:Hl.
  2: { exists h. by rewrite delete_id. }
  pose proof Hc as [H0 H1 H2 H3]. destruct (H1 m e l) as (k & Hk & <-); [by left|done|].
  unfold Deref, index. rewrite Hk. cbn [deref]. go.
  pose proof (H2 l k Hk) as Hcnt. pose proof (holders_bound (m :: ms) (mk_epoch k) l) as Hb.
  assert (Hpos : (0 < refCount k)%Z) by (rewrite Hcnt; eapply holders_pos; [by left|done]).
  pose proof (H3 l k Hk) as Hst. rewrite bool_decide_eq_true_2 in Hst by done.
  rewrite int32_small by lia.
  set (k' := if bool_decide (refCount k - 1 = 0)%Z then forceClose (set_ref k (refCount k - 1))
             else set_ref k (refCount k - 1)).
  exists (<[l := k']> h). split.
  { subst k'. case_bool_decide; [done|]. by rewrite bool_decide_eq_false_2 by lia. }
  assert (Hk' : refCount k' = (refCount k - 1)%Z) by (subst k'; case_bool_decide; done).
  apply (counted_set gs h m _ ms l k); try done.
  - subst k'. by case_bool_decide.
  - intros. by rewrite lookup_delete_ne.
  - right. rewrite lookup_delete_eq. split; [done|]. congruence.
  - by left.
  - rewrite Hk', Hcnt. cbn [holders]. unfold holds. rewrite Hl, lookup_delete_eq.
    rewrite bool_decide_eq_true_2, bool_decide_eq_false_2 by done. lia.
  - rewrite Hk'. subst k'. case_bool_decide as Hz.
    + rewrite bool_decide_eq_false_2 by lia. split; [done|]. cbn. intros sk Hsk.
      destruct (nikeKeypair k); [|done]. injection Hsk as <-. eauto.
    + rewrite bool_decide_eq_true_2 by lia. exact Hst.
Qed.

Lemma dropKeys_counted gs es h m ms :
  few (m :: ms) -> counted gs h (m :: ms) ->
  exists h' m', dropKeys h m es = Ok (h', m') /\ counted gs h' (m' :: ms) /\
    forall e, m' !! e = if bool_decide (e ∈ es) then None else m !! e.
Proof.
  revert h m. induction es as [|e es IH]; intros h m Hf Hc.
  { exists h, m. split_and!; [done..|]. intros e. by rewrite bool_decide_eq_false_2 by apply not_elem_of_nil. }
  cbn [dropKeys]. destruct (dropKey_counted gs h m ms e) as (h1 & -> & Hc1); [done..|]. go.
  destruct (IH h1 (delete e m)) as (h' & m' & -> & Hc' & Hm'); [done..|].
  exists h', m'. split_and!; [done..|]. intros e0. rewrite Hm'.
  destruct (decide (e0 = e)) as [->|Hne].
  - rewrite lookup_delete_eq, (bool_decide_eq_true_2 (e ∈ e :: es)) by (by left).
    by case_bool_decide.
  - rewrite lookup_delete_ne by done. rewrite (bool_decide_ext (e0 ∈ e :: es) (e0 ∈ es)); [done|].
    rewrite elem_of_cons. tauto.
Qed.

Lemma Ref_counted gs h (m : KeyMap) ms e l :
  (Z.of_nat (length (m :: ms)) < 2 ^ 31 - 1)%Z -> counted gs h (m :: ms) ->
  m !! e = None -> (exists m0, m0 ∈ ms /\ m0 !! e = Some l) ->
  exists h', Ref h l = Ok h' /\ counted gs h' (<[e := l]> m :: ms).
Proof.
  intros Hlen Hc Hm (m0 & Hm0 & Hl). pose proof Hc as [H0 H1 H2 H3].
  destruct (H1 m0 e l) as (k & Hk & <-); [by right|done|].
  unfold Ref, index. rewrite Hk. cbn [deref]. go.
  pose proof (H2 l k Hk) as Hcnt. pose proof (holders_bound (m :: ms) (mk_epoch k) l) as Hb.
  assert (Hpos : (0 < refCount k)%Z) by (rewrite Hcnt; eapply holders_pos; [by right|done]).
  pose proof (H3 l k Hk) as Hst. rewrite bool_decide_eq_true_2 in Hst by done.
  rewrite int32_small by lia. rewrite bool_decide_eq_false_2 by lia.
  eexists. split; [reflexivity|]. apply (counted_set gs h m _ ms l k); try done.
  - intros. by rewrite lookup_insert_ne.
  - left. by rewrite lookup_insert_eq.
  - by right.
  - cbn [set_ref refCount holders]. rewrite Hcnt. cbn [holders]. unfold holds.
    rewrite Hm, lookup_insert_eq, (bool_decide_eq_true_2 (Some l = Some l)),
      (bool_decide_eq_false_2 (None = Some l)) by done. lia.
  - rewrite bool_decide_eq_true_2 by (cbn; lia). exact Hst.
Qed.

Lemma alloc_counted gs h (m : KeyMap) ms e k :
  counted gs h (m :: ms) -> m !! e = None -> mk_epoch k = e -> refCount k = 1%Z -> genuine k ->
  counted (gs ++ [k]) (h ++ [k]) (<[e := length h]> m :: ms).
Proof.
  intros [H0 H1 H2 H3] Hm He Hr Hl.
  assert (Hfresh : forall m0 e0, m0 ∈ m :: ms -> m0 !! e0 <> Some (length h)).
  { intros m0 e0 Hm0 Hbad. destruct (H1 _ _ _ Hm0 Hbad) as (k0 & Hk0 & _).
    apply lookup_lt_Some in Hk0. lia. }
  assert (Hnone : forall ms', (forall m0, m0 ∈ ms' -> m0 ∈ m :: ms) -> forall e0, holders ms' e0 (length h) = 0%Z).
  { induction ms' as [|m0 ms' IH]; intros Hin e0; [done|]. cbn [holders]. unfold holds.
    rewrite bool_decide_eq_false_2 by (apply Hfresh, Hin; by left).
    rewrite IH; [done|]. intros. apply Hin. by right. }
  split; [rewrite !length_app; simpl; lia|..].
  - intros m0 e0 l Hm0 Hl0. apply elem_of_cons in Hm0 as [->|Hm0].
    + apply lookup_insert_Some in Hl0 as [[<- <-]|[_ Hl0]].
      * exists k. split; [by apply list_lookup_middle|done].
      * destruct (H1 m e0 l) as (k0 & Hk0 & ?); [by left|done|]. exists k0.
        split; [by apply lookup_app_l_Some|done].
    + destruct (H1 m0 e0 l) as (k0 & Hk0 & ?); [by right|done|]. exists k0.
      split; [by apply lookup_app_l_Some|done].
  - intros l k0 Hk0. apply lookup_app_Some in Hk0 as [Hk0|[Hge Hk0]].
    + rewrite (H2 l k0 Hk0). cbn [holders]. f_equal. unfold holds.
      assert (l <> length h) by (apply lookup_lt_Some in Hk0; lia).
      destruct (decide (mk_epoch k0 = e)) as [->|]; [|by rewrite lookup_insert_ne].
      by rewrite lookup_insert_eq, Hm, !bool_decide_eq_false_2 by congruence.
    + apply list_lookup_singleton_Some in Hk0 as [Hz <-]. assert (l = length h) as -> by lia.
      rewrite Hr, He. cbn [holders]. unfold holds. rewrite lookup_insert_eq, bool_decide_eq_true_2 by done.
      rewrite Hnone; [done|]. intros. by right.
  - intros l k0 Hk0. apply lookup_app_Some in Hk0 as [Hk0|[Hge Hk0]].
    + apply H3 in Hk0. case_bool_decide; [|done]. destruct Hk0 as (g & Hg & ?). exists g.
      split; [by apply lookup_app_l_Some|done].
    + apply list_lookup_singleton_Some in Hk0 as [Hz <-]. rewrite Hr. exists k.
      split; [|done]. assert (l = length gs) as -> by lia. by apply list_lookup_middle.
Qed.

(** ** The operations keep the counts *)

Context (Hbloom : forall c, bloomNew c <> Panic) (Hnike : forall c, nikeGenerate c <> Panic)
        (Hkem : forall c, kemGenerate c <> Panic).

Lemma newMixKey_live c e isNike :
  match newMixKey c e isNike with
  | Ok k => mk_epoch k = e /\ refCount k = 1%Z /\ genuine (SetUnlinkIfExpired true k)
  | Err _ => True
  | Panic => False
  end.
Proof.
  unfold newMixKey. specialize (Hbloom c). specialize (Hnike c). specialize (Hkem c).
  destruct (bloomNew c); [|done..]. go. destruct isNike.
  - destruct (nikeGenerate c) as [[pk sk]|e'|] eqn:E; [|done..]. go. split_and!; [done..|].
    left. by exists c, pk, sk.
  - destruct (kemGenerate c) as [sk|e'|] eqn:E; [|done..]. go. split_and!; [done..|].
    right. by exists c, sk.
Qed.

Lemma generateLoop_counted isNike base es gs c h m did ms :
  few (m :: ms) -> counted gs h (m :: ms) ->
  exists gs' h' m' r, generateLoop isNike c base h m did es = Ok (h', m', r) /\ counted gs' h' (m' :: ms) /\
    (r = inl false -> did = false /\ m' = m) /\
    forall d, r = inl d -> (forall e, e ∈ es -> is_Some (m' !! e)) /\
      (forall e, (e ∉ es) \/ is_Some (m !! e) -> m' !! e = m !! e).
Proof.
  revert gs c h m did. induction es as [|e es IH]; intros gs c h m did Hf Hc; cbn [generateLoop].
  { eexists _, _, _, _. split_and!; [done..|by intros [= ->]|]. intros d _. split; [|done]. intros e He.
    by apply not_elem_of_nil in He. }
  destruct (m !! e) as [l|] eqn:Hm.
  { destruct (IH gs c h m did Hf Hc) as (gs' & h' & m' & r & -> & Hc' & Hf' & Hr).
    eexists _, _, _, _. split_and!; [done..|].
    intros d Hd. destruct (Hr d Hd) as [H1 H2]. split.
    - intros e0 [->|He0]%elem_of_cons; [|by apply H1]. rewrite H2 by eauto. eauto.
    - intros e0 He0. apply H2. rewrite not_elem_of_cons in He0. tauto. }
  pose proof (newMixKey_live c e isNike) as Hn. destruct (newMixKey c e isNike) as [k|err|]; [| |done].
  - destruct Hn as (He & Hr1 & Hl).
    destruct (IH (gs ++ [SetUnlinkIfExpired true k]) (c + 1) (h ++ [SetUnlinkIfExpired true k])
      (<[e := length h]> m) true) as (gs' & h' & m' & r & -> & Hc' & Hf' & Hr); [done|by apply alloc_counted|].
    eexists _, _, _, _. split_and!; [done..|by intros [? _]%Hf'|].
    intros d Hd. destruct (Hr d Hd) as [H1 H2]. split.
    + intros e0 [->|He0]%elem_of_cons; [|by apply H1].
      rewrite H2 by (right; rewrite lookup_insert_eq; eauto). rewrite lookup_insert_eq. eauto.
    + intros e0 He0. assert (e0 <> e).
      { intros ->. destruct He0 as [He0|[? He0]]; [|congruence]. apply He0. by left. }
      rewrite H2, lookup_insert_ne; [done..|]. rewrite lookup_insert_ne by done.
      rewrite not_elem_of_cons in He0. tauto.
  - destruct (dropKeys_counted gs (generateEpochs base) h m ms Hf Hc) as (h' & m' & -> & Hc' & _). go.
    by exists gs, h', m', (inr err).
Qed.

Lemma addKeys_counted gs kvs h (dst m : KeyMap) ms :
  (Z.of_nat (length (dst :: m :: ms)) < 2 ^ 31 - 1)%Z -> counted gs h (dst :: m :: ms) ->
  (forall e l, (e, l) ∈ kvs -> m !! e = Some l) ->
  exists h' dst', addKeys h dst kvs = Ok (h', dst') /\ counted gs h' (dst' :: m :: ms) /\
    forall e, dst' !! e = match dst !! e with
                          | Some l => Some l
                          | None => if bool_decide (e ∈ kvs.*1) then m !! e else None
                          end.
Proof.
  revert h dst. induction kvs as [|[e l] kvs IH]; intros h dst Hf Hc Hin; cbn [addKeys].
  { eexists _, _. split_and!; [done..|]. intros e. by destruct (dst !! e). }
  assert (Hm : m !! e = Some l) by (apply Hin; by left).
  assert (Hin' : forall e0 l0, (e0, l0) ∈ kvs -> m !! e0 = Some l0) by (intros; apply Hin; by right).
  assert (Hmem : forall e0, bool_decide (e0 ∈ ((e, l) :: kvs).*1) =
    bool_decide (e0 = e) || bool_decide (e0 ∈ kvs.*1)).
  { intros e0. rewrite <- bool_decide_or. apply bool_decide_ext. cbn. by rewrite elem_of_cons. }
  destruct (dst !! e) as [l'|] eqn:Hd.
  - destruct (IH h dst Hf Hc Hin') as (h' & dst' & -> & Hc' & Hd').
    eexists _, _. split_and!; [done..|]. intros e0. rewrite Hd', Hmem.
    destruct (dst !! e0) eqn:E; [done|]. rewrite (bool_decide_eq_false_2 (e0 = e)) by congruence. done.
  - destruct (Ref_counted gs h dst (m :: ms) e l Hf Hc Hd) as (h1 & -> & Hc1).
    { exists m. split; [by left|done]. } go.
    destruct (IH h1 (<[e := l]> dst)) as (h' & dst' & -> & Hc' & Hd'); [exact Hf|done..|].
    eexists _, _. split_and!; [done..|]. intros e0. rewrite Hd', Hmem.
    destruct (decide (e0 = e)) as [->|Hne].
    + rewrite lookup_insert_eq, Hd, (bool_decide_eq_true_2 (e = e)) by done. by rewrite Hm.
    + rewrite lookup_insert_ne, (bool_decide_eq_false_2 (e0 = e)) by done. done.
Qed.

Lemma elem_of_epochs (m : KeyMap) e : e ∈ epochs m <-> is_Some (m !! e).
Proof.
  unfold epochs. rewrite list_elem_of_fmap. split.
  - intros ([e' l] & -> & H%elem_of_map_to_list). eauto.
  - intros [l H]. exists (e, l). split; [done|by apply elem_of_map_to_list].
Qed.

Lemma Shadow_counted gs h (m dst : KeyMap) ms :
  (Z.of_nat (length (dst :: m :: ms)) < 2 ^ 31 - 1)%Z -> counted gs h (dst :: m :: ms) ->
  exists h' dst', Shadow h m dst = Ok (h', dst') /\ counted gs h' (dst' :: m :: ms) /\
    forall e, dst' !! e = match m !! e with None => None | Some l => Some (default l (dst !! e)) end.
Proof.
  intros Hf Hc. unfold Shadow.
  destruct (dropKeys_counted gs (List.filter (fun e => bool_decide (m !! e = None)) (epochs dst)) h dst (m :: ms))
    as (h1 & d1 & -> & Hc1 & Hd1); [lia|done|]. go.
  destruct (addKeys_counted gs (map_to_list m) h1 d1 m ms) as (h' & dst' & -> & Hc' & Hd'); [done..| |].
  { intros e l. by apply elem_of_map_to_list. }
  exists h', dst'. split_and!; [done..|]. intros e. rewrite Hd', Hd1.
  rewrite (bool_decide_ext (e ∈ (map_to_list m).*1) (is_Some (m !! e))) by apply elem_of_epochs.
  rewrite (bool_decide_ext (e ∈ List.filter _ _) (is_Some (dst !! e) /\ m !! e = None)).
  2: { rewrite list_elem_of_In, filter_In, <- list_elem_of_In, elem_of_epochs, bool_decide_eq_true. done. }
  destruct (m !! e) as [l|] eqn:Hm.
  - rewrite (bool_decide_eq_false_2 (_ /\ _)) by (intros [_ ?]; done).
    destruct (dst !! e); [done|]. by rewrite bool_decide_eq_true_2 by eauto.
  - rewrite (bool_decide_eq_false_2 (is_Some None)) by (by intros []).
    case_bool_decide as Hb; [done|]. destruct (dst !! e) eqn:E; [|done]. destruct Hb. eauto.
Qed.

Lemma counted_empty gs h ms : counted gs h (∅ :: ms) <-> counted gs h ms.
Proof.
  assert (H : forall e l, holders (∅ :: ms) e l = holders ms e l)
    by (intros; cbn [holders]; unfold holds; by rewrite lookup_empty, bool_decide_eq_false_2).
  split; intros [H0 H1 H2 H3]; split; try exact H3; try exact H0.
  - intros m e l Hm. apply H1. by right.
  - intros l k Hk. rewrite <- H. by apply H2.
  - intros m e l [->|Hm]%elem_of_cons Hl; [by rewrite lookup_empty in Hl|by eapply H1].
  - intros l k Hk. rewrite H. by apply H2.
Qed.

(** A worker that ends gives back every key of its map. *)
Lemma derefKeys_drop kvs h (m : KeyMap) h' m' :
  NoDup kvs.*1 -> (forall e l, (e, l) ∈ kvs -> m !! e = Some l) ->
  dropKeys h m kvs.*1 = Ok (h', m') -> derefKeys h kvs.*2 = Ok h'.
Proof.
  revert h m. induction kvs as [|[e l] kvs IH]; intros h m Hnd Hin; cbn [dropKeys derefKeys fmap list_fmap fst snd].
  { congruence. }
  apply NoDup_cons in Hnd as [Hne Hnd]. unfold dropKey. rewrite (Hin e l) by (by left).
  destruct (Deref h l) as [h1| |]; [|done..]. go. apply IH; [done|].
  intros e0 l0 H0. rewrite lookup_delete_ne; [apply Hin; by right|].
  intros ->. apply Hne, list_elem_of_fmap. by exists (e0, l0).
Qed.

Lemma derefKeys_counted gs h w ms :
  few (w :: ms) -> counted gs h (w :: ms) ->
  exists h', derefKeys h (map_to_list w).*2 = Ok h' /\ counted gs h' ms.
Proof.
  intros Hf Hc. destruct (dropKeys_counted gs (epochs w) h w ms Hf Hc) as (h' & m' & Hd & Hc' & Hm').
  exists h'. split.
  - eapply derefKeys_drop; [apply NoDup_fst_map_to_list|intros e l; by apply elem_of_map_to_list|exact Hd].
  - apply counted_empty. replace (∅ : KeyMap) with m'; [done|]. apply map_eq. intros e.
    rewrite Hm', lookup_empty. case_bool_decide as He; [done|].
    rewrite elem_of_epochs in He. by apply eq_None_not_Some.
Qed.

Lemma counted_worker gs h (m : KeyMap) ws i w w' :
  ws !! i = Some w ->
  (counted gs h (m :: ws) <-> counted gs h (w :: m :: delete i ws)) /\
  (counted gs h (m :: <[i := w']> ws) <-> counted gs h (w' :: m :: delete i ws)).
Proof.
  intros Hi. assert (i < length ws) by (by eapply lookup_lt_Some).
  split; apply counted_proper; (etrans; [apply perm_skip|apply perm_swap]).
  - by apply delete_Permutation.
  - rewrite insert_take_drop by done. rewrite delete_take_drop. by rewrite <- Permutation_middle.
Qed.

Lemma Prune_counted gs e h (m : KeyMap) ms :
  few (m :: ms) -> counted gs h (m :: ms) ->
  exists h' m' did, Prune e h m = Ok (h', m', did) /\ counted gs h' (m' :: ms) /\
    (forall e', m' !! e' = if Z.ltb e' (wrap 64 (e - 1)) then None else m !! e') /\
    (did = false -> m' = m).
Proof.
  intros Hf Hc. unfold Prune. set (old := List.filter _ (epochs m)).
  destruct (dropKeys_counted gs old h m ms Hf Hc) as (h' & m' & -> & Hc' & Hm'). go.
  assert (Hold : forall e', e' ∈ old <-> is_Some (m !! e') /\ (e' < wrap 64 (e - 1))%Z).
  { intros e'. unfold old. rewrite list_elem_of_In, filter_In, <- list_elem_of_In, elem_of_epochs, Z.ltb_lt. done. }
  eexists _, _, _. split_and!; [done..| |].
  - intros e'. rewrite Hm'. destruct (Z.ltb_spec e' (wrap 64 (e - 1))) as [Hlt|Hge].
    + case_bool_decide as Hb; [done|]. apply eq_None_not_Some. intros Hs. apply Hb, Hold. done.
    + rewrite bool_decide_eq_false_2; [done|]. rewrite Hold. lia.
  - intros Hd. apply map_eq. intros e'. rewrite Hm'.
    rewrite bool_decide_eq_false_2; [done|]. case_bool_decide as Hn; [|done].
    rewrite Hn. apply not_elem_of_nil.
Qed.

(** One operation on a node with reference counts in order. *)
Lemma runOp_counted gs isNike s o :
  (Z.of_nat (length (nd_workers s)) < 2 ^ 31 - 3)%Z -> counted gs (nd_heap s) (nd_keys s :: nd_workers s) ->
  exists gs' s', runOp isNike s o = Ok s' /\ counted gs' (nd_heap s') (nd_keys s' :: nd_workers s') /\
    length (nd_workers s') <= length (nd_workers s) + 1.
Proof.
  destruct s as [h m ws]. cbn [nd_heap nd_keys nd_workers]. intros Hf Hc.
  assert (Hf1 : few (m :: ws)) by (cbn [length]; lia).
  destruct o as [c e|e| |i|i|]; unfold runOp; cbn [nd_heap nd_keys nd_workers].
  - destruct (generateLoop_counted isNike e (generateEpochs e) gs c h m false ws) as (gs' & h' & m' & r & H & Hc' & _);
      [done..|]. unfold Generate. rewrite H. go. eexists _, _. split; [done|]. split; [done|cbn; lia].
  - destruct (Prune_counted gs e h m ws Hf1 Hc) as (h' & m' & did & -> & Hc' & _). go.
    eexists _, _. split; [done|]. split; [done|cbn; lia].
  - destruct (Shadow_counted gs h m ∅ ws) as (h' & w & -> & Hc' & _);
      [cbn [length]; lia|apply counted_empty; exact Hc|]. go.
    eexists _, _. split; [done|]. cbn [nd_heap nd_keys nd_workers]. split; [|rewrite length_app; cbn; lia].
    eapply counted_proper; [|exact Hc']. symmetry.
    etrans; [apply perm_swap|]. apply perm_skip, Permutation_cons_append.
  - destruct (ws !! i) as [w|] eqn:Hi; [|eexists _, _; split; [done|]; split; [done|cbn; lia]].
    destruct (Shadow_counted gs h m w (delete i ws)) as (h' & w' & -> & Hc' & _).
    { rewrite length_cons, length_cons, length_delete by eauto. lia. }
    { apply (proj1 (counted_worker gs h m ws i w w Hi)), Hc. }
    go. eexists _, _. split; [done|]. cbn [nd_heap nd_keys nd_workers]. split; [|rewrite length_insert; lia].
    apply (proj2 (counted_worker gs h' m ws i w w' Hi)), Hc'.
  - destruct (ws !! i) as [w|] eqn:Hi; [|eexists _, _; split; [done|]; split; [done|cbn; lia]].
    destruct (derefKeys_counted gs h w (m :: delete i ws)) as (h' & -> & Hc').
    { rewrite length_cons, length_cons, length_delete by eauto. lia. }
    { apply (proj1 (counted_worker gs h m ws i w w Hi)), Hc. }
    go. eexists _, _. split; [done|]. split; [done|]. cbn. rewrite length_delete by eauto. lia.
  - unfold Halt. destruct (dropKeys_counted gs (epochs m) h m ws Hf1 Hc) as (h' & m' & -> & Hc' & _). go.
    eexists _, _. split; [done|]. split; [done|cbn; lia].
Qed.

Lemma runOps_counted isNike os gs s :
  (Z.of_nat (length (nd_workers s) + length os) < 2 ^ 31 - 3)%Z ->
  counted gs (nd_heap s) (nd_keys s :: nd_workers s) ->
  exists gs' s', runOps isNike s os = Ok s' /\ counted gs' (nd_heap s') (nd_keys s' :: nd_workers s').
Proof.
  revert gs s. induction os as [|o os IH]; intros gs s Hf Hc; [by exists gs, s|].
  cbn [runOps]. cbn [length] in Hf.
  destruct (runOp_counted gs isNike s o) as (gs1 & s1 & -> & Hc1 & Hl); [lia|done|]. go.
  eapply IH; [lia|exact Hc1].
Qed.

(** ** Published keys *)

(** The published bytes [b] belong to the private key the workers use. *)
Definition published (k : MixKey) (b : bytes) : Prop :=
  (exists c pk sk, nikeGenerate c = Ok (pk, sk) /\ PrivateKey k = Some (NikeKey sk) /\ b = nike_Bytes pk) \/
  (exists c sk, kemGenerate c = Ok sk /\ PrivateKey k = Some (KemKey sk) /\ kemMarshal (kem_Public sk) = Ok b).

Context (Hmarshal : forall pk, exists b, kemMarshal pk = Ok b).

Lemma live_published gs l k :
  live gs l k -> exists b, PublicBytes k = Ok b /\ published k b.
Proof.
  intros (g & _ & Hg & H1 & H2 & H3). unfold PublicBytes, published, PrivateKey. rewrite H1, H2, H3.
  destruct Hg as [(c & pk & sk & Hc & -> & ->)|(c & sk & Hc & -> & -> & ->)].
  - exists (nike_Bytes pk). split; [done|]. left. by exists c, pk, sk.
  - cbn [deref]. go. destruct (Hmarshal (kem_Public sk)) as [b Hb]. rewrite Hb. exists b.
    split; [done|]. right. by exists c, sk.
Qed.

Lemma same_PublicBytes gs l k k' : live gs l k -> live gs l k' -> PublicBytes k' = PublicBytes k.
Proof.
  intros (g & Hg & _ & H1 & H2 & H3) (g' & Hg' & _ & H1' & H2' & H3').
  assert (g' = g) as -> by congruence. unfold PublicBytes.
  by rewrite H2, H3, H2', H3'.
Qed.

Lemma counted_held gs h (m : KeyMap) ms e l :
  counted gs h ms -> m ∈ ms -> m !! e = Some l -> exists k, h !! l = Some k /\ mk_epoch k = e /\ live gs l k.
Proof.
  intros [_ H1 H2 H3] Hm He. destruct (H1 m e l Hm He) as (k & Hk & Hke). exists k. split_and!; [done..|].
  pose proof (H3 l k Hk) as Hs. rewrite bool_decide_eq_true_2 in Hs; [done|].
  rewrite (H2 l k Hk), Hke. by eapply holders_pos.
Qed.

Lemma descriptorKeys_ok gs h (m : KeyMap) ms es desc :
  counted gs h (m :: ms) -> (forall e, e ∈ es -> is_Some (m !! e)) ->
  exists desc', descriptorKeys h m es desc = Ok (Some desc') /\
    (forall e, e ∉ es -> desc' !! e = desc !! e) /\
    forall e, e ∈ es -> exists l k b, m !! e = Some l /\ h !! l = Some k /\ PublicBytes k = Ok b /\
      desc' !! e = Some b.
Proof.
  intros Hc. revert desc. induction es as [|e es IH]; intros desc Hin; cbn [descriptorKeys].
  { exists desc. split_and!; [done..|]. intros e He. by apply not_elem_of_nil in He. }
  destruct (Hin e) as [l Hl]; [by left|].
  destruct (counted_held gs h m (m :: ms) e l Hc) as (k & Hk & _ & Hlv); [by left|done|].
  destruct (live_published gs l k Hlv) as (b & Hb & _). unfold Get, index. rewrite Hl, Hk. cbn [deref].
  go. rewrite Hb. go. destruct (IH (<[e := b]> desc)) as (desc' & -> & Ho & He).
  { intros. apply Hin. by right. }
  exists desc'. split_and!; [done| |].
  - intros e0 [Hne Hni]%not_elem_of_cons. by rewrite Ho, lookup_insert_ne.
  - intros e0 He0. destruct (decide (e0 ∈ es)) as [|Hni]; [by apply He|].
    apply elem_of_cons in He0 as [->|]; [|done]. rewrite Ho, lookup_insert_eq by done. by exists l, k, b.
Qed.

(** Workers in step with the store stay in step. *)
Lemma reshadow_counted gs h (m m0 : KeyMap) ws front :
  (Z.of_nat (length (m :: front ++ ws)) < 2 ^ 31 - 1)%Z ->
  counted gs h (m :: front ++ ws) -> Forall (fun w => w = m0) ws ->
  (forall e l, m !! e = Some l -> m0 !! e = None \/ m0 !! e = Some l) ->
  exists h' ws', reshadow h m ws = Ok (h', ws') /\ counted gs h' (m :: front ++ ws') /\
    length ws' = length ws /\ Forall (fun w => w = m) ws'.
Proof.
  intros Hf Hc Hws Hm. revert h front Hf Hc. induction Hws as [|w ws -> _ IH]; intros h front Hf Hc.
  { exists h, []. done. }
  cbn [reshadow]. destruct (Shadow_counted gs h m m0 (front ++ ws)) as (h1 & w1 & -> & Hc1 & Hw1).
  { revert Hf. cbn [length]. rewrite !length_app. cbn [length]. lia. }
  { eapply counted_proper; [|exact Hc]. etrans; [apply perm_swap|]. apply perm_skip.
    by rewrite <- Permutation_middle. }
  assert (w1 = m) as ->.
  { apply map_eq. intros e. rewrite Hw1. destruct (m !! e) as [l|] eqn:E; [|done].
    destruct (Hm e l E) as [->| ->]; done. }
  go. destruct (IH h1 (front ++ [m])) as (h' & ws' & -> & Hc' & Hl & Hall).
  { revert Hf. cbn [length]. rewrite !length_app. cbn [length]. lia. }
  { rewrite <- app_assoc. cbn [app]. eapply counted_proper; [|exact Hc1].
    etrans; [apply perm_skip; symmetry; apply Permutation_middle|apply perm_swap]. }
  go. exists h', (m :: ws'). rewrite <- app_assoc in Hc'. split_and!; [done..|cbn; lia|by constructor].
Qed.

Context (Hgen : forall c e isNike, exists k, newMixKey c e isNike = Ok k).

Lemma generateLoop_inl isNike c base h m did es h' m' r :
  generateLoop isNike c base h m did es = Ok (h', m', r) -> exists d, r = inl d.
Proof.
  revert c h m did. induction es as [|e es IH]; intros c h m did; cbn [generateLoop].
  { intros [= <- <- <-]. eauto. }
  destruct (m !! e); [apply IH|]. destruct (Hgen c e isNike) as [k ->]. apply IH.
Qed.

(** Generation and pruning for the epochs to publish: all three keys are there,
    older entries are kept or dropped but not replaced. *)
Lemma generate_prune isNike calls publish now gs h (m : KeyMap) ms :
  few (m :: ms) -> counted gs h (m :: ms) ->
  (0 < now <= publish + 1)%Z -> (publish + 3 < 2 ^ 64)%Z -> (0 <= publish)%Z ->
  exists gs' h1 m1 did h' m' didP, Generate isNike calls publish h m = Ok (h1, m1, inl did) /\
    Prune now h1 m1 = Ok (h', m', didP) /\ counted gs' h' (m' :: ms) /\
    generateEpochs publish = [publish; publish + 1; publish + 2]%Z /\
    (forall e, e ∈ generateEpochs publish -> is_Some (m' !! e)) /\
    (forall e l, m' !! e = Some l -> m !! e = None \/ m !! e = Some l) /\
    (did || didP = false -> m' = m).
Proof.
  intros Hf Hc Hnow Hp Hp0. unfold Generate.
  assert (Hes : generateEpochs publish = [publish; publish + 1; publish + 2]%Z).
  { unfold generateEpochs, wrap, NumMixKeys. by rewrite Z.mod_small, bool_decide_eq_true_2 by lia. }
  destruct (generateLoop_counted isNike publish (generateEpochs publish) gs calls h m false ms Hf Hc)
    as (gs1 & h1 & m1 & r & Hg & Hc1 & Hsame & Hr).
  destruct (generateLoop_inl _ _ _ _ _ _ _ _ _ _ Hg) as [did ->]. destruct (Hr did eq_refl) as [Hin Hold].
  destruct (Prune_counted gs1 now h1 m1 ms Hf Hc1) as (h2 & m2 & didP & Hpr & Hc2 & Hm2 & HsameP).
  exists gs1, h1, m1, did, h2, m2, didP. split_and!; try done.
  - intros e He. rewrite Hm2. destruct (Z.ltb_spec e (wrap 64 (now - 1))) as [Hlt|]; [|by apply Hin].
    unfold wrap in Hlt. rewrite Z.mod_small in Hlt by lia. rewrite Hes, !elem_of_cons, elem_of_nil in He. lia.
  - intros e l He. rewrite Hm2 in He. destruct (Z.ltb _ _); [done|].
    destruct (m !! e) as [l'|] eqn:Em; [|by left]. rewrite Hold, Em in He by eauto. by right.
  - intros [-> ->]%orb_false_iff. rewrite HsameP by done. by apply Hsame.
Qed.

Lemma rotateKeys_ok isNike calls publish now gs h (m : KeyMap) ws :
  counted gs h (m :: ws) -> (Z.of_nat (length ws) < 2 ^ 31 - 3)%Z -> Forall (fun w => w = m) ws ->
  (0 < now <= publish + 1)%Z -> (publish + 3 < 2 ^ 64)%Z -> (0 <= publish)%Z ->
  exists h' m' ws' desc gs', rotateKeys isNike calls publish now (mkNode h m ws) = Ok (mkNode h' m' ws', inl desc) /\
    counted gs' h' (m' :: ws') /\ Forall (fun w => w = m') ws' /\
    forall e, (publish <= e < publish + 3)%Z -> exists l k b, m' !! e = Some l /\
      h' !! l = Some k /\ mk_epoch k = e /\ desc !! e = Some b /\ published k b.
Proof.
  intros Hc Hf Hsync Hnow Hp Hp0. unfold rotateKeys. cbn [nd_heap nd_keys nd_workers].
  destruct (generate_prune isNike calls publish now gs h m ws) as
    (gs1 & h1 & m1 & did & h2 & m2 & didP & -> & Hpr & Hc2 & Hes & Hin & Hold & Hsame);
    [cbn [length]; lia|done..|]. go. rewrite Hpr. go.
  destruct (descriptorKeys_ok gs1 h2 m2 ws (generateEpochs publish) ∅ Hc2 Hin) as (desc & -> & _ & Hdesc). go.
  assert (Hsh : exists h3 ws3, (if did || didP then reshadow h2 m2 ws else Ok (h2, ws)) = Ok (h3, ws3) /\
      counted gs1 h3 (m2 :: ws3) /\ Forall (fun w => w = m2) ws3).
  { destruct (did || didP).
    - destruct (reshadow_counted gs1 h2 m2 m ws []) as (h3 & ws3 & -> & Hc3 & _ & Hall);
        [cbn [length app]; lia|done..|by exists h3, ws3].
    - rewrite Hsame in * by done. by exists h2, ws. }
  destruct Hsh as (h3 & ws3 & -> & Hc3 & Hall). go. exists h3, m2, ws3, desc, gs1. split_and!; [done..|].
  intros e He. destruct (Hdesc e) as (l & k & b & Hl & Hk2 & Hb2 & Hd).
  { rewrite Hes, !elem_of_cons. lia. }
  destruct (counted_held gs1 h2 m2 _ e l Hc2) as (k2 & Hk2' & _ & Hlv2); [by left|done|].
  destruct (counted_held gs1 h3 m2 _ e l Hc3) as (k3 & Hk3 & He3 & Hlv3); [by left|done|].
  exists l, k3, b. split_and!; try done.
  destruct (live_published gs1 l k3 Hlv3) as (b' & Hb' & Hpub).
  rewrite (same_PublicBytes gs1 l k2 k3 Hlv2 Hlv3) in Hb'. congruence.
Qed.

End MixKeys.

(** C29. The reference counts of mix keys are right.  Whatever the order in which
    keys are generated, pruned and dropped and workers start, update and end,
    nothing panics; every map of the node points to keys of the epochs it names,
    a key's count is the number of maps that hold it, keys that are held are as
    they were generated, and keys that nobody holds are wiped. *)
Theorem mix_keys_counted {N : Nike} {K : Kem} {B : Bloom} (bloomNew : nat -> outcome Filter)
    nikeGenerate kemGenerate nikeResetPriv nikeResetPub isNike os :
  (forall c, bloomNew c <> Panic) -> (forall c, nikeGenerate c <> Panic) ->
  (forall c, kemGenerate c <> Panic) -> (Z.of_nat (length os) < 2 ^ 31 - 3)%Z ->
  exists gs s, runOps bloomNew nikeGenerate kemGenerate nikeResetPriv nikeResetPub isNike node0 os = Ok s /\
    counted nikeGenerate kemGenerate nikeResetPriv gs (nd_heap s) (nd_keys s :: nd_workers s).
Proof.
  intros Hb Hn Hk Hl.
  eapply (runOps_counted bloomNew nikeGenerate kemGenerate nikeResetPriv nikeResetPub Hb Hn Hk isNike os []
    node0); [done|].
  apply counted_empty. split; [done|by intros m e l Hm%not_elem_of_nil|done..].
Qed.

(** What a node publishes is what its workers use.  When the workers' maps
    agree with the store and key generation works, a rotation that publishes for
    the current or the next epoch succeeds: the descriptor gets a key for each
    of the three epochs, which is the public key of the private key every worker
    now holds for that epoch, and the workers' maps agree with the store again. *)
Theorem rotation_consistent {N : Nike} {K : Kem} {B : Bloom} (bloomNew : nat -> outcome Filter)
    nikeGenerate kemGenerate nikeResetPriv nikeResetPub kemMarshal isNike calls publish now gs s :
  (forall c, exists f, bloomNew c = Ok f) ->
  (forall c, exists pk sk, nikeGenerate c = Ok (pk, sk)) -> (forall c, exists sk, kemGenerate c = Ok sk) ->
  (forall pk, exists b, kemMarshal pk = Ok b) ->
  counted nikeGenerate kemGenerate nikeResetPriv gs (nd_heap s) (nd_keys s :: nd_workers s) ->
  (Z.of_nat (length (nd_workers s)) < 2 ^ 31 - 3)%Z -> Forall (fun w => w = nd_keys s) (nd_workers s) ->
  (0 < now <= publish + 1)%Z -> (publish + 3 < 2 ^ 64)%Z -> (0 <= publish)%Z ->
  exists s' desc gs',
    rotateKeys bloomNew nikeGenerate kemGenerate nikeResetPriv nikeResetPub kemMarshal isNike calls
      publish now s = Ok (s', inl desc) /\
    counted nikeGenerate kemGenerate nikeResetPriv gs' (nd_heap s') (nd_keys s' :: nd_workers s') /\
    Forall (fun w => w = nd_keys s') (nd_workers s') /\
    forall e, (publish <= e < publish + 3)%Z -> exists l k b, nd_keys s' !! e = Some l /\
      nd_heap s' !! l = Some k /\ mk_epoch k = e /\ desc !! e = Some b /\
      published nikeGenerate kemGenerate kemMarshal k b.
Proof.
  intros Hb Hn Hk Hm Hc Hf Hsync Hnow Hp Hp0. destruct s as [h m ws].
  assert (Hgen : forall c e isNike, exists k, newMixKey bloomNew nikeGenerate kemGenerate c e isNike = Ok k).
  { intros c e []; unfold newMixKey; destruct (Hb c) as [f ->]; go.
    - destruct (Hn c) as (pk & sk & ->). go. eauto.
    - destruct (Hk c) as (sk & ->). go. eauto. }
  assert (Hb' : forall c, bloomNew c <> Panic) by (intros c; by destruct (Hb c) as [? ->]).
  assert (Hn' : forall c, nikeGenerate c <> Panic) by (intros c; by destruct (Hn c) as (? & ? & ->)).
  assert (Hk' : forall c, kemGenerate c <> Panic) by (intros c; by destruct (Hk c) as [? ->]).
  destruct (rotateKeys_ok bloomNew nikeGenerate kemGenerate nikeResetPriv nikeResetPub kemMarshal Hb' Hn' Hk'
    Hm Hgen isNike calls publish now gs h m ws Hc Hf Hsync Hnow Hp Hp0) as (h' & m' & ws' & desc & gs' & H).
  by exists (mkNode h' m' ws'), desc, gs'.
Qed.

(** ** Concrete instances *)

(** A filter that remembers everything, up to a limit. *)
#[export] Instance toyBloom : Bloom := {|
  Filter := list bytes;
  Entries f := Z.of_nat (length f);
  MaxEntries f := 1000%Z;
  TestAndSet f b := (bool_decide (b ∈ f), if bool_decide (b ∈ f) then f else b :: f);
|}.

#[export] Instance toyBloomLaws : BloomLaws toyBloom.
Proof.
  split; cbn; intros f b.
  - apply bool_decide_eq_true. case_bool_decide; [done|by left].
  - intros c Hb%bool_decide_eq_true. apply bool_decide_eq_true. case_bool_decide; [done|by right].
Qed.

Definition toyFilter (_ : nat) : outcome (Filter (Bloom := toyBloom)) := Ok [].
Definition toyNikeGen (c : nat) : outcome (nike_PublicKey (Nike := toyNike) * Z) :=
  Ok (nike_Public (Nike := toyNike) (Z.of_nat c), Z.of_nat c).
Definition toyKemGen (c : nat) : outcome (kem_PrivateKey (Kem := toyKem)) := Ok (Z.of_nat c).
Definition toyWipe (_ : Z) : Z := 0.
Definition toyWipePub (_ : nike_PublicKey (Nike := toyNike)) : nike_PublicKey (Nike := toyNike) := to_residue 0.
Definition toyMarshal (pk : kem_PublicKey (Kem := toyKem)) : outcome bytes := Ok [pk].

Definition toyOps : list keyOp :=
  [OpGenerate 0 7; OpNewWorker; OpNewWorker; OpGenerate 3 9; OpPrune 10; OpUpdateWorker 1; OpEndWorker 0].

Lemma mix_keys_counted_witness :
  exists gs s, runOps (N := toyNike) (K := toyKem) (B := toyBloom) toyFilter toyNikeGen toyKemGen toyWipe toyWipePub true node0
      toyOps = Ok s /\
    counted (N := toyNike) (K := toyKem) (B := toyBloom) toyNikeGen toyKemGen toyWipe gs (nd_heap s) (nd_keys s :: nd_workers s).
Proof.
  apply (mix_keys_counted (N := toyNike) (K := toyKem) (B := toyBloom) toyFilter toyNikeGen toyKemGen toyWipe toyWipePub true
    toyOps); done.
Defined.

Lemma rotation_consistent_witness :
  exists s' desc gs',
    rotateKeys (N := toyNike) (K := toyKem) (B := toyBloom) toyFilter toyNikeGen toyKemGen toyWipe toyWipePub toyMarshal true 0
      7 7 node0 = Ok (s', inl desc) /\
    counted (N := toyNike) (K := toyKem) (B := toyBloom) toyNikeGen toyKemGen toyWipe gs' (nd_heap s') (nd_keys s' :: nd_workers s') /\
    Forall (fun w => w = nd_keys s') (nd_workers s') /\
    forall e, (7 <= e < 7 + 3)%Z -> exists l k b, nd_keys s' !! e = Some l /\
      nd_heap s' !! l = Some k /\ mk_epoch k = e /\ desc !! e = Some b /\
      published (N := toyNike) (K := toyKem) (B := toyBloom) toyNikeGen toyKemGen toyMarshal k b.
Proof.
  apply (rotation_consistent (N := toyNike) (K := toyKem) (B := toyBloom) toyFilter toyNikeGen toyKemGen toyWipe toyWipePub
    toyMarshal true 0 7 7 [] node0); try (intros; by repeat eexists); try lia.
  apply counted_empty. split; [done|by intros m e l Hm%not_elem_of_nil|done..].
Defined.
