(* ===== verification/CryptoWorker.v ===== *)
(** The crypto worker of a mix node: [server/internal/cryptoworker/crypto_worker.go],
    with what the gateway and the service node do with the packets it hands them:
    [server/internal/gateway/gateway.go], [server/internal/service/service.go] and
    [server/internal/service/kaetzchen/kaetzchen.go].

    A worker takes a packet from the incoming queue, unwraps it with the keys of
    its shadow map, checks for replays and routes it.  Where a packet goes is the
    [action] the step returns; a dropped packet is disposed of.  The clock
    readings of a step are arguments. *)

From S2P Require Import Prelude Schemes ToySchemes SphinxGeo SphinxCommands SphinxCrypto SphinxPacket SphinxLayers SphinxJourney SphinxDelivery SphinxNike SphinxKem SphinxRobust SphinxWitness TimerQueue EpochTime MixPacket MixKeys.
From Stdlib Require Import ZArith Lia.
From stdpp Require Import prelude list strings gmap.

Local Open Scope Z_scope.

Definition gracePeriod : Z := 2 * minute.
Definition ms : Z := 1000000.
Definition absoluteMinimumDelay : Z := 1 * ms.

(** What the worker reads of the node's configuration and of its decoy. *)
Record NodeConfig := mkNodeConfig {
  cfg_IsGatewayNode : bool;
  cfg_IsServiceNode : bool;
  UnwrapDelay : Z;
  decoyRecipient : bytes;
}.

(** Where a packet goes. *)
Inductive action :=
  | ToScheduler (p : Packet)
  | ToDecoy (p : Packet)
  | ToGateway (p : Packet)
  | ToService (p : Packet)
  | Dropped.

Section Worker.

Context {N : Nike} {K : Kem} {S : SymPrims} {B : Bloom}.
Context (Period : Z) (s : Sphinx).

Abbreviation Heap := (list (@MixKey N K B)).

(** ** [doUnwrap] *)

(** The candidate keys: the current epoch's, and near its start or end the
    previous or the next one's. *)
Definition candidateKeys (w : gmap Z nat) (epoch elapsed till : Z) : outcome (list nat) :=
  match w !! epoch with
  | None => Err "crypto: No key for epoch"
  | Some l =>
    let other := if bool_decide (elapsed < gracePeriod) then w !! wrap 64 (epoch - 1)
                 else if bool_decide (till < gracePeriod) then w !! wrap 64 (epoch + 1)
                 else None in
    Ok (l :: match other with Some l' => [l'] | None => [] end)
  end.

(** The loop over the keys: the heap (the filters change), the packet (unwrapping
    is in place), and the error; a success also names the key and the tag under
    which the packet was accepted. *)
Fixpoint tryKeys (h : Heap) (pkt : Packet) (ls : list nat) (lastErr : option string)
    : outcome (Heap * Packet * ((nat * bytes) + string)) :=
  match ls with
  | [] => Ok (h, pkt, inr (default "BUG: crypto: Out of candidate keys for Unwrap(), no saved error"%string lastErr))
  | l :: ls =>
    k ← index h l;
    sk ← deref (PrivateKey k);
    r ← Unwrap s sk (Raw pkt);
    let pkt := set_Raw (uw_pkt r) pkt in
    match uw_err r with
    | Some e => tryKeys h pkt ls (Some e)
    | None =>
      match Packet_Set (uw_payload r) (uw_cmds r) pkt with
      | (pkt, Some e) => Ok (h, pkt, inr e)
      | (pkt, None) =>
        let tag := default [] (uw_replayTag r) in
        '(replay, k) ← IsReplay k tag;
        let h := <[l := k]> h in
        if (replay : bool) then Ok (h, pkt, inr "crypto: Packet is a replay"%string)
        else Ok (h, pkt, inl (l, tag))
      end
    end
  end.

Definition doUnwrap (h : Heap) (w : gmap Z nat) (now : Z) (pkt : Packet)
    : outcome (Heap * Packet * ((nat * bytes) + string)) :=
  '(epoch, elapsed, till) ← getEpoch Period now;
  match candidateKeys w epoch elapsed till with
  | Panic => Panic
  | Err e => Ok (h, pkt, inr e)
  | Ok keys => tryKeys h pkt keys None
  end.

(** ** [routePacket] *)

(** [ExpectReply] of the decoy. *)
Definition ExpectReply (cfg : NodeConfig) (pkt : Packet) : outcome bool :=
  r ← deref (pk_Recipient pkt); Ok (bool_decide (r = decoyRecipient cfg)).

Definition dispose (pkt : Packet) : outcome action := _ ← Dispose pkt; Ok Dropped.

(** [pkt.IsSURBReply() && ExpectReply(pkt)]. *)
Definition isDecoyReply (cfg : NodeConfig) (pkt : Packet) : outcome bool :=
  if IsSURBReply pkt then ExpectReply cfg pkt else Ok false.

(** The delay of a forward packet after the time it has spent in the queue;
    [None] means the packet is dropped. *)
Definition adjustDelay (delayMs dwellTime : Z) : option Z :=
  let delay := mulDuration delayMs ms in
  if bool_decide (int64 (NumMixKeys * Period) < delay) then None
  else if bool_decide (dwellTime < delay) then Some (int64 (delay - dwellTime))
  else if Z.eqb delayMs 0 then
    if bool_decide (dwellTime < absoluteMinimumDelay)
    then Some (int64 (absoluteMinimumDelay - dwellTime)) else None
  else Some absoluteMinimumDelay.

Definition routePacket (cfg : NodeConfig) (startAt : Z) (pkt : Packet) : outcome action :=
  let dwellTime := Sub startAt (RecvAt pkt) in
  if IsForward pkt then
    if negb (isNil (Payload pkt)) then dispose pkt
    else if MustTerminate pkt then dispose pkt
    else
      d ← deref (pk_NodeDelay pkt);
      match adjustDelay d dwellTime with
      | None => dispose pkt
      | Some delay => Ok (ToScheduler (set_Delay delay pkt))
      end
  else if negb (cfg_IsGatewayNode cfg) && negb (cfg_IsServiceNode cfg) then
    b ← isDecoyReply cfg pkt;
    if (b : bool) then Ok (ToDecoy pkt) else dispose pkt
  else if MustForward pkt then dispose pkt
  else
    b ← isDecoyReply cfg pkt;
    if (b : bool) then Ok (ToDecoy pkt)
    else if cfg_IsGatewayNode cfg then Ok (ToGateway (set_DispatchAt startAt pkt))
    else Ok (ToService (set_DispatchAt startAt pkt)).

(** One packet of the worker loop. *)
Definition workerStep (cfg : NodeConfig) (h : Heap) (w : gmap Z nat) (startAt now : Z) (pkt : Packet)
    : outcome (Heap * action) :=
  let unwrapSlack := mulDuration (UnwrapDelay cfg) ms in
  if bool_decide (unwrapSlack < Sub startAt (RecvAt pkt)) then
    a ← dispose pkt; Ok (h, a)
  else
    '(h, pkt, r) ← doUnwrap h w now pkt;
    match r with
    | inr _ => a ← dispose pkt; Ok (h, a)
    | inl _ => a ← routePacket cfg startAt pkt; Ok (h, a)
    end.

(** ** Replays *)

Context {BL : BloomLaws B}.
Context (bloomNew : nat -> outcome MixKeys.Filter)
        (nikeGenerate : nat -> outcome (nike_PublicKey * nike_PrivateKey))
        (kemGenerate : nat -> outcome kem_PrivateKey)
        (nikeResetPriv : nike_PrivateKey -> nike_PrivateKey)
        (nikeResetPub : nike_PublicKey -> nike_PublicKey).

(** What happens on a node: a worker unwraps a packet, or its keys change. *)
Inductive nodeEvent :=
  | EvPacket (worker : nat) (now : Z) (pkt : Packet)
  | EvKeys (o : keyOp).

(** The run of a node, with the keys and tags under which it accepted packets. *)
Fixpoint runNode (isNike : bool) (n : @Node N K B) (evs : list nodeEvent)
    : outcome (@Node N K B * list (nat * bytes)) :=
  match evs with
  | [] => Ok (n, [])
  | EvPacket i now pkt :: evs =>
    w ← index (nd_workers n) i;
    '(h, _, r) ← doUnwrap (nd_heap n) w now pkt;
    '(n', log) ← runNode isNike (mkNode h (nd_keys n) (nd_workers n)) evs;
    Ok (n', match r with inl a => a :: log | inr _ => log end)
  | EvKeys o :: evs =>
    n ← runOp bloomNew nikeGenerate kemGenerate nikeResetPriv nikeResetPub isNike n o;
    runNode isNike n evs
  end.

(** The filter of the key at [l] has seen [tag]. *)
Definition seen (h : Heap) (a : nat * bytes) : Prop :=
  exists k, h !! a.1 = Some k /\ fst (TestAndSet (mk_filter k) a.2) = true.

(** Later heaps have seen what earlier ones have. *)
Definition remembers (h h' : Heap) : Prop := forall a, seen h a -> seen h' a.

#[local] Instance remembers_preorder : PreOrder remembers.
Proof. split; [by intros h a|intros h1 h2 h3 H1 H2 a Ha; auto]. Qed.

(** Replacing a key by one with the same filter forgets nothing. *)
Lemma remembers_same h l k k' :
  h !! l = Some k -> mk_filter k' = mk_filter k -> remembers h (<[l := k']> h).
Proof.
  intros Hk Hf [l' tag] (k0 & Hk0 & Ht). cbn in *. destruct (decide (l' = l)) as [->|Hne].
  - exists k'. split; [apply list_lookup_insert_eq; by eapply lookup_lt_Some|]. cbn. congruence.
  - exists k0. split; [by rewrite list_lookup_insert_ne|done].
Qed.

Lemma remembers_set h l k tag :
  h !! l = Some k -> remembers h (<[l := set_bloom k (snd (TestAndSet (mk_filter k) tag))]> h).
Proof.
  intros Hk [l' tag'] (k0 & Hk0 & Ht). cbn in *. destruct (decide (l' = l)) as [->|Hne].
  - eexists. split; [apply list_lookup_insert_eq; by eapply lookup_lt_Some|]. cbn.
    apply bloom_mono. congruence.
  - exists k0. split; [by rewrite list_lookup_insert_ne|done].
Qed.

Lemma tryKeys_seen h pkt ls e h' pkt' r :
  tryKeys h pkt ls e = Ok (h', pkt', r) ->
  remembers h h' /\ forall a, r = inl a -> ~ seen h a /\ seen h' a.
Proof.
  revert pkt e. induction ls as [|l ls IH]; intros pkt e; cbn [tryKeys].
  { intros [= <- <- <-]. done. }
  intros H. go_inv H. go_inv H. go_inv H. destruct (uw_err _); [by eapply IH|].
  destruct (Packet_Set _ _ _) as [pkt1 [e1|]]; [by injection H as <- <- <-|].
  set (tag := default [] _) in H. unfold index in E. destruct (h !! l) as [k|] eqn:Hk; [|done].
  injection E as <-. unfold IsReplay in H. case_bool_decide; cbn [negb] in H.
  2: { injection H as <- <- <-. split; [|done]. by apply (remembers_same h l k). }
  case_bool_decide; [done|]. destruct (TestAndSet (mk_filter k) tag) as [b f] eqn:Hts.
  assert (Hf : f = snd (TestAndSet (mk_filter k) tag)) by (by rewrite Hts). 
  assert (Hlt : (l < length h)%nat) by (by eapply lookup_lt_Some).
  destruct b; injection H as <- <- <-; rewrite Hf; (split; [by apply remembers_set|]); [done|].
  intros a [= <-]. split.
  - intros (k0 & Hk0 & Ht). cbn in *. assert (k0 = k) as -> by congruence. by rewrite Hts in Ht.
  - eexists. split; [by apply list_lookup_insert_eq|]. cbn. apply bloom_set.
Qed.

Lemma doUnwrap_seen h w now pkt h' pkt' r :
  doUnwrap h w now pkt = Ok (h', pkt', r) ->
  remembers h h' /\ forall a, r = inl a -> ~ seen h a /\ seen h' a.
Proof.
  unfold doUnwrap. intros H. go_inv H. destruct v as [[epoch elapsed] till]. destruct (candidateKeys _ _ _ _) as [keys|e|]; [|by injection H as <- <- <-|done].
  by eapply tryKeys_seen.
Qed.

(** Key maintenance touches no filter. *)
Lemma Deref_remembers h l h' : Deref nikeResetPriv nikeResetPub h l = Ok h' -> remembers h h'.
Proof.
  unfold Deref, index. intros H. go_inv H. destruct (h !! l) as [k|] eqn:Hk; [|done]. injection E as <-.
  repeat (case_bool_decide; [try done|]); try done.
  all: assert (h' = _) as -> by (symmetry; injection H as H; exact H); by apply (remembers_same h l k).
Qed.

Lemma Ref_remembers (h : Heap) l h' : Ref h l = Ok h' -> remembers h h'.
Proof.
  unfold Ref, index. intros H. go_inv H. destruct (h !! l) as [k|] eqn:Hk; [|done]. injection E as <-.
  case_bool_decide; [done|]. injection H as <-. by apply (remembers_same h l k).
Qed.

Lemma app_remembers (h h2 : Heap) : remembers h (h ++ h2).
Proof. intros a (k & Hk & Ht). exists k. split; [by apply lookup_app_l_Some|done]. Qed.

Lemma dropKeys_remembers es h m h' m' :
  dropKeys nikeResetPriv nikeResetPub h m es = Ok (h', m') -> remembers h h'.
Proof.
  revert h m. induction es as [|e es IH]; intros h m; cbn [dropKeys]; [by intros [= <- <-]|].
  intros H. go_inv H. destruct v as [h1 m1]. etrans; [|by eapply IH]. unfold dropKey in E.
  destruct (m !! e); [|by injection E as <- <-]. go_inv E. injection E as <- <-. by eapply Deref_remembers.
Qed.

Lemma generateLoop_remembers isNike base es c h m did h' m' r :
  generateLoop bloomNew nikeGenerate kemGenerate nikeResetPriv nikeResetPub isNike c base h m did es
    = Ok (h', m', r) -> remembers h h'.
Proof.
  revert c h m did. induction es as [|e es IH]; intros c h m did; cbn [generateLoop]; [by intros [= <- <- <-]|].
  destruct (m !! e); [apply IH|]. destruct (newMixKey _ _ _ _ _ _) as [k|err|]; [| |done].
  - intros H. etrans; [apply app_remembers|by eapply IH].
  - intros H. go_inv H. destruct v as [h1 m1]. injection H as <- <- <-. by eapply dropKeys_remembers.
Qed.

Lemma Shadow_remembers (h : Heap) m dst h' dst' :
  Shadow nikeResetPriv nikeResetPub h m dst = Ok (h', dst') -> remembers h h'.
Proof.
  unfold Shadow. intros H. go_inv H. destruct v as [h1 d1]. etrans; [by eapply dropKeys_remembers|].
  clear E. revert h1 d1 H. induction (map_to_list m) as [|[e l] kvs IH]; intros h1 d1; cbn [addKeys];
    [by intros [= <- <-]|].
  destruct (d1 !! e); [apply IH|]. intros H. go_inv H. etrans; [by eapply Ref_remembers|by eapply IH].
Qed.

Lemma derefKeys_remembers ls h h' : derefKeys nikeResetPriv nikeResetPub h ls = Ok h' -> remembers h h'.
Proof.
  revert h. induction ls as [|l ls IH]; intros h; cbn [derefKeys]; [by intros [= <-]|].
  intros H. go_inv H. etrans; [by eapply Deref_remembers|by eapply IH].
Qed.

Lemma runOp_remembers isNike n o n' :
  runOp bloomNew nikeGenerate kemGenerate nikeResetPriv nikeResetPub isNike n o = Ok n' ->
  remembers (nd_heap n) (nd_heap n').
Proof.
  destruct o; unfold runOp, Generate, Prune, Halt; intros H.
  - go_inv H. destruct v as [[h m] r]. injection H as <-. by eapply generateLoop_remembers.
  - go_inv H. destruct v as [[h m] r]. injection H as <-. go_inv E. destruct v as [h1 m1].
    injection E as <- <- <-. by eapply dropKeys_remembers.
  - go_inv H. destruct v as [h w]. injection H as <-. by eapply Shadow_remembers.
  - destruct (nd_workers n !! i); [|by injection H as <-].
    go_inv H. destruct v as [h w]. injection H as <-. by eapply Shadow_remembers.
  - destruct (nd_workers n !! i); [|by injection H as <-].
    go_inv H. injection H as <-. by eapply derefKeys_remembers.
  - go_inv H. destruct v as [h m]. injection H as <-. by eapply dropKeys_remembers.
Qed.

Lemma runNode_log isNike evs n n' log :
  runNode isNike n evs = Ok (n', log) ->
  remembers (nd_heap n) (nd_heap n') /\ NoDup log /\ forall a, a ∈ log -> ~ seen (nd_heap n) a /\ seen (nd_heap n') a.
Proof.
  revert n n' log. induction evs as [|[i now pkt|o] evs IH]; intros n n' log; cbn [runNode].
  - intros [= <- <-]. split_and!; [done|constructor|]. by intros a Ha%not_elem_of_nil.
  - intros H. go_inv H. go_inv H. destruct v0 as [[h pkt'] r]. go_inv H. destruct v0 as [n1 log1].
    injection H as <- <-. destruct (IH _ _ _ E1) as (Hr & Hnd & Hin). cbn [nd_heap] in *.
    destruct (doUnwrap_seen _ _ _ _ _ _ _ E0) as [Hr0 Hacc].
    split_and!; [by etrans| |].
    + destruct r as [a|]; [|done]. apply NoDup_cons. split; [|done]. intros Ha%Hin. by destruct (Hacc a eq_refl), Ha.
    + intros a Ha. assert (Hcase : a ∈ log1 \/ r = inl a).
      { destruct r as [a'|]; [|by left]. apply elem_of_cons in Ha as [->|Ha]; [by right|by left]. }
      destruct Hcase as [Ha1| ->].
      * destruct (Hin a Ha1) as [Hns Hs]. split; [|done]. intros Hs0. by apply Hns, Hr0.
      * destruct (Hacc a eq_refl) as [Hns Hs]. split; [done|by apply Hr].
  - intros H. go_inv H. apply runOp_remembers in E. destruct (IH _ _ _ H) as (Hr & Hnd & Hin).
    split_and!; [by etrans|done|]. intros a Ha. destruct (Hin a Ha) as [Hns Hs]. split; [|done].
    intros Hs0. by apply Hns, E.
Qed.

End Worker.

(** C31. Replay protection.  In every run of a node, over any number of workers
    and with key rotation at any point, no two packets are accepted under the
    same key with the same replay tag. *)
Theorem no_replay_accepted {N : Nike} {K : Kem} {S : SymPrims} {B : Bloom} {BL : BloomLaws B} Period s
    (bloomNew : nat -> outcome MixKeys.Filter) nikeGenerate kemGenerate nikeResetPriv nikeResetPub
    isNike n evs n' log :
  runNode Period s bloomNew nikeGenerate kemGenerate nikeResetPriv nikeResetPub isNike n evs = Ok (n', log) ->
  NoDup log.
Proof. intros H. by eapply runNode_log. Qed.

(** ** A concrete node *)

Definition toyNow : Z := 1735689600 * second.
Definition toySphinx : Sphinx := mkSphinx true false toyGeo.
Definition toyMixKey : @MixKey toyNike toyKem toyBloom :=
  @mkMixKey toyNike toyKem toyBloom (Some 5) (Some (nike_Public (Nike := toyNike) 5)) None 199512 [] 2 true.
Definition toyNode : @Node toyNike toyKem toyBloom :=
  mkNode [toyMixKey] {[ 199512 := 0%nat ]} [ {[ 199512 := 0%nat ]} ].
Definition toyPkt : Packet := set_RecvAt toyNow (get newPacket (NewWithID newPacket toyPacket 1 toyGeo)).
Definition toyAccepted : nat * bytes := Eval vm_compute in (0%nat, default [] (uw_replayTag toyUnwrapped)).

Definition toyRun : outcome (@Node toyNike toyKem toyBloom * list (nat * bytes)) :=
  runNode defaultPeriod toySphinx toyFilter toyNikeGen toyKemGen toyWipe toyWipePub true toyNode
    [EvPacket 0 toyNow toyPkt; EvKeys (OpPrune 199512); EvPacket 0 toyNow toyPkt].

(** The first copy of a packet is accepted, the second is not. *)
Lemma no_replay_accepted_witness : snd <$> toyRun = Ok [toyAccepted] /\ NoDup [toyAccepted].
Proof.
  assert (H : snd <$> toyRun = Ok [toyAccepted]) by (vm_compute; reflexivity).
  split; [exact H|]. destruct toyRun as [[n' log]| |] eqn:E; [|discriminate H..].
  injection H as <-.
  exact (no_replay_accepted (N := toyNike) (K := toyKem) (B := toyBloom) _ _ _ _ _ _ _ _ _ _ _ _ E).
Defined.
