(* ===== verification/Scheduler.v ===== *)
(** The packet scheduler of a mix node, where the mixing happens:
    [server/internal/scheduler/scheduler.go] and [queue_mem.go].

    The scheduler works on a queue interface, [queueImpl]: here a class of
    operations with its laws, against which the worker is verified, and of which
    the memory queue, a priority queue with a capacity, is an instance.  A step
    of the worker is one round of its loop: the case of the [select] and the
    dispatch loop, with the clock readings as arguments.  Times are nanoseconds. *)

From S2P Require Import Prelude Schemes ToySchemes SphinxGeo SphinxCommands SphinxCrypto SphinxPacket SphinxWitness Queue TimerQueue EpochTime MixPacket MixKeys CryptoWorker.
From Stdlib Require Import ZArith Lia Sorting.Sorted.
From stdpp Require Import prelude list strings.

Local Open Scope Z_scope.

(** A time [UnixNano] and the unsigned priorities represent. *)
Definition clockTime (t : Z) : Prop := 0 <= t < 2 ^ 63.

(** ** The queue interface *)

(** [type queueImpl interface]; the clock and the random draws of a call are
    arguments. *)
Class queueImpl (Q : Type) := {
  q_Peek : Q -> option (Z * Packet);
  q_Pop : Q -> Q;
  q_BulkEnqueue : (nat -> nat -> nat) -> Z -> list Packet -> Q -> outcome Q;
}.

(** When a packet that is enqueued at [now] is due. *)
Definition dueAt (now : Z) (p : Packet) : Z * Packet := (now + Delay p, p).

(** What the scheduler relies on: a bag of due times and packets, of which
    [Peek] shows an earliest and [Pop] removes it; an implementation may discard
    packets when it is given more. *)
Class queueLaws (Q : Type) {I : queueImpl Q} := {
  contents : Q -> list (Z * Packet);
  wellFormed : Q -> Prop;
  peek_none q : wellFormed q -> q_Peek q = None -> contents q = [];
  peek_some q t p : wellFormed q -> q_Peek q = Some (t, p) ->
    wellFormed (q_Pop q) /\ contents q ≡ₚ (t, p) :: contents (q_Pop q) /\
    Forall (fun x => t <= x.1) (contents q);
  bulk_enqueue Intn now ps q : wellFormed q -> (forall k n, 0 < n -> Intn k n < n)%nat ->
    Forall (fun p => clockTime (now + Delay p)) ps -> Forall (fun p => is_Some (pk_Geometry p)) ps ->
    Forall (fun x => is_Some (pk_Geometry x.2)) (contents q) ->
    exists q' dropped, q_BulkEnqueue Intn now ps q = Ok q' /\ wellFormed q' /\
      contents q ++ map (dueAt now) ps ≡ₚ dropped ++ contents q';
}.

(** ** The worker *)

Definition microsecond : Z := 1000.
Definition maxInt64 : Z := 2 ^ 63 - 1.

(** What the worker reads of the node: configuration and the connector's table
    of peers. *)
Record SchedConfig := mkSchedConfig {
  SchedulerSlack : Z;
  SchedulerMaxBurst : Z;
  IsValidForwardDest : bytes -> bool;
}.

Section Scheduler.

Context {Q : Type} {I : queueImpl Q} (Period : Z) (cfg : SchedConfig).

Definition absoluteMaxDelay : Z := int64 (Period * NumMixKeys).

(** The state of the worker: the queue, the local [maxDelay] and the duration for
    which the timer is set. *)
Record sched := mkSched { sc_q : Q; maxDelay : Z; timer : Z }.

(** The packets of a batch that are enqueued. *)
Fixpoint admitted (maxDelay : Z) (batch : list Packet) : outcome (list Packet) :=
  match batch with
  | [] => Ok []
  | pkt :: batch =>
    if bool_decide (maxDelay < Delay pkt) then
      _ ← Dispose pkt; admitted maxDelay batch
    else
      '(id, _) ← deref (pk_NextNodeHop pkt);
      if IsValidForwardDest cfg id then
        rest ← admitted maxDelay batch; Ok (pkt :: rest)
      else _ ← Dispose pkt; admitted maxDelay batch
  end.

(** A packet that left the queue: when it was due, the clock, and the packet that
    went to the connector, if it was not dropped. *)
Record departure := mkDeparture { dp_due : Z; dp_now : Z; dp_pkt : Packet; dp_out : option Packet }.

(** The dispatch loop: the queue, the packets that left it, and the timer;
    [burst] is the number of packets the round may still take. *)
Fixpoint dispatch (burst : nat) (clock : nat -> Z) (k : nat) (q : Q) : outcome (Q * list departure * Z) :=
  match q_Peek q with
  | None => Ok (q, [], maxInt64)
  | Some (dispatchAt, pkt) =>
    let now := clock k in
    if bool_decide (now < dispatchAt) then Ok (q, [], Sub dispatchAt now)
    else
      match burst with
      | O => Ok (q, [], 1 * microsecond)
      | Datatypes.S burst =>
        let q := q_Pop q in
        d ← (if bool_decide (mulDuration (SchedulerSlack cfg) ms < Sub now dispatchAt) then
               _ ← Dispose pkt; Ok (mkDeparture dispatchAt now pkt None)
             else Ok (mkDeparture dispatchAt now pkt (Some (set_DispatchAt now pkt))));
        '(q, ds, t) ← dispatch burst clock (k + 1) q;
        Ok (q, d :: ds, t)
      end
  end.

(** The cases of the [select]. *)
Inductive schedEvent :=
  | GotBatch (now : Z) (Intn : nat -> nat -> nat) (batch : list Packet)
  | GotMaxDelay (newMaxDelay : Z)
  | TimerFired.

(** [OnNewMixMaxDelay]'s value, as the worker takes it. *)
Definition newDelay (newMaxDelay : Z) : Z :=
  let pkiMaxDelay := mulDuration newMaxDelay ms in
  if bool_decide (absoluteMaxDelay < pkiMaxDelay) || Z.eqb pkiMaxDelay 0 then absoluteMaxDelay else pkiMaxDelay.

(** One round of [worker]. *)
Definition schedStep (s : sched) (ev : schedEvent) (clock : nat -> Z) : outcome (sched * list departure) :=
  '(q, max) ← (match ev with
               | GotBatch now Intn batch =>
                 toEnqueue ← admitted (maxDelay s) batch;
                 q ← q_BulkEnqueue Intn now toEnqueue (sc_q s);
                 Ok (q, maxDelay s)
               | GotMaxDelay d => Ok (sc_q s, newDelay d)
               | TimerFired => Ok (sc_q s, maxDelay s)
               end);
  '(q, ds, t) ← dispatch (Z.to_nat (SchedulerMaxBurst cfg)) clock 0 q;
  Ok (mkSched q max t, ds).

Fixpoint schedRun (s : sched) (evs : list (schedEvent * (nat -> Z))) : outcome (sched * list departure) :=
  match evs with
  | [] => Ok (s, [])
  | (ev, clock) :: evs =>
    '(s, ds) ← schedStep s ev clock;
    '(s, ds') ← schedRun s evs;
    Ok (s, ds ++ ds')
  end.

(** ** What the worker guarantees *)

Context {L : queueLaws Q}.

Abbreviation slack := (mulDuration (SchedulerSlack cfg) ms).

(** The packet with the time it was due. *)
Definition wasDue (d : departure) : Z * Packet := (dp_due d, dp_pkt d).

(** A packet leaves when it is due, and it leaves the node unless it is late by
    more than the slack. *)
Definition timely (d : departure) : Prop :=
  dp_due d <= dp_now d /\
  match dp_out d with
  | Some p => p = set_DispatchAt (dp_now d) (dp_pkt d) /\ dp_now d - dp_due d <= slack
  | None => slack < dp_now d - dp_due d
  end.

(** The timer after a round that took [n] packets, with the last clock reading. *)
Definition armed (n burst : nat) (now : Z) (q : Q) (t : Z) : Prop :=
  (contents q = [] /\ t = maxInt64) \/
  (exists due p, (due, p) ∈ contents q /\ Forall (fun x => due <= x.1) (contents q) /\ now < due /\ t = due - now) \/
  (n = burst /\ t = microsecond).

(** Queued packets have a geometry, a representable due time and a bounded delay. *)
Definition queueable (x : Z * Packet) : Prop :=
  clockTime x.1 /\ is_Some (pk_Geometry x.2) /\ Delay x.2 <= absoluteMaxDelay.

Lemma dispatch_spec burst clock k q :
  (forall i, clockTime (clock i)) -> wellFormed q -> Forall queueable (contents q) ->
  exists q' ds t, dispatch burst clock k q = Ok (q', ds, t) /\ wellFormed q' /\
    contents q ≡ₚ map wasDue ds ++ contents q' /\ Forall timely ds /\ (length ds <= burst)%nat /\
    Sorted Z.le (map dp_due ds) /\ armed (length ds) burst (clock (k + length ds)%nat) q' t.
Proof.
  intros Hclock. revert k q. induction burst as [|burst IH]; intros k q Hq Hc; cbn [dispatch].
  all: destruct (q_Peek q) as [[due p]|] eqn:Hp.
  2,4: eexists q, [], _; split_and!; [reflexivity|done|done|constructor|cbn; lia|constructor|left;
    split; [by apply peek_none|done]].
  all: destruct (peek_some q due p Hq Hp) as (Hq' & Hperm & Hmin).
  all: assert (Hin : (due, p) ∈ contents q) by (rewrite Hperm; left).
  all: assert (Hqp : queueable (due, p)) by (rewrite Forall_forall in Hc; by apply Hc).
  all: destruct Hqp as (Hd & [g Hg] & _); cbn in Hd, Hg; specialize (Hclock k) as Hk; unfold clockTime in Hd, Hk.
  all: assert (Hsub : forall a b, clockTime a -> clockTime b -> Sub a b = a - b)
    by (intros; apply Sub_small; unfold clockTime, minDuration, maxDuration in *; lia).
  all: case_bool_decide as Hdue.
  1,3: eexists q, [], _; split_and!; [reflexivity|done|done|constructor|cbn; lia|constructor|right; left;
    exists due, p; rewrite Nat.add_0_r; split_and!; [done..|by apply Hsub]].
  { eexists q, [], _. split_and!; [reflexivity|done|done|constructor|done|constructor|by right; right]. }
  destruct (IH (k + 1)%nat (q_Pop q) Hq') as (q' & ds & t & Hrun & Hw & Hcon & Ht & Hl & Hs & Ha).
  { rewrite Hperm in Hc. by inversion Hc. }
  rewrite Hsub by done.
  set (d := mkDeparture due (clock k) p (if bool_decide (slack < clock k - due) then None
              else Some (set_DispatchAt (clock k) p))).
  eexists q', (d :: ds), t. split_and!; [|done| | |cbn; lia| |].
  - unfold Dispose, disposeRaw. rewrite Hg. cbn [deref]. go. subst d. destruct (bool_decide _); go; by rewrite Hrun.
  - by rewrite Hperm, Hcon.
  - constructor; [|done]. subst d. split; [cbn; lia|]. cbn. case_bool_decide; [done|]. split; [done|lia].
  - cbn. constructor; [done|]. destruct ds as [|d' ds]; [constructor|]. constructor. cbn.
    rewrite Hperm, Hcon in Hmin. rewrite Forall_forall in Hmin. apply (Hmin (wasDue d')). by right; left.
  - cbn [length]. unfold armed in *. rewrite Nat.add_succ_r, <- Nat.add_1_r, <- Nat.add_assoc, (Nat.add_comm _ 1), Nat.add_assoc.
    destruct Ha as [?|[?|[-> ?]]]; auto.
Qed.

(** A batch the crypto workers and agents can hand over at [now]. *)
Definition acceptable (now : Z) (p : Packet) : Prop :=
  clockTime (now + Delay p) /\ is_Some (pk_Geometry p) /\ is_Some (pk_NextNodeHop p).

Lemma admitted_spec max now batch :
  Forall (acceptable now) batch ->
  exists ps rejected, admitted max batch = Ok ps /\ batch ≡ₚ ps ++ rejected /\
    Forall (fun p => Delay p <= max /\ acceptable now p) ps.
Proof.
  induction 1 as [|p batch Hp _ (ps & rejected & IH & Hperm & Hps)]; cbn [admitted].
  { exists [], []. split_and!; done. }
  pose proof Hp as (_ & [g Hg] & [[id mac] Hn]). rewrite Hn. cbn [deref]. go.
  assert (HD : exists q, Dispose p = Ok q) by (unfold Dispose, disposeRaw; rewrite Hg; eexists; done).
  destruct HD as [q ->]. go. case_bool_decide as Hd; [|destruct (IsValidForwardDest cfg id)]; rewrite IH; go.
  - exists ps, (p :: rejected). split_and!; [done| |done]. rewrite Hperm. apply Permutation_middle.
  - exists (p :: ps), rejected. split_and!; [done|by rewrite Hperm|]. constructor; [split; [lia|done]|done].
  - exists ps, (p :: rejected). split_and!; [done| |done]. rewrite Hperm. apply Permutation_middle.
Qed.

(** An event as the node produces it. *)
Definition sane (ev : schedEvent * (nat -> Z)) : Prop :=
  (forall i, clockTime (ev.2 i)) /\
  match ev.1 with
  | GotBatch now Intn batch => (forall k n, 0 < n -> Intn k n < n)%nat /\ Forall (acceptable now) batch
  | _ => True
  end.

(** The packets of an event, with the times they are due. *)
Definition offer (ev : schedEvent) : list (Z * Packet) :=
  match ev with GotBatch now _ batch => map (dueAt now) batch | _ => [] end.

Record schedOk (s : sched) : Prop := {
  so_queue : wellFormed (sc_q s);
  so_contents : Forall queueable (contents (sc_q s));
  so_max : maxDelay s <= absoluteMaxDelay;
}.

Lemma newDelay_bound d : newDelay d <= absoluteMaxDelay.
Proof. unfold newDelay. case_bool_decide; cbn [orb]; [lia|]. destruct (Z.eqb_spec (mulDuration d ms) 0); lia. Qed.

Lemma queueable_perm (l l1 l2 : list (Z * Packet)) : Forall queueable l -> l ≡ₚ l1 ++ l2 -> Forall queueable l2.
Proof. intros H Hp. rewrite Hp in H. by apply Forall_app in H as [_ ?]. Qed.

Lemma schedStep_spec s ev clock :
  schedOk s -> sane (ev, clock) ->
  exists s' ds dropped, schedStep s ev clock = Ok (s', ds) /\ schedOk s' /\
    contents (sc_q s) ++ offer ev ≡ₚ map wasDue ds ++ dropped ++ contents (sc_q s') /\
    Forall timely ds /\ Forall (fun d => Delay (dp_pkt d) <= absoluteMaxDelay) ds /\
    Sorted Z.le (map dp_due ds) /\ (length ds <= Z.to_nat (SchedulerMaxBurst cfg))%nat /\
    armed (length ds) (Z.to_nat (SchedulerMaxBurst cfg)) (clock (length ds)) (sc_q s') (timer s').
Proof.
  intros [Hw Hc Hm] [Hclock Hev]. cbn in Hclock, Hev.
  assert (Hin : exists q max dropped, (match ev with
               | GotBatch now Intn batch =>
                 toEnqueue ← admitted (maxDelay s) batch;
                 q ← q_BulkEnqueue Intn now toEnqueue (sc_q s);
                 Ok (q, maxDelay s)
               | GotMaxDelay d => Ok (sc_q s, newDelay d)
               | TimerFired => Ok (sc_q s, maxDelay s)
               end) = Ok (q, max) /\ wellFormed q /\ max <= absoluteMaxDelay /\ Forall queueable (contents q) /\
               contents (sc_q s) ++ offer ev ≡ₚ dropped ++ contents q).
  { destruct ev as [now Intn batch|d|].
    - destruct Hev as [HI Hb]. destruct (admitted_spec (maxDelay s) now batch Hb) as (ps & rej & -> & Hperm & Hps). go.
      assert (Hps' : Forall queueable (map (dueAt now) ps)).
      { apply Forall_map. eapply Forall_impl; [exact Hps|]. intros p (Hd & Hct & Hg & _). split_and!; [done..|]. cbn. lia. }
      destruct (bulk_enqueue Intn now ps (sc_q s)) as (q' & dropped & -> & Hw' & Hcon); [done..| | | |].
      { eapply Forall_impl; [exact Hps|]. by intros p (_ & ? & _). }
      { eapply Forall_impl; [exact Hps|]. by intros p (_ & _ & ? & _). }
      { eapply Forall_impl; [exact Hc|]. by intros x (_ & ? & _). }
      go. exists q', (maxDelay s), (map (dueAt now) rej ++ dropped). split_and!; [done..| |].
      + eapply (queueable_perm _ dropped); [|exact Hcon]. by apply Forall_app.
      + cbn [offer]. rewrite Hperm, map_app, !app_assoc, (Permutation_app_comm _ (map (dueAt now) rej)).
        by rewrite <- !app_assoc, Hcon, app_assoc.
    - exists (sc_q s), (newDelay d), []. split_and!; [done..|apply newDelay_bound|done|by rewrite app_nil_r].
    - exists (sc_q s), (maxDelay s), []. split_and!; [done..|by rewrite app_nil_r]. }
  destruct Hin as (q & max & dropped & Hq & Hw' & Hmax & Hcq & Hcon). unfold schedStep. rewrite Hq. go.
  destruct (dispatch_spec (Z.to_nat (SchedulerMaxBurst cfg)) clock 0 q Hclock Hw' Hcq)
    as (q' & ds & t & -> & Hw'' & Hcon' & Ht & Hl & Hs & Ha). go.
  exists (mkSched q' max t), ds, dropped. split_and!; try done.
  - split; [done| |done]. by eapply queueable_perm.
  - cbn [sc_q]. rewrite Hcon, Hcon', !app_assoc. by rewrite (Permutation_app_comm dropped).
  - rewrite Hcon', Forall_app in Hcq. destruct Hcq as [Hcq _]. rewrite Forall_map in Hcq.
    eapply Forall_impl; [exact Hcq|]. by intros d (_ & _ & ?).
Qed.

Lemma schedRun_spec s evs :
  schedOk s -> Forall sane evs ->
  exists s' ds dropped, schedRun s evs = Ok (s', ds) /\ schedOk s' /\
    contents (sc_q s) ++ concat (map (fun ev => offer ev.1) evs) ≡ₚ map wasDue ds ++ dropped ++ contents (sc_q s') /\
    Forall timely ds /\ Forall (fun d => Delay (dp_pkt d) <= absoluteMaxDelay) ds.
Proof.
  intros Hs Hev. revert s Hs. induction Hev as [|[ev clock] evs He _ IH]; intros s Hs; cbn [schedRun map concat].
  { exists s, [], []. split_and!; [done..|by rewrite app_nil_r|done|done]. }
  destruct (schedStep_spec s ev clock Hs He) as (s1 & ds1 & dr1 & -> & Hs1 & Hc1 & Ht1 & Hd1 & _). go.
  destruct (IH s1 Hs1) as (s2 & ds2 & dr2 & -> & Hs2 & Hc2 & Ht2 & Hd2). go.
  exists s2, (ds1 ++ ds2), (dr1 ++ dr2). split_and!; [done..| | |]; [|by apply Forall_app..].
  cbn [fst]. rewrite app_assoc, Hc1, map_app. rewrite <- !app_assoc, Hc2.
  apply Permutation_app_head, Permutation_app_swap_app.
Qed.

End Scheduler.

(** ** The memory queue *)

Section MemoryQueue.

(** [SchedulerQueueSize]. *)
Context (SchedulerQueueSize : Z).

Abbreviation memoryQueue := (list (Entry Packet)).

Definition mq_Peek (q : memoryQueue) : option (Z * Packet) :=
  match Peek q with
  | None => None
  | Some e => Some (int64 (Priority e), Value e)
  end.

Definition mq_Pop (q : memoryQueue) : memoryQueue := snd (heap_Pop q).

(** [doEnqueue] with the draw of [DequeueRandom]. *)
Definition doEnqueue (Intn : nat -> nat) (prio : Z) (pkt : Packet) (q : memoryQueue) : outcome memoryQueue :=
  let q := Enqueue q (wrap 64 (int64 prio)) pkt in
  if bool_decide (0 < SchedulerQueueSize) && bool_decide (SchedulerQueueSize < Z.of_nat (Len q)) then
    '(e, q) ← DequeueRandom q (Intn (Len q));
    e ← deref e;
    _ ← Dispose (Value e);
    Ok q
  else Ok q.

Fixpoint mq_BulkEnqueue (Intn : nat -> nat -> nat) (k : nat) (now : Z) (batch : list Packet) (q : memoryQueue)
    : outcome memoryQueue :=
  match batch with
  | [] => Ok q
  | pkt :: batch =>
    q ← doEnqueue (Intn k) (EpochTime.Add now (Delay pkt)) pkt q;
    mq_BulkEnqueue Intn (k + 1) now batch q
  end.

#[local] Instance memoryQueue_impl : queueImpl memoryQueue := {
  q_Peek := mq_Peek;
  q_Pop := mq_Pop;
  q_BulkEnqueue Intn now batch q := mq_BulkEnqueue Intn 0 now batch q;
}.

(** The bag a memory queue holds, and what keeps it one: heap order, priorities
    that are times, and the capacity. *)
Definition mq_contents (q : memoryQueue) : list (Z * Packet) := map (fun e => (int64 (Priority e), Value e)) q.

Record mq_ok (q : memoryQueue) : Prop := {
  mq_heap : heap q;
  mq_times : Forall (fun e => clockTime (Priority e)) q;
  mq_capacity : 0 < SchedulerQueueSize -> Z.of_nat (length q) <= SchedulerQueueSize;
}.

Lemma mq_contents_perm q q' : q ≡ₚ q' -> mq_contents q ≡ₚ mq_contents q'.
Proof. intros H. unfold mq_contents. by rewrite H. Qed.

Lemma mq_peek_some q t p :
  mq_ok q -> mq_Peek q = Some (t, p) ->
  mq_ok (mq_Pop q) /\ mq_contents q ≡ₚ (t, p) :: mq_contents (mq_Pop q) /\ Forall (fun x => t <= x.1) (mq_contents q).
Proof.
  intros [Hh Ht Hcap] Hp. unfold mq_Peek in Hp. destruct (Peek q) as [e|] eqn:He; [|done]. injection Hp as <- <-.
  destruct (Dequeue_spec q e Hh He) as (q' & Hd & Hh' & Hperm).
  assert (Hpop : mq_Pop q = q').
  { unfold mq_Pop. unfold Dequeue in Hd. case_bool_decide as Hl; [by destruct q|]. by rewrite Hd. }
  rewrite Hpop. split_and!.
  - split; [done|by rewrite <- Hperm, Forall_cons in Ht; apply Ht|]. intros H%Hcap.
    apply Permutation_length in Hperm. cbn in Hperm. lia.
  - by rewrite <- (mq_contents_perm _ _ Hperm).
  - pose proof (Peek_min q e Hh He) as Hm. unfold mq_contents. apply Forall_map.
    assert (He' : clockTime (Priority e)) by (rewrite <- Hperm, Forall_cons in Ht; apply Ht).
    rewrite Forall_forall in *. intros x Hx. cbn. specialize (Ht x Hx). unfold clockTime in *.
    rewrite !int64_small by done. by apply Hm.
Qed.

Lemma doEnqueue_ok Intn prio p q :
  mq_ok q -> (forall n, 0 < n -> Intn n < n)%nat -> clockTime prio -> is_Some (pk_Geometry p) ->
  Forall (fun x => is_Some (pk_Geometry x.2)) (mq_contents q) ->
  exists q' dropped, doEnqueue Intn prio p q = Ok q' /\ mq_ok q' /\
    (prio, p) :: mq_contents q ≡ₚ dropped ++ mq_contents q'.
Proof.
  intros [Hh Ht Hcap] HI Hprio Hg Hgs. unfold doEnqueue, Enqueue. unfold clockTime in Hprio.
  rewrite (int64_small prio) by done. unfold wrap. rewrite Z.mod_small by lia.
  set (e := mkEntry p prio). destruct (heap_Push_spec q e Hh) as [Hh1 Hp1]. set (q1 := heap_Push q e) in *.
  assert (Hc1 : (prio, p) :: mq_contents q ≡ₚ mq_contents q1).
  { rewrite (mq_contents_perm _ _ Hp1). cbn. by rewrite int64_small. }
  assert (Ht1 : Forall (fun e => clockTime (Priority e)) q1) by (rewrite Hp1; by constructor).
  assert (Hl1 : length q1 = Datatypes.S (length q)) by (by rewrite Hp1).
  destruct (bool_decide (0 < SchedulerQueueSize) && bool_decide (SchedulerQueueSize < Z.of_nat (Len q1))) eqn:Hfull.
  - apply andb_true_iff in Hfull as [H1%bool_decide_eq_true H2%bool_decide_eq_true]. unfold Len in *.
    assert (Hdraw : (Intn (length q1) < length q1)%nat) by (apply HI; lia).
    unfold DequeueRandom, DequeueIndex, Len. rewrite !bool_decide_eq_false_2 by lia. rewrite Nat2Z.id.
    destruct (lookup_lt_is_Some_2 q1 _ Hdraw) as [x Hx].
    destruct (heap_Remove_spec q1 _ x Hh1 Hx) as (q2 & -> & Hh2 & Hp2). go. cbn [deref]. go.
    assert (Hgx : is_Some (pk_Geometry (Value x))).
    { assert (Hin : x ∈ e :: q) by (rewrite <- Hp1; by eapply list_elem_of_lookup_2).
      apply elem_of_cons in Hin as [->|Hin]; [done|]. unfold mq_contents in Hgs.
      rewrite Forall_map, Forall_forall in Hgs. by apply (Hgs x Hin). }
    destruct Hgx as [gx Hgx]. unfold Dispose, disposeRaw. rewrite Hgx. cbn [deref]. go.
    exists q2, (mq_contents [x]). split_and!; [done| |].
    + split; [done|by rewrite <- Hp2, Forall_cons in Ht1; apply Ht1|]. intros H%Hcap.
      apply Permutation_length in Hp2. cbn in Hp2. lia.
    + rewrite Hc1, <- (mq_contents_perm _ _ Hp2). done.
  - exists q1, []. split_and!; [done| |done]. split; [done..|]. intros H.
    rewrite bool_decide_eq_true_2 in Hfull by done. cbn [andb] in Hfull. apply bool_decide_eq_false in Hfull.
    unfold Len in Hfull. lia.
Qed.

Lemma mq_bulk_enqueue Intn now ps k q :
  mq_ok q -> (forall k n, 0 < n -> Intn k n < n)%nat ->
  Forall (fun p => clockTime (now + Delay p)) ps -> Forall (fun p => is_Some (pk_Geometry p)) ps ->
  Forall (fun x => is_Some (pk_Geometry x.2)) (mq_contents q) ->
  exists q' dropped, mq_BulkEnqueue Intn k now ps q = Ok q' /\ mq_ok q' /\
    mq_contents q ++ map (dueAt now) ps ≡ₚ dropped ++ mq_contents q'.
Proof.
  intros Hq HI. revert k q Hq. induction ps as [|p ps IH]; intros k q Hq Ht Hg Hgs; cbn [mq_BulkEnqueue map].
  { exists q, []. split_and!; [done..|]. by rewrite app_nil_r. }
  apply Forall_cons in Ht as [Ht Hts]. apply Forall_cons in Hg as [Hg Hg'].
  destruct (doEnqueue_ok (Intn k) (EpochTime.Add now (Delay p)) p q) as (q1 & d1 & -> & Hq1 & Hc1); [done|apply HI|done..|]. go.
  destruct (IH (k + 1)%nat q1 Hq1 Hts Hg') as (q2 & d2 & -> & Hq2 & Hc2).
  { assert (Hall : Forall (fun x => is_Some (pk_Geometry x.2)) (d1 ++ mq_contents q1))
      by (rewrite <- Hc1; by constructor). by apply Forall_app in Hall as [_ ?]. }
  exists q2, (d1 ++ d2). split_and!; [done..|].
  rewrite <- Permutation_middle. unfold EpochTime.Add in Hc1.
  change (dueAt now p :: mq_contents q ++ map (dueAt now) ps)
    with ((((now + Delay p)%Z, p) :: mq_contents q) ++ map (dueAt now) ps).
  by rewrite Hc1, <- !app_assoc, Hc2.
Qed.

(** The memory queue is a queue the scheduler can use. *)
#[local] Instance memoryQueue_laws : queueLaws memoryQueue.
Proof.
  refine {| contents := mq_contents; wellFormed := mq_ok |}.
  - intros q _ H. by destruct q.
  - intros q t p. apply mq_peek_some.
  - intros Intn now ps q. apply mq_bulk_enqueue.
Defined.

Lemma mq_new_ok : mq_ok Queue.New.
Proof. split; [intros i Hi; cbn in Hi; lia|constructor|cbn; lia]. Qed.

End MemoryQueue.

(** The state in which the worker starts with a memory queue. *)
Definition startSched (Period : Z) : @sched (list (Entry Packet)) :=
  mkSched Queue.New (absoluteMaxDelay Period) maxInt64.

Lemma startSched_ok size Period :
  schedOk (I := memoryQueue_impl size) (L := memoryQueue_laws size) Period (startSched Period).
Proof. split; [apply mq_new_ok|constructor|done]. Qed.

(** C37. Mixing.  From its start with a memory queue, whatever batches, delay
    limits and timer events reach it, the scheduler never fails; every packet it
    is given leaves the queue at most once, and not before the delay it came with
    has passed since it was enqueued; it goes to the next hop if that is no later
    than the slack, stamped with the time, and is dropped otherwise; no packet
    whose delay exceeds the absolute maximum is among them; and the queue never
    exceeds its capacity. *)
Theorem packets_mixed_in_time size Period cfg evs :
  Forall sane evs ->
  exists s ds dropped,
    schedRun (I := memoryQueue_impl size) Period cfg (startSched Period) evs = Ok (s, ds) /\
    concat (map (fun ev => offer ev.1) evs) ≡ₚ map wasDue ds ++ dropped ++ mq_contents (sc_q s) /\
    Forall (timely cfg) ds /\ Forall (fun d => Delay (dp_pkt d) <= absoluteMaxDelay Period) ds /\
    (0 < size -> Z.of_nat (length (sc_q s)) <= size).
Proof.
  intros Hev. destruct (schedRun_spec (I := memoryQueue_impl size) (L := memoryQueue_laws size) Period cfg _ evs
    (startSched_ok size Period) Hev) as (s & ds & dropped & Hrun & [Hw _ _] & Hc & Ht & Hd).
  exists s, ds, dropped. split_and!; try done. apply Hw.
Qed.

(** C38. The scheduler never sleeps over a packet.  After every round the timer is
    set for ever only if the queue is empty, and otherwise either for exactly the
    time until the earliest packet is due, or, when the round has taken as many
    packets as a burst may have, for a microsecond; within a round, packets leave
    in the order in which they are due. *)
Theorem scheduler_wakes_up size Period cfg evs ev clock s ds0 :
  Forall sane evs -> sane (ev, clock) ->
  schedRun (I := memoryQueue_impl size) Period cfg (startSched Period) evs = Ok (s, ds0) ->
  exists s' ds, schedStep (I := memoryQueue_impl size) Period cfg s ev clock = Ok (s', ds) /\
    armed (L := memoryQueue_laws size) (length ds) (Z.to_nat (SchedulerMaxBurst cfg)) (clock (length ds)) (sc_q s') (timer s') /\
    (length ds <= Z.to_nat (SchedulerMaxBurst cfg))%nat /\ Sorted Z.le (map dp_due ds).
Proof.
  intros Hevs Hev Hrun. destruct (schedRun_spec (I := memoryQueue_impl size) (L := memoryQueue_laws size) Period cfg _ evs
    (startSched_ok size Period) Hevs) as (s0 & ds1 & dropped & Hrun' & Hs & _).
  assert (s0 = s) as -> by congruence.
  destruct (schedStep_spec (I := memoryQueue_impl size) (L := memoryQueue_laws size) Period cfg s ev clock Hs Hev)
    as (s' & ds & dr & Hstep & _ & _ & _ & _ & Hsort & Hl & Ha). eauto 6.
Qed.

(** ** A concrete run *)

Definition schedPkt (id delay : Z) : Packet :=
  mkPacket (Some toyGeo) [] None (Some ([id], [])) (Some 0) None None id delay 0 0 false false.

(** Three packets for a queue of two, and the timer. *)
Definition schedEvents : list (schedEvent * (nat -> Z)) :=
  [(GotBatch 100 (fun _ n => n - 1)%nat [schedPkt 1 50; schedPkt 2 20; schedPkt 3 10], fun _ => 105);
   (TimerFired, fun _ => 125)].
Definition schedCfg : SchedConfig := mkSchedConfig 1 2 (fun _ => true).

Lemma schedEvents_sane : Forall sane schedEvents.
Proof.
  apply Forall_cons. split; [|apply Forall_singleton].
  - split; [intros i; unfold clockTime; cbn; lia|]. split; [intros k n Hn; cbn; lia|].
    repeat (apply Forall_cons; split; [split_and!; [unfold clockTime; cbn; lia|by eexists|by eexists]|]).
    by apply Forall_nil.
  - split; [|done]. intros i. unfold clockTime. cbn. lia.
Qed.

Lemma packets_mixed_in_time_witness :
  exists s ds dropped,
    schedRun (I := memoryQueue_impl 2) defaultPeriod schedCfg (startSched defaultPeriod) schedEvents = Ok (s, ds) /\
    concat (map (fun ev => offer ev.1) schedEvents) ≡ₚ map wasDue ds ++ dropped ++ mq_contents (sc_q s) /\
    Forall (timely schedCfg) ds /\ Forall (fun d => Delay (dp_pkt d) <= absoluteMaxDelay defaultPeriod) ds /\
    (0 < 2 -> Z.of_nat (length (sc_q s)) <= 2).
Proof. apply (packets_mixed_in_time 2 defaultPeriod schedCfg schedEvents). apply schedEvents_sane. Defined.

Example sched_run :
  (fun r => map wasDue (snd r)) <$>
    schedRun (I := memoryQueue_impl 2) defaultPeriod schedCfg (startSched defaultPeriod) schedEvents
  = Ok [(110, schedPkt 3 10)].
Proof. vm_compute. reflexivity. Qed.

Lemma scheduler_wakes_up_witness :
  exists s ds0 s' ds,
    schedRun (I := memoryQueue_impl 2) defaultPeriod schedCfg (startSched defaultPeriod) schedEvents = Ok (s, ds0) /\
    schedStep (I := memoryQueue_impl 2) defaultPeriod schedCfg s TimerFired (fun _ => 130) = Ok (s', ds) /\
    armed (L := memoryQueue_laws 2) (length ds) 2 130 (sc_q s') (timer s').
Proof.
  destruct (schedRun (I := memoryQueue_impl 2) defaultPeriod schedCfg (startSched defaultPeriod) schedEvents)
    as [[s ds0]| |] eqn:Hrun; [|vm_compute in Hrun; discriminate Hrun..].
  destruct (scheduler_wakes_up 2 defaultPeriod schedCfg schedEvents TimerFired (fun _ => 130) s ds0)
    as (s' & ds & Hs & Ha & _).
  - apply schedEvents_sane.
  - split; [|done]. intros i. unfold clockTime. cbn. lia.
  - exact Hrun.
  - exists s, ds0, s', ds. split_and!; [reflexivity|exact Hs|exact Ha].
Defined.
