(* ===== verification/NodeServices.v ===== *)
(** What gateways and service nodes do with packets that end at them:
    [server/internal/gateway/gateway.go], [server/internal/service/service.go],
    [server/internal/service/kaetzchen/kaetzchen.go], [echo.go] and the packet
    handling of [cbor_plugins.go].

    A step takes one packet from the channel of the component and returns what
    it does with it.  The spool, the agents and the WebTransport sessions are
    interfaces of the server: the step gets what they answer.  The packet
    structure and the identifier of a reply come from the allocator. *)

From S2P Require Import Prelude Schemes SphinxGeo SphinxCommands SphinxCrypto SphinxPacket TimerQueue EpochTime MixPacket MixKeys CryptoWorker.
From Stdlib Require Import ZArith Lia.
From stdpp Require Import prelude list strings gmap.

Local Open Scope Z_scope.

(** What a step does. *)
Inductive effect :=
  | StoreMessage (recipient msg : bytes)
  | StoreSURBReply (recipient surbID msg : bytes)
  | WebTransportReply (recipient msg : bytes)
  | Schedule (p : Packet)
  | OnKaetzchen (p : Packet)
  | OnPlugin (p : Packet).

Section Services.

Context {S : SymPrims} (nikeKnown kemKnown : string -> bool) (g : Geometry).

(** [pkt.Dispose()] after the effects of a step. *)
Definition andDispose (pkt : Packet) (es : list effect) : outcome (list effect) :=
  _ ← Dispose pkt; Ok es.

(** ** The gateway *)

(** [onSURBReply]; [wtReady] says whether the recipient has a WebTransport
    session whose channel accepts a reply. *)
Definition onSURBReply (wtReady : bytes -> bool) (pkt : Packet) (recipient : bytes)
    : outcome (list effect) :=
  let payload := default [] (Payload pkt) in
  if negb (bool_decide (length payload = (PayloadTagLength g + ForwardPayloadLength g)%nat)) then Ok []
  else
    let recipientKey := copy_into (zeros RecipientIDLength) recipient in
    if wtReady recipientKey then Ok [WebTransportReply recipientKey payload]
    else
      id ← deref (pk_SurbReply pkt);
      Ok [StoreSURBReply recipient id payload].

(** [onToUser]; [stored] says whether the spool stored the message. *)
Definition onToUser (stored : bool) (fromPool : Packet) (ackID : Z) (pkt : Packet) (recipient : bytes)
    : outcome (list effect) :=
  match ParseForwardPacket pkt with
  | Panic => Panic
  | Err _ => Ok []
  | Ok (ct, surb) =>
    if negb stored then Ok []
    else
      match surb with
      | None => Ok [StoreMessage recipient ct]
      | Some surb =>
        match MixPacket.NewPacketFromSURB nikeKnown kemKnown fromPool ackID surb [] g with
        | Panic => Panic
        | Err _ => Ok [StoreMessage recipient ct]
        | Ok ackPkt => Ok [StoreMessage recipient ct; Schedule ackPkt]
        end
      end
  end.

(** One packet of the gateway's [worker], at the time [now]. *)
Definition gatewayStep (GatewayDelay now : Z) (wtReady : bytes -> bool) (stored : bool)
    (fromPool : Packet) (ackID : Z) (pkt : Packet) : outcome (list effect) :=
  let maxDwell := mulDuration GatewayDelay ms in
  if bool_decide (maxDwell < Sub now (DispatchAt pkt)) then andDispose pkt []
  else
    recipient ← deref (pk_Recipient pkt);
    es ← (if IsSURBReply pkt then onSURBReply wtReady pkt recipient
          else onToUser stored fromPool ackID pkt recipient);
    andDispose pkt es.

(** ** The service node *)

(** One packet of the service node's [worker]; the recipients the built-in agents
    and the plugins serve are the keys of their maps. *)
Definition serviceStep (ServiceDelay now : Z) (kaetzchen plugins : gset bytes) (pkt : Packet)
    : outcome (list effect) :=
  let maxDwell := mulDuration ServiceDelay ms in
  if bool_decide (maxDwell < Sub now (DispatchAt pkt)) then andDispose pkt []
  else
    recipient ← deref (pk_Recipient pkt);
    if bool_decide (recipient ∈ kaetzchen) then
      if IsSURBReply pkt then andDispose pkt [] else Ok [OnKaetzchen pkt]
    else if bool_decide (recipient ∈ plugins) then
      if IsSURBReply pkt then andDispose pkt [] else Ok [OnPlugin pkt]
    else andDispose pkt [].

(** ** Built-in agents *)

Definition ErrNoResponse : string := "kaetzchen: message has no response".

(** [kaetzchenEcho.OnRequest]. *)
Definition Echo_OnRequest (payload : bytes) (hasSURB : bool) : outcome bytes :=
  if negb hasSURB then Err ErrNoResponse else Ok payload.

(** [processKaetzchen], for the agent the recipient names, if any. *)
Definition processKaetzchen (agents : bytes -> option (bytes -> bool -> outcome bytes)) (now : Z)
    (fromPool : Packet) (respID : Z) (pkt : Packet) : outcome (list effect) :=
  match ParseForwardPacket pkt with
  | Panic => Panic
  | Err _ => andDispose pkt []
  | Ok (payload, surb) =>
    recipient ← deref (pk_Recipient pkt);
    match agents recipient with
    | None => andDispose pkt []
    | Some onRequest =>
      match onRequest payload (negb (isNil surb)) with
      | Panic => Panic
      | Err _ => andDispose pkt []
      | Ok resp =>
        match surb with
        | None => andDispose pkt []
        | Some surb =>
          match MixPacket.NewPacketFromSURB nikeKnown kemKnown fromPool respID surb resp g with
          | Panic => Panic
          | Err _ => andDispose pkt []
          | Ok respPkt =>
            let delay := NewDelay now pkt in
            let respPkt := set_cmds (pk_NextNodeHop respPkt) (Some (wrap 32 delay)) (pk_Recipient respPkt)
                             (pk_SurbReply respPkt) respPkt in
            andDispose pkt [Schedule (set_Delay delay respPkt)]
          end
        end
      end
    end
  end.

(** ** Plugins *)

(** [cborplugin.Request], as [processKaetzchen] of the plugins fills it. *)
Record PluginRequest := mkPluginRequest {
  req_ID : Z;
  req_RequestAt : Z;
  req_Delay : Z;
  req_Payload : bytes;
  req_SURB : option bytes;
}.

Definition pluginRequest (now : Z) (pkt : Packet) : outcome (option PluginRequest) :=
  match ParseForwardPacket pkt with
  | Panic => Panic
  | Err _ => Ok None
  | Ok (payload, surb) => Ok (Some (mkPluginRequest (pk_ID pkt) now (Delay pkt) payload surb))
  end.

(** The case of [sendworker] for a response: the reply to schedule, if any. *)
Definition pluginResponse (fromPool : Packet) (respID now RequestAt delay : Z) (surb payload : bytes)
    : outcome (option Packet) :=
  if bool_decide (UserForwardPayloadLength g < length payload)%nat then Ok None
  else if bool_decide (length surb = SURBLength g) then
    match MixPacket.NewPacketFromSURB nikeKnown kemKnown fromPool respID surb payload g with
    | Panic => Panic
    | Err _ => Ok None
    | Ok respPkt =>
      let delay := int64 (delay - Sub now RequestAt) in
      Ok (Some (set_Delay (if bool_decide (delay < 0) then 0 else delay) respPkt))
    end
  else Ok None.

End Services.
