(* ===== verification/Incoming.v ===== *)
(** Packets and requests that reach a node: the command handlers of
    [server/internal/incoming/incoming_conn.go] other than the consensus ones,
    and the packet injection of [webtransport.go].

    The rate limit is a token bucket on the connection.  The spool is an
    interface of the server: a handler gets what [Get] answered.  Times are
    nanoseconds. *)

From S2P Require Import Prelude Schemes ToySchemes SphinxGeo SphinxCommands SphinxCrypto SphinxPacket SphinxWitness TimerQueue EpochTime MixPacket MixKeys CryptoWorker.
From Stdlib Require Import ZArith Lia.
From stdpp Require Import prelude list strings.

Local Open Scope Z_scope.

(** The fields of [type incomingConn struct] the handlers read. *)
Record incomingConn := mkConn {
  fromClient : bool;
  retrSeq : Z;
  sendTokens : Z;
  maxSendTokens : Z;
  sendTokenIncr : Z;
  sendTokenLast : Z;
}.

Definition set_bucket (tokens last : Z) (c : incomingConn) : incomingConn :=
  mkConn (fromClient c) (retrSeq c) tokens (maxSendTokens c) (sendTokenIncr c) last.
Definition set_retrSeq (n : Z) (c : incomingConn) : incomingConn :=
  mkConn (fromClient c) n (sendTokens c) (maxSendTokens c) (sendTokenIncr c) (sendTokenLast c).

(** ** [onSendPacket] *)

(** The tokens for the time the connection was idle. *)
Definition refill (now : Z) (c : incomingConn) : incomingConn :=
  let deltaT := Sub now (sendTokenLast c) in
  let incrCount := wrap 64 (Z.quot deltaT (sendTokenIncr c)) in
  if bool_decide (0 < incrCount) then
    let tokens := wrap 64 (sendTokens c + incrCount) in
    set_bucket (if bool_decide (maxSendTokens c < tokens) then maxSendTokens c else tokens)
      (EpochTime.Add (sendTokenLast c) (mulDuration (sendTokenIncr c) (int64 incrCount))) c
  else c.

(** The token bucket: whether the packet may pass, and the bucket after it. *)
Definition takeToken (now : Z) (c : incomingConn) : bool * incomingConn :=
  if fromClient c && negb (Z.eqb (sendTokenIncr c) 0) then
    let c := refill now c in
    if Z.eqb (sendTokens c) 0 then (false, c)
    else (true, set_bucket (wrap 64 (sendTokens c - 1)) (sendTokenLast c) c)
  else (true, c).

(** The packet for the crypto workers, [None] when it is dropped; [now] is the
    clock at the rate limit, [recvAt] when the packet is handed off. *)
Definition onSendPacket (isServiceNode : bool) (g : Geometry) (fromPool : Packet) (id now recvAt : Z)
    (raw : bytes) (c : incomingConn) : outcome (option Packet * incomingConn) :=
  pkt ← NewWithID fromPool raw id g;
  let pkt := set_flags (fromClient c) (isServiceNode && negb (fromClient c)) pkt in
  let '(ok, c) := takeToken now c in
  if (ok : bool) then Ok (Some (set_RecvAt recvAt pkt), c)
  else _ ← Dispose pkt; Ok (None, c).

(** [injectClientPacket] of the WebTransport listener. *)
Definition injectClientPacket (g : Geometry) (fromPool : Packet) (id recvAt : Z) (raw : bytes)
    : outcome Packet :=
  pkt ← NewWithID fromPool raw id g;
  Ok (set_RecvAt recvAt (set_flags true (MustTerminate pkt) pkt)).

(** ** [onSendRetrievePacket] *)

(** What the spool's [Get] answers: message, SURB identifier, remaining count. *)
Record spooled := mkSpooled { sp_msg : option bytes; sp_surbID : option bytes; sp_remaining : Z }.

(** The packet for the crypto workers, and the identifier and payload of the
    [SendRetrievePacketReply]. *)
Definition onSendRetrievePacket (g : Geometry) (fromPool : Packet) (id : Z) (raw : bytes)
    (got : outcome spooled) : outcome (Packet * outcome (bytes * bytes)) :=
  pkt ← NewWithID fromPool raw id g;
  Ok (pkt, got ← got;
           Ok (copy_into (zeros SURBIDLength) (default [] (sp_surbID got)), default [] (sp_msg got))).

(** ** [onRetrieveMessage] *)

Inductive retrieved :=
  | RespMessageACK (hint sequence : Z) (id payload : bytes)
  | RespMessage (hint sequence : Z) (payload : bytes)
  | RespMessageEmpty (sequence : Z).

(** The argument [get] is the spool's [Get] for the value of [advance]. *)
Definition onRetrieveMessage (g : Geometry) (get : bool -> outcome spooled) (sequence : Z) (c : incomingConn)
    : incomingConn * outcome retrieved :=
  let answer advance :=
    got ← get advance;
    let hint := wrap 8 (if bool_decide (255 < sp_remaining got) then 255 else sp_remaining got) in
    match sp_surbID got with
    | Some id =>
      let msg := default [] (sp_msg got) in
      if negb (bool_decide (length msg = (PayloadTagLength g + ForwardPayloadLength g)%nat))
      then Err "stored SURBReply payload is mis-sized"
      else Ok (RespMessageACK hint sequence (copy_into (zeros SURBIDLength) id) msg)
    | None =>
      match sp_msg got with
      | Some msg =>
        if negb (bool_decide (length msg = UserForwardPayloadLength g))
        then Err "stored user payload is mis-sized"
        else Ok (RespMessage hint sequence msg)
      | None => Ok (RespMessageEmpty sequence)
      end
    end in
  if Z.eqb sequence (retrSeq c) then (c, answer false)
  else if Z.eqb sequence (wrap 32 (retrSeq c + 1)) then (set_retrSeq (wrap 32 (retrSeq c + 1)) c, answer true)
  else (c, Err "provider: RetrieveMessage out of sequence").

(** ** The rate limit *)

(** Packets a client sends at given times, and how many pass. *)
Fixpoint passed (times : list Z) (c : incomingConn) : nat * incomingConn :=
  match times with
  | [] => (0%nat, c)
  | t :: times =>
    let '(ok, c) := takeToken t c in
    let '(n, c) := passed times c in
    ((if (ok : bool) then 1 else 0) + n, c)%nat
  end.

(** A limited connection whose bucket holds at most its maximum. *)
Record limited (c : incomingConn) : Prop := {
  lm_client : fromClient c = true;
  lm_incr : 0 < sendTokenIncr c;
  lm_tokens : 0 <= sendTokens c <= maxSendTokens c;
  lm_max : maxSendTokens c < 2 ^ 62;
}.

(** [k] tokens have come up since the bucket was last filled. *)
Definition due (c : incomingConn) (t k : Z) : Prop :=
  0 <= k /\ k * sendTokenIncr c <= t - sendTokenLast c < (k + 1) * sendTokenIncr c.

Lemma refill_limited t c :
  limited c -> sendTokenLast c <= t < sendTokenLast c + 2 ^ 62 ->
  exists k, due c t k /\
    refill t c = set_bucket (Z.min (maxSendTokens c) (sendTokens c + k))
                   (sendTokenLast c + k * sendTokenIncr c) c.
Proof.
  intros [Hc Hi Ht Hm] Htime. set (k := (t - sendTokenLast c) / sendTokenIncr c).
  assert (Hdiv := Z.div_mod (t - sendTokenLast c) (sendTokenIncr c) ltac:(lia)). fold k in Hdiv.
  assert (Hmod := Z.mod_pos_bound (t - sendTokenLast c) (sendTokenIncr c) Hi).
  assert (Hk : 0 <= k) by (apply Z.div_pos; lia). assert (Hk2 : k <= t - sendTokenLast c) by nia.
  exists k. split; [unfold due; lia|]. unfold refill.
  rewrite Sub_small by (unfold minDuration, maxDuration; lia).
  rewrite Z.quot_div_nonneg by lia. fold k. cbv zeta. unfold wrap. rewrite (Z.mod_small k) by lia.
  case_bool_decide as Hpos.
  - rewrite (int64_small k), (Z.mod_small (sendTokens c + k)), mulDuration_small by nia.
    unfold EpochTime.Add. f_equal; [case_bool_decide; lia|lia].
  - assert (k = 0) as -> by lia. rewrite Z.add_0_r, Z.mul_0_l, Z.add_0_r, Z.min_r by lia. by destruct c.
Qed.

Lemma takeToken_limited t c :
  limited c -> sendTokenLast c <= t < sendTokenLast c + 2 ^ 62 ->
  exists k, due c t k /\
    let '(ok, c') := takeToken t c in
    sendTokenLast c' = sendTokenLast c + k * sendTokenIncr c /\ limited c' /\
    sendTokenIncr c' = sendTokenIncr c /\ maxSendTokens c' = maxSendTokens c /\
    sendTokens c' + (if ok then 1 else 0) = Z.min (maxSendTokens c) (sendTokens c + k).
Proof.
  intros Hl Htime. destruct (refill_limited t c Hl Htime) as (k & Hk & Hr). exists k. split; [done|].
  destruct Hl as [Hc Hi Ht Hm], Hk as [Hk _].
  unfold takeToken. rewrite Hc, Hr, (proj2 (Z.eqb_neq _ _)) by lia. cbn [andb negb]. cbv zeta.
  cbn [set_bucket sendTokens sendTokenLast].
  destruct (Z.eqb_spec (Z.min (maxSendTokens c) (sendTokens c + k)) 0) as [Hz|Hz].
  - split_and!; [done| |done..|cbn; lia]. split; cbn; [done|done|lia|done].
  - unfold wrap. rewrite Z.mod_small by lia. split_and!; [done| |done..|cbn; lia].
    split; cbn; [done|done|lia|done].
Qed.

(** The times of a run never go back and stay within reach of the clock. *)
Fixpoint advancing (last : Z) (times : list Z) : Prop :=
  match times with
  | [] => True
  | t :: times => last <= t < last + 2 ^ 61 /\ advancing t times
  end.

(** Conservation: what passed and what is left came from the bucket and from the
    time that went by. *)
Lemma passed_bound times c start :
  limited c -> sendTokenLast c <= start < sendTokenLast c + sendTokenIncr c ->
  sendTokenIncr c < 2 ^ 60 -> advancing start times ->
  let '(n, c') := passed times c in
  Z.of_nat n + sendTokens c' <= sendTokens c + (default start (last times) - sendTokenLast c) / sendTokenIncr c.
Proof.
  revert c start. induction times as [|t times IH]; intros c start Hl Hlast Hinc Hadv.
  { cbn. pose proof (Z.div_pos (start - sendTokenLast c) (sendTokenIncr c)). destruct Hl. lia. }
  destruct Hadv as [Ht Hadv]. cbn [passed].
  destruct (takeToken_limited t c Hl) as (k & [Hk1 Hk2] & Htk); [lia|].
  destruct (takeToken t c) as [ok c1]. destruct Htk as (Hlast1 & Hl1 & Hi1 & Hm1 & Htok).
  specialize (IH c1 t Hl1). rewrite Hi1, Hlast1 in IH. destruct (passed times c1) as [n c2].
  specialize (IH ltac:(lia) Hinc Hadv).
  assert (Hlt : last (t :: times) = Some (default t (last times))) by (rewrite last_cons; by destruct (last times)).
  rewrite Hlt. cbn [default from_option] in *.
  replace (default t (last times) - (sendTokenLast c + k * sendTokenIncr c)) with
    (default t (last times) - sendTokenLast c + (- k) * sendTokenIncr c) in IH by lia.
  rewrite Z.div_add in IH by (destruct Hl; lia). 
  change (id (default t (last times))) with (default t (last times)).
  set (q := (default t (last times) - sendTokenLast c) / sendTokenIncr c) in *.
  destruct ok; cbn [Nat.add]; rewrite ?Nat2Z.inj_succ; lia.
Qed.

(** The rate limit holds.  Of the packets a client sends at times [times]
    over a limited connection, at most as many pass as the bucket held plus one
    per token interval that went by, and the bucket never exceeds its maximum. *)
Theorem rate_limited times c start :
  limited c -> sendTokenLast c <= start < sendTokenLast c + sendTokenIncr c ->
  sendTokenIncr c < 2 ^ 60 -> advancing start times ->
  Z.of_nat (fst (passed times c)) <=
    sendTokens c + (default start (last times) - sendTokenLast c) / sendTokenIncr c /\
  0 <= sendTokens (snd (passed times c)) <= maxSendTokens c.
Proof.
  intros Hl Hs Hi Ha. pose proof (passed_bound times c start Hl Hs Hi Ha) as H.
  assert (Hb : 0 <= sendTokens (snd (passed times c)) <= maxSendTokens c).
  { clear H. revert c start Hl Hs Hi Ha. induction times as [|t times IH]; intros c start Hl Hs Hi Ha; [apply Hl|].
    destruct Ha as [Ht Ha]. cbn [passed]. destruct (takeToken_limited t c Hl) as (k & [Hk1 Hk2] & Htk); [lia|].
    destruct (takeToken t c) as [ok c1]. destruct Htk as (Hlast1 & Hl1 & Hi1 & Hm1 & Htok).
    specialize (IH c1 t Hl1). destruct (passed times c1) as [n c2]. rewrite <- Hm1. apply IH; [|by rewrite Hi1|done].
    rewrite Hlast1, Hi1. lia. }
  split; [|done]. destruct (passed times c) as [n c']. cbn in *. lia.
Qed.

(** A packet that comes with [SendRetrievePacket] never enters the mix
    network: the handler leaves its reception time unset, so that the crypto
    worker sees a packet older than any limit and drops it. *)
Theorem send_retrieve_dropped {N : Nike} {K : Kem} {S : SymPrims} {B : Bloom} Period s cfg
    (h : list MixKey) w g fromPool id raw got pkt reply startAt now :
  pooled fromPool -> onSendRetrievePacket g fromPool id raw got = Ok (pkt, reply) ->
  Epoch <= startAt < 2 ^ 63 -> 0 <= UnwrapDelay cfg < 2 ^ 43 ->
  workerStep Period s cfg h w startAt now pkt = Ok (h, Dropped).
Proof.
  intros Hp Hr Hs Hu. unfold onSendRetrievePacket, NewWithID in Hr. go_inv Hr.
  assert (Hpkt : RecvAt pkt = zeroTime /\ pk_Geometry pkt = Some g).
  { injection Hr as <- _. set (p0 := mkPacket _ _ _ _ _ _ _ _ _ _ _ _ _) in E.
    assert (Hz : RecvAt fromPool = zeroTime).
    { destruct Hp as [->|[q Hq]]; [done|]. unfold Dispose in Hq. go_inv Hq. injection Hq as <-. done. }
    unfold copyToRaw in E. cbn [pk_Geometry p0 deref] in E. revert E. go.
    case_bool_decide; cbn [negb]; [|by intros E; go_inv E]. case_bool_decide; cbn [negb]; [|done].
    intros E. injection E as <-. by split. }
  destruct Hpkt as [Hrecv Hg]. unfold workerStep. rewrite Hrecv.
  rewrite bool_decide_eq_true_2.
  - unfold dispose, Dispose, disposeRaw. rewrite Hg. done.
  - assert (Hu' : mulDuration (UnwrapDelay cfg) ms = UnwrapDelay cfg * ms) by (apply mulDuration_small; unfold ms; lia).
    rewrite Hu'. unfold Sub. rewrite bool_decide_eq_true_2; unfold maxDuration, zeroTime, Epoch, second, ms in *; lia.
Qed.

(** ** Concrete instances *)

(** A bucket of at most four tokens, one every 100 ms. *)
Definition toyConn : incomingConn := mkConn true 0 1 4 (100 * ms) toyNow.
Definition toyTimes : list Z := [toyNow; toyNow + 1; toyNow + 250 * ms; toyNow + 251 * ms].

Lemma rate_limited_witness :
  Z.of_nat (fst (passed toyTimes toyConn)) <= 1 + (default toyNow (last toyTimes) - toyNow) / (100 * ms) /\
  0 <= sendTokens (snd (passed toyTimes toyConn)) <= 4.
Proof.
  apply (rate_limited toyTimes toyConn toyNow).
  - split; cbn; unfold ms; lia.
  - cbn. unfold ms. lia.
  - reflexivity.
  - unfold toyTimes, advancing, ms. lia.
Defined.

Definition toyConfig : NodeConfig := mkNodeConfig true false 250 (zeros 32).
Definition toySpooled : spooled := mkSpooled None None 0.

Lemma send_retrieve_dropped_witness :
  workerStep defaultPeriod toySphinx toyConfig (nd_heap toyNode) {[ 199512 := 0%nat ]} toyNow toyNow
    (get newPacket (fst <$> onSendRetrievePacket toyGeo newPacket 1 toyPacket (Ok toySpooled)))
  = Ok (nd_heap toyNode, Dropped).
Proof.
  apply (send_retrieve_dropped (N := toyNike) (K := toyKem) (B := toyBloom) defaultPeriod toySphinx toyConfig
    (nd_heap toyNode) {[ 199512 := 0%nat ]} toyGeo newPacket 1 toyPacket (Ok toySpooled) _ (Ok (zeros 16, [])) toyNow toyNow).
  - by left.
  - vm_compute. reflexivity.
  - split; vm_compute; [discriminate|reflexivity].
  - split; vm_compute; [discriminate|reflexivity].
Defined.
