(* ===== verification/MixRelay.v ===== *)
(** A packet on its way through real nodes.

    [SphinxJourney.travel] hands a packet from one unwrap function to the next.
    Here every hop is a node: the connection handler [onSendPacket] allocates
    and flags the packet, the crypto worker unwraps it with the keys of its map,
    checks for replays and routes it, and a forwarded packet's raw bytes reach
    the next node.  A node that is ready for the packet does exactly what the
    route says. *)

From S2P Require Import Prelude Schemes ToySchemes SphinxGeo SphinxCommands SphinxCrypto SphinxPacket SphinxLayers SphinxJourney SphinxDelivery SphinxNike SphinxKem SphinxRobust SphinxWitness TimerQueue EpochTime PkiDocument PathSelect MixPacket MixKeys CryptoWorker NodeServices Incoming.
From Stdlib Require Import ZArith Lia.
From stdpp Require Import prelude list strings gmap.

Local Open Scope Z_scope.

Section Relay.

Context {N : Nike} {NL : NikeLaws N} {K : Kem} {S : SymPrims} {SL : SymPrimsLaws S} {B : Bloom}.
Context (Period : Z) (g : Geometry).

(** A node as a packet meets it: its configuration, the connection the packet
    comes over, the structure the packet pool hands out, its keys, and the clock
    when the packet is received, taken from the queue and unwrapped. *)
Record relayNode := mkRelay {
  rn_cfg : NodeConfig;
  rn_conn : incomingConn;
  rn_pool : Packet;
  rn_id : Z;
  rn_heap : list (@MixKey N K B);
  rn_map : gmap Z nat;
  rn_recv : Z;
  rn_start : Z;
  rn_now : Z;
}.

(** Reception and the crypto worker. *)
Definition hopStep (n : relayNode) (raw : bytes) : outcome action :=
  '(pkt, _) ← onSendPacket (cfg_IsServiceNode (rn_cfg n)) g (rn_pool n) (rn_id n) (rn_recv n) (rn_recv n)
                raw (rn_conn n);
  match pkt with
  | None => Ok Dropped
  | Some pkt =>
    '(_, a) ← workerStep Period (mkSphinx true false g) (rn_cfg n) (rn_heap n) (rn_map n) (rn_start n)
                (rn_now n) pkt;
    Ok a
  end.

(** The packet goes from node to node until one keeps it; the trace has the next
    hop and the delay of every forward, the action is that of the last node. *)
Fixpoint relay (ns : list relayNode) (raw : bytes) : outcome (list (bytes * Z) * action) :=
  match ns with
  | [] => Err "no such node"
  | n :: ns =>
    a ← hopStep n raw;
    match a with
    | ToScheduler p =>
      nx ← deref (pk_NextNodeHop p);
      '(tr, fin) ← relay ns (Raw p);
      Ok ((fst nx, Delay p) :: tr, fin)
    | a => Ok ([], a)
    end
  end.

(** ** Nodes that are ready for a packet *)

(** The replay tags of a packet along its path. *)
Fixpoint packetTags (sks : list nike_PrivateKey) (raw : bytes) : list bytes :=
  match sks with
  | [] => []
  | sk :: sks =>
    match unwrapNike g sk raw with
    | Ok r => default [] (uw_replayTag r) :: packetTags sks (uw_pkt r)
    | _ => []
    end
  end.

Definition dwell (n : relayNode) : Z := rn_start n - rn_recv n.

(** The node lets the packet in, handles it within a millisecond and its
    configured limit, has the key [sk] for the current epoch, and has not seen
    the tag. *)
Record attends (n : relayNode) (sk : nike_PrivateKey) (tag : bytes) : Prop := {
  at_token : fst (takeToken (rn_recv n) (rn_conn n)) = true;
  at_pool : pooled (rn_pool n);
  at_dwell : 0 <= dwell n < absoluteMinimumDelay;
  at_slack : dwell n <= mulDuration (UnwrapDelay (rn_cfg n)) ms;
  at_key : exists e el till l k, getEpoch Period (rn_now n) = Ok (e, el, till) /\ rn_map n !! e = Some l /\
    rn_heap n !! l = Some k /\ PrivateKey k = Some (NikeKey sk) /\
    Entries (mk_filter k) < MaxEntries (mk_filter k) /\ fst (TestAndSet (mk_filter k) tag) = false;
}.

(** ** One hop *)

Lemma NewWithID_ok fromPool raw id :
  pooled fromPool -> length raw = PacketLength g ->
  NewWithID fromPool raw id g =
    Ok (mkPacket (Some g) raw None None None None None id 0 zeroTime zeroTime false false).
Proof.
  intros Hp Hl. unfold NewWithID, copyToRaw. cbn [pk_Geometry deref]. go.
  rewrite bool_decide_eq_true_2 by done. cbn [negb]. rewrite length_zeros, bool_decide_eq_true_2 by done.
  cbn [negb]. rewrite copy_zeros by done.
  destruct Hp as [->|[q Hq]]; [done|]. unfold Dispose, disposeRaw in Hq. go_inv Hq. go_inv E.
  injection E as <-. injection Hq as <-. done.
Qed.

Lemma unwrapNike_tag sk raw r :
  unwrapNike g sk raw = Ok r -> uw_err r = None ->
  exists tag, uw_replayTag r = Some tag /\ length tag = TagLength.
Proof.
  unfold unwrapNike. cbv zeta. intros H Herr. case_bool_decide; [by injection H as <-|]. go_inv H.
  destruct (negb _) in H; [by injection H as <-|]. go_inv H.
  destruct (nike_UnmarshalBinaryPublicKey _); [|by injection H as <-|done]. go_inv H.
  apply processHeader_authentic in H as [-> _]; [|done]. eexists. split; [done|]. apply sha512_256_length.
Qed.

Lemma unwrapNike_length sk raw r :
  unwrapNike g sk raw = Ok r -> length (uw_pkt r) = length raw.
Proof.
  unfold unwrapNike. cbv zeta. intros H. case_bool_decide; [by injection H as <-|]. go_inv H.
  destruct (negb _) in H; [by injection H as <-|]. go_inv H.
  destruct (nike_UnmarshalBinaryPublicKey _); [|by injection H as <-|done]. go_inv H.
  apply processHeader_post in H as [H _]; [done|lia].
Qed.

(** Reception and unwrapping at a node that is ready: what is routed. *)
Lemma hopStep_unwraps n sk raw r pkt' :
  length raw = PacketLength g -> unwrapNike g sk raw = Ok r -> uw_err r = None ->
  attends n sk (default [] (uw_replayTag r)) ->
  Packet_Set (uw_payload r) (uw_cmds r)
    (mkPacket (Some g) (uw_pkt r) None None None None None (rn_id n) 0 (rn_recv n) zeroTime
       (fromClient (rn_conn n)) (cfg_IsServiceNode (rn_cfg n) && negb (fromClient (rn_conn n)))) = (pkt', None) ->
  hopStep n raw = routePacket Period (rn_cfg n) (rn_start n) pkt'.
Proof.
  intros Hl Hu Herr [Ht Hp Hd Hs (e & el & till & l & k & He & Hm & Hk & Hsk & Hfull & Hnew)] Hset.
  unfold hopStep, onSendPacket. rewrite NewWithID_ok by done. go.
  destruct (takeToken (rn_recv n) (rn_conn n)) as [ok c]. cbn in Ht. subst ok. go.
  assert (Hdw : Sub (rn_start n) (rn_recv n) = dwell n).
  { apply Sub_small; unfold minDuration, maxDuration, absoluteMinimumDelay, ms in *; unfold dwell in *; lia. }
  unfold workerStep. cbn [RecvAt set_RecvAt set_flags]. rewrite Hdw, bool_decide_eq_false_2 by lia.
  unfold doUnwrap. rewrite He. go. unfold candidateKeys. rewrite Hm. cbn [tryKeys].
  unfold index. rewrite Hk. cbn [deref]. go. rewrite Hsk. cbn [deref]. go.
  unfold Unwrap. cbn [s_nike s_kem negb geometry Raw set_RecvAt set_flags]. rewrite Hu. go. rewrite Herr.
  match goal with |- context [Packet_Set ?a ?b ?p] =>
    replace (Packet_Set a b p) with (pkt', @None string) by exact (eq_sym Hset) end.
  destruct (unwrapNike_tag _ _ _ Hu Herr) as (tag & Htag & Hlt). rewrite Htag in *. cbn [default from_option id].
  unfold IsReplay. rewrite bool_decide_eq_true_2 by done. cbn [negb]. rewrite bool_decide_eq_false_2 by lia.
  cbn in Hnew. destruct (TestAndSet (mk_filter k) tag) as [b f]. cbn in Hnew. subst b. go.
  by destruct (routePacket _ _ _ _).
Qed.

(** What a hop acts on determines its commands, up to the place of the next-hop
    command. *)
Lemma view_own cmds cs : view cmds = (cs, []) -> cmds = cs.
Proof.
  revert cs. induction cmds as [|c cmds IH]; intros cs H; [by injection H as <-|].
  destruct c; unfold view, nextIDs in *; cbn in H; injection H as <- H;
    try done; f_equal; apply IH; unfold view, nextIDs; by rewrite H.
Qed.

Lemma view_next cmds id : view cmds = ([], [id]) -> exists mac, cmds = [NextNodeHop id mac].
Proof.
  destruct cmds as [|[id' mac| | |] cmds]; intros H; try done. injection H as H -> H'. exists mac.
  f_equal. apply view_own. unfold view. by rewrite H, H'.
Qed.

Lemma view_forward_inv cmds c id :
  view cmds = ([c], [id]) ->
  exists mac, cmds = [c; NextNodeHop id mac] \/ cmds = [NextNodeHop id mac; c].
Proof.
  destruct cmds as [|c1 cmds]; [done|]. intros H.
  assert (Hv : (exists mac, c1 = NextNodeHop id mac /\ view cmds = ([c], [])) \/
               (c1 = c /\ view cmds = ([], [id]))).
  { destruct c1 as [id' mac| | |]; injection H as H1 H2; [left; exists mac; subst; split; [done|unfold view; congruence]|right..];
      (split; [done|unfold view, nextIDs in *; congruence]). }
  destruct Hv as [(mac & -> & Hv)|(-> & Hv)].
  - exists mac. right. by rewrite (view_own _ _ Hv).
  - destruct (view_next _ _ Hv) as [mac ->]. exists mac. by left.
Qed.

(** How long a node holds a packet whose delay command says [d] milliseconds. *)
Definition heldFor (d : Z) (n : relayNode) : Z :=
  (if Z.eqb d 0 then absoluteMinimumDelay else d * ms) - dwell n.

Context (HP : 0 < Period < 2 ^ 60).

Lemma adjustDelay_ok d w :
  0 <= d -> d * ms <= NumMixKeys * Period -> 0 <= w < absoluteMinimumDelay ->
  adjustDelay Period d w = Some ((if Z.eqb d 0 then absoluteMinimumDelay else d * ms) - w).
Proof.
  intros Hd Hb Hw. unfold NumMixKeys in Hb. unfold adjustDelay, absoluteMinimumDelay, NumMixKeys, ms in *.
  rewrite (mulDuration_small d 1000000), !int64_small by lia. rewrite bool_decide_eq_false_2 by lia.
  destruct (Z.eqb_spec d 0) as [->|Hne].
  - rewrite bool_decide_eq_false_2, bool_decide_eq_true_2, int64_small by lia. f_equal.
  - rewrite bool_decide_eq_true_2, int64_small by lia. done.
Qed.

(** The roles of a node on the way and of the one at the end. *)
Definition passesOn (n : relayNode) : Prop := cfg_IsServiceNode (rn_cfg n) && negb (fromClient (rn_conn n)) = false.
Definition keeps (rcp : bytes) (n : relayNode) : Prop :=
  fromClient (rn_conn n) = false /\ cfg_IsGatewayNode (rn_cfg n) || cfg_IsServiceNode (rn_cfg n) = true /\
  decoyRecipient (rn_cfg n) <> rcp.

Lemma hopStep_forwards n sk raw r d id :
  length raw = PacketLength g -> unwrapNike g sk raw = Ok r -> uw_err r = None -> uw_payload r = None ->
  attends n sk (default [] (uw_replayTag r)) -> passesOn n ->
  view (uw_cmds r) = ([NodeDelay d], [id]) -> 0 <= d -> d * ms <= NumMixKeys * Period ->
  exists p mac, hopStep n raw = Ok (ToScheduler p) /\ Raw p = uw_pkt r /\
    pk_NextNodeHop p = Some (id, mac) /\ Delay p = heldFor d n.
Proof.
  intros Hl Hu Herr Hpl Ha Hpass Hv Hd Hb. pose proof (at_dwell _ _ _ Ha) as Hw.
  destruct (view_forward_inv _ _ _ Hv) as [mac Hc].
  assert (Hset : Packet_Set (uw_payload r) (uw_cmds r)
    (mkPacket (Some g) (uw_pkt r) None None None None None (rn_id n) 0 (rn_recv n) zeroTime
       (fromClient (rn_conn n)) (cfg_IsServiceNode (rn_cfg n) && negb (fromClient (rn_conn n)))) =
    (mkPacket (Some g) (uw_pkt r) None (Some (id, mac)) (Some d) None None (rn_id n) 0 (rn_recv n) zeroTime
       (fromClient (rn_conn n)) (cfg_IsServiceNode (rn_cfg n) && negb (fromClient (rn_conn n))), None))
    by (rewrite Hpl; by destruct Hc as [-> | ->]).
  rewrite (hopStep_unwraps _ _ _ _ _ Hl Hu Herr Ha Hset). unfold passesOn in Hpass. rewrite Hpass.
  unfold routePacket. cbn [IsForward pk_NextNodeHop pk_NodeDelay pk_Recipient pk_SurbReply isNil negb andb Payload
    MustTerminate RecvAt deref]. go.
  replace (Sub (rn_start n) (rn_recv n)) with (dwell n).
  2: { symmetry. apply Sub_small; unfold minDuration, maxDuration, absoluteMinimumDelay, ms, dwell in *; lia. }
  rewrite adjustDelay_ok by done. eexists _, mac. by split_and!.
Qed.

(** The packet a terminal node hands on, for a path of [New]. *)
Definition arrived (n : relayNode) (raw payload rcp : bytes) (surbID : option bytes) (isForward : bool) (d : Z)
    : Packet :=
  mkPacket (Some g) raw (Some payload) None
    (if isForward then (fun _ => d) <$> surbID else None) (Some rcp) (if isForward then None else surbID)
    (rn_id n) 0 (rn_recv n) (rn_start n) false (cfg_IsServiceNode (rn_cfg n)).

(** Where a terminal node hands a packet. *)
Definition handTo (n : relayNode) (p : Packet) : action :=
  if cfg_IsGatewayNode (rn_cfg n) then ToGateway p else ToService p.

Lemma hopStep_keeps n sk raw r payload rcp surbID isForward d :
  length raw = PacketLength g -> unwrapNike g sk raw = Ok r -> uw_err r = None -> uw_payload r = Some payload ->
  attends n sk (default [] (uw_replayTag r)) -> keeps rcp n ->
  view (uw_cmds r) = (hopCommands rcp surbID isForward true d, []) ->
  hopStep n raw = Ok (handTo n (arrived n (uw_pkt r) payload rcp surbID isForward d)).
Proof.
  intros Hl Hu Herr Hpl Ha (Hc & Hrole & Hdec) Hv. apply view_own in Hv.
  assert (Hset : Packet_Set (uw_payload r) (uw_cmds r)
    (mkPacket (Some g) (uw_pkt r) None None None None None (rn_id n) 0 (rn_recv n) zeroTime
       (fromClient (rn_conn n)) (cfg_IsServiceNode (rn_cfg n) && negb (fromClient (rn_conn n)))) =
    (set_DispatchAt zeroTime (arrived n (uw_pkt r) payload rcp surbID isForward d), None)).
  { rewrite Hpl, Hv, Hc, andb_true_r. by destruct surbID, isForward. }
  rewrite (hopStep_unwraps _ _ _ _ _ Hl Hu Herr Ha Hset).
  unfold routePacket, IsForward, arrived. cbn [pk_NextNodeHop isNil negb andb set_DispatchAt].
  rewrite <- negb_orb, Hrole. cbn [negb].
  replace (isDecoyReply _ _) with (Ok (A := bool) false).
  2: { unfold isDecoyReply, ExpectReply. destruct (IsSURBReply _); [|done]. cbn [set_DispatchAt pk_Recipient deref]. go.
       by rewrite bool_decide_eq_false_2. }
  go. unfold handTo. by destruct (cfg_IsGatewayNode (rn_cfg n)).
Qed.

(** ** Along a path *)

(** What the hops of a path of [New] act on. *)
Inductive leg (rcp : bytes) (surbID : option bytes) (isForward : bool)
    : list (list RoutingCommand * list bytes) -> Z -> Prop :=
  | leg_end d : leg rcp surbID isForward [(hopCommands rcp surbID isForward true d, [])] d
  | leg_hop d id vs dl : 0 <= d -> d * ms <= NumMixKeys * Period -> leg rcp surbID isForward vs dl ->
      leg rcp surbID isForward (([NodeDelay d], [id]) :: vs) dl.

(** The next hops and delays the nodes should produce. *)
Fixpoint forwards (ns : list relayNode) (vs : list (list RoutingCommand * list bytes)) : list (bytes * Z) :=
  match ns, vs with
  | n :: ns, ([NodeDelay d], [id]) :: vs => (id, heldFor d n) :: forwards ns vs
  | _, _ => []
  end.

(** Every node but the last passes packets on; the last keeps them. *)
Fixpoint crew (rcp : bytes) (ns : list relayNode) : Prop :=
  match ns with
  | [] => False
  | [n] => keeps rcp n
  | n :: ns => passesOn n /\ crew rcp ns
  end.

Lemma travel_not_nil {Priv} (unwrap : Priv -> bytes -> outcome UnwrapResult) sks raw vs p :
  travel unwrap sks raw = Ok (vs, p) -> vs <> [].
Proof.
  destruct sks as [|sk sks]; [done|]. cbn [travel]. intros H. go_inv H.
  destruct (uw_err v); [done|]. destruct (uw_payload v); [by injection H as <- <-|].
  go_inv H. destruct v0. by injection H as <- <-.
Qed.

Lemma leg_not_nil rcp surbID isForward d : ~ leg rcp surbID isForward [] d.
Proof. inversion 1. Qed.

Lemma relay_travels rcp surbID isForward sks ns raw vs payload d :
  travel (unwrapNike g) sks raw = Ok (vs, payload) -> length vs = length sks -> length raw = PacketLength g ->
  Forall3 attends ns sks (packetTags sks raw) -> crew rcp ns -> leg rcp surbID isForward vs d ->
  exists n raw', last ns = Some n /\
    relay ns raw = Ok (forwards ns vs, handTo n (arrived n raw' payload rcp surbID isForward d)).
Proof.
  revert ns raw vs. induction sks as [|sk sks IH]; intros ns raw vs H Hlen Hl Hat Hcrew Hleg; [done|].
  cbn [travel] in H. go_inv H. rename v into r, E into Hu.
  cbn [packetTags] in Hat. rewrite Hu in Hat. inversion Hat as [|n ? ? ns' ? ? Ha Hat']; subst. clear Hat.
  destruct (uw_err r) eqn:Herr; [done|]. cbn [relay].
  destruct (uw_payload r) as [p|] eqn:Hpl.
  - injection H as <- <-. destruct sks; [|done]. inversion Hat'; subst. cbn in Hcrew.
    inversion Hleg as [d' Heq Hd|]; subst; [|by exfalso; eapply leg_not_nil].
    assert (Hv : view (uw_cmds r) = (hopCommands rcp surbID isForward true d, [])) by (unfold view; congruence).
    exists n, (uw_pkt r). split; [done|].
    rewrite (hopStep_keeps n sk raw r p rcp surbID isForward d) by done. go.
    rewrite Hv. unfold handTo. by destruct (cfg_IsGatewayNode (rn_cfg n)), surbID, isForward.
  - go_inv H. destruct v as [vs' p']. injection H as <- <-. injection Hlen as Hlen.
    inversion Hleg as [|d' id vs'' dl Hd0 Hdb Hleg' Heq]; subst.
    { exfalso. by eapply travel_not_nil. }
    assert (Hv : view (uw_cmds r) = ([NodeDelay d'], [id])) by (unfold view; congruence).
    destruct ns' as [|n' ns']; [inversion Hat'; subst; by destruct vs'|]. destruct Hcrew as [Hpass Hcrew].
    destruct (hopStep_forwards _ _ _ _ d' id Hl Hu Herr Hpl Ha Hpass) as (q & mac & Hhop & Hraw & Hnext & Hdel);
      [done..|].
    destruct (IH (n' :: ns') (uw_pkt r) vs') as (nl & raw' & Hlast & Hrel); try done.
    { rewrite <- Hl. by eapply unwrapNike_length. }
    exists nl, raw'. split; [done|]. rewrite Hhop. go. rewrite Hnext. cbn [deref]. go.
    rewrite Hraw, Hrel. go. cbn [fst forwards]. by rewrite Hdel, Hv.
Qed.

End Relay.

(** C35. A packet without a recipient stops a node.  Anybody who knows a node's
    public key can build a packet whose last layer has no commands; the crypto
    worker of a gateway or service node that is ready for it accepts it and hands
    it on, and the worker that takes it over dereferences the missing recipient:
    the process panics, whatever the node's configuration and the clock, as long
    as the packet is not already stale. *)
Theorem unaddressed_packet_panics {N : Nike} {NL : NikeLaws N} {K : Kem} {S : SymPrims} {SL : SymPrimsLaws S}
    {B : Bloom} Period nikeKnown kemKnown user withSURB nrHops g rnd id sk payload :
  GeometryFromUserForwardPayloadLength N user withSURB nrHops = Ok g -> (0 < nrHops)%nat ->
  good_randomness rnd -> length id = NodeIDLength -> length payload = ForwardPayloadLength g ->
  exists pkt tag,
    newNikePacket g rnd [@mkPathHop N K id (Some (nike_Public sk)) None []] payload = Ok pkt /\
    forall n : @relayNode N K B, attends Period n sk tag -> fromClient (rn_conn n) = false ->
      cfg_IsGatewayNode (rn_cfg n) || cfg_IsServiceNode (rn_cfg n) = true ->
      exists p, hopStep Period g n pkt = Ok (handTo n p) /\
        (forall GatewayDelay now wtReady stored fromPool ackID,
           Sub now (rn_start n) <= mulDuration GatewayDelay ms ->
           gatewayStep nikeKnown kemKnown g GatewayDelay now wtReady stored fromPool ackID p = Panic) /\
        (forall ServiceDelay now kaetzchen plugins,
           Sub now (rn_start n) <= mulDuration ServiceDelay ms ->
           serviceStep ServiceDelay now kaetzchen plugins p = Panic).
Proof.
  intros Hgeo Hn Hrnd Hid Hpl. set (path := [@mkPathHop N K id (Some (nike_Public sk)) None []]).
  destruct (nike_geometry_consistent _ _ _ _ _ Hgeo) as (Hg & HnrHops & Hpkt).
  assert (Hv : valid_path g 0 path).
  { split; [|done]. split; [done|by split; [constructor|]|cbn; lia]. }
  destruct (createHeader_good g rnd path [sk]) as (hdr & keys & Hc & Hh); [done..| |done|cbn; lia|].
  { constructor; [done|constructor]. }
  destruct (assemblePacket_travels g _ Hg _ _ _ _ _ Hh payload eq_refl) as (pkt & Ha & Hl & Ht).
  cbn [travel] in Ht. go_inv Ht. rename v into r. destruct (uw_err r) eqn:Herr; [done|].
  destruct (uw_payload r) as [p|] eqn:Hup; [|done]. injection Ht as Hown Hnext _.
  assert (Hvw' : view (uw_cmds r) = ([], [])) by (unfold view; congruence). apply view_own in Hvw'.
  exists pkt, (default [] (uw_replayTag r)). split.
  { unfold newNikePacket. rewrite bool_decide_eq_true_2 by done. cbn [negb]. rewrite Hc. go. done. }
  intros n Hat Hcl Hrole.
  erewrite (hopStep_unwraps Period g n sk pkt r _ ltac:(lia) E Herr Hat); [|by rewrite Hup, Hvw', Hcl].
  unfold routePacket, IsForward. cbn [pk_NextNodeHop isNil negb andb set_Payload MustForward].
  rewrite <- negb_orb, Hrole. cbn [negb]. change (isDecoyReply _ _) with (Ok (A := bool) false). go.
  eexists. split.
  { unfold handTo. destruct (cfg_IsGatewayNode (rn_cfg n)); reflexivity. }
  split; intros; unfold gatewayStep, serviceStep; cbn [set_DispatchAt DispatchAt pk_Recipient];
    by rewrite bool_decide_eq_false_2 by lia.
Qed.

(** A service node that has just started. *)
Definition toyService : @relayNode toyNike toyKem toyBloom :=
  @mkRelay toyNike toyKem toyBloom (mkNodeConfig false true 100 []) (mkConn false 0 0 0 0 0) newPacket 7
    [toyMixKey] {[ 199512 := 0%nat ]} toyNow toyNow toyNow.

Lemma toyService_attends tag : attends (N := toyNike) (K := toyKem) (B := toyBloom) defaultPeriod toyService 5 tag.
Proof.
  split; [reflexivity|by left|split; vm_compute; [discriminate|reflexivity]|vm_compute; discriminate|].
  eexists 199512, _, _, 0%nat, toyMixKey. split_and!; reflexivity.
Qed.

Lemma unaddressed_packet_panics_witness :
  exists pkt p,
    newNikePacket toyGeo toyRnd [@mkPathHop toyNike toyKem (replicate 32 4) (Some (nike_Public (Nike := toyNike) 5)) None []]
      (toyPayload toyGeo) = Ok pkt /\
    hopStep (N := toyNike) (K := toyKem) (B := toyBloom) defaultPeriod toyGeo toyService pkt = Ok (ToService p) /\
    serviceStep 100 toyNow ∅ ∅ p = Panic.
Proof.
  destruct (unaddressed_packet_panics (N := toyNike) (K := toyKem) (B := toyBloom) defaultPeriod (fun _ => true)
    (fun _ => true) 10 true 4 toyGeo toyRnd (replicate 32 4) 5 (toyPayload toyGeo)) as (pkt & tag & Hpkt & H).
  - reflexivity.
  - lia.
  - apply toyRnd_good.
  - reflexivity.
  - reflexivity.
  - destruct (H toyService (toyService_attends tag)) as (p & Hp & _ & Hs); [reflexivity|reflexivity|].
    exists pkt, p. split_and!; [exact Hpkt|exact Hp|]. apply Hs. vm_compute. discriminate.
Defined.
