(* ===== verification/ClientSend.v ===== *)
(** Composing packets on the client: [client/send.go].

    The two composers pick a forward path and, for a reply, a path back, put a
    reply block in front of the message and build a Sphinx packet.  They retry
    path selection; what an attempt reads of the clock, the connection, the PKI
    cache and the random number generators is an [Attempt].  Waiting for a
    document and the shutdown signal are the fields [at_doc] and [at_halted].
    Times are nanoseconds. *)

From S2P Require Import Prelude Schemes SphinxGeo SphinxCommands SphinxCrypto SphinxPacket SphinxLayers SphinxJourney TimerQueue EpochTime PkiDocument PathSelect.
From Stdlib Require Import ZArith Lia.
From stdpp Require Import prelude list strings gmap.

Definition maxPathSelectionAttempts : nat := 32.
Definition ErrShutdown : string := "shutdown requested".

(** [type SendMessage struct] and [type SendChannelQuery struct], as far as they
    are read here. *)
Record SendMessage := mkSendMessage {
  WithSURB : bool;
  SURBID : option bytes;
  DestinationIdHash : option bytes;
  RecipientQueueID : bytes;
  sm_Payload : bytes;
}.

Definition validateSendMessageRequest (destinationIdHash : option bytes) (recipientQueueID payload : bytes)
    (maxPayloadLen : nat) : option string :=
  match destinationIdHash with
  | None => Some "request.DestinationIdHash is nil"%string
  | Some _ =>
    if bool_decide (length recipientQueueID = 0) then Some "client: recipient is nil"%string
    else if bool_decide (RecipientIDLength < length recipientQueueID) then Some "client: invalid recipient"%string
    else if bool_decide (maxPayloadLen < length payload) then Some "message too large"%string
    else None
  end.

Section Client.

Context {N : Nike} {K : Kem} {S : SymPrims}.
Context (Sum256 : bytes -> bytes) (Period : Z).
Context (nikeKnown kemKnown : string -> bool) (kemUnmarshal : bytes -> outcome kem_PublicKey).

(** The draws of one [rand.NewMath]. *)
Record MathRand := mkMathRand { rng_Intn : nat -> nat -> nat; rng_Exp : nat -> Z }.

(** What one attempt reads; [at_doc] and [at_rng] are those of the forward and
    of the reverse path. *)
Record Attempt := mkAttempt {
  at_halted : bool;
  at_unixTime : Z;
  at_gateway : option bytes;
  at_doc : bool -> option Document;
  at_rng : bool -> MathRand;
  at_elapsed : Z;
  at_surbRand : Randomness;
  at_pktRand : Randomness;
}.

(** ** [makePath] *)

Definition getSourceAndDestinationNodes (doc : Document) (gateway destination : bytes) (isForward : bool)
    : outcome (MixDescriptor * MixDescriptor) :=
  let '(srcNode, dstNode) := if isForward then (gateway, destination) else (destination, gateway) in
  if isForward then
    src ← GetGatewayByKeyHash Sum256 doc srcNode;
    dst ← GetServiceNodeByKeyHash Sum256 doc dstNode;
    Ok (src, dst)
  else
    src ← GetServiceNodeByKeyHash Sum256 doc srcNode;
    dst ← GetGatewayByKeyHash Sum256 doc dstNode;
    Ok (src, dst).

Definition makePath (g : Geometry) (doc : option Document) (rng : MathRand) (recipient : bytes)
    (destination surbID : option bytes) (baseTime : Z) (isForward : bool) (gateway : option bytes)
    : outcome (list (@PathHop N K) * Z) :=
  gateway ← deref gateway;
  destination ← deref destination;
  match doc with
  | None => Err "client: makePath: no PKI document for current epoch"
  | Some doc =>
    '(src, dst) ← getSourceAndDestinationNodes doc gateway destination isForward;
    '(p, t) ← New Sum256 Period (rng_Intn rng) (rng_Exp rng) nikeKnown kemKnown kemUnmarshal g doc
                recipient src dst surbID baseTime true isForward;
    if bool_decide (length p = 0) then Err "path selection returned zero hops" else Ok (p, t)
  end.

(** ** Composition *)

(** The paths of an attempt: forward, back, and when the reply arrives; [None]
    is a retry, since the delays are too long or the epoch may have changed. *)
Definition selectPaths (g : Geometry) (queueID : option bytes) (a : Attempt) (recipient : bytes)
    (destination surbID : option bytes)
    : outcome (option (list (@PathHop N K) * list (@PathHop N K) * Z)) :=
  '(_, _, budget) ← FromUnix Period (at_unixTime a);
  let now := (at_unixTime a * second)%Z in
  gateway ← deref (at_gateway a);
  '(fwdPath, then_) ← makePath g (at_doc a true) (at_rng a true) recipient destination surbID now true
                        (Some gateway);
  '(revPath, then_) ← (match surbID with
                       | None => Ok ([], then_)
                       | Some _ =>
                         queueID ← deref queueID;
                         makePath g (at_doc a false) (at_rng a false) queueID destination surbID then_ false
                           (Some gateway)
                       end);
  if bool_decide (budget < at_elapsed a)%Z then Ok None
  else if bool_decide (Sub then_ now < int64 (Period * 2))%Z
  then Ok (Some (fwdPath, revPath, Sub then_ now))
  else Ok None.

(** The payload of a packet with a reply block, and the packet. *)
Definition packetWithSURB (s : Sphinx) (g : Geometry) (a : Attempt) (fwdPath revPath : list (@PathHop N K))
    (message : bytes) : outcome (bytes * bytes) :=
  '(surb, k) ← NewSURB s (at_surbRand a) revPath;
  let payload := [1; 0]%Z ++ surb ++ message in
  pkt ← NewPacket s (at_pktRand a) fwdPath (copy_into (zeros (ForwardPayloadLength g)) payload);
  Ok (pkt, k).

(** The retry loop both composers have; [build] makes the packet and the keys. *)
Fixpoint composeLoop (attempts : nat) (i : nat) (env : nat -> Attempt) (g : Geometry) (queueID : option bytes)
    (recipient : bytes) (destination surbID : option bytes)
    (build : Attempt -> list (@PathHop N K) -> list (@PathHop N K) -> outcome (bytes * bytes)) (name : string)
    : outcome (bytes * bytes * Z) :=
  match attempts with
  | O => Err (name ++ ": path selection exceeded 32 attempts")
  | Datatypes.S attempts =>
    let a := env i in
    if at_halted a then Err ErrShutdown
    else
      r ← selectPaths g queueID a recipient destination surbID;
      match r with
      | None => composeLoop attempts (i + 1) env g queueID recipient destination surbID build name
      | Some (fwdPath, revPath, rtt) => '(pkt, k) ← build a fwdPath revPath; Ok (pkt, k, rtt)
      end
  end.

(** The payload of a packet without a reply block. *)
Definition plainBody (g : Geometry) (message : bytes) : bytes :=
  copy_into (zeros (ForwardPayloadLength g)) (copy_into (zeros (UserForwardPayloadLength g)) message).

Definition ComposeSphinxPacket (s : Sphinx) (g : Geometry) (queueID : option bytes) (env : nat -> Attempt)
    (request : option SendMessage) : outcome (bytes * bytes * Z) :=
  match request with
  | None => Err "request must have SendMessage"
  | Some rq =>
    match validateSendMessageRequest (DestinationIdHash rq) (RecipientQueueID rq) (sm_Payload rq)
            (UserForwardPayloadLength g) with
    | Some e => Err e
    | None =>
      composeLoop maxPathSelectionAttempts 0 env g queueID (RecipientQueueID rq) (DestinationIdHash rq) (SURBID rq)
        (fun a fwdPath revPath =>
           if WithSURB rq then packetWithSURB s g a fwdPath revPath (sm_Payload rq)
           else
             pkt ← NewPacket s (at_pktRand a) fwdPath (plainBody g (sm_Payload rq));
             Ok (pkt, []))
        "ComposeSphinxPacket"
    end
  end.

Definition ComposeSphinxPacketForQuery (s : Sphinx) (g : Geometry) (queueID : option bytes) (env : nat -> Attempt)
    (destination : option bytes) (recipient message : bytes) (surbID : option bytes)
    : outcome (bytes * bytes * Z) :=
  if bool_decide (UserForwardPayloadLength g < length message)
  then Err "ComposeSphinxPacketForQuery Payload field too large"
  else
    composeLoop maxPathSelectionAttempts 0 env g queueID recipient destination surbID
      (fun a fwdPath revPath => packetWithSURB s g a fwdPath revPath message)
      "ComposeSphinxPacketForQuery".

End Client.
