(* ===== verification/RoundTrip.v ===== *)
(** A request and its answer, end to end.

    The client composes a packet with a reply block, real nodes relay it to a
    service node, the echo agent answers on the reply block, and real nodes relay
    the answer to the client's gateway, where the client's keys open it.  The
    file composes [ClientSend], [PathSelect], [MixRelay] and [NodeServices]. *)

From S2P Require Import Prelude Schemes ToySchemes SphinxGeo SphinxCommands SphinxCrypto SphinxPacket SphinxLayers SphinxJourney SphinxDelivery SphinxNike SphinxKem SphinxRobust SphinxWitness TimerQueue EpochTime PkiDocument PathSelect MixPacket MixKeys CryptoWorker NodeServices Incoming MixRelay ClientSend.
From Stdlib Require Import ZArith Lia.
From stdpp Require Import prelude list strings gmap.

Local Open Scope Z_scope.

(** A short recipient is padded to its field. *)
Definition padded (recipient : bytes) : bytes := copy_into (zeros RecipientIDLength) recipient.

Lemma length_padded r : length (padded r) = RecipientIDLength.
Proof. unfold padded. by rewrite length_copy_into, length_zeros. Qed.

Lemma padded_padded r : padded (padded r) = padded r.
Proof. unfold padded at 1. apply copy_zeros, length_padded. Qed.

(** ** Paths of a client *)

Section Paths.

Context {N : Nike} {NL : NikeLaws N} {K : Kem} {S : SymPrims} {SL : SymPrimsLaws S}.
Context (Sum256 : bytes -> bytes) (Period : Z).
Context (nikeKnown kemKnown : string -> bool) (kemUnmarshal : bytes -> outcome kem_PublicKey).

(** Path selection sees a recipient only through its field. *)
Lemma buildHops_padded Exp g doc recipient surbID isForward descs t k :
  buildHops (N := N) Sum256 Period Exp nikeKnown kemKnown kemUnmarshal g doc (padded recipient) surbID
    isForward descs t k =
  buildHops Sum256 Period Exp nikeKnown kemKnown kemUnmarshal g doc recipient surbID isForward descs t k.
Proof.
  revert t k. induction descs as [|v descs IH]; intros t k; [done|]. cbn [buildHops].
  change (copy_into (zeros RecipientIDLength) (padded recipient)) with (padded (padded recipient)).
  rewrite padded_padded. destruct (FromUnix _ _) as [[[e ?] ?]| |]; [|done..]. go.
  destruct (MixKeys v !! e); [|done]. destruct (hopKey _ _ _ _ _ _) as [[? ?]| |]; [|done..]. go. by rewrite IH.
Qed.

Lemma New_padded Intn Exp g doc recipient src dst surbID t c f :
  New (N := N) Sum256 Period Intn Exp nikeKnown kemKnown kemUnmarshal g doc (padded recipient) src dst surbID t c f =
  New Sum256 Period Intn Exp nikeKnown kemKnown kemUnmarshal g doc recipient src dst surbID t c f.
Proof.
  unfold New. generalize 0%nat. induction maxAttempts as [|n IH]; intros k; [done|]. cbn [selectLoop].
  destruct (selectHops _ _ _ _ _ _ _ _) as [[descs k']| |]; [|done..]. go. rewrite buildHops_padded.
  destruct (buildHops _ _ _ _ _ _ _ _ _ _ _ _ _ _) as [[[]]| |]; go; done.
Qed.

(** The time a scheduled path takes. *)
Lemma scheduled_finish g M recipient surbID isForward descs path now finish :
  0 <= M ->
  scheduled (N := N) (K := K) Sum256 Period nikeKnown kemKnown kemUnmarshal g M recipient surbID isForward descs path
    now finish ->
  now <= finish <= now + Z.of_nat (length descs) * M * millisecond.
Proof.
  intros HM. revert path now. induction descs as [|v descs IH]; intros [|h path] now; try done.
  { cbn. lia. }
  intros (e & d & _ & Hd & _ & _ & _ & Hs). apply IH in Hs.
  replace (Z.of_nat (length (v :: descs))) with (Z.of_nat (length descs) + 1) by (simpl; lia).
  destruct (_ && _) in Hs; unfold millisecond in *; nia.
Qed.

(** The hops of a scheduled path do what [MixRelay] expects of a leg. *)
Lemma scheduled_leg g M recipient surbID isForward descs path now finish :
  descs <> [] -> M * ms <= NumMixKeys * Period ->
  scheduled (N := N) (K := K) Sum256 Period nikeKnown kemKnown kemUnmarshal g M recipient surbID isForward descs path
    now finish ->
  exists d, leg Period recipient surbID isForward (route path) d.
Proof.
  intros Hne HM. revert path now Hne. induction descs as [|v descs IH]; intros [|h path] now Hne; try done.
  intros (e & d & _ & Hd & _ & _ & Hc & Hs). destruct descs as [|v' descs].
  - destruct path; [|done]. exists d. cbn [route]. rewrite Hc. constructor.
  - destruct path as [|h' path]; [done|]. destruct (IH _ _ ltac:(done) Hs) as [dl Hl]. exists dl.
    cbn [route]. rewrite Hc. unfold hopCommands. rewrite app_nil_r. constructor; [lia| |done].
    unfold ms in *. nia.
Qed.

Lemma length_route (path : list (@PathHop N K)) : length (route path) = length path.
Proof. induction path as [|h path IH]; cbn [route length]; lia. Qed.

Context (Hsum : forall b, length (Sum256 b) = 32%nat) (HP : 0 < Period).
Context (keyOf : MixDescriptor -> Z -> nike_PrivateKey).

Definition source (isForward : bool) (gateway service : MixDescriptor) : MixDescriptor :=
  if isForward then gateway else service.

(** What a client knows of a path it selected. *)
Record clientPath (g : Geometry) (doc : Document) (gateway service : MixDescriptor) (recipient : bytes)
    (surbID : option bytes) (isForward : bool) (base : Z) (path : list (@PathHop N K)) (finish : Z)
    (descs : list MixDescriptor) (sks : list nike_PrivateKey) : Prop := {
  cp_full : fullPath doc isForward (source isForward gateway service) (source (negb isForward) gateway service) descs;
  cp_ids : map ID path = map (fun v => idHash Sum256 (IdentityKey v)) descs;
  cp_keys : epochKeys Period keyOf base (deadline doc base) descs sks;
  cp_pub : path_keys path sks;
  cp_valid : valid_path g 0 path;
  cp_length : (length path = length (Topology doc) + (if isForward then 2 else 1))%nat;
  cp_surb : hasSURB (lastCommands path) = bool_decide (is_Some surbID) && negb isForward;
  cp_finish : base <= finish <= deadline doc base;
  cp_leg : MuMaxDelay doc * ms <= NumMixKeys * Period ->
    exists d, leg Period (padded recipient) surbID isForward (route path) d;
}.

Lemma endPoints_nodes doc isForward gateway service :
  endPoints doc isForward (source isForward gateway service) (source (negb isForward) gateway service) ->
  gateway ∈ GatewayNodes doc /\ service ∈ ServiceNodes doc.
Proof. destruct isForward; cbn; tauto. Qed.

Lemma getSourceAndDestinationNodes_ok doc gateway service isForward :
  distinct_keys Sum256 doc -> gateway ∈ GatewayNodes doc -> service ∈ ServiceNodes doc ->
  getSourceAndDestinationNodes Sum256 doc (idHash Sum256 (IdentityKey gateway))
    (idHash Sum256 (IdentityKey service)) isForward =
  Ok (source isForward gateway service, source (negb isForward) gateway service).
Proof.
  intros Hd Hgw Hsv. destruct (parts_nodes doc) as (_ & Hg & Hs).
  unfold getSourceAndDestinationNodes, GetGatewayByKeyHash, GetServiceNodeByKeyHash.
  destruct isForward; rewrite !(scanKeyHash_here _ doc) by done; done.
Qed.

Lemma makePath_ok user withSURB nrHops g doc gateway service rng recipient surbID base isForward :
  (forall k n, 0 < n -> rng_Intn rng k n < n)%nat ->
  GeometryFromUserForwardPayloadLength N user withSURB nrHops = Ok g ->
  nike_Name <> "" -> nikeKnown nike_Name = true ->
  ready Sum256 Period doc (padded recipient) surbID (source isForward gateway service)
    (source (negb isForward) gateway service) base isForward ->
  Forall (publishes Period keyOf base (deadline doc base)) (allNodes doc) ->
  exists path finish descs sks,
    makePath Sum256 Period nikeKnown kemKnown kemUnmarshal g (Some doc) rng recipient
      (Some (idHash Sum256 (IdentityKey service))) surbID base isForward
      (Some (idHash Sum256 (IdentityKey gateway))) = Ok (path, finish) /\
    clientPath g doc gateway service recipient surbID isForward base path finish descs sks.
Proof.
  intros HI Hgeo Hn Hk Hr Hp.
  destruct (New_nike Sum256 Period (rng_Intn rng) (rng_Exp rng) nikeKnown kemKnown kemUnmarshal Hsum HP HI
    _ _ _ _ _ _ _ _ _ _ _ _ Hgeo Hn Hk Hr Hp) as (path & finish & descs & sks & Hnew & Hf & Hs & Hek & Hpk & Hv & Hlen & Hsurb).
  exists path, finish, descs, sks. pose proof Hr as [Hd He _ HM _ _ _].
  destruct (endPoints_nodes _ _ _ _ He) as [Hgw Hsv]. destruct (fullPath_nodes _ _ _ _ _ He Hf) as [_ Hdl].
  split.
  - unfold makePath. cbn [deref]. go. rewrite getSourceAndDestinationNodes_ok by done. go.
    rewrite <- New_padded, Hnew. go. rewrite bool_decide_eq_false_2 by (destruct isForward; lia). done.
  - split; try done.
    + by eapply scheduled_ids.
    + apply scheduled_finish in Hs; [|lia]. rewrite Hdl in Hs. unfold deadline.
      destruct isForward; unfold millisecond in *; nia.
    + intros HMP. eapply scheduled_leg; [|exact HMP|exact Hs]. intros ->. simpl in Hdl. destruct isForward; lia.
Qed.

(** ** Packets along a client's path *)

Context {B : Bloom} (HP60 : Period < 2 ^ 60).

Section Packets.

Context (user : nat) (withSURB : bool) (nrHops : nat) (g : Geometry).
Context (Hgeo : GeometryFromUserForwardPayloadLength N user withSURB nrHops = Ok g).
Context (doc : Document) (gateway service : MixDescriptor) (recipient : bytes) (surbID : option bytes) (base : Z).
Context (HMP : MuMaxDelay doc * ms <= NumMixKeys * Period).

Abbreviation s := (mkSphinx true false g).
Abbreviation nodesReady := (Forall3 (@attends N K B Period)).

Lemma cp_lengths isForward path finish descs sks :
  clientPath g doc gateway service recipient surbID isForward base path finish descs sks ->
  length (route path) = length sks.
Proof. intros H. rewrite length_route. eapply Forall2_length, (cp_pub _ _ _ _ _ _ _ _ _ _ _ _ H). Qed.

(** A packet for a forward path is relayed to the end of the path. *)
Lemma packet_relayed path finish descs sks rnd payload :
  clientPath g doc gateway service recipient surbID true base path finish descs sks ->
  (length (Topology doc) + 2 <= nrHops)%nat -> good_randomness rnd ->
  length payload = ForwardPayloadLength g ->
  exists pkt, NewPacket s rnd path payload = Ok pkt /\ length pkt = PacketLength g /\
    forall ns, nodesReady ns sks (packetTags g sks pkt) -> crew (padded recipient) ns ->
      exists n raw d, last ns = Some n /\
        relay Period g ns pkt =
          Ok (forwards ns (route path), handTo n (arrived g n raw payload (padded recipient) surbID true d)).
Proof.
  intros Hcp Hhops Hrnd Hpl. pose proof (cp_lengths _ _ _ _ _ Hcp) as Hrl.
  destruct Hcp as [_ _ _ Hpk Hv Hlen Hsurb _ Hleg]. rewrite andb_false_r in Hsurb.
  destruct (nike_geometry_consistent _ _ _ _ _ Hgeo) as (Hg & HnrHops & Hpkt).
  destruct (createHeader_good g rnd path sks) as (hdr & keys & Hc & Hh); [done..|lia|].
  destruct (assemblePacket_travels g _ Hg _ _ _ _ _ Hh payload Hsurb) as (pkt & Ha & Hl & Ht).
  destruct (Hleg HMP) as [d Hd]. assert (Hpl' : length pkt = PacketLength g) by lia.
  exists pkt. split_and!; [|done|].
  - unfold NewPacket. cbn [s_nike s_kem negb geometry]. unfold newNikePacket.
    rewrite bool_decide_eq_true_2 by done. cbn [negb]. rewrite Hc. go. done.
  - intros ns Hat Hcrew.
    destruct (relay_travels Period g (conj HP HP60) _ _ _ _ _ _ _ _ _ Ht Hrl Hpl' Hat Hcrew Hd)
      as (n & raw & Hlast & Hrel). by exists n, raw, d.
Qed.

(** A packet made from a reply block is relayed to the end of the reply path,
    and its creator opens it. *)
Lemma reply_relayed path finish descs sks rnd sid :
  clientPath g doc gateway service recipient surbID false base path finish descs sks -> surbID = Some sid ->
  (length (Topology doc) + 1 <= nrHops)%nat -> good_randomness rnd ->
  exists surb k, NewSURB s rnd path = Ok (surb, k) /\ length surb = SURBLength g /\
    forall payload, length payload = ForwardPayloadLength g ->
      exists pkt first body, head (map ID path) = Some first /\ length first = NodeIDLength /\
        SphinxPacket.NewPacketFromSURB g surb payload = Ok (pkt, first) /\ length pkt = PacketLength g /\
        length body = (PayloadTagLength g + ForwardPayloadLength g)%nat /\
        fst (DecryptSURBPayload g body k) = Ok payload /\
        forall ns, nodesReady ns sks (packetTags g sks pkt) -> crew (padded recipient) ns ->
          exists n raw d, last ns = Some n /\
            relay Period g ns pkt =
              Ok (forwards ns (route path), handTo n (arrived g n raw body (padded recipient) (Some sid) false d)).
Proof.
  intros Hcp Hsid Hhops Hrnd. pose proof (cp_lengths _ _ _ _ _ Hcp) as Hrl.
  destruct Hcp as [_ _ _ Hpk Hv Hlen Hsurb _ Hleg]. rewrite Hsid in Hsurb.
  destruct (nike_geometry_consistent _ _ _ _ _ Hgeo) as (Hg & HnrHops & Hpkt).
  destruct (createHeader_good g rnd path sks) as (hdr & keys & Hc & Hh); [done..|lia|].
  destruct (gr_r _ Hrnd sprpKeyMaterialLength) as (kp & Hkp & Hkl).
  destruct path as [|hop0 path]; [simpl in Hlen; lia|].
  assert (Hidl : length (ID hop0) = NodeIDLength) by apply Hv. destruct (Hleg HMP) as [d Hd]. subst surbID.
  exists (hdr ++ ID hop0 ++ kp), (surbKeys keys kp). split_and!.
  - unfold NewSURB. cbn [s_nike s_kem negb geometry]. unfold newNikeSURB. rewrite Hkp. go. rewrite Hc. go. done.
  - rewrite (cg_surb _ _ Hg), <- (gh_length _ _ _ _ _ _ Hh). golen.
  - intros payload Hpl. destruct (surb_reply_sized g _ Hg _ _ _ _ _ Hh (ID hop0) kp payload Hidl Hkl Hsurb)
      as (pkt & body & H1 & H2 & H3 & H4 & H5). assert (Hpl' : length pkt = PacketLength g) by lia.
    exists pkt, (ID hop0), body. split_and!; try done; [lia|]. intros ns Hat Hcrew.
    destruct (relay_travels Period g (conj HP HP60) _ _ _ _ _ _ _ _ _ H2 Hrl Hpl' Hat Hcrew Hd)
      as (n & raw & Hlast & Hrel). by exists n, raw, d.
Qed.

End Packets.

(** ** Composing a request *)

(** A client whose attempt at composing meets no obstacle: it is connected to
    [gateway], has the document, and the epoch does not end during selection. *)
Record connected (a : Attempt) (doc : Document) (gateway : MixDescriptor) : Prop := {
  cn_running : at_halted a = false;
  cn_gateway : at_gateway a = Some (idHash Sum256 (IdentityKey gateway));
  cn_doc f : at_doc a f = Some doc;
  cn_rng f k n : (0 < n -> rng_Intn (at_rng a f) k n < n)%nat;
  cn_surb : good_randomness (at_surbRand a);
  cn_pkt : good_randomness (at_pktRand a);
  cn_budget e el till : FromUnix Period (at_unixTime a) = Ok (e, el, till) -> at_elapsed a <= till;
}.

(** The latest return of a reply to a packet that leaves at [base]. *)
Definition returnBy (doc : Document) (base : Z) : Z := deadline doc (deadline doc base).

Lemma ready_reply doc recipient queueID sid gateway service base t :
  ready Sum256 Period doc recipient (Some sid) gateway service base true ->
  length queueID = RecipientIDLength -> base <= t <= deadline doc base ->
  representable Period (returnBy doc base) ->
  ready Sum256 Period doc queueID (Some sid) service gateway t false.
Proof.
  intros [Hk (Hg & _ & Hs & _) Hl HM _ Hsid [Hb Hd]] Hq Ht Hr. split; try done.
  unfold returnBy, representable, deadline, millisecond in *. split; [lia|].
  assert (0 <= (Z.of_nat (length (Topology doc)) + 2) * MuMaxDelay doc * 1000000) by nia. lia.
Qed.

Section Compose.

Context (user : nat) (nrHops : nat) (g : Geometry).
Context (Hgeo : GeometryFromUserForwardPayloadLength N user true nrHops = Ok g).
Context (Hname : nike_Name <> "") (Hknown : nikeKnown nike_Name = true).
Context (doc : Document) (gateway service : MixDescriptor) (recipient queueID sid : bytes) (a : Attempt).

Abbreviation base := (at_unixTime a * second).

Context (Hcn : connected a doc gateway) (Hq : length queueID = RecipientIDLength).
Context (Hready : ready Sum256 Period doc (padded recipient) (Some sid) gateway service base true).
Context (Hback : representable Period (returnBy doc base)).
Context (Hpub : Forall (publishes Period keyOf base (returnBy doc base)) (allNodes doc)).
Context (Hshort : returnBy doc base - base < 2 * Period).

Lemma publishes_part lo hi lo' hi' l :
  lo <= lo' -> hi' <= hi -> Forall (publishes (N := N) Period keyOf lo hi) l ->
  Forall (publishes Period keyOf lo' hi') l.
Proof. intros ? ? H. eapply Forall_impl; [exact H|]. intros v Hv t e Ht. apply Hv. lia. Qed.

Lemma selectPaths_ok :
  exists fwd rev finish fin fdescs rdescs fsks rsks,
    selectPaths Sum256 Period nikeKnown kemKnown kemUnmarshal g (Some queueID) a recipient
      (Some (idHash Sum256 (IdentityKey service))) (Some sid) = Ok (Some (fwd, rev, fin - base)) /\
    clientPath g doc gateway service recipient (Some sid) true base fwd finish fdescs fsks /\
    clientPath g doc gateway service queueID (Some sid) false finish rev fin rdescs rsks.
Proof.
  destruct Hcn as [Hrun Hgw Hdoc Hrng _ _ Hbud]. pose proof Hready as [_ _ _ HM _ _ [Hb Hd]].
  assert (Hstep : forall t, t <= deadline doc t).
  { intros t. unfold deadline, millisecond. nia. }
  pose proof (Hstep base). pose proof (Hstep (deadline doc base)). fold (returnBy doc base) in *.
  destruct (makePath_ok user true nrHops g doc gateway service (at_rng a true) recipient (Some sid) base true)
    as (fwd & finish & fdescs & fsks & Hf & Hcf); [by apply Hrng|done..|eapply publishes_part; [..|exact Hpub]; lia|].
  pose proof (cp_finish _ _ _ _ _ _ _ _ _ _ _ _ Hcf) as Hfin.
  assert (Hdl : deadline doc finish <= returnBy doc base) by (unfold returnBy, deadline in *; lia).
  destruct (makePath_ok user true nrHops g doc gateway service (at_rng a false) queueID (Some sid) finish false)
    as (rev & fin & rdescs & rsks & Hr & Hcr); [by apply Hrng|done..| |eapply publishes_part; [..|exact Hpub]; lia|].
  { cbn [source negb]. unfold padded. rewrite copy_zeros by done. by eapply ready_reply. }
  pose proof (cp_finish _ _ _ _ _ _ _ _ _ _ _ _ Hcr) as Hfin'.
  exists fwd, rev, finish, fin, fdescs, rdescs, fsks, rsks. split_and!; [|done..].
  destruct (getEpoch_ok Period base HP) as (e & el & till & He & _); [done|].
  unfold selectPaths. unfold FromUnix in *. rewrite He. go. rewrite Hgw. cbn [deref]. go.
  rewrite !Hdoc, Hf. go. rewrite Hr. go.
  rewrite bool_decide_eq_false_2 by (pose proof (Hbud _ _ _ He); lia).
  rewrite Sub_small, int64_small by (unfold minDuration, maxDuration; lia).
  by rewrite bool_decide_eq_true_2 by lia.
Qed.

(** ** The service node and the gateway *)

Lemma geometry_fields :
  UserForwardPayloadLength g = user /\ SphinxPlaintextHeaderLength g = 2%nat /\
  (ForwardPayloadLength g = user + (2 + SURBLength g))%nat /\ NIKEName g = nike_Name.
Proof.
  destruct (GeometryFromUserForwardPayloadLength_ok N user true nrHops)
    as (g' & Hg & _ & _ & _ & _ & _ & _ & _ & _ & Hu & Hh & Hf & Hn & _).
  assert (g' = g) as -> by congruence. by rewrite Hf, Hh.
Qed.

(** The body of a request: flags, reply block, message and padding. *)
Definition requestBody (surb message : bytes) : bytes :=
  copy_into (zeros (ForwardPayloadLength g)) ([1; 0]%Z ++ surb ++ message).

Lemma copy_into_zeros n (b : bytes) : (length b <= n)%nat -> copy_into (zeros n) b = b ++ zeros (n - length b).
Proof. intros. unfold copy_into. by rewrite length_zeros, take_ge, drop_zeros. Qed.

(** The service node parses a request into the padded message and the block. *)
Lemma ParseForwardPacket_request p surb message :
  pk_Geometry p = Some g -> Payload p = Some (requestBody surb message) ->
  length surb = SURBLength g -> (length message <= user)%nat ->
  ParseForwardPacket p = Ok (copy_into (zeros user) message, Some surb).
Proof.
  intros Hpg Hpl Hs Hm. destruct geometry_fields as (Hu & Hh & Hf & _).
  unfold ParseForwardPacket. rewrite Hpg, Hpl. cbn [deref default from_option]. go. rewrite Hu, Hh, Hf.
  assert (Hb : requestBody surb message = [1; 0] ++ surb ++ copy_into (zeros user) message).
  { unfold requestBody. rewrite !copy_into_zeros by (rewrite ?Hf; golen). rewrite <- !app_assoc. do 3 f_equal.
    f_equal. rewrite Hf. golen. }
  change (id (requestBody surb message)) with (requestBody surb message). rewrite Hb.
  assert (Hl : length ([1; 0] ++ surb ++ copy_into (zeros user) message) = (user + (2 + SURBLength g))%nat) by golen.
  rewrite Hl, bool_decide_eq_true_2, bool_decide_eq_false_2 by (done || lia). cbn [negb app]. cbv [index lookup].
  cbn [list_lookup deref]. go. cbn [Z.eqb negb].
  change (1 :: 0 :: surb ++ ?x) with ([1; 0] ++ surb ++ x).
  rewrite (app_assoc _ surb), slice_from_app by golen. go. rewrite <- app_assoc, slice_mid by golen. cbn [Z.eqb Pos.eqb]. go.
  by rewrite length_copy_into, length_zeros, bool_decide_eq_true_2.
Qed.

(** A packet that ends at a node carries no delay to make up for. *)
Lemma NewDelay_terminal now p : Delay p = 0 -> RecvAt p <= now -> NewDelay now p = 0.
Proof.
  intros Hd Hr. unfold NewDelay. rewrite Hd.
  assert (Hs : 0 <= Sub now (RecvAt p) < 2 ^ 63)
    by (unfold Sub, maxDuration, minDuration; repeat case_bool_decide; lia).
  destruct (Z.eq_dec (Sub now (RecvAt p)) 0) as [->|]; [done|].
  rewrite int64_neg, bool_decide_eq_true_2 by lia. done.
Qed.

(** The packet the agents schedule for a reply. *)
Definition replyPacket (raw first : bytes) (id : Z) : Packet :=
  mkPacket (Some g) raw None (Some (first, zeros MACLength)) (Some 0) None None id 0 zeroTime zeroTime true false.

Lemma NewPacketFromSURB_reply fromPool id surb resp pkt first :
  pooled fromPool -> (length resp <= ForwardPayloadLength g)%nat ->
  length first = NodeIDLength -> length pkt = PacketLength g ->
  SphinxPacket.NewPacketFromSURB g surb (copy_into (zeros (ForwardPayloadLength g)) resp) = Ok (pkt, first) ->
  MixPacket.NewPacketFromSURB nikeKnown kemKnown fromPool id surb resp g = Ok (replyPacket pkt first id).
Proof.
  intros Hp Hl Hf Hpk H. destruct geometry_fields as (_ & _ & _ & Hn). unfold MixPacket.NewPacketFromSURB. cbv zeta.
  replace (if bool_decide (length resp = 0%nat) then _ else _)
    with (Ok (copy_into (zeros (ForwardPayloadLength g)) resp)).
  2: { case_bool_decide as He; [|by rewrite bool_decide_eq_false_2 by lia].
       destruct resp; [|done]. unfold copy_into. rewrite length_zeros. cbn [length]. by rewrite take_nil, drop_0. }
  go. unfold FromGeometry. rewrite Hn, bool_decide_eq_true_2, Hknown by done. go. cbn [geometry]. rewrite H. go.
  rewrite NewWithID_ok by done. go. by rewrite copy_zeros.
Qed.

(** The echo agent answers a request with its message. *)
Lemma echo_replies agents now fromPool id n raw surb message d pkt first :
  agents (padded recipient) = Some Echo_OnRequest -> pooled fromPool -> rn_recv n <= now ->
  length surb = SURBLength g -> (length message <= user)%nat ->
  length first = NodeIDLength -> length pkt = PacketLength g ->
  SphinxPacket.NewPacketFromSURB g surb (copy_into (zeros (ForwardPayloadLength g)) message) = Ok (pkt, first) ->
  processKaetzchen nikeKnown kemKnown g agents now fromPool id
    (arrived (B := B) g n raw (requestBody surb message) (padded recipient) (Some sid) true d) =
  Ok [Schedule (replyPacket pkt first id)].
Proof.
  intros Hag Hp Hnow Hs Hm Hf Hpk H. destruct geometry_fields as (_ & _ & Hfw & _).
  unfold processKaetzchen. erewrite ParseForwardPacket_request by done. cbn [arrived pk_Recipient deref]. go.
  rewrite Hag. cbn [Echo_OnRequest isNil negb].
  rewrite (NewPacketFromSURB_reply _ _ _ _ pkt first); try done.
  2: { rewrite length_copy_into, length_zeros. lia. }
  2: { rewrite <- H. f_equal. rewrite !copy_into_zeros by (rewrite ?copy_into_zeros; golen).
       rewrite <- app_assoc, <- zeros_app. do 2 f_equal. golen. }
  unfold andDispose, Dispose, disposeRaw. cbn [arrived pk_Geometry deref]. go.
  rewrite NewDelay_terminal by done. done.
Qed.

(** The gateway keeps a reply for the client. *)
Lemma gateway_stores GatewayDelay now wtReady stored fromPool id n raw body d :
  Sub now (rn_start n) <= mulDuration GatewayDelay ms ->
  length body = (PayloadTagLength g + ForwardPayloadLength g)%nat ->
  gatewayStep nikeKnown kemKnown g GatewayDelay now wtReady stored fromPool id
    (arrived (B := B) g n raw body (padded queueID) (Some sid) false d) =
  Ok [if wtReady queueID then WebTransportReply queueID body else StoreSURBReply queueID sid body].
Proof.
  intros Hd Hl. unfold gatewayStep, arrived. cbn [DispatchAt]. rewrite bool_decide_eq_false_2 by lia.
  cbn [pk_Recipient deref]. go. change (IsSURBReply _) with true. unfold onSURBReply.
  cbn [Payload default from_option].
  change (Datatypes.id body) with body.
  rewrite Hl, bool_decide_eq_true_2 by done. cbn [negb].
  assert (Hpq : padded queueID = queueID) by (by apply copy_zeros). rewrite !Hpq.
  rewrite copy_zeros by done.
  by destruct (wtReady queueID).
Qed.

(** ** The exchange *)

(** The nodes [ns], of which [n] is the last, are ready to take [pkt] along. *)
Definition line (sks : list nike_PrivateKey) (pkt rcp : bytes) (ns : list (@relayNode N K B)) (n : relayNode)
    : Prop :=
  Forall3 (attends Period) ns sks (packetTags g sks pkt) /\ crew rcp ns /\ last ns = Some n.

(** The identifiers of nodes. *)
Definition idsOf (descs : list MixDescriptor) : list bytes :=
  map (fun v => idHash Sum256 (IdentityKey v)) descs.

(** The scheduled [resp] goes back over [descs]: their nodes, with the keys [sks],
    take it to a gateway, which stores a reply that [k] opens to [message]. *)
Definition comesBack (descs : list MixDescriptor) (sks : list nike_PrivateKey) (k message : bytes) (resp : Packet)
    : Prop :=
  fst <$> pk_NextNodeHop resp = head (idsOf descs) /\
  forall ns n, line sks (Raw resp) queueID ns n -> cfg_IsGatewayNode (rn_cfg n) = true ->
    exists tr q body, relay Period g ns (Raw resp) = Ok (tr, ToGateway q) /\ map fst tr = tail (idsOf descs) /\
      fst (DecryptSURBPayload g body k) = Ok message /\
      forall GatewayDelay now stored fromPool id, Sub now (rn_start n) <= mulDuration GatewayDelay ms ->
        gatewayStep nikeKnown kemKnown g GatewayDelay now (fun _ => false) stored fromPool id q
          = Ok [StoreSURBReply queueID sid body].

(** [pkt] goes out over [descs]: their nodes take it to a service node, whose
    echo agent schedules a reply, without delay, of which [back] holds. *)
Definition goesOut (descs : list MixDescriptor) (sks : list nike_PrivateKey) (pkt : bytes) (back : Packet -> Prop)
    : Prop :=
  forall ns n, line sks pkt (padded recipient) ns n -> cfg_IsGatewayNode (rn_cfg n) = false ->
    exists tr p, relay Period g ns pkt = Ok (tr, ToService p) /\ map fst tr = tail (idsOf descs) /\
      forall ServiceDelay now kaetzchen plugins agents fromPool id,
        Sub now (rn_start n) <= mulDuration ServiceDelay ms -> rn_recv n <= now ->
        padded recipient ∈ kaetzchen -> agents (padded recipient) = Some Echo_OnRequest -> pooled fromPool ->
        serviceStep ServiceDelay now kaetzchen plugins p = Ok [OnKaetzchen p] /\
        exists resp, processKaetzchen nikeKnown kemKnown g agents now fromPool id p = Ok [Schedule resp] /\
          Delay resp = 0 /\ back resp.

Lemma forwards_ids rcp sID isForward d (path : list (@PathHop N K)) ns :
  leg Period rcp sID isForward (route path) d -> length ns = length path ->
  map fst (forwards (B := B) ns (route path)) = tail (map ID path).
Proof.
  revert ns. induction path as [|h path IH]; intros [|n ns] Hl Hn; try done. cbn [route] in *.
  destruct path as [|h' path].
  { cbn [forwards]. by destruct (Commands h) as [|[] [|[]]]. }
  inversion Hl as [|d' id vs dl _ _ Hl' Heq]; subst. cbn [forwards map fst tail]. f_equal.
  injection Hn as Hn. by rewrite IH.
Qed.

Lemma line_length sks pkt rcp ns n : line sks pkt rcp ns n -> length ns = length sks.
Proof. intros [H _]. induction H; cbn; congruence. Qed.

Context (HMP : MuMaxDelay doc * ms <= NumMixKeys * Period).
Context (Hhops : (length (Topology doc) + 2 <= nrHops)%nat).

Lemma reply_comesBack rev finish fin rdescs rsks rnd :
  clientPath g doc gateway service queueID (Some sid) false finish rev fin rdescs rsks -> good_randomness rnd ->
  exists surb k, NewSURB (mkSphinx true false g) rnd rev = Ok (surb, k) /\ length surb = SURBLength g /\
    forall payload, length payload = ForwardPayloadLength g ->
      exists pkt first, SphinxPacket.NewPacketFromSURB g surb payload = Ok (pkt, first) /\
        length pkt = PacketLength g /\ length first = NodeIDLength /\
        forall id, comesBack rdescs rsks k payload (replyPacket pkt first id).
Proof.
  intros Hcr Hrnd. assert (Hpq : padded queueID = queueID) by (by apply copy_zeros).
  destruct (reply_relayed user true nrHops g Hgeo doc gateway service queueID (Some sid) finish HMP
    rev fin rdescs rsks rnd sid Hcr) as (surb & k & Hns & Hsl & Hpay); [done|lia|done|].
  exists surb, k. split_and!; [done..|]. intros payload Hpl.
  destruct (Hpay payload Hpl) as (pkt & first & body & Hfirst & Hfl & Hnp & Hpkl & Hbl & Hdec & Hrel).
  exists pkt, first. split_and!; [done..|]. intros id. split.
  { cbn. unfold idsOf. by rewrite <- (cp_ids _ _ _ _ _ _ _ _ _ _ _ _ Hcr), Hfirst. }
  intros ns n Hline Hgw. pose proof (line_length _ _ _ _ _ Hline) as Hnl. destruct Hline as (Hat & Hcrew & Hlast).
  destruct (Hrel ns) as (n' & raw & d & Hlast' & Hrun); [done|by rewrite Hpq|]. assert (n' = n) as -> by congruence.
  unfold handTo in Hrun. rewrite Hgw in Hrun. eexists _, _, body. split_and!; [exact Hrun| |done|].
  - unfold idsOf. rewrite <- (cp_ids _ _ _ _ _ _ _ _ _ _ _ _ Hcr).
    destruct (cp_leg _ _ _ _ _ _ _ _ _ _ _ _ Hcr HMP) as [d' Hleg]. eapply forwards_ids; [exact Hleg|].
    rewrite Hnl, <- length_route. symmetry. by eapply cp_lengths.
  - intros. by rewrite gateway_stores.
Qed.

Lemma request_goesOut message fwd finish fdescs fsks rnd surb (back : Packet -> Prop) :
  clientPath g doc gateway service recipient (Some sid) true base fwd finish fdescs fsks -> good_randomness rnd ->
  length surb = SURBLength g -> (length message <= user)%nat ->
  (exists pkt first, SphinxPacket.NewPacketFromSURB g surb (copy_into (zeros (ForwardPayloadLength g)) message)
       = Ok (pkt, first) /\ length pkt = PacketLength g /\ length first = NodeIDLength /\
     forall id, back (replyPacket pkt first id)) ->
  exists pkt, NewPacket (mkSphinx true false g) rnd fwd (requestBody surb message) = Ok pkt /\
    length pkt = PacketLength g /\ goesOut fdescs fsks pkt back.
Proof.
  intros Hcf Hrnd Hsl Hm (rpkt & first & Hnp & Hpkl & Hfl & Hbk).
  destruct (packet_relayed user true nrHops g Hgeo doc gateway service recipient (Some sid) base HMP
    fwd finish fdescs fsks rnd (requestBody surb message) Hcf) as (pkt & Hpkt & Hpl & Hrel); [done|done| |].
  { unfold requestBody. by rewrite length_copy_into, length_zeros. }
  exists pkt. split_and!; [done..|]. intros ns n Hline Hgw. pose proof (line_length _ _ _ _ _ Hline) as Hnl.
  destruct Hline as (Hat & Hcrew & Hlast). destruct (Hrel ns) as (n' & raw & d & Hlast' & Hrun); [done..|].
  assert (n' = n) as -> by congruence. unfold handTo in Hrun. rewrite Hgw in Hrun.
  eexists _, _. split_and!; [exact Hrun| |].
  - unfold idsOf. rewrite <- (cp_ids _ _ _ _ _ _ _ _ _ _ _ _ Hcf).
    destruct (cp_leg _ _ _ _ _ _ _ _ _ _ _ _ Hcf HMP) as [d' Hleg]. eapply forwards_ids; [exact Hleg|].
    rewrite Hnl, <- length_route. symmetry. by eapply cp_lengths.
  - intros ServiceDelay now kaetzchen plugins agents fromPool id Hdel Hnow Hk Hag Hpool. split.
    + unfold serviceStep, arrived. cbn [DispatchAt]. rewrite bool_decide_eq_false_2 by lia.
      cbn [pk_Recipient deref]. go. by rewrite bool_decide_eq_true_2.
    + exists (replyPacket rpkt first id). split_and!; [|done..]. by eapply echo_replies.
Qed.

End Compose.

End Paths.


(** ** A concrete exchange *)

Definition echoName : bytes := [101; 99; 104; 111].
Definition echoQueue : bytes := replicate 32 9.
Definition echoSid : bytes := replicate 16 6.
Definition echoMessage : bytes := [104; 105].

Definition netAttempt : @Attempt toyNike toyKem :=
  @mkAttempt toyNike toyKem false 1735689600 (Some (idHash toySum (IdentityKey netGateway))) (fun _ => Some netDocument)
    (fun _ => mkMathRand netIntn netExp) 0 toyRnd toyRnd.

Definition echoRequest : SendMessage :=
  mkSendMessage true (Some echoSid) (Some (idHash toySum (IdentityKey netService))) echoName echoMessage.

Definition echoCompose : outcome (bytes * bytes * Z) :=
  ComposeSphinxPacket (N := toyNike) (K := toyKem) toySum defaultPeriod anyName anyName noKemKeys toySphinx toyGeo
    (Some echoQueue) (fun _ => netAttempt) (Some echoRequest).

(** The node of a descriptor, up when the packet leaves. *)
Definition netRelay (v : MixDescriptor) (client : bool) : @relayNode toyNike toyKem toyBloom :=
  let sk := netKey v 199512 in
  @mkRelay toyNike toyKem toyBloom (mkNodeConfig (IsGatewayNode v) (IsServiceNode v) 100 [])
    (mkConn client 0 0 0 0 0) newPacket 7
    [@mkMixKey toyNike toyKem toyBloom (Some sk) (Some (nike_Public (Nike := toyNike) sk)) None 199512 [] 1 true]
    {[ 199512 := 0%nat ]} netBase netBase netBase.

Definition netMix1 : MixDescriptor := netNode "mix1" 3 false false.
Definition netMix3 : MixDescriptor := netNode "mix3" 7 false false.

(** The exchange, run: compose, relay, serve, relay, store, open. *)
Definition echoRun : outcome (list (bytes * Z) * list (bytes * Z) * bytes) :=
  '(pkt, k, _) ← echoCompose;
  '(tr, a) ← relay defaultPeriod toyGeo
               [netRelay netGateway true; netRelay netMix1 false; netRelay netMix3 false; netRelay netService false] pkt;
  match a with
  | ToService p =>
    es ← serviceStep 100 netBase {[ padded echoName ]} ∅ p;
    match es with
    | [OnKaetzchen p] =>
      es ← processKaetzchen anyName anyName toyGeo (fun _ => Some Echo_OnRequest) netBase newPacket 8 p;
      match es with
      | [Schedule resp] =>
        '(tr', a) ← relay defaultPeriod toyGeo
                      [netRelay netMix1 false; netRelay netMix3 false; netRelay netGateway false] (Raw resp);
        match a with
        | ToGateway q =>
          es ← gatewayStep anyName anyName toyGeo 100 netBase (fun _ => false) true newPacket 9 q;
          match es with
          | [StoreSURBReply _ _ body] => m ← fst (DecryptSURBPayload toyGeo body k); Ok (tr, tr', m)
          | _ => Err "not stored"
          end
        | _ => Err "reply lost"
        end
      | _ => Err "no reply"
      end
    | _ => Err "not served"
    end
  | _ => Err "request lost"
  end.

Definition delaysOf (r : list (bytes * Z) * list (bytes * Z) * bytes) : list Z * list Z * bytes :=
  (map snd (fst (fst r)), map snd (snd (fst r)), snd r).

Example echo_run :
  delaysOf <$> echoRun =
  Ok ([901 * ms; 1000 * ms; 1000 * ms], [901 * ms; 1000 * ms], copy_into (zeros (ForwardPayloadLength toyGeo)) echoMessage).
Proof. vm_compute. reflexivity. Qed.

Lemma net_connected : connected (N := toyNike) (K := toyKem) toySum defaultPeriod netAttempt netDocument netGateway.
Proof.
  split; [reflexivity|reflexivity|reflexivity|intros f k n; apply netIntn_lt|apply toyRnd_good|apply toyRnd_good|].
  intros e el till H. vm_compute in H. injection H as <- <- <-. vm_compute. discriminate.
Qed.

(** The epoch lasts until a reply is back. *)
Lemma net_return_epoch t e :
  netBase <= t <= returnBy netDocument netBase -> in_epoch defaultPeriod e t -> e = 199512.
Proof.
  intros Ht He. unfold in_epoch in He.
  assert (D : 1735689600 <= t / second <= 1735689608).
  { split; [apply Z.div_le_lower_bound|apply Z.lt_succ_r, Z.div_lt_upper_bound];
      try reflexivity; revert Ht; cbv [netBase returnBy deadline netDocument bareDocument Topology MuMaxDelay length
      millisecond second Z.of_nat]; lia. }
  revert He. cbv [Epoch defaultPeriod second minute]. unfold second in D. lia.
Qed.


(** ** Messages without a reply block *)

(** A message sent without a reply block is lost.  [ComposeSphinxPacket] puts
    it at the start of the payload, where [ParseForwardPacket] expects flags and
    the space of a reply block: a message of at most that size either fails to
    parse, always when its second byte is not zero, or is read as zeros. *)
Theorem plain_message_lost nike user nrHops g p message :
  GeometryFromUserForwardPayloadLength nike user true nrHops = Ok g ->
  pk_Geometry p = Some g -> Payload p = Some (plainBody g message) ->
  (length message <= 2 + SURBLength g)%nat -> (length message <= UserForwardPayloadLength g)%nat ->
  (forall ct surb, ParseForwardPacket p = Ok (ct, surb) -> ct = zeros (UserForwardPayloadLength g)) /\
  (forall b, message !! 1%nat = Some b -> b <> 0 -> ParseForwardPacket p = Err "invalid message reserved").
Proof.
  intros Hgeo Hpg Hpl Hm Hmu.
  destruct (GeometryFromUserForwardPayloadLength_ok nike user true nrHops)
    as (g' & Hg & _ & _ & _ & _ & _ & _ & _ & _ & Hu & Hh & Hf & _ & _).
  assert (g' = g) as -> by congruence. change sphinxPlaintextHeaderLength with 2%nat in Hh. rewrite Hh in Hf.
  assert (Hb : plainBody g message = message ++ zeros (ForwardPayloadLength g - length message)).
  { unfold plainBody. rewrite !copy_into_zeros by (rewrite ?copy_into_zeros; golen).
    rewrite <- app_assoc, <- zeros_app. do 2 f_equal. golen. }
  assert (Hl : length (plainBody g message) = ForwardPayloadLength g) by (unfold plainBody; golen).
  unfold ParseForwardPacket. rewrite Hpg, Hpl. cbn [deref default from_option]. go.
  change (Datatypes.id (plainBody g message)) with (plainBody g message).
  rewrite Hl, Hh, bool_decide_eq_true_2, bool_decide_eq_false_2 by (done || lia). cbn [negb]. split.
  - intros ct surb H. go_inv H. destruct (negb _); [done|]. go_inv H. go_inv H. go_inv H.
    destruct (negb _); [done|]. injection H as <- <-. rewrite slice_from_cut in E0 by lia. injection E0 as <-.
    rewrite Hb, drop_app_ge, drop_zeros by done. f_equal. lia.
  - intros b Hb1 Hne. unfold index. rewrite Hb.
    rewrite (lookup_app_l_Some _ _ _ _ Hb1). cbn [deref]. go.
    by destruct (Z.eqb_spec b 0).
Qed.

Definition plainPacket : Packet :=
  set_Payload (Some (plainBody toyGeo echoMessage)) (mkPacket (Some toyGeo) [] None None None None None 0 0 0 0 false false).

Lemma plain_message_lost_witness : ParseForwardPacket plainPacket = Err "invalid message reserved".
Proof.
  destruct (plain_message_lost toyNike 10 4 toyGeo plainPacket echoMessage) as [_ H].
  - reflexivity.
  - reflexivity.
  - reflexivity.
  - apply (bool_decide_unpack _). vm_compute. exact I.
  - apply (bool_decide_unpack _). vm_compute. exact I.
  - apply (H 105); [reflexivity|discriminate].
Defined.
